(* ===== verification/_CoqProject ===== *)
-Q . S2P
Prelude.v
Printf.v
Buffer.v
Callbacks.v
Channel.v
Poller.v
EPoller.v
Demultiplexer.v
LogStream.v
LogFile.v
AsyncLogging.v
Logging.v
Atomic.v
Timestamp.v
TimerQueue.v
EventLoop.v
Sockets.v
TcpConnection.v
EventLoopThreadPool.v
Acceptor.v
Rounds.v
TcpServer.v
Connector.v
TcpClient.v
Sync.v
CountDownLatch.v
LogThread.v
Threads.v
Mutex.v
EventLoopThread.v
ServerLoop.v
Teardown.v
Program.v
