(* ===== verification/Prelude.v ===== *)
(** * muduo_cpp11_std: a verification library

    The program is a C++ network library of the "one loop per thread" kind, with
    an asynchronous logger.  An [EventLoop] polls descriptors through a [Poller]
    and dispatches what happened to [Channel]s; it runs timers ([TimerQueue],
    itself a channel on a timerfd) and functors queued by other threads, which
    wake it up through an eventfd.  On it stand an [Acceptor] with a
    [TcpServer], a [Connector] with a [TcpClient], and the [TcpConnection]s
    both create; a connection buffers bytes in [Buffer]s.  The logger formats a
    line in a [LogStream]; [AsyncLogging] hands filled buffers to a thread that
    appends them to a [LogFile].  Threads, mutexes and condition
    variables exist twice, for the library and for the logger.

    ** Files

    Names keep the source's; files under src/muduo/ are given without it.

    - this file: faults, the state-and-error monad [M], lenses between a state
      and its parts, machine integers, shared lemmas and tactics;
    - Printf: decimal conversions of snprintf, with their inverses;
    - Buffer (Buffer.h, .cpp): the byte queue, over an abstract queue of bytes;
    - Callbacks (Callbacks.h): the function values, one constructor per
      std::bind or lambda of the program;
    - Channel (Channel.h, .cpp), Poller (Poll.h, .cpp), EPoller (EPoll.h, .cpp):
      descriptors and their multiplexing; Demultiplexer is the interface that
      both pollers implement, a class of operations with their laws;
    - Timestamp (TimeStamp.h, .cpp), TimerQueue (TimerQueue.h, .cpp, Timer.h,
      .cpp, TimerId.h), EventLoop (EventLoop.h, .cpp and the calls of
      Channel.cpp into the loop);
    - Sockets (SocketsOps, net/Socket, net/InetAddress, .h and .cpp);
    - TcpConnection, Acceptor, TcpServer, Connector, TcpClient (net/),
      EventLoopThreadPool;
    - LogStream (log/base/LogStream, the message of Logging), LogFile (LogFile,
      FileUtil), AsyncLogging, Logging (the rest of log/base/Logging: the time
      of a message and the logger of the process);
    - Atomic (thread/Atomic.h); Sync, the machine that interleaves the programs
      of several threads; CountDownLatch, LogThread (log/base/Thread,
      CurrentThread.h), Threads (thread/), Mutex (the guard of thread/Mutex.h),
      EventLoopThread;
    - Rounds: what EventLoop::loop needs of a program in any number of rounds,
      a class whose instances are programs; ServerLoop: a TcpServer with
      connections, in the loop; Program: a server and a client from their
      constructors on; Teardown: the destructors of EventLoop, TimerQueue and
      TcpServer with their members.

    ** How the code is modelled

    A call is a function of the monad [M S]: it takes the state, and returns a
    value and the new state, or a fault (a failed assertion, a null or dangling
    pointer, an access out of bounds, signed overflow, an exception).  Objects
    that are shared or outlive a call live in heaps, maps from their addresses,
    so that a use after the end of an object is the fault [DanglingPtr].  A
    connection ends with its last [shared_ptr]: those of the server's map, of
    the functors pending or in the vector being run, of running handlers and of
    the client's program.
    Components are written over any state that contains them ([Lens]), and the
    effect of a function value is an argument, so that a handler can be composed
    with whatever the client's callbacks do.  Integers are Z with the source's
    width: unsigned ones wrap, signed overflow is a fault.

    Code with several threads is a program ([Sync.prog]) per thread; [Sync.step]
    lets any thread that can go on make a step, and wakes sleepers spuriously.

    ** What the theorems show

    - Data: every operation of [Buffer] refines one on a queue of bytes, with
      the faults it can have; [convert] prints the decimal digits of a number,
      [LogStream] never leaves its buffer, addresses round trip, delays
      are computed without overflow.
    - Pollers: [poll] activates exactly the channels that are ready; both
      implementations of the interface keep the watched set, and agree on it.
    - Loop: a channel's event runs the callbacks of its mask, functors run once
      and in the order they were queued, timers refine an abstract set of
      pending timers and fire once due; what a callback may cancel.
    - Connections: the bytes sent are the ones written, in order; the four
      states follow each other; [shutdown] waits for the backlog; the server
      keeps one connection per name and gives it up at the end; the client's
      connector backs off with doubling delays.
    - Composition: a server in its loop survives whatever the kernel reports in
      any number of rounds, and the loop ends exactly after a quit.
    - Whole programs: the server a client program constructs and starts never
      accepts a connection, and the client it constructs and connects never has
      one, because of a read mask that is zero and of callbacks that are never
      stored; that is why the theorems on connections start from states that
      [newConnection] itself produces.
    - Ends: the destructor of a loop frees its timers and its channels; that of
      a server leaves dead channels in the poller.
    - Logger: the threads of the process create one back end; lines reach the
      file in order, within a bounded number of steps of the logging thread, and
      none is lost outside an overload or a stop; a stop ends the thread; no
      statement is blocked for good.
    - Threads: the mutex with its holder, the latch, the start and join of a
      thread and the life of an [EventLoopThread] are safe, and end within a
      bound, in every interleaving; a stop that is too early is lost.

    Where the code does not do what it means to, the theorem states what it
    does, and its comment says so.

    ** Bounds and fuel

    [convert_loop] and the write loop of [AppendFile] take as fuel the digits a
    value has and the bytes left; both are proved to need no more.  The loop
    reads a finite list of inputs (what other threads do before a poll, what
    the poll reports), so it is a recursion on it: theorems hold for every list.
    Nested calls of callbacks go through an explicit dispatch, not through fuel.
    The theorems on threads quantify over every schedule; a measure that each
    step decreases bounds its length, where spurious wake-ups are counted
    in the bound.  Those of the fixed programs ([LogThread], [EventLoopThread])
    check a finite set of shapes of the state by evaluation; those of [Logging]
    and [AsyncLogging] hold for every sequence of events.  [serving]
    (TcpServer) carries a budget of bytes a connection's buffer may still
    receive, which keeps sizes below PTRDIFF_MAX.

    ** Parameters

    What is not under src/ is an argument, with its documented behaviour as a
    named hypothesis: the kernel's answers (an oracle read by the socket calls,
    the list of ready descriptors of poll), inet_ntop and inet_pton
    ([Sockets.InetLaws]), the addresses of new objects (fresh), the clock, the
    broken-down local time, the text of the floating-point conversion (of
    bounded length), the file that a name denotes,
    fwrite_unlocked (may write less than asked), the client's callbacks and the
    functions of threads.  The witnesses instantiate them.

    ** Not modelled

    The assertions on constants, log lines of the library itself, the code for
    FreeBSD, rollFile (never defined), noncopyable, and the test programs.  In
    [AsyncLogging] the timed wait of the thread may end at any time.  [EventLoop]
    calls are those of one thread, with other threads' calls placed between its
    rounds.  A server whose connections run on several modelled loops is not
    composed: what it queues to another loop is an argument, and no server of
    this program gets there, since its thread pool is never constructed. *)

From Stdlib Require Export ZArith Lia Strings.Byte.
From Stdlib Require Import String.
From stdpp Require Export base numbers list gmap strings sorting relations.

#[export] Set Default Goal Selector "!".
Open Scope Z_scope.

(** ** Faults: the ways a call of the modelled program can stop abnormally *)

Inductive fault : Set :=
  | AssertFailed        (* a C [assert] evaluated to false *)
  | NullDeref           (* a member access through a null pointer *)
  | DanglingPtr         (* a member access through a freed object *)
  | OutOfBounds         (* a memory access outside its object *)
  | SignedOverflow      (* signed integer overflow or float-to-int overflow *)
  | LengthError         (* std::length_error from std::vector *)
  | BadFunctionCall     (* std::bad_function_call: an empty std::function called *)
  | BadAlloc            (* std::bad_alloc: no such memory to allocate *)
  | Aborted             (* abort() *)
  | NotOwner            (* a mutex released by a thread that does not hold it *)
  | OutOfFuel.          (* the bound on the rounds of a loop was exhausted *)

#[export] Instance fault_eq_dec : EqDecision fault.
Proof. solve_decision. Defined.

Inductive res (A : Type) : Type :=
  | Ok (a : A)
  | Err (f : fault).
Arguments Ok {A} a.
Arguments Err {A} f.

#[export] Instance res_ret : MRet res := @Ok.
#[export] Instance res_bind : MBind res := λ A B k m,
  match m with Ok a => k a | Err f => Err f end.

#[export] Instance res_eq_dec `{EqDecision A} : EqDecision (res A).
Proof. solve_decision. Defined.

(** ** The state and error monad of the stateful code *)

Definition M (S A : Type) : Type := S → res (A * S).

#[export] Instance M_ret {S} : MRet (M S) := λ A a s, Ok (a, s).
#[export] Instance M_bind {S} : MBind (M S) := λ A B k m s,
  match m s with Ok (a, s') => k a s' | Err f => Err f end.

Section monad_ops.
Context {S : Type}.

Definition get : M S S := λ s, Ok (s, s).
Definition gets {A} (f : S → A) : M S A := λ s, Ok (f s, s).
Definition put (s : S) : M S unit := λ _, Ok (tt, s).
Definition modify (f : S → S) : M S unit := λ s, Ok (tt, f s).
Definition fail {A} (f : fault) : M S A := λ _, Err f.
Definition assert_ (b : bool) : M S unit := λ s, if b then Ok (tt, s) else Err AssertFailed.
Definition when_ (b : bool) (m : M S unit) : M S unit := if b then m else mret ().
Definition lift {A} (r : res A) : M S A :=
  λ s, match r with Ok a => Ok (a, s) | Err f => Err f end.
(** Dereferencing a pointer: [None] is the given fault. *)
Definition deref {A} (f : fault) (o : option A) : M S A :=
  match o with Some a => mret a | None => fail f end.

Fixpoint for_each {A} (f : A → M S unit) (l : list A) : M S unit :=
  match l with
  | [] => mret ()
  | x :: l' => f x ;; for_each f l'
  end.
End monad_ops.

(** ** Hoare triples: the command does not fault and ends in [Q] *)

Definition hoare {S A} (P : S → Prop) (m : M S A) (Q : A → S → Prop) : Prop :=
  ∀ s, P s → ∃ a s', m s = Ok (a, s') ∧ Q a s'.

Section hoare_rules.
Context {S : Type}.
Implicit Types P : S → Prop.

Lemma hoare_ret {A} (a : A) P (Q : A → S → Prop) :
  (∀ s, P s → Q a s) → hoare P (mret a) Q.
Proof. intros H s Hs. exists a, s. split; [reflexivity | auto]. Qed.

Lemma hoare_bind {A B} (m : M S A) (k : A → M S B) P R Q :
  hoare P m R → (∀ a, hoare (R a) (k a) Q) → hoare P (m ≫= k) Q.
Proof.
  intros Hm Hk s Hs. destruct (Hm s Hs) as (a & s1 & E1 & H1).
  destruct (Hk a s1 H1) as (b & s2 & E2 & H2).
  exists b, s2. unfold mbind, M_bind. rewrite E1. auto.
Qed.

Lemma hoare_weaken {A} (m : M S A) P P' (Q Q' : A → S → Prop) :
  hoare P m Q → (∀ s, P' s → P s) → (∀ a s, Q a s → Q' a s) → hoare P' m Q'.
Proof. intros H HP HQ s Hs. destruct (H s (HP s Hs)) as (a & s' & E & HQ'). eauto 6. Qed.

Lemma hoare_modify (f : S → S) P (Q : unit → S → Prop) :
  (∀ s, P s → Q tt (f s)) → hoare P (modify f) Q.
Proof. intros H s Hs. exists tt, (f s). split; [reflexivity | auto]. Qed.

Lemma hoare_assert (b : bool) P (Q : unit → S → Prop) :
  (∀ s, P s → b = true ∧ Q tt s) → hoare P (assert_ b) Q.
Proof.
  intros H s Hs. destruct (H s Hs) as [-> ?]. exists tt, s. split; [reflexivity | auto].
Qed.

Lemma hoare_for_each {A} (f : A → M S unit) (I : S → Prop) l :
  (∀ x, x ∈ l → hoare I (f x) (λ _, I)) → hoare I (for_each f l) (λ _, I).
Proof.
  induction l as [|x l IH]; intros H; simpl.
  - by apply hoare_ret.
  - apply hoare_bind with (R := λ _, I).
    + apply H. left.
    + intros []. apply IH. intros y Hy. apply H. by right.
Qed.
End hoare_rules.

(** ** The same up to an allowed set of faults *)

Definition upto {S A} (allow : fault → Prop) (P : S → Prop) (m : M S A) (Q : A → S → Prop) : Prop :=
  ∀ s, P s → match m s with Ok (a, s') => Q a s' | Err f => allow f end.

Section upto_rules.
Context {S : Type} (allow : fault → Prop).
Implicit Types P : S → Prop.

Lemma upto_ret {A} (a : A) P (Q : A → S → Prop) :
  (∀ s, P s → Q a s) → upto allow P (mret a) Q.
Proof. intros H s Hs. by apply H. Qed.

Lemma upto_bind {A B} (m : M S A) (k : A → M S B) P R Q :
  upto allow P m R → (∀ a, upto allow (R a) (k a) Q) → upto allow P (m ≫= k) Q.
Proof.
  intros Hm Hk s Hs. specialize (Hm s Hs). unfold mbind, M_bind.
  destruct (m s) as [[a s1]|f]; [|done]. by apply Hk.
Qed.

Lemma upto_weaken {A} (m : M S A) P P' (Q Q' : A → S → Prop) :
  upto allow P m Q → (∀ s, P' s → P s) → (∀ a s, Q a s → Q' a s) → upto allow P' m Q'.
Proof.
  intros H HP HQ s Hs. specialize (H s (HP s Hs)). destruct (m s) as [[a s1]|f]; auto.
Qed.

Lemma upto_modify (f : S → S) P (Q : unit → S → Prop) :
  (∀ s, P s → Q tt (f s)) → upto allow P (modify f) Q.
Proof. intros H s Hs. by apply H. Qed.

Lemma upto_for_each {A} (f : A → M S unit) (I : list A → S → Prop) l :
  (∀ x l', upto allow (I (x :: l')) (f x) (λ _, I l')) →
  upto allow (I l) (for_each f l) (λ _, I []).
Proof.
  intros H. induction l as [|x l IH]; simpl.
  - by apply upto_ret.
  - eapply upto_bind; [apply H|]. intros []. apply IH.
Qed.

Lemma hoare_upto {A} P (m : M S A) Q : hoare P m Q → upto allow P m Q.
Proof. intros H s Hs. by destruct (H s Hs) as (a & s' & -> & ?). Qed.
End upto_rules.

(** Unfolding a monadic equation [m >>= k = Ok _] step by step. *)
Lemma bind_Ok {S A B} (m : M S A) (k : A → M S B) s b s' :
  (m ≫= k) s = Ok (b, s') ↔ ∃ a s1, m s = Ok (a, s1) ∧ k a s1 = Ok (b, s').
Proof.
  unfold mbind, M_bind. destruct (m s) as [[a s1]|f]; split.
  - eauto.
  - intros (? & ? & [= <- <-] & H). exact H.
  - discriminate.
  - intros (? & ? & [=] & _).
Qed.

Lemma bind_unfold {S A B} (m : M S A) (k : A → M S B) s :
  (m ≫= k) s = match m s with Ok (a, s') => k a s' | Err f => Err f end.
Proof. done. Qed.

Lemma bind_step {S A B} (m : M S A) (k : A → M S B) s a s1 :
  m s = Ok (a, s1) → (m ≫= k) s = k a s1.
Proof. intros H. unfold mbind, M_bind. by rewrite H. Qed.

Lemma bind_err {S A B} (m : M S A) (k : A → M S B) s f :
  m s = Err f → (m ≫= k) s = Err f.
Proof. intros H. unfold mbind, M_bind. by rewrite H. Qed.

Lemma for_each_app {S A} (f : A → M S unit) l1 l2 s :
  for_each f (l1 ++ l2) s = (for_each f l1 ;; for_each f l2) s.
Proof.
  revert s. induction l1 as [|x l1 IH]; intros s; simpl; [done|].
  unfold mbind, M_bind in *. destruct (f x s) as [[[] s']|]; [|done]. apply IH.
Qed.

Lemma deref_inv {S A} f (o : option A) (s s' : S) a :
  deref f o s = Ok (a, s') → o = Some a ∧ s' = s.
Proof. destruct o; simpl; [by intros [= <- <-]|done]. Qed.

(** [minv H]: inverts a successful sequence [H : m s = Ok _] into its steps,
    solving the primitive ones. *)
Ltac minv_prim E :=
  lazymatch type of E with
  | get _ = _ => unfold get in E; simplify_eq/=
  | gets _ _ = _ => unfold gets in E; simplify_eq/=
  | put _ _ = _ => unfold put in E; simplify_eq/=
  | modify _ _ = _ => unfold modify in E; simplify_eq/=
  | mret _ _ = _ => unfold mret, M_ret in E; simplify_eq/=
  | M_ret _ _ _ = _ => unfold M_ret in E; simplify_eq/=
  | fail _ _ = _ => discriminate E
  | deref _ _ _ = _ => apply deref_inv in E as [? ->]
  | assert_ ?b _ = _ => unfold assert_ in E; destruct b eqn:?; simplify_eq/=
  | lift ?r _ = _ => unfold lift in E; destruct r eqn:?; simplify_eq/=
  end.
Ltac minv H :=
  repeat (apply bind_Ok in H;
          let a := fresh "a" in let s := fresh "s" in let E := fresh "E" in
          destruct H as (a & s & E & H); simpl in E, H; try minv_prim E);
  try minv_prim H.

(** [mstep]: evaluates the first command of the sequence in the goal. *)
Ltac mstep := erewrite bind_step by (eassumption || reflexivity); simpl.

(** [mstep_by tac]: the same, with the first command's equation proved by [tac]. *)
Tactic Notation "mstep_by" tactic3(tac) := erewrite bind_step by tac; simpl.

(** ** Components of a larger state

    The code of a component that calls back into the rest of the program is
    written over any state [S] that contains the component's own. *)

Class Lens (S C : Type) := { lget : S → C; lset : C → S → S }.

Definition zoom {S C A} `{Lens S C} (m : M C A) : M S A :=
  λ s, match m (lget s) with Ok (a, c) => Ok (a, lset c s) | Err f => Err f end.

(** The state that is the component alone. *)
Definition lens_id {C} : Lens C C := {| lget := id; lset := λ c _, c |}.

Lemma zoom_id {C A} (m : M C A) s : @zoom C C A lens_id m s = m s.
Proof. unfold zoom. simpl. by destruct (m s) as [[a c]|]. Qed.

(** What a component may be read and written like: the laws of [Lens]. *)
Class LensLaws (S C : Type) `{Lens S C} : Prop := {
  lget_lset c s : lget (lset c s) = c;
  lset_lget s : lset (lget s) s = s;
  lset_lset c c' s : lset c (lset c' s) = lset c s;
}.

Lemma zoom_ok {S C A} `{Lens S C} (m : M C A) s a c :
  m (lget s) = Ok (a, c) → zoom m s = Ok (a, lset c s).
Proof. intros E. unfold zoom. by rewrite E. Qed.

#[export] Instance lens_id_laws {C} : @LensLaws C C lens_id.
Proof. by split. Qed.

(** ** Machine integers *)

Definition wrap_u (w z : Z) : Z := z mod 2 ^ w.
Definition wrap_s (w z : Z) : Z := (z + 2 ^ (w - 1)) mod 2 ^ w - 2 ^ (w - 1).

Abbreviation u64 := (wrap_u 64).
Abbreviation u32 := (wrap_u 32).
Abbreviation u16 := (wrap_u 16).
Abbreviation i64 := (wrap_s 64).
Abbreviation i32 := (wrap_s 32).
Abbreviation i16 := (wrap_s 16).

(** [static_cast<size_t>] of the values a vector can hold never wraps:
    [PTRDIFF_MAX] bounds the size of an object. *)
Definition PTRDIFF_MAX : Z := 2 ^ 63 - 1.

Lemma wrap_u_small w z : 0 ≤ z < 2 ^ w → wrap_u w z = z.
Proof. apply Z.mod_small. Qed.

Lemma wrap_u_range w z : 0 ≤ w → 0 ≤ wrap_u w z < 2 ^ w.
Proof. intros. apply Z.mod_pos_bound. by apply Z.pow_pos_nonneg. Qed.

Lemma wrap_s_small w z : 0 < w → - 2 ^ (w - 1) ≤ z < 2 ^ (w - 1) → wrap_s w z = z.
Proof.
  intros Hw Hz. unfold wrap_s.
  assert (2 ^ w = 2 * 2 ^ (w - 1)) as E.
  { rewrite <- Z.pow_succ_r by lia. f_equal. lia. }
  rewrite Z.mod_small; lia.
Qed.

Lemma wrap_s_range w z : 0 < w → - 2 ^ (w - 1) ≤ wrap_s w z < 2 ^ (w - 1).
Proof.
  intros Hw. unfold wrap_s.
  assert (2 ^ w = 2 * 2 ^ (w - 1)) as E.
  { rewrite <- Z.pow_succ_r by lia. f_equal. lia. }
  pose proof (Z.mod_pos_bound (z + 2 ^ (w - 1)) (2 ^ w)).
  assert (0 < 2 ^ (w - 1)) by (apply Z.pow_pos_nonneg; lia). lia.
Qed.

Lemma i16_small z : - 2 ^ 15 ≤ z < 2 ^ 15 → i16 z = z.
Proof. intros. by apply wrap_s_small. Qed.
Lemma i32_small z : - 2 ^ 31 ≤ z < 2 ^ 31 → i32 z = z.
Proof. intros. by apply wrap_s_small. Qed.
Lemma i64_small z : - 2 ^ 63 ≤ z < 2 ^ 63 → i64 z = z.
Proof. intros. by apply wrap_s_small. Qed.

(** [in_s w z]: [z] is representable in a signed [w]-bit integer. *)
Definition in_s (w z : Z) : bool := (- 2 ^ (w - 1) <=? z) && (z <? 2 ^ (w - 1)).

(** Signed arithmetic on [int]: out of range it is undefined. *)
Definition checked_i32 (z : Z) : res Z := if in_s 32 z then Ok z else Err SignedOverflow.

Lemma checked_i32_ok z : - 2 ^ 31 ≤ z < 2 ^ 31 → checked_i32 z = Ok z.
Proof.
  intros. unfold checked_i32, in_s. change (32 - 1) with 31.
  rewrite (proj2 (Z.leb_le _ _)), (proj2 (Z.ltb_lt _ _)) by lia. done.
Qed.

(** ** Lists *)

Section lists.
Context {A : Type}.
Implicit Types l : list A.

(** [sub off n l]: the [n] elements of [l] from index [off]. *)
Definition sub (off n : nat) l : list A := take n (drop off l).
(** [blit off src l]: [l] with [src] written from index [off]. *)
Definition blit (off : nat) (src : list A) l : list A :=
  take off l ++ src ++ drop (off + length src) l.

Lemma length_sub off n l : (off + n <= length l)%nat → length (sub off n l) = n.
Proof. intros. unfold sub. rewrite length_take, length_drop. lia. Qed.

Lemma length_blit off src l :
  (off + length src <= length l)%nat → length (blit off src l) = length l.
Proof.
  intros. unfold blit. rewrite !length_app, length_take, length_drop. lia.
Qed.

Lemma sub_0 off l : sub off 0 l = [].
Proof. done. Qed.

Lemma sub_split off n m l : sub off (n + m) l = sub off n l ++ sub (off + n) m l.
Proof. unfold sub. by rewrite <- take_take_drop, drop_drop. Qed.

Lemma drop_sub k off n l : drop k (sub off n l) = sub (off + k) (n - k) l.
Proof. unfold sub. by rewrite skipn_firstn_comm, drop_drop. Qed.

Lemma sub_full l : sub 0 (length l) l = l.
Proof. unfold sub. simpl. rewrite drop_0. by apply take_ge. Qed.

Lemma sub_app_l off n l k : (off + n <= length l)%nat → sub off n (l ++ k) = sub off n l.
Proof.
  intros. unfold sub. rewrite drop_app_le by lia. rewrite take_app_le; [done|].
  rewrite length_drop. lia.
Qed.

Lemma sub_app_r off n l k :
  (length l <= off)%nat → sub off n (l ++ k) = sub (off - length l) n k.
Proof. intros. unfold sub. by rewrite drop_app_ge. Qed.

(** Reading back exactly what was written. *)
Lemma sub_blit_same off src l :
  (off <= length l)%nat → sub off (length src) (blit off src l) = src.
Proof.
  intros. unfold blit. rewrite sub_app_r; rewrite length_take; [|lia].
  replace (off - off `min` length l)%nat with 0%nat by lia.
  rewrite sub_app_l by lia. apply sub_full.
Qed.

(** Reading above a write. *)
Lemma sub_blit_after off n w src l :
  (w + length src <= off)%nat → (off <= length l)%nat → sub off n (blit w src l) = sub off n l.
Proof.
  intros. unfold blit. rewrite app_assoc, sub_app_r;
    rewrite length_app, length_take; [|lia].
  unfold sub. rewrite drop_drop. do 2 f_equal. lia.
Qed.

(** Reading below a write. *)
Lemma sub_blit_before off n w src l :
  (off + n <= w)%nat → (w <= length l)%nat → sub off n (blit w src l) = sub off n l.
Proof.
  intros. unfold blit. rewrite sub_app_l by (rewrite length_take; lia).
  unfold sub. rewrite skipn_firstn_comm, take_take. by rewrite Nat.min_l by lia.
Qed.
End lists.

Lemma elem_of_insert_inv {A} (l : list A) i x y : x ∈ <[i := y]> l → x = y ∨ x ∈ l.
Proof.
  intros [j Hj]%list_elem_of_lookup. apply list_lookup_insert_Some in Hj as [(_ & -> & _)|[_ Hj]].
  - by left.
  - right. by eapply list_elem_of_lookup_2.
Qed.

(** [std::vector::resize]: truncates, or extends with the given value. *)
Definition vresize {A} (n : nat) (d : A) (l : list A) : list A :=
  take n l ++ replicate (n - length l) d.

Lemma length_vresize {A} n (d : A) l : length (vresize n d l) = n.
Proof. unfold vresize. rewrite length_app, length_take, length_replicate. lia. Qed.

Lemma sub_vresize {A} off n m (d : A) l :
  (off + n <= length l)%nat → (off + n <= m)%nat → sub off n (vresize m d l) = sub off n l.
Proof.
  intros. unfold vresize. rewrite sub_app_l by (rewrite length_take; lia).
  unfold sub. rewrite skipn_firstn_comm, take_take. by rewrite Nat.min_l by lia.
Qed.

(** A witness for each element of a list, in a list of pairs. *)
Lemma list_witnesses {A B} (P : A → B → Prop) (l : list A) :
  (∀ x, x ∈ l → ∃ y, P x y) → ∃ k, k.*1 = l ∧ Forall (λ e, P e.1 e.2) k.
Proof.
  induction l as [|x l IH]; intros H; [by exists []|].
  destruct (H x) as [y Hy]; [by left|]. destruct IH as (k & <- & Hk); [intros z Hz; apply H; by right|].
  exists ((x, y) :: k). split; [done|]. by constructor.
Qed.

(** ** Bytes and character data *)

Abbreviation byte := Byte.byte.
Abbreviation bytes := (list Byte.byte).

#[export] Instance byte_eq_dec : EqDecision Byte.byte := Byte.byte_eq_dec.

#[export] Program Instance byte_countable : Countable Byte.byte :=
  inj_countable Byte.to_N Byte.of_N Byte.of_to_N.

(** The bytes of a string literal. *)
Definition str (s : string) : bytes := String.list_byte_of_string s.

(** ** Sizes and memory as integers *)

Definition zlen {A} (l : list A) : Z := Z.of_nat (length l).

Lemma zlen_nonneg {A} (l : list A) : 0 ≤ zlen l.
Proof. unfold zlen. lia. Qed.

Lemma zlen_app {A} (l k : list A) : zlen (l ++ k) = zlen l + zlen k.
Proof. unfold zlen. rewrite length_app. lia. Qed.

Lemma zlen_nil {A} : zlen (@nil A) = 0.
Proof. done. Qed.

Lemma zlen_cons {A} (x : A) l : zlen (x :: l) = 1 + zlen l.
Proof. unfold zlen. simpl. lia. Qed.

Lemma to_nat_zlen {A} (l : list A) : Z.to_nat (zlen l) = length l.
Proof. unfold zlen. lia. Qed.

Lemma take_zlen_app {A} (l k : list A) : take (Z.to_nat (zlen l)) (l ++ k) = l.
Proof. by rewrite to_nat_zlen, take_app_length. Qed.

Lemma zlen_zero_inv {A} (l : list A) : zlen l = 0 → l = [].
Proof. destruct l; [done|]. rewrite zlen_cons. pose proof (zlen_nonneg l). lia. Qed.

Definition zsub {A} (off n : Z) (l : list A) : list A := sub (Z.to_nat off) (Z.to_nat n) l.
Definition zblit {A} (off : Z) (src l : list A) : list A := blit (Z.to_nat off) src l.
Definition zresize {A} (n : Z) (d : A) (l : list A) : list A := vresize (Z.to_nat n) d l.

(** Reading and writing a memory object: outside of it is a fault. *)
Definition mem_read (off n : Z) (m : bytes) : res bytes :=
  if (0 <=? off) && (0 <=? n) && (off + n <=? zlen m) then Ok (zsub off n m) else Err OutOfBounds.
Definition mem_write (off : Z) (src m : bytes) : res bytes :=
  if (0 <=? off) && (off + zlen src <=? zlen m) then Ok (zblit off src m) else Err OutOfBounds.

Section mem.
Context {A : Type}.
Implicit Types l : list A.

Lemma zlen_zsub off n l : 0 ≤ off → 0 ≤ n → off + n ≤ zlen l → zlen (zsub off n l) = n.
Proof. unfold zlen, zsub. intros. rewrite length_sub; lia. Qed.

Lemma zlen_zblit off src l : 0 ≤ off → off + zlen src ≤ zlen l → zlen (zblit off src l) = zlen l.
Proof. unfold zlen, zblit. intros. rewrite length_blit; lia. Qed.

Lemma zlen_zresize n (d : A) l : 0 ≤ n → zlen (zresize n d l) = n.
Proof. unfold zlen, zresize. intros. rewrite length_vresize. lia. Qed.

Lemma zsub_0 off l : zsub off 0 l = [].
Proof. done. Qed.

Lemma zsub_split off n m l :
  0 ≤ off → 0 ≤ n → 0 ≤ m → zsub off (n + m) l = zsub off n l ++ zsub (off + n) m l.
Proof.
  unfold zsub. intros. rewrite !Z2Nat.inj_add by lia. apply sub_split.
Qed.

Lemma zsub_drop k off n l :
  0 ≤ off → 0 ≤ k ≤ n → zsub (off + k) (n - k) l = drop (Z.to_nat k) (zsub off n l).
Proof.
  unfold zsub. intros. rewrite drop_sub, Z2Nat.inj_add, Z2Nat.inj_sub by lia. done.
Qed.

Lemma zsub_zblit_same off w src l n :
  w = off → 0 ≤ off ≤ zlen l → n = zlen src → zsub off n (zblit w src l) = src.
Proof.
  unfold zsub, zblit, zlen. intros -> ? ->. rewrite Nat2Z.id. apply sub_blit_same. lia.
Qed.

Lemma zsub_zblit_before off n w src l :
  0 ≤ off → 0 ≤ n → off + n ≤ w → w ≤ zlen l → zsub off n (zblit w src l) = zsub off n l.
Proof. unfold zsub, zblit, zlen. intros. apply sub_blit_before; lia. Qed.

Lemma zsub_zblit_after off n w src l :
  0 ≤ w → 0 ≤ n → w + zlen src ≤ off → off ≤ zlen l → zsub off n (zblit w src l) = zsub off n l.
Proof. unfold zsub, zblit, zlen. intros. apply sub_blit_after; lia. Qed.

Lemma zsub_zresize off n m (d : A) l :
  0 ≤ off → 0 ≤ n → off + n ≤ zlen l → off + n ≤ m → zsub off n (zresize m d l) = zsub off n l.
Proof. unfold zsub, zresize, zlen. intros. apply sub_vresize; lia. Qed.

Lemma zsub_all l : zsub 0 (zlen l) l = l.
Proof. unfold zsub, zlen. rewrite Nat2Z.id. apply sub_full. Qed.
End mem.

Lemma mem_read_ok off n m :
  0 ≤ off → 0 ≤ n → off + n ≤ zlen m → mem_read off n m = Ok (zsub off n m).
Proof.
  intros. unfold mem_read.
  rewrite !(proj2 (Z.leb_le _ _)) by lia. done.
Qed.

Lemma mem_write_ok off src m :
  0 ≤ off → off + zlen src ≤ zlen m → mem_write off src m = Ok (zblit off src m).
Proof.
  intros. unfold mem_write. rewrite !(proj2 (Z.leb_le _ _)) by lia. done.
Qed.

Lemma mem_read_inv off n m d :
  mem_read off n m = Ok d → 0 ≤ off ∧ 0 ≤ n ∧ off + n ≤ zlen m ∧ d = zsub off n m.
Proof.
  unfold mem_read. destruct (_ && _) eqn:E; [|done]. intros [= <-]. split_and!; lia || done.
Qed.

(** ** Automation shared by the components *)

Create HintDb muduo.
Create Rewrite HintDb muduo.
#[export] Hint Resolve zlen_nonneg : muduo.
#[export] Hint Rewrite @zlen_app @zlen_nil @zlen_cons @length_app @length_take @length_drop
  @length_replicate @length_vresize : muduo.

(** [bool_cases]: case analysis of the comparison a conditional tests. *)
Ltac bool_cases :=
  repeat match goal with
  | |- context [if (?a <? ?b)%Z then _ else _] => destruct (Z.ltb_spec a b)
  | |- context [if (?a <=? ?b)%Z then _ else _] => destruct (Z.leb_spec a b)
  | |- context [if (?a =? ?b)%Z then _ else _] => destruct (Z.eqb_spec a b)
  end; try lia.

(** [decide_closed]: proves a closed decidable proposition by evaluation. *)
Ltac decide_closed := apply (bool_decide_eq_true_1 _); vm_compute; reflexivity.
