(* ===== verification/Printf.v ===== *)
(** * Printf: the decimal conversions of snprintf

    [dec z] is what the conversions [%d], [%ld], [%u] produce for a value of at
    most 20 digits, [dec0 w z] what [%0<w>d] produces.  They are the reference
    for the digit loop of LogStream.cpp and the text of the time stamps,
    addresses and connection names; [parse_decimal] reads the text back. *)

From S2P Require Import Prelude.

Definition minus : byte := Byte.x2d.

Definition digit_byte (d : Z) : byte := default Byte.x30 (Byte.of_N (Z.to_N (48 + d))).
Definition digit (c : byte) : Z := Z.of_N (Byte.to_N c) - 48.
Definition is_digit (c : byte) : Prop := 0 ≤ digit c ≤ 9.

Fixpoint dec_u (fuel : nat) (z : Z) : bytes :=
  match fuel with
  | O => []
  | S fuel' => (if z <? 10 then [] else dec_u fuel' (z / 10)) ++ [digit_byte (z mod 10)]
  end.

#[global] Arguments dec_u : simpl never.

Lemma dec_u_S n z :
  dec_u (S n) z = (if z <? 10 then [] else dec_u n (z / 10)) ++ [digit_byte (z mod 10)].
Proof. done. Qed.

Definition dec (z : Z) : bytes := if z <? 0 then minus :: dec_u 20 (- z) else dec_u 20 z.

Definition dec0 (w : Z) (z : Z) : bytes :=
  let text := dec_u 20 (Z.abs z) in
  let sign := if z <? 0 then [minus] else [] in
  sign ++ replicate (Z.to_nat (w - zlen sign - zlen text)) (digit_byte 0) ++ text.

(** What [snprintf(buf, size, ...)] leaves in [buf] of a text. *)
Definition snprintf_text (size : Z) (text : bytes) : bytes := take (Z.to_nat (size - 1)) text.

Definition digits_value (l : bytes) : Z := fold_left (λ acc c, 10 * acc + digit c) l 0.
Definition parse_decimal (l : bytes) : Z :=
  match l with
  | c :: l' => if decide (c = minus) then - digits_value l' else digits_value l
  | [] => 0
  end.

Lemma digit_digit_byte d : 0 ≤ d ≤ 9 → digit (digit_byte d) = d.
Proof.
  intros H. assert (∃ n, (n < 10)%nat ∧ d = Z.of_nat n) as (n & Hn & ->) by (exists (Z.to_nat d); lia).
  do 10 (destruct n as [|n]; [reflexivity|]). lia.
Qed.

Lemma is_digit_byte d : 0 ≤ d ≤ 9 → is_digit (digit_byte d).
Proof. intros. unfold is_digit. by rewrite digit_digit_byte. Qed.

Lemma is_digit_minus c : is_digit c → c ≠ minus.
Proof. unfold is_digit. intros [H _] ->. vm_compute in H. congruence. Qed.

Lemma digits_value_snoc l c : digits_value (l ++ [c]) = 10 * digits_value l + digit c.
Proof. unfold digits_value. by rewrite fold_left_app. Qed.

Lemma dec_u_spec n z :
  0 ≤ z < 10 ^ Z.of_nat (S n) →
  digits_value (dec_u (S n) z) = z ∧ Forall is_digit (dec_u (S n) z) ∧
  (0 < length (dec_u (S n) z) <= S n)%nat ∧
  (∀ c rest, dec_u (S n) z = c :: rest → digit c = 0 → z = 0).
Proof.
  revert z. induction n as [|n IH]; intros z Hz;
    pose proof (Z.mod_pos_bound z 10 ltac:(lia)); pose proof (Z.div_mod z 10 ltac:(lia));
    pose proof (digit_digit_byte (z mod 10) ltac:(lia)) as Hd;
    pose proof (is_digit_byte (z mod 10) ltac:(lia)) as Hid.
  - change (10 ^ Z.of_nat 1) with 10 in Hz. rewrite dec_u_S.
    rewrite (proj2 (Z.ltb_lt z 10)) by lia. unfold digits_value; simpl.
    split_and!; [lia|by apply Forall_singleton|lia..|]. intros c rest [= <- _]. lia.
  - rewrite dec_u_S. destruct (Z.ltb_spec z 10).
    + unfold digits_value; simpl. split_and!; [lia|by apply Forall_singleton|lia..|].
      intros c rest [= <- _]. lia.
    + destruct (IH (z / 10)) as (Hv & Hf & Hl & Hh).
      { rewrite Nat2Z.inj_succ, Z.pow_succ_r in Hz by lia.
        split; [apply Z.div_pos; lia|apply Z.div_lt_upper_bound; lia]. }
      rewrite digits_value_snoc, Hv. split_and!; [lia| | | |].
      * apply Forall_app. split; [done|by apply Forall_singleton].
      * rewrite length_app. lia.
      * rewrite length_app. simpl. lia.
      * intros c rest E Hc. destruct (dec_u (S n) (z / 10)) as [|c' l'] eqn:El.
        { simpl in Hl. lia. }
        simpl in E. injection E as -> _. specialize (Hh c l' eq_refl Hc). lia.
Qed.

Lemma dec_u_20 z : 0 ≤ z < 10 ^ 20 →
  digits_value (dec_u 20 z) = z ∧ Forall is_digit (dec_u 20 z) ∧ 0 < zlen (dec_u 20 z) ≤ 20 ∧
  (∀ c rest, dec_u 20 z = c :: rest → digit c = 0 → z = 0).
Proof.
  intros H. destruct (dec_u_spec 19 z H) as (H1 & H2 & H3 & H4).
  split_and!; try done; unfold zlen; lia.
Qed.

(** Reading the text back. *)
Lemma parse_dec z : - 10 ^ 20 < z < 10 ^ 20 → parse_decimal (dec z) = z.
Proof.
  intros Hz. unfold dec. destruct (Z.ltb_spec z 0).
  - unfold parse_decimal. rewrite decide_True by done.
    destruct (dec_u_20 (- z)) as (-> & _); lia.
  - destruct (dec_u_20 z) as (Hv & Hf & Hl & _); [lia|].
    revert Hv Hf Hl. destruct (dec_u 20 z) as [|c l]; intros Hv Hf Hl; [unfold zlen in Hl; simpl in Hl; lia|].
    unfold parse_decimal. rewrite decide_False; [done|].
    apply Forall_cons in Hf as [Hc _]. by apply is_digit_minus.
Qed.

Lemma dec_inj x y : - 10 ^ 20 < x < 10 ^ 20 → - 10 ^ 20 < y < 10 ^ 20 → dec x = dec y → x = y.
Proof. intros Hx Hy E. by rewrite <- (parse_dec x), <- (parse_dec y), E. Qed.

Lemma zlen_dec z : - 10 ^ 20 < z < 10 ^ 20 → 0 < zlen (dec z) ≤ 21.
Proof.
  intros Hz. unfold dec. destruct (Z.ltb_spec z 0).
  - destruct (dec_u_20 (- z)) as (_ & _ & ? & _); [lia|]. rewrite zlen_cons. lia.
  - destruct (dec_u_20 z) as (_ & _ & ? & _); lia.
Qed.

(** No superfluous zero in front. *)
Lemma dec_no_leading_zero z c rest :
  0 ≤ z < 10 ^ 20 → dec z = c :: rest → digit c = 0 → z = 0.
Proof.
  intros Hz. unfold dec. rewrite (proj2 (Z.ltb_ge z 0)) by lia.
  destruct (dec_u_20 z Hz) as (_ & _ & _ & H). apply H.
Qed.

Lemma digits_value_zeros n l : digits_value (replicate n (digit_byte 0) ++ l) = digits_value l.
Proof.
  unfold digits_value. induction n as [|n IH]; [done|].
  cbn [replicate app fold_left]. change (10 * 0 + digit (digit_byte 0)) with 0. exact IH.
Qed.

Lemma dec0_spec w z : 0 ≤ z < 10 ^ 20 → z < 10 ^ w → 0 < w →
  digits_value (dec0 w z) = z ∧ Forall is_digit (dec0 w z).
Proof.
  intros Hz Hw Hw0. unfold dec0. rewrite (proj2 (Z.ltb_ge z 0)), Z.abs_eq by lia. cbn [app].
  destruct (dec_u_20 z Hz) as (Hv & Hf & _). rewrite digits_value_zeros. split; [done|].
  apply Forall_app. split; [|done]. apply Forall_replicate. by apply is_digit_byte.
Qed.

Lemma length_dec_u n k z :
  0 ≤ z < 10 ^ Z.of_nat (S k) → (length (dec_u n z) <= S k)%nat.
Proof.
  revert k z. induction n as [|n IH]; intros k z Hz; [simpl; lia|].
  rewrite dec_u_S, length_app. simpl. destruct (Z.ltb_spec z 10); [simpl; lia|].
  destruct k as [|k]; [change (10 ^ Z.of_nat 1) with 10 in Hz; lia|].
  enough (length (dec_u n (z / 10)) <= S k)%nat by lia. apply IH.
  rewrite Nat2Z.inj_succ, Z.pow_succ_r in Hz by lia.
  split; [apply Z.div_pos; lia|apply Z.div_lt_upper_bound; lia].
Qed.

(** A zero-padded field has exactly its width when the value fits. *)
Lemma zlen_dec0 w z : 0 < w → 0 ≤ z < 10 ^ w → zlen (dec0 w z) = w.
Proof.
  intros Hw Hz. pose proof (length_dec_u 20 (Z.to_nat (w - 1)) z) as H.
  replace (Z.of_nat (S (Z.to_nat (w - 1)))) with w in H by lia. specialize (H Hz).
  unfold dec0. rewrite (proj2 (Z.ltb_ge z 0)), Z.abs_eq by lia. cbn [app].
  rewrite zlen_app. unfold zlen at 1. rewrite length_replicate. rewrite zlen_nil.
  unfold zlen in *. lia.
Qed.
