(* ===== verification/Buffer.v ===== *)
(** * Buffer: the byte queue of a connection

    Models src/muduo/Buffer.h and src/muduo/Buffer.cpp.  A [Buffer] is the
    vector [buffer_] and the two indices of the class; pointers into the vector
    ([peek], [beginWrite], the argument of [retrieveUntil]) are offsets from
    [begin()].  The indices are [size_t]: their arithmetic wraps modulo 2^64.
    The abstract specification is a queue of bytes, [content]; [inv] is the
    index invariant drawn in the comment at the top of the class. *)

From S2P Require Import Prelude.

(** ** State and operations *)

Record Buffer : Type := mkBuffer {
  buffer_ : bytes;
  readIndex : Z;
  writeIndex : Z;
}.

Definition kCheapPrepend : Z := 8.
Definition kInitialSize : Z := 1024.
(** [sizeof extrabuf] in [readfd]. *)
Definition extrabuf_size : Z := 65536.

Definition set_buffer (m : bytes) (b : Buffer) := mkBuffer m (readIndex b) (writeIndex b).
Definition set_readIndex (r : Z) (b : Buffer) := mkBuffer (buffer_ b) r (writeIndex b).
Definition set_writeIndex (w : Z) (b : Buffer) := mkBuffer (buffer_ b) (readIndex b) w.

Definition Buffer_new : Buffer :=
  mkBuffer (replicate (Z.to_nat (kCheapPrepend + kInitialSize)) x00) kCheapPrepend kInitialSize.

Definition swap_demo (b rhs : Buffer) : Buffer * Buffer :=
  (mkBuffer (buffer_ b) (readIndex rhs) (writeIndex rhs),
   mkBuffer (buffer_ rhs) (readIndex b) (writeIndex b)).

Definition readableBytes (b : Buffer) : Z := u64 (writeIndex b - readIndex b).
Definition writableBytes (b : Buffer) : Z := u64 (zlen (buffer_ b) - writeIndex b).
Definition prependableBytes (b : Buffer) : Z := readIndex b.
Definition peek (b : Buffer) : Z := readIndex b.
Definition beginWrite (b : Buffer) : Z := writeIndex b.

Definition retrieve (len : Z) : M Buffer unit :=
  b ← get;
  assert_ (len <=? readableBytes b) ;;
  modify (set_readIndex (u64 (readIndex b + len))).

Definition retrieveUntil (end_ : Z) : M Buffer unit :=
  b ← get;
  assert_ (peek b <=? end_) ;;
  retrieve (u64 (end_ - peek b)).

Definition retrieveAll : M Buffer unit :=
  modify (λ b, mkBuffer (buffer_ b) kCheapPrepend kCheapPrepend).

Definition retrieveAsString : M Buffer bytes :=
  b ← get;
  s ← lift (mem_read (peek b) (readableBytes b) (buffer_ b));
  retrieveAll ;;
  mret s.

Definition makeSpace (len : Z) : M Buffer unit :=
  b ← get;
  if u64 (writableBytes b + prependableBytes b) <? u64 (len + kCheapPrepend) then
    let n := u64 (writeIndex b + len) in
    if PTRDIFF_MAX <? n then fail LengthError
    else put (set_buffer (zresize n x00 (buffer_ b)) b)
  else
    assert_ (kCheapPrepend <? readIndex b) ;;
    let readable := readableBytes b in
    d ← lift (mem_read (readIndex b) (writeIndex b - readIndex b) (buffer_ b));
    m ← lift (mem_write kCheapPrepend d (buffer_ b));
    put (mkBuffer m kCheapPrepend (u64 (kCheapPrepend + readable))) ;;
    b' ← get;
    assert_ (readable =? readableBytes b').

Definition ensureWritableBytes (len : Z) : M Buffer unit :=
  b ← get;
  when_ (writableBytes b <? len) (makeSpace len) ;;
  b' ← get;
  assert_ (len <=? writableBytes b').

Definition hasWritten (len : Z) : M Buffer unit :=
  modify (λ b, set_writeIndex (u64 (writeIndex b + len)) b).

(** [append(const char* data, size_t len)]: [data] is the [len] bytes. *)
Definition append (data : bytes) : M Buffer unit :=
  ensureWritableBytes (zlen data) ;;
  b ← get;
  m ← lift (mem_write (beginWrite b) data (buffer_ b));
  put (set_buffer m b) ;;
  hasWritten (zlen data).

Definition prepend (data : bytes) : M Buffer unit :=
  b ← get;
  assert_ (zlen data <=? prependableBytes b) ;;
  let r := u64 (readIndex b - zlen data) in
  m ← lift (mem_write r data (buffer_ b));
  put (mkBuffer m r (writeIndex b)).

Definition shrink (reserve : Z) : M Buffer unit :=
  b ← get;
  let n := u64 (kCheapPrepend + readableBytes b + reserve) in
  if PTRDIFF_MAX <? n then fail LengthError
  else
    let buf := replicate (Z.to_nat n) x00 in
    d ← lift (mem_read (peek b) (readableBytes b) (buffer_ b));
    m ← lift (mem_write kCheapPrepend d buf);
    put (set_buffer m b).

(** What [readv(2)] reports: an [errno], or the bytes it scattered over the
    two areas, the vector's writable bytes first. *)
Inductive readv_result : Type :=
  | ReadvFail (errno : Z)
  | ReadvOk (data : bytes).

(** Returns [n] and the value stored to [*savedErrno], if any. *)
Definition readfd (r : readv_result) : M Buffer (Z * option Z) :=
  b ← get;
  let writable := writableBytes b in
  match r with
  | ReadvFail errno => mret (-1, Some errno)
  | ReadvOk data =>
      let n := zlen data in
      let d0 := take (Z.to_nat writable) data in
      let d1 := drop (Z.to_nat writable) data in
      if extrabuf_size <? zlen d1 then fail OutOfBounds else
      m ← lift (mem_write (writeIndex b) d0 (buffer_ b));
      put (set_buffer m b) ;;
      (if n <=? writable then
         modify (λ b, set_writeIndex (u64 (writeIndex b + n)) b)
       else
         modify (λ b, set_writeIndex (zlen (buffer_ b)) b) ;;
         append d1) ;;
      mret (n, None)
  end.

(** ** Abstract specification *)

Definition content (b : Buffer) : bytes :=
  zsub (readIndex b) (writeIndex b - readIndex b) (buffer_ b).

Definition inv (b : Buffer) : Prop :=
  0 ≤ readIndex b ≤ writeIndex b ∧ writeIndex b ≤ zlen (buffer_ b) ∧
  kCheapPrepend ≤ zlen (buffer_ b) ≤ PTRDIFF_MAX.

#[export] Instance inv_dec b : Decision (inv b).
Proof. unfold inv. apply _. Defined.

(** The operations of the queue, as a client issues them. *)
Inductive op : Type :=
  | OpAppend (data : bytes)
  | OpRetrieve (len : Z)
  | OpRetrieveAll
  | OpRetrieveAsString
  | OpEnsureWritable (len : Z)
  | OpReadfd (r : readv_result).

Definition exec (o : op) : M Buffer bytes :=
  match o with
  | OpAppend d => append d ;; mret []
  | OpRetrieve n => retrieve n ;; mret []
  | OpRetrieveAll => retrieveAll ;; mret []
  | OpRetrieveAsString => retrieveAsString
  | OpEnsureWritable n => ensureWritableBytes n ;; mret []
  | OpReadfd r => readfd r ;; mret []
  end.

Fixpoint exec_all (os : list op) : M Buffer (list bytes) :=
  match os with
  | [] => mret []
  | o :: os' => x ← exec o; xs ← exec_all os'; mret (x :: xs)
  end.

(** The abstract queue: the new content and the output of one operation, or
    [None] where the client breaks the operation's contract. *)
Definition spec_step (o : op) (q : bytes) : option (bytes * bytes) :=
  match o with
  | OpAppend d => Some (q ++ d, [])
  | OpRetrieve n => if (0 <=? n) && (n <=? zlen q) then Some (drop (Z.to_nat n) q, []) else None
  | OpRetrieveAll => Some ([], [])
  | OpRetrieveAsString => Some ([], q)
  | OpEnsureWritable n => if 0 <=? n then Some (q, []) else None
  | OpReadfd (ReadvFail _) => Some (q, [])
  | OpReadfd (ReadvOk d) => if zlen d <=? extrabuf_size then Some (q ++ d, []) else None
  end.

Fixpoint spec_all (os : list op) (q : bytes) : option (bytes * list bytes) :=
  match os with
  | [] => Some (q, [])
  | o :: os' =>
      match spec_step o q with
      | Some (q1, x) =>
          match spec_all os' q1 with Some (q2, xs) => Some (q2, x :: xs) | None => None end
      | None => None
      end
  end.

(** The bytes an operation may add behind [writeIndex]. *)
Definition op_size (o : op) : Z :=
  match o with
  | OpAppend d => zlen d
  | OpEnsureWritable n => Z.max 0 n
  | OpReadfd (ReadvOk d) => zlen d
  | _ => 0
  end.

Definition ops_size (os : list op) : Z := foldr (λ o acc, op_size o + acc) 0 os.

(** ** The invariant bounds every index computation *)

Section facts.
Implicit Types b : Buffer.

Lemma content_mk m r w : content (mkBuffer m r w) = zsub r (w - r) m.
Proof. done. Qed.

Lemma readable_inv b : inv b → readableBytes b = writeIndex b - readIndex b.
Proof. unfold inv, PTRDIFF_MAX. intros. apply wrap_u_small. lia. Qed.

Lemma writable_inv b : inv b → writableBytes b = zlen (buffer_ b) - writeIndex b.
Proof. unfold inv, PTRDIFF_MAX. intros. apply wrap_u_small. lia. Qed.

Lemma zlen_content b : inv b → zlen (content b) = writeIndex b - readIndex b.
Proof. unfold inv. intros. apply zlen_zsub; lia. Qed.

Lemma content_readable b : inv b → zlen (content b) = readableBytes b.
Proof. intros. by rewrite zlen_content, readable_inv. Qed.
End facts.

#[export] Hint Resolve zlen_content content_readable : muduo.

(** ** Each operation refines its step of the queue *)

Lemma retrieve_spec b n :
  inv b → 0 ≤ n ≤ zlen (content b) →
  ∃ b', retrieve n b = Ok (tt, b') ∧ inv b' ∧ content b' = drop (Z.to_nat n) (content b) ∧
    readIndex b' = readIndex b + n ∧ writeIndex b' = writeIndex b.
Proof.
  intros Hb Hn. rewrite zlen_content in Hn by done.
  unfold retrieve. mstep. rewrite readable_inv by done.
  unfold assert_. rewrite (proj2 (Z.leb_le _ _)) by lia.
  eexists. split; [reflexivity|]. unfold inv, PTRDIFF_MAX in Hb.
  unfold set_readIndex, inv, content; simpl. rewrite wrap_u_small by lia.
  unfold PTRDIFF_MAX. split_and!; try lia.
  rewrite <- zsub_drop by lia. f_equal; lia.
Qed.

Lemma retrieve_too_long b n :
  inv b → zlen (content b) < n → retrieve n b = Err AssertFailed.
Proof.
  intros Hb Hn. rewrite zlen_content in Hn by done.
  unfold retrieve. mstep. rewrite readable_inv by done.
  unfold assert_. by rewrite (proj2 (Z.leb_gt _ _)) by lia.
Qed.

Lemma retrieveAll_spec b :
  inv b →
  ∃ b', retrieveAll b = Ok (tt, b') ∧ inv b' ∧ content b' = [] ∧
    writeIndex b' = kCheapPrepend ∧ buffer_ b' = buffer_ b.
Proof.
  unfold inv, kCheapPrepend. intros Hb. eexists. split; [reflexivity|].
  unfold content, inv; simpl. unfold kCheapPrepend. split_and!; try lia; done.
Qed.

Lemma mem_read_content b :
  inv b → mem_read (peek b) (readableBytes b) (buffer_ b) = Ok (content b).
Proof.
  intros Hb. rewrite readable_inv by done. unfold inv in Hb.
  by rewrite mem_read_ok by (unfold peek; lia).
Qed.

Lemma retrieveAsString_spec b :
  inv b →
  ∃ b', retrieveAsString b = Ok (content b, b') ∧ inv b' ∧ content b' = [] ∧
    writeIndex b' = kCheapPrepend.
Proof.
  intros Hb. destruct (retrieveAll_spec b Hb) as (b' & E & Hb' & Hc & Hw & _).
  exists b'. split; [|done]. unfold retrieveAsString. mstep.
  rewrite mem_read_content by done. mstep. by erewrite bind_step by exact E.
Qed.

(** The two branches of [makeSpace]. *)
Definition fits_by_sliding (b : Buffer) (len : Z) : Prop :=
  len + kCheapPrepend ≤ zlen (buffer_ b) - writeIndex b + readIndex b.

Lemma makeSpace_test b len :
  inv b → 0 ≤ len ≤ PTRDIFF_MAX →
  (u64 (writableBytes b + prependableBytes b) <? u64 (len + kCheapPrepend)) = true ↔
  ¬ fits_by_sliding b len.
Proof.
  intros Hb Hlen. rewrite writable_inv by done. unfold prependableBytes, fits_by_sliding.
  unfold inv, PTRDIFF_MAX, kCheapPrepend in *. rewrite !wrap_u_small by lia. lia.
Qed.

Lemma makeSpace_grow b len :
  inv b → 0 ≤ len → writableBytes b < len → writeIndex b + len ≤ PTRDIFF_MAX →
  ¬ fits_by_sliding b len →
  makeSpace len b = Ok (tt, set_buffer (zresize (writeIndex b + len) x00 (buffer_ b)) b).
Proof.
  intros Hb Hlen Hw Hmax Hf. unfold makeSpace. mstep.
  rewrite (proj2 (makeSpace_test b len Hb ltac:(unfold inv in Hb; lia)) Hf).
  unfold inv, PTRDIFF_MAX in *. rewrite wrap_u_small by lia.
  by rewrite (proj2 (Z.ltb_ge _ _)) by lia.
Qed.

Lemma makeSpace_slide b len :
  inv b → 0 ≤ len ≤ PTRDIFF_MAX → writableBytes b < len → fits_by_sliding b len →
  makeSpace len b =
    Ok (tt, mkBuffer (zblit kCheapPrepend (content b) (buffer_ b)) kCheapPrepend
              (kCheapPrepend + zlen (content b))).
Proof.
  intros Hb Hlen Hw Hf. pose proof (zlen_content b Hb) as Hc.
  rewrite writable_inv in Hw by done.
  unfold makeSpace. mstep. rewrite readable_inv by done.
  destruct (_ <? _) eqn:E; [by apply makeSpace_test in E|]. clear E.
  unfold inv, fits_by_sliding, kCheapPrepend, PTRDIFF_MAX in *.
  unfold assert_ at 1. rewrite (proj2 (Z.ltb_lt 8 _)) by lia. mstep.
  rewrite mem_read_ok by lia. mstep. fold (content b).
  rewrite mem_write_ok by lia. mstep. mstep. mstep.
  unfold assert_, readableBytes; simpl. rewrite !wrap_u_small by (rewrite ?wrap_u_small; lia).
  rewrite (proj2 (Z.eqb_eq _ _)) by lia. by rewrite Hc.
Qed.

Lemma makeSpace_spec b len :
  inv b → 0 ≤ len → writableBytes b < len → writeIndex b + len ≤ PTRDIFF_MAX →
  ∃ b', makeSpace len b = Ok (tt, b') ∧ inv b' ∧ content b' = content b ∧
    writeIndex b' ≤ writeIndex b ∧ writeIndex b' + len ≤ zlen (buffer_ b').
Proof.
  intros Hb Hlen Hw Hmax. pose proof (zlen_content b Hb) as Hc.
  destruct (decide (len + kCheapPrepend ≤ zlen (buffer_ b) - writeIndex b + readIndex b)) as [Hf|Hf].
  - eexists. split; [by apply makeSpace_slide; unfold inv in *; try lia|].
    rewrite writable_inv in Hw by done.
    rewrite content_mk. unfold inv, kCheapPrepend, PTRDIFF_MAX in *; simpl.
    rewrite zlen_zblit, zsub_zblit_same by lia. split_and!; lia || done.
  - eexists. split; [by apply makeSpace_grow|].
    rewrite writable_inv in Hw by done.
    unfold content, inv, kCheapPrepend, PTRDIFF_MAX in *; simpl.
    rewrite zlen_zresize, zsub_zresize by lia. split_and!; lia || done.
Qed.

Lemma ensureWritableBytes_spec b len :
  inv b → 0 ≤ len → writeIndex b + len ≤ PTRDIFF_MAX →
  ∃ b', ensureWritableBytes len b = Ok (tt, b') ∧ inv b' ∧ content b' = content b ∧
    writeIndex b' ≤ writeIndex b ∧ writeIndex b' + len ≤ zlen (buffer_ b').
Proof.
  intros Hb Hlen Hmax. unfold ensureWritableBytes. mstep.
  assert (∃ b', when_ (writableBytes b <? len) (makeSpace len) b = Ok (tt, b') ∧
    inv b' ∧ content b' = content b ∧
    writeIndex b' ≤ writeIndex b ∧ writeIndex b' + len ≤ zlen (buffer_ b')) as (b' & E & Hb' & H).
  { unfold when_. destruct (Z.ltb_spec (writableBytes b) len).
    - by apply makeSpace_spec.
    - exists b. rewrite writable_inv in * by done. split_and!; done || lia. }
  exists b'. split; [|done]. erewrite bind_step by exact E. mstep.
  unfold assert_. rewrite writable_inv by done. by rewrite (proj2 (Z.leb_le _ _)) by lia.
Qed.

Lemma append_spec b data :
  inv b → writeIndex b + zlen data ≤ PTRDIFF_MAX →
  ∃ b', append data b = Ok (tt, b') ∧ inv b' ∧ content b' = content b ++ data ∧
    writeIndex b' ≤ writeIndex b + zlen data.
Proof.
  intros Hb Hmax. pose proof (zlen_nonneg data) as Hd.
  destruct (ensureWritableBytes_spec b (zlen data) Hb Hd Hmax) as (b1 & E & Hb1 & Hc & Hw & Hs).
  unfold append. erewrite bind_step by exact E. mstep. unfold beginWrite.
  unfold inv, PTRDIFF_MAX, kCheapPrepend in *.
  rewrite mem_write_ok by lia. mstep. mstep.
  eexists. split; [reflexivity|]. unfold set_writeIndex; simpl. rewrite content_mk.
  rewrite zlen_zblit, wrap_u_small by lia. unfold PTRDIFF_MAX, kCheapPrepend.
  split_and!; try lia. rewrite <- Hc. unfold content.
  replace (writeIndex b1 + zlen data - readIndex b1)
    with ((writeIndex b1 - readIndex b1) + zlen data) by lia.
  rewrite zsub_split by lia. f_equal.
  - apply zsub_zblit_before; lia.
  - apply zsub_zblit_same; lia.
Qed.

Lemma append_overflow b data :
  inv b → zlen data ≤ PTRDIFF_MAX → PTRDIFF_MAX < writeIndex b + zlen data →
  ¬ fits_by_sliding b (zlen data) →
  append data b = Err LengthError.
Proof.
  intros Hb Hd Hmax Hf. pose proof (zlen_nonneg data).
  assert ((writableBytes b <? zlen data) = true) as E.
  { rewrite writable_inv by done. unfold inv, PTRDIFF_MAX in *. lia. }
  unfold append. apply bind_err. unfold ensureWritableBytes. mstep. rewrite E.
  apply bind_err. unfold when_, makeSpace. mstep.
  rewrite (proj2 (makeSpace_test b (zlen data) Hb ltac:(lia)) Hf).
  unfold inv, PTRDIFF_MAX in *. rewrite wrap_u_small by lia.
  by rewrite (proj2 (Z.ltb_lt _ _)) by lia.
Qed.

(** Prepending is the one operation that uses the space before [readIndex]. *)
Lemma prepend_spec b data :
  inv b → zlen data ≤ prependableBytes b →
  ∃ b', prepend data b = Ok (tt, b') ∧ inv b' ∧ content b' = data ++ content b ∧
    writeIndex b' = writeIndex b ∧ buffer_ b' = zblit (readIndex b - zlen data) data (buffer_ b).
Proof.
  unfold prependableBytes. intros Hb Hd. pose proof (zlen_nonneg data).
  unfold prepend. mstep. unfold assert_, prependableBytes.
  rewrite (proj2 (Z.leb_le _ _)) by lia. mstep.
  unfold inv, PTRDIFF_MAX, kCheapPrepend in *. rewrite wrap_u_small by lia.
  rewrite mem_write_ok by lia. mstep.
  eexists. split; [reflexivity|]. rewrite content_mk; simpl.
  rewrite zlen_zblit by lia. unfold PTRDIFF_MAX, kCheapPrepend. split_and!; try lia; [|done].
  replace (writeIndex b - (readIndex b - zlen data))
    with (zlen data + (writeIndex b - readIndex b)) by lia.
  rewrite zsub_split by lia. f_equal.
  - apply zsub_zblit_same; lia.
  - rewrite Z.sub_add. unfold content. apply zsub_zblit_after; lia.
Qed.

(** [readfd] on a successful [readv]: the received bytes join the queue, from
    the vector alone or through [extrabuf]. *)
Lemma readfd_ok b data :
  inv b → writeIndex b + zlen data ≤ PTRDIFF_MAX → zlen data ≤ writableBytes b + extrabuf_size →
  ∃ b', readfd (ReadvOk data) b = Ok ((zlen data, None), b') ∧ inv b' ∧
    content b' = content b ++ data ∧ writeIndex b' ≤ writeIndex b + zlen data.
Proof.
  intros Hb Hmax Hk. pose proof (zlen_nonneg data) as Hd.
  rewrite writable_inv in Hk by done. unfold extrabuf_size in Hk.
  unfold readfd, extrabuf_size. mstep. rewrite writable_inv by done.
  remember (zlen (buffer_ b) - writeIndex b) as w eqn:Ew.
  assert (0 ≤ w) as Hwpos by (unfold inv in Hb; lia).
  set (d0 := take (Z.to_nat w) data). set (d1 := drop (Z.to_nat w) data).
  assert (data = d0 ++ d1) as Hsplit by (symmetry; apply take_drop).
  assert (zlen d0 = Z.min w (zlen data) ∧ zlen d1 = Z.max 0 (zlen data - w)) as [Hd0 Hd1].
  { unfold d0, d1, zlen. rewrite length_take, length_drop. lia. }
  rewrite (proj2 (Z.ltb_ge _ _)) by lia.
  assert (0 ≤ writeIndex b ∧ writeIndex b + zlen d0 ≤ zlen (buffer_ b)) as [Hw0 Hw1].
  { unfold inv in Hb. lia. }
  rewrite mem_write_ok by lia. mstep. mstep.
  assert (zsub (readIndex b) (writeIndex b - readIndex b + zlen d0)
            (zblit (writeIndex b) d0 (buffer_ b)) = content b ++ d0) as Hc.
  { unfold inv in Hb. pose proof (zlen_nonneg d0). rewrite zsub_split by lia. f_equal.
    - apply zsub_zblit_before; lia.
    - apply zsub_zblit_same; lia. }
  destruct (Z.leb_spec (zlen data) w) as [Hle|Hgt].
  - assert (d1 = []) as E1 by (apply zlen_zero_inv; lia).
    rewrite E1, app_nil_r in Hsplit. mstep.
    eexists. split; [reflexivity|]. unfold set_writeIndex; simpl. rewrite content_mk.
    unfold inv, PTRDIFF_MAX, kCheapPrepend in *; simpl.
    rewrite zlen_zblit, wrap_u_small by lia. unfold PTRDIFF_MAX, kCheapPrepend.
    split_and!; try lia. rewrite Hsplit at 2. rewrite <- Hc. f_equal. lia.
  - set (b1 := mkBuffer (zblit (writeIndex b) d0 (buffer_ b)) (readIndex b)
                 (zlen (zblit (writeIndex b) d0 (buffer_ b)))).
    assert (zlen (buffer_ b1) = zlen (buffer_ b) ∧ writeIndex b1 = zlen (buffer_ b)) as [L1 L2].
    { unfold b1; simpl. rewrite zlen_zblit by lia. done. }
    assert (inv b1) as Hb1.
    { unfold inv in *. rewrite L1, L2. unfold b1; simpl. lia. }
    destruct (append_spec b1 d1 Hb1) as (b2 & E2 & Hb2 & Hc2 & Hw2).
    { rewrite L2. lia. }
    exists b2. split; [|split; [done|split]].
    + erewrite bind_step; [reflexivity|]. mstep. exact E2.
    + rewrite Hc2, Hsplit at 1. rewrite app_assoc. f_equal. rewrite <- Hc.
      unfold content. rewrite L2. unfold b1; simpl. f_equal. lia.
    + rewrite L2 in Hw2. lia.
Qed.

Lemma readfd_fail b errno :
  readfd (ReadvFail errno) b = Ok ((-1, Some errno), b).
Proof. done. Qed.

(** ** Refinement: any client sequence runs as on the abstract queue *)

(** The space a sequence can use up: sliding never moves [writeIndex] right,
    and the two resets move it to [kCheapPrepend]. *)
Definition high_water (b : Buffer) : Z := Z.max kCheapPrepend (writeIndex b).

Lemma op_size_nonneg o : 0 ≤ op_size o.
Proof. destruct o as [d|n| | |n|[e|d]]; simpl; auto with muduo lia. Qed.

Lemma exec_refines o b q' out :
  inv b → spec_step o (content b) = Some (q', out) → high_water b + op_size o ≤ PTRDIFF_MAX →
  ∃ b', exec o b = Ok (out, b') ∧ inv b' ∧ content b' = q' ∧
    high_water b' ≤ high_water b + op_size o.
Proof.
  unfold high_water. intros Hb Hs Hm. pose proof (op_size_nonneg o).
  destruct o as [d|n| | |n|[e|d]]; simpl in *; simplify_eq.
  - destruct (append_spec b d Hb ltac:(lia)) as (b' & E & ? & ? & ?).
    exists b'. mstep. split_and!; done || lia.
  - destruct (_ && _) eqn:E; simplify_eq.
    destruct (retrieve_spec b n Hb ltac:(lia)) as (b' & E' & ? & ? & ? & Hw).
    exists b'. mstep. rewrite Hw. split_and!; done || lia.
  - destruct (retrieveAll_spec b Hb) as (b' & E & ? & ? & Hw & ?).
    exists b'. mstep. rewrite Hw. split_and!; done || lia.
  - destruct (retrieveAsString_spec b Hb) as (b' & E & ? & ? & Hw).
    exists b'. rewrite Hw. split_and!; done || lia.
  - destruct (Z.leb_spec 0 n) as [Hn|]; simplify_eq.
    destruct (ensureWritableBytes_spec b n Hb Hn ltac:(lia)) as (b' & E & ? & ? & ? & ?).
    exists b'. mstep. split_and!; done || lia.
  - exists b. split_and!; done || lia.
  - destruct (Z.leb_spec (zlen d) extrabuf_size) as [Hk|]; simplify_eq.
    destruct (readfd_ok b d Hb ltac:(lia)) as (b' & E & ? & ? & ?).
    { rewrite writable_inv by done. unfold inv in Hb. lia. }
    exists b'. mstep. split_and!; done || lia.
Qed.

Lemma ops_size_nonneg os : 0 ≤ ops_size os.
Proof. induction os as [|o os IH]; simpl; [lia|]. pose proof (op_size_nonneg o). lia. Qed.

(** C1: for every sequence of buffer operations within the contract of the
    abstract byte queue and the memory a vector can hold, the concrete
    [Buffer] runs without tripping an assertion or leaving its vector, returns
    the outputs of the abstract queue, and ends holding the abstract queue's
    content with its index invariant re-established. *)
Theorem exec_all_refines os b q' outs :
  inv b → spec_all os (content b) = Some (q', outs) →
  high_water b + ops_size os ≤ PTRDIFF_MAX →
  ∃ b', exec_all os b = Ok (outs, b') ∧ inv b' ∧ content b' = q'.
Proof.
  revert b q' outs. induction os as [|o os IH]; intros b q' outs Hb Hs Hm; simpl in *.
  - simplify_eq. by exists b.
  - destruct (spec_step o (content b)) as [[q1 x]|] eqn:Eo; [|done].
    destruct (spec_all os q1) as [[q2 xs]|] eqn:Eos; [|done]. simplify_eq.
    pose proof (ops_size_nonneg os).
    destruct (exec_refines o b q1 x Hb Eo ltac:(lia)) as (b1 & E1 & Hb1 & Hc1 & Hw1).
    subst q1. destruct (IH b1 q' xs Hb1 Eos ltac:(lia)) as (b2 & E2 & Hb2 & Hc2).
    exists b2. split; [|done]. erewrite bind_step by exact E1. by erewrite bind_step by exact E2.
Qed.

Lemma exec_all_refines_witness :
  ∃ b', exec_all [OpRetrieveAll; OpAppend (str "hello "); OpRetrieve 2;
                  OpReadfd (ReadvOk (str "world")); OpRetrieveAsString] Buffer_new
        = Ok ([[]; []; []; []; str "llo world"], b') ∧ inv b' ∧ content b' = [].
Proof.
  apply (exec_all_refines
    [OpRetrieveAll; OpAppend (str "hello "); OpRetrieve 2;
     OpReadfd (ReadvOk (str "world")); OpRetrieveAsString] Buffer_new).
  - decide_closed.
  - vm_compute. reflexivity.
  - vm_compute. discriminate.
Defined.

(** ** Capacity, errors and the remaining operations *)

#[export] Instance fits_by_sliding_dec b len : Decision (fits_by_sliding b len).
Proof. unfold fits_by_sliding. apply _. Defined.

(** The vector size after [ensureWritableBytes len]. *)
Definition capacity_after (b : Buffer) (len : Z) : Z :=
  if (len <=? writableBytes b) || bool_decide (fits_by_sliding b len)
  then zlen (buffer_ b) else writeIndex b + len.

Lemma ensureWritableBytes_capacity b len b' :
  inv b → 0 ≤ len → writeIndex b + len ≤ PTRDIFF_MAX →
  ensureWritableBytes len b = Ok (tt, b') →
  zlen (buffer_ b') = capacity_after b len.
Proof.
  intros Hb Hlen Hmax H. unfold capacity_after.
  assert (len ≤ PTRDIFF_MAX) by (unfold inv in Hb; lia).
  unfold ensureWritableBytes in H. erewrite bind_step in H by reflexivity.
  destruct (Z.leb_spec len (writableBytes b)) as [Hle|Hgt]; simpl.
  - rewrite (proj2 (Z.ltb_ge _ _)) in H by done. simpl in H.
    by minv H.
  - rewrite (proj2 (Z.ltb_lt _ _)) in H by done. simpl in H. case_bool_decide as Hf.
    + erewrite bind_step in H by (by apply makeSpace_slide). simpl in H.
      minv H.
      pose proof (zlen_content b Hb). unfold inv, fits_by_sliding, kCheapPrepend in *.
      rewrite zlen_zblit; lia.
    + erewrite bind_step in H by (by apply makeSpace_grow). simpl in H.
      minv H.
      unfold inv in *. rewrite zlen_zresize; lia.
Qed.

(** [append] reuses the vector whenever the free space before and behind
    the readable bytes suffices, sliding them down to [kCheapPrepend];
    otherwise the vector grows to exactly [writeIndex + len] bytes.  In both
    cases the data joins the end of the queue. *)
Theorem append_capacity b data :
  inv b → writeIndex b + zlen data ≤ PTRDIFF_MAX →
  ∃ b', append data b = Ok (tt, b') ∧ content b' = content b ++ data ∧
    zlen (buffer_ b') = capacity_after b (zlen data).
Proof.
  intros Hb Hmax. pose proof (zlen_nonneg data) as Hd.
  destruct (append_spec b data Hb Hmax) as (b' & E & _ & Hc & _).
  exists b'. split_and!; [done..|]. unfold append in E.
  apply bind_Ok in E as ([] & s & H & E).
  rewrite <- (ensureWritableBytes_capacity b _ s Hb Hd Hmax H).
  destruct (ensureWritableBytes_spec b _ Hb Hd Hmax) as (s' & E' & Hs & _ & _ & Hsz).
  assert (s' = s) as -> by congruence. unfold beginWrite in E. erewrite bind_step in E by reflexivity.
  unfold inv in Hs. rewrite mem_write_ok in E by lia.
  do 2 (erewrite bind_step in E by reflexivity). unfold hasWritten, modify in E.
  injection E as <-. simpl. by rewrite zlen_zblit by lia.
Qed.

Lemma append_capacity_witness :
  ∃ b', append (str "abc") (mkBuffer (str "........xxxxxxxxyz") 16 18) = Ok (tt, b') ∧
    content b' = str "yzabc" ∧ zlen (buffer_ b') = 18.
Proof.
  apply (append_capacity (mkBuffer (str "........xxxxxxxxyz") 16 18) (str "abc")).
  - decide_closed.
  - vm_compute. discriminate.
Defined.

(** Bytes prepended into the reserved head room come out before the old
    content, exactly and without touching any byte from [readIndex] on; more
    bytes than the head room trip the assertion. *)
Theorem prepend_refines b data :
  inv b →
  (zlen data ≤ prependableBytes b ∧
   ∃ b', prepend data b = Ok (tt, b') ∧ inv b' ∧ content b' = data ++ content b ∧
     writeIndex b' = writeIndex b) ∨
  (prependableBytes b < zlen data ∧ prepend data b = Err AssertFailed).
Proof.
  intros Hb. destruct (Z.le_gt_cases (zlen data) (prependableBytes b)) as [H|H].
  - left. split; [done|]. destruct (prepend_spec b data Hb H) as (b' & ? & ? & ? & ? & ?). eauto 6.
  - right. split; [done|]. unfold prepend. mstep. unfold assert_.
    by rewrite (proj2 (Z.leb_gt _ _)) by lia.
Qed.

Lemma prepend_refines_witness :
  let b := mkBuffer (str "........body") 8 12 in
  (zlen (str "len=") ≤ prependableBytes b ∧
   ∃ b', prepend (str "len=") b = Ok (tt, b') ∧ inv b' ∧
     content b' = str "len=" ++ content b ∧ writeIndex b' = writeIndex b) ∨
  (prependableBytes b < zlen (str "len=") ∧ prepend (str "len=") b = Err AssertFailed).
Proof. apply prepend_refines. decide_closed. Defined.

(** The constructor establishes the index invariant, but with [writeIndex]
    at [kInitialSize]: a buffer that nothing was appended to offers 1016 zero
    bytes to read. *)
Theorem Buffer_new_content :
  inv Buffer_new ∧ content Buffer_new = replicate 1016 x00 ∧ readableBytes Buffer_new = 1016.
Proof. split; [decide_closed|]. by vm_compute. Qed.

(** [shrink] copies the readable bytes to [kCheapPrepend] of the new vector but
    keeps both indices. *)
Lemma shrink_spec b reserve :
  inv b → 0 ≤ reserve → kCheapPrepend + zlen (content b) + reserve ≤ PTRDIFF_MAX →
  shrink reserve b =
    Ok (tt, mkBuffer (zblit kCheapPrepend (content b)
                       (replicate (Z.to_nat (kCheapPrepend + zlen (content b) + reserve)) x00))
              (readIndex b) (writeIndex b)).
Proof.
  intros Hb Hr Hmax. unfold shrink. mstep. rewrite <- content_readable by done.
  pose proof (zlen_nonneg (content b)). unfold PTRDIFF_MAX, kCheapPrepend in *.
  rewrite wrap_u_small by lia. rewrite (proj2 (Z.ltb_ge _ _)) by lia.
  rewrite content_readable, mem_read_content by done. mstep.
  rewrite <- content_readable by done. rewrite mem_write_ok; [done|lia|].
  unfold zlen in *. rewrite length_replicate. lia.
Qed.

(** [shrink] keeps the queue and the index invariant when the readable
    bytes already start at [kCheapPrepend]; because it does not reset the
    indices, a [readIndex] beyond [kCheapPrepend + reserve] leaves them pointing
    past the end of the new vector. *)
Theorem shrink_content b reserve :
  inv b → 0 ≤ reserve → kCheapPrepend + zlen (content b) + reserve ≤ PTRDIFF_MAX →
  ∃ b', shrink reserve b = Ok (tt, b') ∧
    zlen (buffer_ b') = kCheapPrepend + zlen (content b) + reserve ∧
    (readIndex b = kCheapPrepend → inv b' ∧ content b' = content b) ∧
    (kCheapPrepend + reserve < readIndex b → ¬ inv b').
Proof.
  intros Hb Hr Hmax. eexists. split; [by apply shrink_spec|].
  pose proof (zlen_content b Hb) as Hc. pose proof (zlen_nonneg (content b)).
  set (z := replicate _ x00).
  assert (zlen z = kCheapPrepend + zlen (content b) + reserve) as Hz.
  { unfold z, zlen, kCheapPrepend in *. rewrite length_replicate. lia. }
  unfold inv in *. rewrite content_mk. unfold kCheapPrepend in *; simpl.
  rewrite zlen_zblit by lia. split_and!; [lia| |lia].
  intros E. rewrite E in *. split; [lia|]. apply zsub_zblit_same; lia.
Qed.

Lemma shrink_content_witness :
  ∃ b', shrink 2 (mkBuffer (str "................abcd....") 16 20) = Ok (tt, b') ∧
    zlen (buffer_ b') = 14 ∧
    (16 = kCheapPrepend → inv b' ∧ content b' = str "abcd") ∧
    (kCheapPrepend + 2 < 16 → ¬ inv b').
Proof.
  apply (shrink_content (mkBuffer (str "................abcd....") 16 20) 2).
  - decide_closed.
  - lia.
  - vm_compute. discriminate.
Defined.

(** [swap_demo] exchanges the indices but not the vectors. *)
Lemma swap_demo_vectors b rhs :
  buffer_ (swap_demo b rhs).1 = buffer_ b ∧ buffer_ (swap_demo b rhs).2 = buffer_ rhs.
Proof. done. Qed.
