(* ===== verification/Callbacks.v ===== *)
(** * Callbacks: the function values the program passes around

    Models the [std::function] values of src/muduo/Callbacks.h and of the
    [std::bind]/lambda expressions of the library.  Every closure the source
    creates is one constructor of [closure], carrying the values it captures; a
    client's function is [FnUser] with an identifier, its effect a parameter of
    the definitions that call it.  Objects are named by identifiers: a pointer
    to a [Channel] or a [TcpConnection] is its key in the heap that holds it. *)

From S2P Require Import Prelude.

Abbreviation chan_id := nat.
Abbreviation conn_id := nat.
(** Addresses of [Timer] objects: ordered, as [std::set] compares them. *)
Abbreviation timer_ptr := Z.
(** Identifies a function object supplied by the library's client. *)
Abbreviation user_fn := N.

(** [TimerId] (src/muduo/TimerId.h): an address and a sequence number;
    [timer_ = 0] is the null pointer. *)
Record TimerId : Set := mkTimerId {
  timer_ : timer_ptr;
  sequence_ : Z;
}.

(** The default arguments of the constructor of [TimerId]. *)
Definition TimerId_default : TimerId := mkTimerId 0 0.

(** The values bound to [CloseCallback]. *)
Inductive close_callback : Set :=
  | CloseTcpServer_removeConnection
  | CloseTcpClient_removeConnection
  | CloseDetail_removeConnection.

Inductive closure : Set :=
  | FnUser (u : user_fn)
  (* TimerQueue.cpp *)
  | FnTimerQueue_addTimerInLoop (timer : timer_ptr)
  | FnTimerQueue_cancelInLoop (timerId : TimerId)
  | FnTimerQueue_handleRead
  (* EventLoop.cpp *)
  | FnEventLoop_handleRead
  (* TcpConnection.cpp *)
  | FnTcpConnection_handleRead (conn : conn_id)
  | FnTcpConnection_handleWrite (conn : conn_id)
  | FnTcpConnection_handleClose (conn : conn_id)
  | FnTcpConnection_handleError (conn : conn_id)
  | FnTcpConnection_sendInLoop (conn : conn_id) (message : bytes)
  | FnTcpConnection_shutdownInLoop (conn : conn_id)
  | FnWriteCompleteCallback (u : user_fn) (conn : conn_id)
  (* TcpServer.cpp, TcpClient.cpp *)
  | FnTcpConnection_connectEstablished (conn : conn_id)
  | FnTcpConnection_connectDestroyed (conn : conn_id)
  | FnTcpConnection_setCloseCallback (conn : conn_id) (cb : close_callback)
  | FnTcpServer_removeConnectionInLoop (conn : conn_id)
  | FnDetail_removeConnector
  (* Acceptor.cpp *)
  | FnAcceptor_handleRead
  | FnAcceptor_listen
  (* Connector.cpp *)
  | FnConnector_startInLoop
  | FnConnector_handleWrite
  | FnConnector_handleError
  | FnConnector_resetChannel.

#[export] Instance TimerId_eq_dec : EqDecision TimerId.
Proof. solve_decision. Defined.
#[export] Instance close_callback_eq_dec : EqDecision close_callback.
Proof. solve_decision. Defined.
#[export] Instance closure_eq_dec : EqDecision closure.
Proof. solve_decision. Defined.
