(* ===== verification/Channel.v ===== *)
(** * Channel: one file descriptor and its callbacks

    Models the data of src/muduo/Channel.h and src/muduo/Channel.cpp: the event
    masks with the platform's poll(2) constants, the state of a [Channel], the
    mask updates of the [enable]/[disable] members and the decision
    [handleEvent] takes from [revents_].  The effectful members ([update], the
    calls of the callbacks) are in EventLoop.v, where the loop they call is. *)

From S2P Require Import Prelude Callbacks.

(** <poll.h> on Linux. *)
Definition POLLIN : Z := 0x1.
Definition POLLPRI : Z := 0x2.
Definition POLLOUT : Z := 0x4.
Definition POLLERR : Z := 0x8.
Definition POLLHUP : Z := 0x10.
Definition POLLNVAL : Z := 0x20.
Definition POLLRDHUP : Z := 0x2000.

(** Channel.cpp writes a division between the masks: [POLLIN/POLLPRI]. *)
Definition kNoneEvent : Z := 0.
Definition kReadEvent : Z := Z.quot POLLIN POLLPRI.
Definition kWriteEvent : Z := POLLOUT.

Record channel : Type := mkChannel {
  loop_ : nat;
  fd_ : Z;
  events_ : Z;
  revents_ : Z;
  index_ : Z;
  eventHandling_ : bool;
  writeCallback_ : option closure;
  errorCallback_ : option closure;
  readCallback_ : option closure;
  closeCallback_ : option closure;
}.

Definition Channel_new (loop : nat) (fdArg : Z) : channel :=
  mkChannel loop fdArg 0 0 (-1) false None None None None.

Section setters.
Context (c : channel).
Definition set_events (e : Z) : channel :=
  mkChannel (loop_ c) (fd_ c) e (revents_ c) (index_ c) (eventHandling_ c)
    (writeCallback_ c) (errorCallback_ c) (readCallback_ c) (closeCallback_ c).
Definition set_revents (r : Z) : channel :=
  mkChannel (loop_ c) (fd_ c) (events_ c) r (index_ c) (eventHandling_ c)
    (writeCallback_ c) (errorCallback_ c) (readCallback_ c) (closeCallback_ c).
Definition set_index (i : Z) : channel :=
  mkChannel (loop_ c) (fd_ c) (events_ c) (revents_ c) i (eventHandling_ c)
    (writeCallback_ c) (errorCallback_ c) (readCallback_ c) (closeCallback_ c).
Definition set_eventHandling (b : bool) : channel :=
  mkChannel (loop_ c) (fd_ c) (events_ c) (revents_ c) (index_ c) b
    (writeCallback_ c) (errorCallback_ c) (readCallback_ c) (closeCallback_ c).
Definition setWriteCallback (cb : closure) : channel :=
  mkChannel (loop_ c) (fd_ c) (events_ c) (revents_ c) (index_ c) (eventHandling_ c)
    (Some cb) (errorCallback_ c) (readCallback_ c) (closeCallback_ c).
Definition setErrorCallback (cb : closure) : channel :=
  mkChannel (loop_ c) (fd_ c) (events_ c) (revents_ c) (index_ c) (eventHandling_ c)
    (writeCallback_ c) (Some cb) (readCallback_ c) (closeCallback_ c).
Definition setWReadCallback (cb : closure) : channel :=
  mkChannel (loop_ c) (fd_ c) (events_ c) (revents_ c) (index_ c) (eventHandling_ c)
    (writeCallback_ c) (errorCallback_ c) (Some cb) (closeCallback_ c).
Definition setCloseCallback (cb : closure) : channel :=
  mkChannel (loop_ c) (fd_ c) (events_ c) (revents_ c) (index_ c) (eventHandling_ c)
    (writeCallback_ c) (errorCallback_ c) (readCallback_ c) (Some cb).
End setters.

Definition isNoneEvent (c : channel) : bool := events_ c =? kNoneEvent.
Definition isWriting (c : channel) : bool := negb (Z.land (events_ c) kWriteEvent =? 0).

(** The mask updates of [enableReading], [enableWriting], [disableWriting] and
    [disableAll], before their call of [update]. *)
Inductive mask_op : Type := EnableReading | EnableWriting | DisableWriting | DisableAll.

Definition mask_update (o : mask_op) (e : Z) : Z :=
  match o with
  | EnableReading => Z.lor e kReadEvent
  | EnableWriting => Z.lor e kWriteEvent
  | DisableWriting => Z.land e (Z.lnot kWriteEvent)
  | DisableAll => kNoneEvent
  end.

(** The conditions of [handleEvent], in order. *)
Definition wants_error (r : Z) : bool := negb (Z.land r (Z.lor POLLERR POLLNVAL) =? 0).
Definition wants_close (r : Z) : bool :=
  negb (Z.land r POLLHUP =? 0) && (Z.land r POLLIN =? 0).
Definition wants_read (r : Z) : bool :=
  negb (Z.land r (Z.lor POLLIN (Z.quot POLLPRI POLLRDHUP)) =? 0).
Definition wants_write (r : Z) : bool := negb (Z.land r POLLOUT =? 0).

(** ** What the masks of Channel.cpp amount to *)

Lemma kReadEvent_none : kReadEvent = kNoneEvent.
Proof. reflexivity. Qed.

Lemma mask_EnableReading e : mask_update EnableReading e = e.
Proof. simpl. rewrite kReadEvent_none. apply Z.lor_0_r. Qed.

(** The masks a channel can reach from [events_ = 0]. *)
Lemma mask_update_reachable o e :
  e = kNoneEvent ∨ e = kWriteEvent →
  mask_update o e = kNoneEvent ∨ mask_update o e = kWriteEvent.
Proof.
  intros [-> | ->]; destruct o; vm_compute; auto.
Qed.

Lemma isWriting_iff c :
  events_ c = kNoneEvent ∨ events_ c = kWriteEvent →
  isWriting c = true ↔ events_ c = kWriteEvent.
Proof. unfold isWriting. intros [-> | ->]; vm_compute; split; congruence. Qed.

Lemma isNoneEvent_iff c : isNoneEvent c = true ↔ events_ c = kNoneEvent.
Proof. apply Z.eqb_eq. Qed.

(** A hang-up excludes the read callback, which would end [handleEvent]. *)
Lemma wants_close_no_read r : wants_close r = true → wants_read r = false.
Proof.
  unfold wants_close, wants_read. intros [_ H]%andb_true_iff.
  change (Z.lor POLLIN (Z.quot POLLPRI POLLRDHUP)) with POLLIN. by rewrite H.
Qed.
