(* ===== verification/Poller.v ===== *)
(** * Poller: multiplexing with poll(2)

    Models src/muduo/Poll.h and src/muduo/Poll.cpp.  The state is the members
    [pollfds_] and [channels_] and the heap of [Channel] objects they point
    into, [chans]: the poller writes [index_] and [revents_] of the channels.
    The result of [::poll] is an argument, constrained as poll(2) documents.
    [inv] is the correspondence between vector slots, map and channels;
    [interest] is the abstract state, what the kernel is asked to watch. *)

From S2P Require Import Prelude Callbacks Channel.

(** ** State *)

Record pollfd : Type := mkPollfd { fd : Z; events : Z; revents : Z }.

Record Poller : Type := mkPoller {
  pollfds_ : list pollfd;
  channels_ : gmap Z chan_id;
  chans : gmap chan_id channel;
}.

Definition Poller_new : Poller := mkPoller [] ∅ ∅.

Definition set_chan (c : chan_id) (ch : channel) (s : Poller) : Poller :=
  mkPoller (pollfds_ s) (channels_ s) (<[c := ch]> (chans s)).

(** Access through a [Channel*]. *)
Definition chan (c : chan_id) : M Poller channel :=
  s ← get; deref DanglingPtr (chans s !! c).

Definition upd_chan (c : chan_id) (f : channel → channel) : M Poller unit :=
  ch ← chan c; modify (set_chan c (f ch)).

(** [Channel::~Channel]; it does not look for the channel in the poller. *)
Definition Channel_delete (c : chan_id) : M Poller unit :=
  ch ← chan c;
  assert_ (negb (eventHandling_ ch)) ;;
  modify (λ s, mkPoller (pollfds_ s) (channels_ s) (delete c (chans s))).

(** ** Operations *)

Definition updateChannel (c : chan_id) : M Poller unit :=
  channel ← chan c;
  s ← get;
  if index_ channel <? 0 then
    assert_ (bool_decide (channels_ s !! fd_ channel = None)) ;;
    let pfd := mkPollfd (fd_ channel) (i16 (events_ channel)) 0 in
    let pollfds := pollfds_ s ++ [pfd] in
    let idx := i32 (zlen pollfds) - 1 in
    put (mkPoller pollfds (<[fd pfd := c]> (channels_ s))
           (<[c := set_index channel idx]> (chans s)))
  else
    assert_ (bool_decide (is_Some (channels_ s !! fd_ channel))) ;;
    assert_ (bool_decide (channels_ s !! fd_ channel = Some c)) ;;
    let idx := index_ channel in
    assert_ ((0 <=? idx) && (idx <? i32 (zlen (pollfds_ s)))) ;;
    pfd ← deref OutOfBounds (pollfds_ s !! Z.to_nat idx);
    assert_ ((fd pfd =? fd_ channel) || (fd pfd =? - fd_ channel - 1)) ;;
    let pfd' := mkPollfd (if isNoneEvent channel then - fd_ channel - 1 else fd pfd)
                  (i16 (events_ channel)) 0 in
    put (mkPoller (<[Z.to_nat idx := pfd']> (pollfds_ s)) (channels_ s) (chans s)).

Definition removeChannel (c : chan_id) : M Poller unit :=
  channel ← chan c;
  s ← get;
  assert_ (bool_decide (is_Some (channels_ s !! fd_ channel))) ;;
  assert_ (bool_decide (channels_ s !! fd_ channel = Some c)) ;;
  assert_ (isNoneEvent channel) ;;
  let idx := index_ channel in
  assert_ ((0 <=? idx) && (idx <? i32 (zlen (pollfds_ s)))) ;;
  pfd ← deref OutOfBounds (pollfds_ s !! Z.to_nat idx);
  assert_ ((fd pfd =? - fd_ channel - 1) && (events pfd =? events_ channel)) ;;
  let channels := delete (fd_ channel) (channels_ s) in
  if idx =? zlen (pollfds_ s) - 1 then
    put (mkPoller (removelast (pollfds_ s)) channels (chans s))
  else
    back ← deref OutOfBounds (last (pollfds_ s));
    let channelAtEnd := if fd back <? 0 then - fd back - 1 else fd back in
    let swapped := <[Z.to_nat idx := back]> (pollfds_ s) in
    (* channels_[channelAtEnd]: a missing key is a null Channel* *)
    e ← deref NullDeref (channels !! channelAtEnd);
    put (mkPoller (removelast swapped) channels (chans s)) ;;
    upd_chan e (λ ch, set_index ch idx).

Fixpoint fillActiveChannels_loop (pfds : list pollfd) (numEvents : Z)
    (activeChannels : list chan_id) : M Poller (list chan_id) :=
  match pfds with
  | [] => mret activeChannels
  | pfd :: pfds' =>
      if numEvents >? 0 then
        if revents pfd >? 0 then
          s ← get;
          assert_ (bool_decide (is_Some (channels_ s !! fd pfd))) ;;
          c ← deref NullDeref (channels_ s !! fd pfd);
          channel_thing ← chan c;
          assert_ (fd_ channel_thing =? fd pfd) ;;
          upd_chan c (λ ch, set_revents ch (revents pfd)) ;;
          fillActiveChannels_loop pfds' (numEvents - 1) (activeChannels ++ [c])
        else fillActiveChannels_loop pfds' numEvents activeChannels
      else mret activeChannels
  end.

Definition fillActiveChannels (numEvents : Z) (activeChannels : list chan_id) :
    M Poller (list chan_id) :=
  s ← get; fillActiveChannels_loop (pollfds_ s) numEvents activeChannels.

(** poll(2): an entry with a negative descriptor gets [revents = 0]; any other
    reports requested events or [POLLERR], [POLLHUP], [POLLNVAL]; the call
    returns the number of entries with a nonzero [revents]. *)
Definition kernel_poll_entry (p : pollfd) (ready : Z) : pollfd :=
  mkPollfd (fd p) (events p)
    (if fd p <? 0 then 0
     else Z.land ready (Z.lor (events p) (Z.lor POLLERR (Z.lor POLLHUP POLLNVAL)))).

Definition kernel_poll (pfds : list pollfd) (ready : Z → Z) : list pollfd :=
  (λ p, kernel_poll_entry p (ready (fd p))) <$> pfds.

Definition ready_count (pfds : list pollfd) : Z :=
  zlen (filter (λ p, revents p ≠ 0) pfds).

(** [ready]: the events pending on each descriptor, or [None] for a failed
    call.  [Timestamp now;] is the default constructor: the zero time. *)
Definition poll (ready : option (Z → Z)) (activeChannels : list chan_id) :
    M Poller (Z * list chan_id) :=
  match ready with
  | None => mret (0, activeChannels)
  | Some r =>
      s ← get;
      let pfds := kernel_poll (pollfds_ s) r in
      let numEvents := ready_count pfds in
      put (mkPoller pfds (channels_ s) (chans s)) ;;
      if numEvents >? 0 then
        active ← fillActiveChannels numEvents activeChannels;
        mret (0, active)
      else mret (0, activeChannels)
  end.

(** ** Invariant and abstract state *)

(** The descriptor a slot belongs to: a disabled slot stores [-fd-1]. *)
Definition slot_fd (p : pollfd) : Z := if fd p <? 0 then - fd p - 1 else fd p.

(** [c] is registered in slot [i] as channel [ch]. *)
Definition registered (s : Poller) (c : chan_id) (ch : channel) (i : nat) (p : pollfd) : Prop :=
  chans s !! c = Some ch ∧ channels_ s !! fd_ ch = Some c ∧
  index_ ch = Z.of_nat i ∧ pollfds_ s !! i = Some p ∧ slot_fd p = fd_ ch ∧ 0 ≤ fd_ ch.

Record inv (s : Poller) : Prop := mkInv {
  inv_map : ∀ k c, channels_ s !! k = Some c →
    ∃ ch i p, fd_ ch = k ∧ registered s c ch i p;
  inv_slot : ∀ i p, pollfds_ s !! i = Some p → ∃ c ch, registered s c ch i p;
  inv_size : zlen (pollfds_ s) < 2 ^ 31;
}.

(** The descriptors and masks the kernel watches. *)
Definition interest (s : Poller) : gmap Z Z :=
  list_to_map ((λ p, (fd p, events p)) <$> filter (λ p, 0 ≤ fd p) (pollfds_ s)).

(** ** Basic facts *)

Lemma slot_fd_on k : 0 ≤ k → slot_fd (mkPollfd k 0 0) = k.
Proof. unfold slot_fd; simpl. bool_cases. Qed.

Lemma slot_fd_off k e r : 0 ≤ k → slot_fd (mkPollfd (- k - 1) e r) = k.
Proof. unfold slot_fd; simpl. bool_cases. Qed.

Lemma slot_fd_cases p k : slot_fd p = k → 0 ≤ k → fd p = k ∨ fd p = - k - 1.
Proof. unfold slot_fd. bool_cases. Qed.

Section facts.
Context (s : Poller).

Lemma registered_unique c ch i p c' ch' i' p' :
  registered s c ch i p → registered s c' ch' i' p' →
  c = c' ∨ i = i' ∨ fd_ ch = fd_ ch' → c = c' ∧ ch = ch' ∧ i = i' ∧ p = p'.
Proof.
  intros (Hc & Hm & Hi & Hp & Hs & _) (Hc' & Hm' & Hi' & Hp' & Hs' & _) Heq.
  assert (c = c') as <-.
  { destruct Heq as [ | [<- | Hfd]]; [done| |congruence].
    assert (p = p') by congruence. congruence. }
  assert (ch = ch') as <- by congruence. assert (i = i') as <- by lia.
  naive_solver congruence.
Qed.

Lemma registered_ne c ch i p c' ch' i' p' :
  registered s c ch i p → registered s c' ch' i' p' → c' ≠ c →
  i ≠ i' ∧ fd_ ch ≠ fd_ ch'.
Proof.
  intros H H' Hne. split; intros E; apply Hne;
    destruct (registered_unique c ch i p c' ch' i' p' H H') as [? _]; tauto || done.
Qed.

Lemma registered_lt c ch i p : registered s c ch i p → (i < length (pollfds_ s))%nat.
Proof. intros (_ & _ & _ & Hp & _). by eapply lookup_lt_Some. Qed.
End facts.

(** Changing a channel in the heap without touching [fd_] or [index_]. *)
Lemma registered_set_chan s c ch ch' d chd i p :
  chans s !! c = Some ch → fd_ ch' = fd_ ch → index_ ch' = index_ ch →
  registered s d chd i p →
  registered (set_chan c ch' s) d (if decide (d = c) then ch' else chd) i p.
Proof.
  intros Hc Hf Hi (H1 & H2 & H3 & H4 & H5 & H6). unfold registered; simpl.
  destruct (decide (d = c)) as [->|].
  - rewrite lookup_insert_eq. assert (chd = ch) as -> by congruence.
    rewrite Hf, Hi. done.
  - rewrite lookup_insert_ne by done. done.
Qed.

Lemma inv_set_chan s c ch ch' :
  inv s → chans s !! c = Some ch → fd_ ch' = fd_ ch → index_ ch' = index_ ch →
  inv (set_chan c ch' s).
Proof.
  intros Hs Hc Hf Hi. split; simpl.
  - intros k d Hk. destruct (inv_map s Hs k d Hk) as (chd & i & p & <- & Hr).
    eexists _, i, p. split; [|by eapply registered_set_chan].
    case_decide; [|done]. destruct Hr as (? & _). subst. congruence.
  - intros i p Hp. destruct (inv_slot s Hs i p Hp) as (d & chd & Hr).
    eexists d, _. by eapply registered_set_chan.
  - apply Hs.
Qed.

(** A new object in the heap. *)
Lemma registered_set_chan_new s c ch d chd i p :
  chans s !! c = None → registered s d chd i p → registered (set_chan c ch s) d chd i p.
Proof. intros Hc (H1 & H2). split; [|done]. simpl. rewrite lookup_insert_ne by congruence. done. Qed.

Lemma inv_set_chan_new s c ch : inv s → chans s !! c = None → inv (set_chan c ch s).
Proof.
  intros Hs Hc.
  assert (∀ d chd i p, registered s d chd i p → registered (set_chan c ch s) d chd i p) as Hold
    by (intros d chd i p; by apply registered_set_chan_new).
  split; simpl.
  - intros k d Hk. destruct (inv_map s Hs k d Hk) as (chd & i & p & <- & Hr). eexists chd, i, p. auto.
  - intros i p Hp. destruct (inv_slot s Hs i p Hp) as (d & chd & Hr). eexists d, chd. auto.
  - apply Hs.
Qed.

(** Deleting a channel that is not registered. *)
Lemma inv_delete_chan s c ch :
  inv s → chans s !! c = Some ch → channels_ s !! fd_ ch = None →
  inv (mkPoller (pollfds_ s) (channels_ s) (delete c (chans s))).
Proof.
  intros Hs Hc Hn.
  assert (∀ d chd i p, registered s d chd i p →
    registered (mkPoller (pollfds_ s) (channels_ s) (delete c (chans s))) d chd i p) as Hold.
  { intros d chd i p (H1 & H2 & H3). split; [|done]. simpl. rewrite lookup_delete_ne; [done|].
    intros <-. congruence. }
  split; simpl.
  - intros k d Hk. destruct (inv_map s Hs k d Hk) as (chd & i & p & E & Hr). exists chd, i, p. auto.
  - intros i p Hp. destruct (inv_slot s Hs i p Hp) as (d & chd & Hr). exists d, chd. auto.
  - apply Hs.
Qed.

Lemma chan_eq s c ch : chans s !! c = Some ch → chan c s = Ok (ch, s).
Proof. intros H. unfold chan. mstep. by rewrite H. Qed.

Lemma upd_chan_eq s c ch f :
  chans s !! c = Some ch → upd_chan c f s = Ok (tt, set_chan c (f ch) s).
Proof. intros H. unfold upd_chan. by mstep_by (by apply chan_eq). Qed.

(** ** updateChannel *)

Lemma chan_inv c s ch s' : chan c s = Ok (ch, s') → chans s !! c = Some ch ∧ s' = s.
Proof. unfold chan. intros H. by minv H. Qed.

Lemma upd_chan_inv c f s u s' :
  upd_chan c f s = Ok (u, s') → ∃ ch, chans s !! c = Some ch ∧ s' = set_chan c (f ch) s.
Proof.
  unfold upd_chan. intros (ch & s1 & [Hc ->]%chan_inv & [= _ <-])%bind_Ok. by exists ch.
Qed.

Definition new_pollfd (ch : channel) : pollfd := mkPollfd (fd_ ch) (i16 (events_ ch)) 0.
Definition updated_pollfd (ch : channel) (p : pollfd) : pollfd :=
  mkPollfd (if isNoneEvent ch then - fd_ ch - 1 else fd p) (i16 (events_ ch)) 0.

Lemma updateChannel_new_eq s c ch :
  chans s !! c = Some ch → index_ ch < 0 → channels_ s !! fd_ ch = None →
  zlen (pollfds_ s) + 1 < 2 ^ 31 →
  updateChannel c s =
    Ok (tt, mkPoller (pollfds_ s ++ [new_pollfd ch]) (<[fd_ ch := c]> (channels_ s))
              (<[c := set_index ch (zlen (pollfds_ s))]> (chans s))).
Proof.
  intros Hc Hi Hm Hn. unfold updateChannel. mstep_by (by apply chan_eq). mstep.
  rewrite (proj2 (Z.ltb_lt _ _)) by done. unfold assert_.
  rewrite bool_decide_eq_true_2 by done. mstep. unfold put.
  assert (i32 (zlen (pollfds_ s ++ [new_pollfd ch])) - 1 = zlen (pollfds_ s)) as E.
  { pose proof (zlen_nonneg (pollfds_ s)).
    rewrite zlen_app, i32_small; rewrite zlen_cons, zlen_nil; lia. }
  unfold new_pollfd in *. by rewrite E.
Qed.

Lemma updateChannel_old_eq s c ch i p :
  inv s → registered s c ch i p →
  updateChannel c s =
    Ok (tt, mkPoller (<[i := updated_pollfd ch p]> (pollfds_ s)) (channels_ s) (chans s)).
Proof.
  intros Hs (Hc & Hm & Hi & Hp & Hsl & Hf). unfold updateChannel.
  mstep_by (by apply chan_eq). mstep.
  rewrite (proj2 (Z.ltb_ge _ _)) by lia. unfold assert_.
  rewrite Hm. rewrite !bool_decide_eq_true_2 by (done || eauto). do 2 mstep.
  pose proof (inv_size s Hs). pose proof (lookup_lt_Some _ _ _ Hp).
  rewrite i32_small by (unfold zlen in *; lia).
  rewrite Hi. rewrite (proj2 (andb_true_iff _ _)) by (unfold zlen; lia). mstep.
  rewrite Nat2Z.id, Hp. mstep.
  destruct (slot_fd_cases p _ Hsl Hf) as [E|E]; rewrite E, Z.eqb_refl, ?orb_true_r;
    mstep; unfold put, updated_pollfd; by rewrite ?E.
Qed.

Lemma inv_updateChannel_new s c ch :
  inv s → chans s !! c = Some ch → index_ ch < 0 → channels_ s !! fd_ ch = None →
  zlen (pollfds_ s) + 1 < 2 ^ 31 → 0 ≤ fd_ ch →
  let s' := mkPoller (pollfds_ s ++ [new_pollfd ch]) (<[fd_ ch := c]> (channels_ s))
              (<[c := set_index ch (zlen (pollfds_ s))]> (chans s)) in
  inv s' ∧ registered s' c (set_index ch (zlen (pollfds_ s))) (length (pollfds_ s)) (new_pollfd ch) ∧
  (∀ d chd i p, registered s d chd i p → registered s' d chd i p).
Proof.
  intros Hs Hc Hi Hm Hn Hf s'.
  assert (registered s' c (set_index ch (zlen (pollfds_ s))) (length (pollfds_ s)) (new_pollfd ch))
    as Hnew.
  { unfold registered, s'; simpl. rewrite !lookup_insert_eq. split_and!; try done.
    - by rewrite lookup_app_r, Nat.sub_diag by lia.
    - unfold slot_fd; simpl. bool_cases. }
  assert (∀ d chd i p, registered s d chd i p → registered s' d chd i p) as Hold.
  { intros d chd i p (H1 & H2 & H3 & H4 & H5 & H6).
    assert (d ≠ c) by (intros ->; rewrite Hc in H1; simplify_eq; lia).
    unfold registered, s'; simpl. rewrite lookup_insert_ne by done.
    rewrite lookup_insert_ne by congruence. rewrite lookup_app_l by (by eapply lookup_lt_Some).
    done. }
  split; [|done]. split.
  - intros k d. unfold s' at 1; simpl. intros [[<- <-]|[Hk Hd]]%lookup_insert_Some.
    + do 3 eexists. by split; [|exact Hnew].
    + destruct (inv_map s Hs k d Hd) as (chd & i & p & E & Hr). eexists chd, i, p; eauto.
  - intros i p. unfold s' at 1; simpl. intros [Hp|[Hge Hp]]%lookup_app_Some.
    + destruct (inv_slot s Hs i p Hp) as (d & chd & Hr). eauto.
    + apply list_lookup_singleton_Some in Hp as [E <-].
      replace i with (length (pollfds_ s)) by lia. eauto.
  - simpl. rewrite zlen_app, zlen_cons, zlen_nil. lia.
Qed.

Lemma registered_updated s c ch i p d chd j q :
  registered s c ch i p → registered s d chd j q →
  registered (mkPoller (<[i := updated_pollfd ch p]> (pollfds_ s)) (channels_ s) (chans s))
    d chd j (if decide (d = c) then updated_pollfd ch p else q).
Proof.
  intros Hr Hd. pose proof (registered_lt _ _ _ _ _ Hr).
  destruct (decide (d = c)) as [->|Hne].
  - destruct (registered_unique s c ch i p c chd j q Hr Hd) as (_ & <- & <- & <-); [tauto|].
    destruct Hr as (H1 & H2 & H3 & H4 & H5 & H6). unfold registered; simpl.
    rewrite list_lookup_insert_eq by done. split_and!; try done.
    unfold updated_pollfd. destruct (isNoneEvent ch); [by apply slot_fd_off|].
    unfold slot_fd in *; simpl. done.
  - destruct (registered_ne s c ch i p d chd j q Hr Hd Hne) as [Hij _].
    destruct Hd as (H1 & H2 & H3 & H4 & H5 & H6). unfold registered; simpl.
    by rewrite list_lookup_insert_ne by done.
Qed.

Lemma inv_updateChannel_old s c ch i p :
  inv s → registered s c ch i p →
  inv (mkPoller (<[i := updated_pollfd ch p]> (pollfds_ s)) (channels_ s) (chans s)).
Proof.
  intros Hs Hr. split; simpl.
  - intros k d Hk. destruct (inv_map s Hs k d Hk) as (chd & j & q & <- & Hd).
    do 3 eexists. split; [done|]. by eapply registered_updated.
  - intros j q Hq. pose proof (registered_lt _ _ _ _ _ Hr).
    assert (∃ q', pollfds_ s !! j = Some q') as [q' Hq'].
    { apply lookup_lt_is_Some. apply lookup_lt_Some in Hq. by rewrite length_insert in Hq. }
    destruct (inv_slot s Hs j q' Hq') as (d & chd & Hd).
    exists d, chd. pose proof (registered_updated s c ch i p d chd j q' Hr Hd) as Hu.
    assert (q = if decide (d = c) then updated_pollfd ch p else q') as ->; [|done].
    destruct Hu as (_ & _ & _ & Hu & _). simpl in Hu. congruence.
  - unfold zlen. rewrite length_insert. apply (inv_size s Hs).
Qed.

(** A channel may be handed to [updateChannel] when it is registered, or new
    with a descriptor no channel is registered for. *)
Definition can_update (s : Poller) (c : chan_id) (ch : channel) : Prop :=
  (∃ i p, registered s c ch i p) ∨
  (chans s !! c = Some ch ∧ index_ ch < 0 ∧ channels_ s !! fd_ ch = None ∧ 0 ≤ fd_ ch ∧
   zlen (pollfds_ s) + 1 < 2 ^ 31).

(** ** removeChannel *)

Lemma lookup_removelast {A} (l : list A) i :
  removelast l !! i = if decide (i < length l - 1)%nat then l !! i else None.
Proof.
  rewrite removelast_firstn_len, lookup_take.
  repeat case_decide; try done; lia.
Qed.

Lemma zlen_removelast {A} (l : list A) : l ≠ [] → zlen (removelast l) = zlen l - 1.
Proof.
  intros. rewrite removelast_firstn_len. unfold zlen. rewrite length_take.
  destruct l; [done|]. simpl. lia.
Qed.

(** The state [removeChannel] leaves when slot [i] of [fd_ ch] is freed. *)
Definition removed_last (s : Poller) (k : Z) : Poller :=
  mkPoller (removelast (pollfds_ s)) (delete k (channels_ s)) (chans s).
Definition removed_swap (s : Poller) (k : Z) (i : nat) (back : pollfd) (e : chan_id) (che : channel)
    : Poller :=
  mkPoller (removelast (<[i := back]> (pollfds_ s))) (delete k (channels_ s))
    (<[e := set_index che (Z.of_nat i)]> (chans s)).

Section remove.
Context (s : Poller) (c : chan_id) (ch : channel) (i : nat) (p : pollfd).
Context (Hs : inv s) (Hr : registered s c ch i p).
Context (Hnone : events_ ch = kNoneEvent) (Hoff : fd p = - fd_ ch - 1) (Hev : events p = 0).

Lemma removeChannel_last_eq :
  Z.of_nat i = zlen (pollfds_ s) - 1 →
  removeChannel c s = Ok (tt, removed_last s (fd_ ch)).
Proof using All.
  intros Hlast. destruct Hr as (Hc & Hm & Hi & Hp & Hsl & Hf).
  unfold removeChannel. mstep_by (by apply chan_eq). mstep. unfold assert_.
  rewrite Hm. rewrite !bool_decide_eq_true_2 by (done || eauto). do 2 mstep.
  unfold isNoneEvent. rewrite Hnone, Z.eqb_refl. mstep.
  pose proof (inv_size s Hs). pose proof (lookup_lt_Some _ _ _ Hp).
  rewrite i32_small by (unfold zlen in *; lia).
  rewrite Hi. rewrite (proj2 (andb_true_iff _ _)) by (unfold zlen in *; lia). mstep.
  rewrite Nat2Z.id, Hp. mstep. rewrite Hoff, Hev, !Z.eqb_refl. mstep.
  by rewrite (proj2 (Z.eqb_eq _ _)) by lia.
Qed.

Lemma removeChannel_swap_eq back e che :
  Z.of_nat i < zlen (pollfds_ s) - 1 →
  registered s e che (length (pollfds_ s) - 1) back →
  removeChannel c s = Ok (tt, removed_swap s (fd_ ch) i back e che).
Proof using All.
  intros Hlast (He & Hme & Hie & Hpe & Hsle & Hfe).
  destruct Hr as (Hc & Hm & Hi & Hp & Hsl & Hf).
  unfold removeChannel. mstep_by (by apply chan_eq). mstep. unfold assert_.
  rewrite Hm. rewrite !bool_decide_eq_true_2 by (done || eauto). do 2 mstep.
  unfold isNoneEvent. rewrite Hnone, Z.eqb_refl. mstep.
  pose proof (inv_size s Hs). pose proof (lookup_lt_Some _ _ _ Hp).
  rewrite i32_small by (unfold zlen in *; lia).
  rewrite Hi. rewrite (proj2 (andb_true_iff _ _)) by (unfold zlen in *; lia). mstep.
  rewrite Nat2Z.id, Hp. mstep. rewrite Hoff, Hev, !Z.eqb_refl. mstep.
  rewrite (proj2 (Z.eqb_neq _ _)) by lia.
  rewrite last_lookup. replace (pred (length (pollfds_ s))) with (length (pollfds_ s) - 1)%nat by lia.
  rewrite Hpe. mstep. fold (slot_fd back). rewrite Hsle.
  assert (fd_ ch ≠ fd_ che) as Hne.
  { intros E. assert (c = e) as <- by congruence. assert (ch = che) as <- by congruence.
    unfold zlen in *. lia. }
  rewrite lookup_delete_ne, Hme by done. mstep. mstep.
  by rewrite upd_chan_eq with (ch := che) by done.
Qed.

(** Every other channel keeps its registration, possibly in another slot. *)
Lemma registered_removed_last d chd j q :
  Z.of_nat i = zlen (pollfds_ s) - 1 → d ≠ c → registered s d chd j q →
  registered (removed_last s (fd_ ch)) d chd j q.
Proof using Hr.
  intros Hlast Hne Hd.
  destruct (registered_ne s c ch i p d chd j q Hr Hd Hne) as [Hij Hfd].
  pose proof (registered_lt _ _ _ _ _ Hd).
  destruct Hd as (H1 & H2 & H3 & H4 & H5 & H6). unfold registered; simpl.
  rewrite lookup_delete_ne by done. rewrite lookup_removelast, decide_True
    by (unfold zlen in *; lia). done.
Qed.

Lemma registered_removed_swap back e che d chd j q :
  Z.of_nat i < zlen (pollfds_ s) - 1 →
  registered s e che (length (pollfds_ s) - 1) back →
  d ≠ c → registered s d chd j q →
  if decide (d = e) then
    registered (removed_swap s (fd_ ch) i back e che) d (set_index chd (Z.of_nat i)) i q
  else registered (removed_swap s (fd_ ch) i back e che) d chd j q.
Proof using Hr.
  intros Hlast He Hne Hd.
  destruct (registered_ne s c ch i p d chd j q Hr Hd Hne) as [Hij Hfd].
  pose proof (registered_lt _ _ _ _ _ Hd). pose proof (registered_lt _ _ _ _ _ Hr).
  case_decide as Hde.
  - subst e. destruct (registered_unique s d che _ back d chd j q He Hd) as (_ & <- & <- & <-);
      [tauto|].
    destruct Hd as (H1 & H2 & H3 & H4 & H5 & H6). unfold registered; simpl.
    rewrite lookup_insert_eq, lookup_delete_ne by done.
    rewrite lookup_removelast, length_insert, decide_True by (unfold zlen in *; lia).
    by rewrite list_lookup_insert_eq by done.
  - destruct (registered_ne s e che _ back d chd j q He Hd Hde) as [Hej _].
    destruct Hd as (H1 & H2 & H3 & H4 & H5 & H6). unfold registered; simpl.
    rewrite lookup_insert_ne, lookup_delete_ne by done.
    rewrite lookup_removelast, length_insert, decide_True by lia.
    by rewrite list_lookup_insert_ne by done.
Qed.
End remove.

Lemma inv_remove s c ch i p s' (moved : chan_id → channel → nat → channel * nat) :
  inv s → registered s c ch i p →
  channels_ s' = delete (fd_ ch) (channels_ s) →
  zlen (pollfds_ s') = zlen (pollfds_ s) - 1 →
  (∀ d chd j q, d ≠ c → registered s d chd j q →
     fd_ (moved d chd j).1 = fd_ chd ∧ registered s' d (moved d chd j).1 (moved d chd j).2 q) →
  (∀ j q, pollfds_ s' !! j = Some q →
     ∃ d chd j', d ≠ c ∧ registered s d chd j' q ∧ (moved d chd j').2 = j) →
  inv s'.
Proof.
  intros Hs Hr Hm Hz Hmv Hsl. split.
  - intros k d. rewrite Hm. intros [Hk Hd]%lookup_delete_Some.
    destruct (inv_map s Hs k d Hd) as (chd & j & q & E & Hd').
    assert (d ≠ c).
    { intros ->. destruct Hr as (H1 & _), Hd' as (H2 & _). congruence. }
    destruct (Hmv d chd j q) as [Hf Hr']; [done..|].
    do 3 eexists. split; [|exact Hr']. congruence.
  - intros j q Hq. destruct (Hsl j q Hq) as (d & chd & j' & Hne & Hd & <-).
    destruct (Hmv d chd j' q Hne Hd) as [_ Hr']. eauto.
  - pose proof (inv_size s Hs). lia.
Qed.

Lemma slot_other s c ch i p j q :
  inv s → registered s c ch i p → pollfds_ s !! j = Some q → j ≠ i →
  ∃ d chd, d ≠ c ∧ registered s d chd j q.
Proof.
  intros Hs Hr Hq Hne. destruct (inv_slot s Hs j q Hq) as (d & chd & Hd).
  exists d, chd. split; [|done]. intros ->.
  destruct (registered_unique s c ch i p c chd j q Hr Hd) as (_ & _ & ? & _); [tauto|done].
Qed.

Lemma removeChannel_spec s c ch i p :
  inv s → registered s c ch i p → events_ ch = kNoneEvent →
  fd p = - fd_ ch - 1 → events p = 0 →
  ∃ s', removeChannel c s = Ok (tt, s') ∧ inv s' ∧
    channels_ s' = delete (fd_ ch) (channels_ s) ∧ chans s' !! c = Some ch ∧
    zlen (pollfds_ s') = zlen (pollfds_ s) - 1 ∧
    ∀ d chd j q, d ≠ c → registered s d chd j q →
      ∃ j', registered s' d (set_index chd (Z.of_nat j')) j' q.
Proof.
  intros Hs Hr Hn Hoff Hev. pose proof (registered_lt _ _ _ _ _ Hr) as Hlt.
  destruct (decide (Z.of_nat i = zlen (pollfds_ s) - 1)) as [Hlast|Hlast].
  - exists (removed_last s (fd_ ch)).
    split; [by eapply removeChannel_last_eq|].
    assert (zlen (removelast (pollfds_ s)) = zlen (pollfds_ s) - 1) as Hz.
    { apply zlen_removelast. intros E. rewrite E in Hlt. simpl in Hlt. lia. }
    split; [|split; [done|split; [by destruct Hr|split; [done|]]]].
    + eapply (inv_remove s c ch i p _ (λ d chd j, (chd, j))); try done.
      * intros d chd j q Hd Hrd. split; [done|]. by eapply registered_removed_last.
      * intros j q. simpl. rewrite lookup_removelast. case_decide; [|done]. intros Hq.
        destruct (slot_other s c ch i p j q) as (d & chd & ? & ?); try done.
        { unfold zlen in *. lia. }
        by exists d, chd, j.
    + intros d chd j q Hd Hrd. exists j. assert (set_index chd (Z.of_nat j) = chd) as ->.
      { destruct Hrd as (_ & _ & <- & _). by destruct chd. }
      by eapply registered_removed_last.
  - assert (Z.of_nat i < zlen (pollfds_ s) - 1) as Hlt' by (unfold zlen in *; lia).
    assert (∃ back, pollfds_ s !! (length (pollfds_ s) - 1)%nat = Some back) as [back Hb].
    { apply lookup_lt_is_Some. lia. }
    destruct (slot_other s c ch i p _ back Hs Hr Hb) as (e & che & Hec & He).
    { unfold zlen in *. lia. }
    exists (removed_swap s (fd_ ch) i back e che).
    split; [by eapply removeChannel_swap_eq|].
    assert (zlen (removelast (<[i := back]> (pollfds_ s))) = zlen (pollfds_ s) - 1) as Hz.
    { rewrite zlen_removelast; unfold zlen; rewrite ?length_insert; [done|].
      intros E. apply (f_equal length) in E. rewrite length_insert in E. simpl in E. lia. }
    split; [|split; [done|split; [|split; [done|]]]].
    + eapply (inv_remove s c ch i p _ (λ d chd j,
        if decide (d = e) then (set_index chd (Z.of_nat i), i) else (chd, j))); try done.
      * intros d chd j q Hd Hrd.
        pose proof (registered_removed_swap s c ch i p Hr back e che d chd j q Hlt' He Hd Hrd).
        by case_decide.
      * intros j q. simpl. rewrite lookup_removelast, length_insert. case_decide; [|done].
        intros Hq. destruct (decide (j = i)) as [->|Hji].
        -- rewrite list_lookup_insert_eq in Hq by done. simplify_eq.
           exists e, che, (length (pollfds_ s) - 1)%nat. by rewrite decide_True.
        -- rewrite list_lookup_insert_ne in Hq by done.
           destruct (slot_other s c ch i p j q) as (d & chd & ? & Hd); try done.
           exists d, chd, j. split_and!; try done. rewrite decide_False; [done|].
           intros ->. destruct (registered_unique s e che _ back e chd j q He Hd)
             as (_ & _ & ? & _); [tauto|lia].
    + simpl. rewrite lookup_insert_ne by done. by destruct Hr.
    + intros d chd j q Hd Hrd.
      pose proof (registered_removed_swap s c ch i p Hr back e che d chd j q Hlt' He Hd Hrd).
      case_decide; [by exists i|]. exists j. assert (set_index chd (Z.of_nat j) = chd) as ->; [|done].
      destruct Hrd as (_ & _ & <- & _). by destruct chd.
Qed.

(** C28: removing a registered channel whose events were all disabled succeeds,
    keeps the slots, the map and the channels consistent, and leaves every
    other channel registered with the same descriptor and mask, whichever slot
    the removed one occupied. *)
Theorem removeChannel_correct s c ch i p :
  inv s → registered s c ch i p → events_ ch = kNoneEvent →
  fd p = - fd_ ch - 1 → events p = 0 →
  ∃ s', removeChannel c s = Ok (tt, s') ∧ inv s' ∧
    channels_ s' = delete (fd_ ch) (channels_ s) ∧
    ∀ d chd j q, d ≠ c → registered s d chd j q →
      ∃ chd' j', registered s' d chd' j' q ∧ fd_ chd' = fd_ chd ∧ events_ chd' = events_ chd.
Proof.
  intros Hs Hr Hn Hoff Hev.
  destruct (removeChannel_spec s c ch i p Hs Hr Hn Hoff Hev) as (s' & E & Hs' & Hm & _ & _ & Ho).
  exists s'. split_and!; try done. intros d chd j q Hd Hrd.
  destruct (Ho d chd j q Hd Hrd) as (j' & Hr'). by exists (set_index chd (Z.of_nat j')), j'.
Qed.

(** ** fillActiveChannels and poll *)

Lemma inv_NoDup_fd s : inv s → NoDup (fd <$> pollfds_ s).
Proof.
  intros Hs. apply NoDup_fmap_2_strong; [|].
  2:{ apply NoDup_alt. intros i j p Hi Hj.
      destruct (inv_slot s Hs i p Hi) as (c & ch & Hc).
      destruct (inv_slot s Hs j p Hj) as (d & chd & Hd).
      destruct (registered_unique s c ch i p d chd j p Hc Hd) as (_ & _ & ? & _); [|done].
      right. right. destruct Hc as (_ & _ & _ & _ & <- & _), Hd as (_ & _ & _ & _ & <- & _). done. }
  intros p q [i Hi]%list_elem_of_lookup [j Hj]%list_elem_of_lookup E.
  destruct (inv_slot s Hs i p Hi) as (c & ch & Hc).
  destruct (inv_slot s Hs j q Hj) as (d & chd & Hd).
  destruct (registered_unique s c ch i p d chd j q Hc Hd) as (_ & _ & _ & ?); [|done].
  right. right. destruct Hc as (_ & _ & _ & _ & <- & _), Hd as (_ & _ & _ & _ & <- & _).
  unfold slot_fd. by rewrite E.
Qed.

Definition positive_count (pfds : list pollfd) : Z :=
  zlen (filter (λ p, 0 < revents p) pfds).

Lemma positive_count_cons p pfds :
  positive_count (p :: pfds) = (if decide (0 < revents p) then 1 else 0) + positive_count pfds.
Proof.
  unfold positive_count. rewrite filter_cons. case_decide; [by rewrite zlen_cons|lia].
Qed.

(** Entry [p] reports events for channel [c]. *)
Definition reports (s : Poller) (pfds : list pollfd) (c : chan_id) (r : Z) : Prop :=
  ∃ p, p ∈ pfds ∧ 0 < revents p ∧ channels_ s !! fd p = Some c ∧ r = revents p.

Definition fillable (s : Poller) (pfds : list pollfd) : Prop :=
  ∀ p, p ∈ pfds → 0 < revents p →
    ∃ c ch, channels_ s !! fd p = Some c ∧ chans s !! c = Some ch ∧ fd_ ch = fd p.

Lemma reports_nil s c r : ¬ reports s [] c r.
Proof. intros (p & Hp & _). by apply not_elem_of_nil in Hp. Qed.

Lemma reports_skip s p pfds c r :
  revents p ≤ 0 → reports s (p :: pfds) c r ↔ reports s pfds c r.
Proof.
  intros Hp. split.
  - intros (q & [->|Hq]%elem_of_cons & Hr & H'); [lia|]. by exists q.
  - intros (q & Hq & H'). exists q. split; [by right|done].
Qed.

Lemma reports_hit s p pfds c d r :
  0 < revents p → channels_ s !! fd p = Some c →
  reports s (p :: pfds) d r ↔ (d = c ∧ r = revents p) ∨ reports s pfds d r.
Proof.
  intros Hp Hm. split.
  - intros (q & [->|Hq]%elem_of_cons & Hr' & Hd & ->); [left; split; congruence|].
    right. by exists q.
  - intros [[-> ->]|(q & Hq & H')].
    + exists p. split; [left|done].
    + exists q. split; [by right|done].
Qed.

Lemma no_reports s pfds c r : positive_count pfds ≤ 0 → ¬ reports s pfds c r.
Proof.
  unfold positive_count. intros Hz (q & Hq & Hr & _).
  pose proof (zlen_nonneg (filter (λ p, 0 < revents p) pfds)).
  assert (filter (λ p, 0 < revents p) pfds = []) as E by (apply zlen_zero_inv; lia).
  assert (q ∈ filter (λ p, 0 < revents p) pfds) as Hin by by apply list_elem_of_filter.
  rewrite E in Hin. by apply not_elem_of_nil in Hin.
Qed.

(** What the loop promises for the entries [pfds] from state [s] to [s']. *)
Definition filled (s : Poller) (pfds : list pollfd) (act : list chan_id) (s' : Poller) : Prop :=
  pollfds_ s' = pollfds_ s ∧ channels_ s' = channels_ s ∧ NoDup act ∧
  (∀ c, c ∈ act ↔ ∃ r, reports s pfds c r) ∧
  (∀ c ch, chans s !! c = Some ch →
     (∃ r, reports s pfds c r ∧ chans s' !! c = Some (set_revents ch r)) ∨
     ((∀ r, ¬ reports s pfds c r) ∧ chans s' !! c = Some ch)).

Lemma filled_none s pfds : (∀ c r, ¬ reports s pfds c r) → filled s pfds [] s.
Proof.
  intros Hno. split_and!; [done|done|apply NoDup_nil_2| |].
  - intros c. split; [by intros ?%not_elem_of_nil|]. intros (r & []%Hno).
  - intros c ch Hc. right. split; [|done]. intros r []%Hno.
Qed.

Lemma filled_skip s p pfds act s' :
  revents p ≤ 0 → filled s pfds act s' → filled s (p :: pfds) act s'.
Proof.
  intros Hr (? & ? & ? & H4 & H5). split_and!; [done..| |].
  - intros c. rewrite H4. by setoid_rewrite (reports_skip s p pfds c _ Hr).
  - intros c ch Hc. setoid_rewrite (reports_skip s p pfds c _ Hr). by apply H5.
Qed.

Lemma filled_hit s p pfds c ch act s' :
  0 < revents p → channels_ s !! fd p = Some c → chans s !! c = Some ch →
  (∀ r, ¬ reports s pfds c r) →
  filled (set_chan c (set_revents ch (revents p)) s) pfds act s' →
  filled s (p :: pfds) (c :: act) s'.
Proof.
  intros Hr Hm Hc Hno (? & ? & ? & H4 & H5).
  split_and!; [done|done| | |].
  - apply NoDup_cons. split; [|done]. rewrite H4. intros [r []%Hno].
  - intros d. rewrite elem_of_cons, H4. setoid_rewrite (reports_hit s p pfds c d _ Hr Hm).
    split; [|intros (r & [[-> _]|?]); eauto].
    intros [->|(r & Hd)]; [exists (revents p)|exists r]; auto.
  - intros d chd Hd. setoid_rewrite (reports_hit s p pfds c d _ Hr Hm).
    destruct (decide (d = c)) as [->|Hne].
    + left. exists (revents p). split; [by left|]. assert (chd = ch) as -> by congruence.
      destruct (H5 c (set_revents ch (revents p))) as [(r & []%Hno & _)|[_ ?]]; [|done].
      simpl. by rewrite lookup_insert_eq.
    + destruct (H5 d chd) as [(r & ? & ?)|[Hn ?]].
      * simpl. by rewrite lookup_insert_ne.
      * left. eauto.
      * right. split; [|done]. intros r [[? _]|?]; [done|]. by eapply Hn.
Qed.

Lemma fillable_set_revents s pfds c ch r :
  fillable s pfds → chans s !! c = Some ch → fillable (set_chan c (set_revents ch r) s) pfds.
Proof.
  intros Hf Hc q Hq Hr'. destruct (Hf q Hq Hr') as (d & chd & Hd & Hcd & Hfd').
  destruct (decide (d = c)) as [->|]; simpl.
  - exists c, (set_revents ch r). rewrite lookup_insert_eq. split_and!; [done..|]. simpl. congruence.
  - exists d, chd. by rewrite lookup_insert_ne.
Qed.

Lemma fill_loop_spec pfds n act s :
  fillable s pfds → NoDup (fd <$> pfds) → positive_count pfds ≤ n →
  (∀ k k' c, channels_ s !! k = Some c → channels_ s !! k' = Some c → k = k') →
  ∃ act' s', fillActiveChannels_loop pfds n act s = Ok (act ++ act', s') ∧ filled s pfds act' s'.
Proof.
  revert n act s. induction pfds as [|p pfds IH]; intros n act s Hf Hnd Hn Hinj.
  { exists [], s. rewrite app_nil_r. split; [done|]. apply filled_none. intros. apply reports_nil. }
  rewrite positive_count_cons in Hn. rewrite fmap_cons in Hnd.
  apply NoDup_cons in Hnd as [Hp Hnd].
  assert (fillable s pfds) as Hf' by (intros q Hq; apply Hf; by right).
  simpl. destruct (Z.gtb_spec (revents p) 0) as [Hr|Hr].
  2:{ rewrite decide_False in Hn by lia. destruct (Z.gtb_spec n 0) as [Hn0|Hn0].
      - destruct (IH n act s Hf' Hnd Hn Hinj) as (act' & s' & E & H').
        exists act', s'. split; [done|]. by apply filled_skip.
      - exists [], s. rewrite app_nil_r. split; [done|]. apply filled_skip; [done|].
        apply filled_none. intros. apply no_reports. lia. }
  pose proof (zlen_nonneg (filter (λ p, 0 < revents p) pfds)) as Hpos.
  fold (positive_count pfds) in Hpos.
  rewrite decide_True in Hn by done. destruct (Z.gtb_spec n 0) as [_|]; [|lia].
  destruct (Hf p) as (c & ch & Hm & Hc & Hfd); [left|done|].
  mstep. rewrite Hm. unfold assert_ at 1. rewrite bool_decide_eq_true_2 by eauto. do 2 mstep.
  mstep_by (by apply chan_eq). unfold assert_. rewrite Hfd, Z.eqb_refl. mstep.
  mstep_by (by eapply upd_chan_eq).
  destruct (IH (n - 1) (act ++ [c]) (set_chan c (set_revents ch (revents p)) s))
    as (act' & s' & E & H'); [by apply fillable_set_revents|done|lia|done|].
  exists (c :: act'), s'. rewrite E, <- app_assoc. split; [done|].
  eapply filled_hit; try done. intros r (q & Hq & _ & Hcq & _). apply Hp.
  rewrite (Hinj _ _ _ Hm Hcq). by apply list_elem_of_fmap_2.
Qed.

Lemma inv_map_inj s k k' c :
  inv s → channels_ s !! k = Some c → channels_ s !! k' = Some c → k = k'.
Proof.
  intros Hs H H'. destruct (inv_map s Hs k c H) as (ch & i & p & <- & Hr).
  destruct (inv_map s Hs k' c H') as (ch' & i' & p' & <- & Hr').
  by destruct (registered_unique s _ _ _ _ _ _ _ _ Hr Hr') as (_ & <- & _); [tauto|].
Qed.

(** The entries after the system call: same descriptors and masks. *)
Definition polled (s : Poller) (r : Z → Z) : Poller :=
  mkPoller (kernel_poll (pollfds_ s) r) (channels_ s) (chans s).

Lemma registered_polled s r c ch i p :
  registered s c ch i p → registered (polled s r) c ch i (kernel_poll_entry p (r (fd p))).
Proof.
  intros (H1 & H2 & H3 & H4 & H5 & H6). unfold registered, polled; simpl.
  split_and!; try done. unfold kernel_poll. by rewrite list_lookup_fmap, H4.
Qed.

Lemma inv_polled s r : inv s → inv (polled s r).
Proof.
  intros Hs. split; simpl.
  - intros k c Hk. destruct (inv_map s Hs k c Hk) as (ch & i & p & E & Hr).
    do 3 eexists. split; [done|]. by apply registered_polled.
  - intros i q Hq. unfold kernel_poll in Hq. rewrite list_lookup_fmap in Hq.
    destruct (pollfds_ s !! i) as [p|] eqn:Hp; simplify_eq/=.
    destruct (inv_slot s Hs i p Hp) as (c & ch & Hr). do 2 eexists. by apply registered_polled.
  - unfold zlen, kernel_poll. rewrite length_fmap. apply (inv_size s Hs).
Qed.

(** What the kernel reports for an entry. *)
Definition pending (r : Z → Z) (p : pollfd) : Z := revents (kernel_poll_entry p (r (fd p))).

(** A slot with something to report is not disabled. *)
Lemma pending_fd r p : 0 < pending r p → fd p = slot_fd p.
Proof. unfold pending, kernel_poll_entry, slot_fd. simpl. by destruct (fd p <? 0). Qed.

Lemma pending_nonneg r p : 0 ≤ events p → 0 ≤ pending r p.
Proof.
  intros He. unfold pending, kernel_poll_entry; simpl. case_match; [done|].
  apply Z.land_nonneg. right. apply Z.lor_nonneg. split; [done|]. vm_compute. discriminate.
Qed.

Lemma Channel_delete_ok s c ch :
  chans s !! c = Some ch → eventHandling_ ch = false →
  Channel_delete c s = Ok (tt, mkPoller (pollfds_ s) (channels_ s) (delete c (chans s))).
Proof. intros Hc Hh. unfold Channel_delete. mstep_by (by apply chan_eq). unfold assert_. by rewrite Hh. Qed.

Lemma Channel_delete_handling s c ch :
  chans s !! c = Some ch → eventHandling_ ch = true → Channel_delete c s = Err AssertFailed.
Proof. intros Hc Hh. unfold Channel_delete. mstep_by (by apply chan_eq). unfold assert_. by rewrite Hh. Qed.

(** A channel that was deleted without being removed: the first report of its
    descriptor reaches the dead object. *)
Lemma fill_dangling p c s pfds :
  channels_ s !! fd p = Some c → chans s !! c = None → 0 < revents p → p ∈ pfds →
  (∀ p', p' ∈ pfds → 0 < revents p' → fd p' = fd p) → ∀ n act, 0 < n →
  fillActiveChannels_loop pfds n act s = Err DanglingPtr.
Proof.
  intros Hm Hc Hp. induction pfds as [|p0 pfds IH]; intros Hin Hall n act Hn.
  { by apply not_elem_of_nil in Hin. }
  cbn [fillActiveChannels_loop]. assert ((n >? 0) = true) as -> by lia.
  destruct (revents p0 >? 0) eqn:E.
  - mstep. rewrite (Hall p0) by (try left; lia). rewrite Hm. simpl.
    erewrite bind_step by done. erewrite bind_step by done. apply bind_err. unfold chan. mstep. by rewrite Hc.
  - apply IH; [|intros p' ?; apply Hall; by right|done].
    apply elem_of_cons in Hin as [<-|]; [lia|done].
Qed.

Lemma poll_dangling s c p i r act :
  pollfds_ s !! i = Some p → channels_ s !! fd p = Some c → chans s !! c = None →
  (∀ k, k ≠ fd p → r k = 0) → 0 < pending r p → poll (Some r) act s = Err DanglingPtr.
Proof.
  intros Hi Hm Hc Hr Hpos. set (q := kernel_poll_entry p (r (fd p))).
  set (pfds := kernel_poll (pollfds_ s) r).
  assert (q ∈ pfds) as Hq.
  { apply (list_elem_of_fmap_2 (λ p, kernel_poll_entry p (r (fd p)))), list_elem_of_lookup. eauto. }
  assert (∀ p', p' ∈ pfds → 0 < revents p' → fd p' = fd q) as Hall.
  { intros p' (p0 & -> & _)%list_elem_of_fmap Hp'. destruct (decide (fd p0 = fd p)) as [E|E]; [done|].
    simpl in Hp'. rewrite (Hr _ E) in Hp'. by destruct (fd p0 <? 0). }
  assert (0 < ready_count pfds) as Hn.
  { unfold ready_count. assert (q ∈ filter (λ p, revents p ≠ 0) pfds) as Hf.
    { apply list_elem_of_filter. split; [unfold pending in Hpos; unfold q; lia|done]. }
    destruct (filter _ pfds); [by apply not_elem_of_nil in Hf|rewrite zlen_cons; pose proof (zlen_nonneg l); lia]. }
  unfold poll. mstep. fold pfds. rewrite (proj2 (Z.gtb_lt _ _)) by done.
  mstep. apply bind_err. unfold fillActiveChannels. mstep. by apply (fill_dangling q c).
Qed.

(** The channels [poll] has to report, with their events. *)
Definition due (s : Poller) (r : Z → Z) (c : chan_id) (ev : Z) : Prop :=
  ∃ ch i p, registered s c ch i p ∧ ev = pending r p ∧ 0 < ev.

Lemma due_reports s r c ev :
  inv s → due s r c ev ↔ reports (polled s r) (kernel_poll (pollfds_ s) r) c ev.
Proof.
  intros Hs. split.
  - intros (ch & i & p & (H1 & H2 & H3 & H4 & H5 & H6) & -> & Hpos).
    exists (kernel_poll_entry p (r (fd p))). split_and!; [|done| |done].
    + unfold kernel_poll. apply (list_elem_of_fmap_2 (λ p, kernel_poll_entry p (r (fd p)))).
      apply list_elem_of_lookup. eauto.
    + unfold pending, kernel_poll_entry in Hpos. simpl in *. unfold slot_fd in H5.
      destruct (fd p <? 0); [lia|congruence].
  - intros (q & Hq & Hpos & Hc & ->). unfold kernel_poll in Hq.
    apply list_elem_of_fmap in Hq as (p & -> & [i Hp]%list_elem_of_lookup).
    destruct (inv_slot s Hs i p Hp) as (d & ch & Hr).
    exists ch, i, p. split_and!; [|done|done].
    assert (d = c) as <-; [|done]. destruct Hr as (H1 & H2 & H3 & H4 & H5 & H6).
    simpl in Hc, Hpos. unfold slot_fd in H5.
    destruct (fd p <? 0); [lia|congruence].
Qed.

Lemma fillable_inv s : inv s → (∀ p, p ∈ pollfds_ s → fd p < 0 → revents p ≤ 0) →
  fillable s (pollfds_ s).
Proof.
  intros Hs Hneg p Hp Hr. pose proof Hp as [i Hi]%list_elem_of_lookup.
  destruct (inv_slot s Hs i p Hi) as (c & ch & H1 & H2 & _ & _ & H5 & _).
  assert (0 ≤ fd p) by (destruct (Z.lt_ge_cases (fd p) 0); [|done]; specialize (Hneg p Hp); lia).
  unfold slot_fd in H5. rewrite (proj2 (Z.ltb_ge _ _)) in H5 by done.
  exists c, ch. by rewrite H5.
Qed.

Lemma ready_count_positive pfds :
  (∀ p, p ∈ pfds → 0 ≤ revents p) → ready_count pfds = positive_count pfds.
Proof.
  intros H. unfold ready_count, positive_count. f_equal.
  induction pfds as [|p pfds IH]; [done|]. rewrite !filter_cons, IH.
  - specialize (H p ltac:(left)). repeat case_decide; try done; lia.
  - intros q Hq. apply H. by right.
Qed.

Lemma kernel_poll_nonneg pfds r p :
  (∀ p, p ∈ pfds → 0 ≤ events p) → p ∈ kernel_poll pfds r → 0 ≤ revents p.
Proof.
  intros H (q & -> & Hq)%list_elem_of_fmap. by apply (pending_nonneg r), H.
Qed.

Lemma filled_inv s pfds act s' : inv s → filled s pfds act s' → inv s'.
Proof.
  intros Hs (Hp & Hm & _ & _ & Hc).
  assert (∀ d chd i p, registered s d chd i p → ∃ chd', fd_ chd' = fd_ chd ∧
    registered s' d chd' i p) as Hreg.
  { intros d chd i p (H1 & H2 & H3 & H4 & H5 & H6).
    destruct (Hc d chd H1) as [(r & _ & E)|[_ E]];
      eexists; (split; [|unfold registered; rewrite Hp, Hm; split_and!; try exact E; done]); done. }
  split.
  - intros k c. rewrite Hm. intros Hk. destruct (inv_map s Hs k c Hk) as (ch & i & p & <- & Hr).
    destruct (Hreg _ _ _ _ Hr) as (ch' & E & Hr'). by do 3 eexists.
  - intros i p. rewrite Hp. intros Hi. destruct (inv_slot s Hs i p Hi) as (c & ch & Hr).
    destruct (Hreg _ _ _ _ Hr) as (ch' & E & Hr'). by do 2 eexists.
  - rewrite Hp. apply (inv_size s Hs).
Qed.

Lemma poll_filled s r act s' :
  inv s → filled (polled s r) (kernel_poll (pollfds_ s) r) act s' →
  inv s' ∧ NoDup act ∧ (∀ c, c ∈ act ↔ ∃ ev, due s r c ev) ∧
  (∀ c ev ch, due s r c ev → chans s !! c = Some ch → chans s' !! c = Some (set_revents ch ev)).
Proof.
  intros Hs Hf. split; [eapply filled_inv; [by apply inv_polled|done]|].
  destruct Hf as (_ & _ & Hnd & Hact & Hch). split; [done|]. split.
  - intros c. rewrite Hact. by setoid_rewrite (due_reports s r c _ Hs).
  - intros c ev ch Hd Hc. pose proof Hd as Hd'. rewrite due_reports in Hd by done.
    destruct (Hch c ch Hc) as [(r' & Hr & ->)|[Hn _]]; [|by destruct (Hn ev)].
    do 2 f_equal. rewrite <- due_reports in Hr by done.
    destruct Hd' as (ch1 & i & p & Hr1 & -> & _), Hr as (ch2 & j & q & Hr2 & -> & _).
    by destruct (registered_unique s c ch1 i p c ch2 j q Hr1 Hr2) as (_ & _ & _ & ->); [tauto|].
Qed.

(** One call of [poll]: the entries as the kernel filled them in. *)
Lemma poll_fills s r :
  inv s → (∀ p, p ∈ pollfds_ s → 0 ≤ events p) →
  ∃ act s', poll (Some r) [] s = Ok ((0, act), s') ∧
    filled (polled s r) (kernel_poll (pollfds_ s) r) act s'.
Proof.
  intros Hs Hev. pose proof (inv_polled s r Hs) as Hs1.
  assert (∀ p, p ∈ kernel_poll (pollfds_ s) r → 0 ≤ revents p) as Hnn.
  { intros p. by apply kernel_poll_nonneg. }
  pose proof (ready_count_positive _ Hnn) as Hcount.
  destruct (fill_loop_spec (kernel_poll (pollfds_ s) r) (ready_count (kernel_poll (pollfds_ s) r))
    [] (polled s r)) as (act & s' & E & Hf);
    [..|lia|intros k k' c; by apply (inv_map_inj (polled s r))|].
  { apply (fillable_inv _ Hs1). intros p (q & -> & _)%list_elem_of_fmap; simpl.
    intros. by rewrite (proj2 (Z.ltb_lt _ _)). }
  { apply (inv_NoDup_fd _ Hs1). }
  simpl in E. unfold poll. do 2 mstep.
  destruct (Z.gtb_spec (ready_count (kernel_poll (pollfds_ s) r)) 0) as [Hpos|Hpos].
  - exists act, s'. split; [|done]. by mstep_by (exact E).
  - exists [], (polled s r). split; [done|]. apply filled_none. intros. apply no_reports. lia.
Qed.

Lemma poll_spec s r :
  inv s → (∀ p, p ∈ pollfds_ s → 0 ≤ events p) →
  ∃ act s', poll (Some r) [] s = Ok ((0, act), s') ∧ inv s' ∧
    NoDup act ∧ (∀ c, c ∈ act ↔ ∃ ev, due s r c ev) ∧
    (∀ c ev ch, due s r c ev → chans s !! c = Some ch → chans s' !! c = Some (set_revents ch ev)).
Proof.
  intros Hs Hev. destruct (poll_fills s r Hs Hev) as (act & s' & E & Hf).
  exists act, s'. split; [exact E|]. by apply poll_filled.
Qed.

(** A registered channel keeps its slot; only its [revents_] may change. *)
Lemma filled_registered s r act s' c ch i p :
  filled (polled s r) (kernel_poll (pollfds_ s) r) act s' → registered s c ch i p →
  ∃ ch', registered s' c ch' i (kernel_poll_entry p (r (fd p))) ∧
    (ch' = ch ∨ ∃ ev, ch' = set_revents ch ev).
Proof.
  intros (Hp & Hm & _ & _ & Hc) Hr. pose proof (registered_polled s r c ch i p Hr) as (H1 & H2 & H3 & H4 & H5 & H6).
  destruct (Hc c ch H1) as [(ev & _ & E)|[_ E]];
    eexists; (split; [unfold registered; rewrite Hp, Hm; split_and!; try exact E; done|]); eauto.
Qed.

(** C26: one [poll] never fails an assertion; it returns every channel the
    kernel reports events for exactly once and no other, each with [revents_]
    set to the reported events, and keeps the registration state consistent. *)
Theorem poll_correct s r :
  inv s → (∀ p, p ∈ pollfds_ s → 0 ≤ events p) →
  ∃ act s', poll (Some r) [] s = Ok ((0, act), s') ∧ inv s' ∧
    NoDup act ∧ (∀ c, c ∈ act ↔ ∃ ev, due s r c ev) ∧
    (∀ c ev ch, due s r c ev → chans s !! c = Some ch → chans s' !! c = Some (set_revents ch ev)).
Proof. apply poll_spec. Qed.

Lemma fill_loop_active pfds n act s act' s' c :
  fillActiveChannels_loop pfds n act s = Ok (act', s') → c ∈ act' →
  c ∈ act ∨ ∃ p, p ∈ pfds ∧ 0 < revents p ∧ channels_ s !! fd p = Some c.
Proof.
  revert n act s. induction pfds as [|p pfds IH]; intros n act s E Hc; simpl in E.
  { injection E as <- <-. by left. }
  destruct (n >? 0); [|injection E as <- <-; by left]. destruct (Z.gtb_spec (revents p) 0).
  2: { destruct (IH _ _ _ E Hc) as [?|(q & Hq & Hrest)]; [by left|right]. exists q. split; [by right|done]. }
  apply bind_Ok in E as (? & ? & [= <- <-] & E). apply bind_Ok in E as (? & ? & Ha & E).
  unfold assert_ in Ha. destruct (bool_decide _); [|done]. injection Ha as <- <-.
  apply bind_Ok in E as (d & ? & [Hd ->]%deref_inv & E).
  apply bind_Ok in E as (chd & ? & [_ ->]%chan_inv & E). apply bind_Ok in E as (? & ? & Ha & E).
  unfold assert_ in Ha. destruct (_ =? _); [|done]. injection Ha as <- <-.
  apply bind_Ok in E as (? & ? & (? & _ & ->)%upd_chan_inv & E).
  destruct (IH _ _ _ E Hc) as [[?|Hcd]%elem_of_app|(q & Hq & Hrest)].
  - by left.
  - apply list_elem_of_singleton in Hcd as ->. right. exists p. split; [left|]. split; [lia|done].
  - right. exists q. split; [by right|done].
Qed.

(** A switched-off slot is never reported. *)
Lemma poll_off ready s t act s' c ch i p :
  inv s → registered s c ch i p → fd p < 0 → poll ready [] s = Ok ((t, act), s') → c ∉ act.
Proof.
  intros Hs Hr Hoff E Hc. unfold poll in E. destruct ready as [r|]; [|injection E as _ <- _; by apply not_elem_of_nil in Hc].
  rewrite bind_unfold in E. simpl in E. rewrite bind_unfold in E. simpl in E.
  destruct (_ >? 0); [|injection E as _ <- _; by apply not_elem_of_nil in Hc].
  apply bind_Ok in E as (act1 & s1 & E & [= _ <- <-]).
  destruct (fill_loop_active _ _ _ _ _ _ c E Hc) as [Hn|(q & Hq & Hpos & Hm)]; [by apply not_elem_of_nil in Hn|].
  apply list_elem_of_fmap in Hq as (p' & -> & [j Hj]%list_elem_of_lookup). simpl in Hpos, Hm.
  destruct (Z.ltb_spec (fd p') 0); [lia|].
  destruct (inv_slot s Hs j p' Hj) as (d & chd & Hd). pose proof Hd as (_ & Hmd & _ & _ & Hsl & _).
  unfold slot_fd in Hsl. rewrite (proj2 (Z.ltb_ge (fd p') 0)) in Hsl by done.
  assert (d = c) as -> by congruence.
  destruct (registered_unique s c ch i p c chd j p' Hr Hd) as (_ & _ & _ & ->); [by left|]. lia.
Qed.

(** ** The watched set *)

Lemma interest_keys s : inv s →
  NoDup ((λ p, (fd p, events p)) <$> filter (λ p, 0 ≤ fd p) (pollfds_ s)).*1.
Proof.
  intros Hs. rewrite <- list_fmap_compose. unfold compose; simpl.
  eapply sublist_NoDup; [by apply (inv_NoDup_fd s)|]. apply (fmap_sublist fd), sublist_filter.
Qed.

Lemma lookup_interest s k e : inv s →
  interest s !! k = Some e ↔ ∃ i p, pollfds_ s !! i = Some p ∧ fd p = k ∧ 0 ≤ k ∧ events p = e.
Proof.
  intros Hs. unfold interest. rewrite <- elem_of_list_to_map by by apply interest_keys.
  rewrite list_elem_of_fmap. split.
  - intros (p & [= -> ->] & (Hp & [i Hi]%list_elem_of_lookup)%list_elem_of_filter). eauto 6.
  - intros (i & p & Hi & <- & Hk & <-). exists p. split; [done|].
    apply list_elem_of_filter. split; [done|]. apply list_elem_of_lookup. eauto.
Qed.

(** The same with the owner of the slot. *)
Lemma lookup_interest_registered s k e : inv s →
  interest s !! k = Some e ↔
  ∃ c ch i p, registered s c ch i p ∧ fd p = k ∧ fd_ ch = k ∧ events p = e.
Proof.
  intros Hs. rewrite lookup_interest by done. split.
  - intros (i & p & Hi & <- & Hk & <-). destruct (inv_slot s Hs i p Hi) as (c & ch & Hr).
    exists c, ch, i, p. split_and!; [done..| |done]. destruct Hr as (_ & _ & _ & _ & <- & _).
    unfold slot_fd. by rewrite (proj2 (Z.ltb_ge _ _)).
  - intros (c & ch & i & p & (_ & _ & _ & H4 & _ & H6) & <- & E & <-). exists i, p.
    split_and!; [done..| |done]. lia.
Qed.

Lemma interest_registered s c ch i p : inv s → registered s c ch i p →
  interest s !! fd_ ch = if fd p <? 0 then None else Some (events p).
Proof.
  intros Hs Hr. destruct (Z.ltb_spec (fd p) 0) as [Hp|Hp].
  - apply eq_None_not_Some. intros [e (d & chd & j & q & Hd & Hq & E & _)%lookup_interest_registered];
      [|done].
    destruct (registered_unique s c ch i p d chd j q Hr Hd) as (_ & _ & _ & <-); [auto|].
    destruct Hr as (_ & _ & _ & _ & _ & ?). lia.
  - apply lookup_interest_registered; [done|]. exists c, ch, i, p.
    split_and!; [done| |done..]. destruct Hr as (_ & _ & _ & _ & Hsl & _).
    unfold slot_fd in Hsl. by rewrite (proj2 (Z.ltb_ge _ _)) in Hsl.
Qed.

(** Two states whose other slots coincide watch the same other descriptors. *)
Lemma interest_other s s' k e : inv s → inv s' →
  (∀ c ch i p, fd_ ch = k → registered s c ch i p ↔ registered s' c ch i p) →
  interest s !! k = Some e ↔ interest s' !! k = Some e.
Proof.
  intros Hs Hs' H. rewrite !lookup_interest_registered by done.
  split; intros (c & ch & i & p & Hr & ? & E & ?); exists c, ch, i, p;
    (split_and!; [by apply (H c ch i p E)|done..]).
Qed.

(** What [updateChannel] does to the watched set: a new channel is added with
    its mask (even an empty one); a watched one is changed, or dropped when its
    mask is empty; a dropped one stays dropped. *)
Definition spec_updateChannel (ch : channel) (w : gmap Z Z) : gmap Z Z :=
  if index_ ch <? 0 then <[fd_ ch := i16 (events_ ch)]> w
  else if decide (w !! fd_ ch = None) then w
  else if isNoneEvent ch then delete (fd_ ch) w
  else <[fd_ ch := i16 (events_ ch)]> w.

Lemma option_ext_Some {A} (x y : option A) : (∀ a, x = Some a ↔ y = Some a) → x = y.
Proof. apply option_eq. Qed.

Lemma interest_new s c ch :
  inv s → chans s !! c = Some ch → index_ ch < 0 → channels_ s !! fd_ ch = None →
  zlen (pollfds_ s) + 1 < 2 ^ 31 → 0 ≤ fd_ ch →
  interest (mkPoller (pollfds_ s ++ [new_pollfd ch]) (<[fd_ ch := c]> (channels_ s))
              (<[c := set_index ch (zlen (pollfds_ s))]> (chans s))) =
  <[fd_ ch := i16 (events_ ch)]> (interest s).
Proof.
  intros Hs Hc Hi Hm Hn Hf. unfold interest; simpl.
  rewrite filter_app, fmap_app, list_to_map_app. simpl.
  rewrite filter_cons_True by (simpl; done). rewrite filter_nil. simpl.
  rewrite <- insert_union_r; [by rewrite map_union_empty|].
  apply eq_None_not_Some. intros [e He].
  apply (lookup_interest_registered s (fd_ ch) e Hs) in He as (d & chd & i & p & Hr & _ & E & _).
  destruct Hr as (_ & Hd & _). congruence.
Qed.

Lemma registered_update_other s c ch i p d chd j q :
  registered s c ch i p → fd_ chd ≠ fd_ ch →
  registered s d chd j q ↔
  registered (mkPoller (<[i := updated_pollfd ch p]> (pollfds_ s)) (channels_ s) (chans s)) d chd j q.
Proof.
  intros Hr Hne. split.
  - intros Hd. pose proof (registered_updated s c ch i p d chd j q Hr Hd) as H.
    rewrite decide_False in H; [done|]. intros ->. apply Hne.
    destruct Hr as (? & _), Hd as (? & _). congruence.
  - unfold registered; simpl. intros (H1 & H2 & H3 & H4 & H5 & H6).
    split_and!; try done. rewrite list_lookup_insert_ne in H4; [done|].
    intros ->. destruct Hr as (G1 & G2 & G3 & G4 & G5 & G6).
    apply list_lookup_insert_Some in H4 as [(_ & <- & _)|(? & _)]; [|done].
    apply Hne. rewrite <- H5. unfold updated_pollfd, slot_fd in *; simpl.
    destruct (isNoneEvent ch); [|done]. rewrite (proj2 (Z.ltb_lt _ _)) by lia. lia.
Qed.

Lemma interest_old s c ch i p :
  inv s → registered s c ch i p →
  interest (mkPoller (<[i := updated_pollfd ch p]> (pollfds_ s)) (channels_ s) (chans s)) =
  spec_updateChannel ch (interest s).
Proof.
  intros Hs Hr. pose proof (inv_updateChannel_old s c ch i p Hs Hr) as Hs'.
  pose proof (registered_updated s c ch i p c ch i p Hr Hr) as Hu.
  rewrite decide_True in Hu by done.
  pose proof Hr as (_ & _ & Hi & _ & Hsl & Hf). unfold spec_updateChannel.
  rewrite (proj2 (Z.ltb_ge _ _)) by lia. rewrite (interest_registered s c ch i p Hs Hr).
  apply map_eq. intros k. destruct (decide (k = fd_ ch)) as [->|Hk].
  - rewrite (interest_registered _ c ch i _ Hs' Hu). unfold updated_pollfd; simpl.
    destruct (slot_fd_cases p _ Hsl Hf) as [E|E]; rewrite E.
    + rewrite (proj2 (Z.ltb_ge _ _) Hf), decide_False by done.
      destruct (isNoneEvent ch); [|rewrite (proj2 (Z.ltb_ge _ _) Hf)].
      * rewrite lookup_delete_eq, (proj2 (Z.ltb_lt _ _)); [done|lia].
      * by rewrite lookup_insert_eq.
    + rewrite (proj2 (Z.ltb_lt (- fd_ ch - 1) 0)), decide_True by (done || lia).
      rewrite (interest_registered s c ch i p Hs Hr), E.
      rewrite (proj2 (Z.ltb_lt (- fd_ ch - 1) 0)) by lia.
      by destruct (isNoneEvent ch); rewrite (proj2 (Z.ltb_lt (- fd_ ch - 1) 0)) by lia.
  - transitivity (interest s !! k).
    + apply option_ext_Some. intros e. symmetry. apply interest_other; [done..|].
      intros d chd j q <-. by apply (registered_update_other s c ch i p).
    + repeat case_decide; try destruct (isNoneEvent ch);
        rewrite ?lookup_insert_ne, ?lookup_delete_ne by done; done.
Qed.

(** C27: [updateChannel] on a new or a registered channel passes all its
    assertions, keeps the registration consistent, and changes the set the
    kernel watches exactly as [spec_updateChannel] says. *)
Theorem updateChannel_refines s c ch :
  inv s → can_update s c ch →
  ∃ s', updateChannel c s = Ok (tt, s') ∧ inv s' ∧
    (∃ ch' i p, registered s' c ch' i p ∧ events_ ch' = events_ ch ∧
       events p = i16 (events_ ch)) ∧
    interest s' = spec_updateChannel ch (interest s).
Proof.
  intros Hs [(i & p & Hr)|(Hc & Hi & Hm & Hf & Hn)].
  - eexists. split; [by eapply updateChannel_old_eq|].
    split; [by eapply inv_updateChannel_old|]. split; [|by eapply interest_old].
    pose proof (registered_updated s c ch i p c ch i p Hr Hr) as Hu.
    rewrite decide_True in Hu by done. by do 3 eexists.
  - eexists. split; [by apply updateChannel_new_eq|].
    destruct (inv_updateChannel_new s c ch Hs Hc Hi Hm Hn Hf) as (Hs' & Hr & _).
    split; [done|]. split; [by do 3 eexists|].
    unfold spec_updateChannel. rewrite (proj2 (Z.ltb_lt _ _)) by done. by apply interest_new.
Qed.

(** Once a channel's events were all disabled, later [enable...] calls are
    lost: [updateChannel] stores the mask but never restores the slot's
    descriptor, so no mask makes the kernel watch the channel again. *)
Theorem disabled_stays_disabled s c ch i p mask :
  inv s → registered s c ch i p → fd p < 0 →
  ∃ s', (upd_chan c (λ ch, set_events ch mask) ;; updateChannel c) s = Ok (tt, s') ∧
    interest s' = interest s ∧ interest s' !! fd_ ch = None.
Proof.
  intros Hs Hr Hp. pose proof Hr as (Hc & _ & Hi & _ & _ & _).
  set (s1 := set_chan c (set_events ch mask) s).
  assert (inv s1) as Hs1 by (by eapply inv_set_chan).
  pose proof (registered_set_chan s c ch (set_events ch mask) c ch i p Hc eq_refl eq_refl Hr) as Hr1.
  rewrite decide_True in Hr1 by done. fold s1 in Hr1.
  eexists. split; [mstep_by (by eapply upd_chan_eq); by eapply updateChannel_old_eq|].
  rewrite (interest_old s1 c _ i p) by done. unfold spec_updateChannel. simpl.
  rewrite (proj2 (Z.ltb_ge _ _)) by lia.
  pose proof (interest_registered s1 c _ i p Hs1 Hr1) as E. simpl in E.
  rewrite (proj2 (Z.ltb_lt _ _) Hp) in E. rewrite decide_True by done. done.
Qed.

(** ** Concrete states: descriptors 5 and 9, then 5 disabled *)

Module Demo.
Definition ch (k mask idx : Z) : channel := set_index (set_events (Channel_new 0 k) mask) idx.
Definition s0 : Poller :=
  mkPoller [] ∅ (<[0%nat := ch 5 4 (-1)]> (<[1%nat := ch 9 4 (-1)]> ∅)).
Definition step (c : chan_id) (k : Z) (s : Poller) : Poller :=
  mkPoller (pollfds_ s ++ [new_pollfd (ch k 4 (-1))]) (<[k := c]> (channels_ s))
    (<[c := ch k 4 (zlen (pollfds_ s))]> (chans s)).
Definition s2 : Poller := step 1 9 (step 0 5 s0).
Definition s3 : Poller :=
  let s := set_chan 0 (ch 5 0 0) s2 in
  mkPoller (<[0%nat := updated_pollfd (ch 5 0 0) (mkPollfd 5 4 0)]> (pollfds_ s))
    (channels_ s) (chans s).

Lemma inv_s0 : inv s0.
Proof.
  split; simpl.
  - intros k c [=].
  - intros i p [=].
  - reflexivity.
Qed.

Lemma inv_step c k s :
  inv s → chans s !! c = Some (ch k 4 (-1)) → channels_ s !! k = None → 0 ≤ k →
  zlen (pollfds_ s) + 1 < 2 ^ 31 → inv (step c k s).
Proof. intros Hs Hc Hm Hk Hn. by apply (inv_updateChannel_new s c (ch k 4 (-1))). Qed.

Lemma inv_s2 : inv s2.
Proof. apply inv_step; [apply inv_step; [apply inv_s0|..]|..]; done. Qed.

Lemma registered_0 : registered s2 0 (ch 5 4 0) 0 (mkPollfd 5 4 0).
Proof. unfold registered. split_and!; done. Qed.

Lemma inv_s3 : inv s3.
Proof.
  apply (inv_updateChannel_old (set_chan 0 (ch 5 0 0) s2) 0 (ch 5 0 0) 0).
  - by apply (inv_set_chan _ _ (ch 5 4 0)); [apply inv_s2|..].
  - unfold registered. split_and!; done.
Qed.

Lemma registered_off : registered s3 0 (ch 5 0 0) 0 (mkPollfd (-6) 0 0).
Proof. unfold registered. split_and!; done. Qed.
End Demo.

(** Removing slot 0 of two moves the last slot into its place. *)
Lemma removeChannel_correct_witness :
  ∃ s', removeChannel 0 Demo.s3 = Ok (tt, s') ∧ inv s' ∧
    channels_ s' = delete 5 (channels_ Demo.s3) ∧
    ∀ d chd j q, d ≠ 0%nat → registered Demo.s3 d chd j q →
      ∃ chd' j', registered s' d chd' j' q ∧ fd_ chd' = fd_ chd ∧ events_ chd' = events_ chd.
Proof.
  apply (removeChannel_correct Demo.s3 0 (Demo.ch 5 0 0) 0 (mkPollfd (-6) 0 0));
    [apply Demo.inv_s3|apply Demo.registered_off|reflexivity..].
Defined.

Lemma poll_correct_witness :
  ∃ act s', poll (Some (λ k, if k =? 9 then POLLOUT else 0)) [] Demo.s2 = Ok ((0, act), s') ∧
    inv s' ∧ NoDup act ∧
    (∀ c, c ∈ act ↔ ∃ ev, due Demo.s2 (λ k, if k =? 9 then POLLOUT else 0) c ev) ∧
    (∀ c ev ch, due Demo.s2 (λ k, if k =? 9 then POLLOUT else 0) c ev →
       chans Demo.s2 !! c = Some ch → chans s' !! c = Some (set_revents ch ev)).
Proof.
  apply (poll_correct Demo.s2); [apply Demo.inv_s2|].
  intros p [->|[->|[]%not_elem_of_nil]%elem_of_cons]%elem_of_cons; vm_compute; discriminate.
Defined.

(** The poll above reports channel 1 alone. *)
Example poll_reports :
  (poll (Some (λ k, if k =? 9 then POLLOUT else 0)) [] Demo.s2 ≫= λ '((_, act), s'),
    Ok (act, revents_ <$> chans s' !! 1%nat)) = Ok ([1%nat], Some POLLOUT).
Proof. vm_compute. reflexivity. Qed.

Lemma updateChannel_refines_witness :
  ∃ s', updateChannel 0 Demo.s3 = Ok (tt, s') ∧ inv s' ∧
    (∃ ch' i p, registered s' 0 ch' i p ∧ events_ ch' = 0 ∧ events p = i16 0) ∧
    interest s' = spec_updateChannel (Demo.ch 5 0 0) (interest Demo.s3).
Proof.
  apply (updateChannel_refines Demo.s3 0 (Demo.ch 5 0 0)); [apply Demo.inv_s3|].
  left. exists 0%nat, (mkPollfd (-6) 0 0). apply Demo.registered_off.
Defined.

Lemma disabled_stays_disabled_witness :
  ∃ s', (upd_chan 0 (λ ch, set_events ch kWriteEvent) ;; updateChannel 0) Demo.s3 = Ok (tt, s') ∧
    interest s' = interest Demo.s3 ∧ interest s' !! 5 = None.
Proof.
  apply (disabled_stays_disabled Demo.s3 0 (Demo.ch 5 0 0) 0 (mkPollfd (-6) 0 0));
    [apply Demo.inv_s3|apply Demo.registered_off|reflexivity].
Defined.
