(* ===== verification/EPoller.v ===== *)
(** * EPoller: multiplexing with epoll(7)

    Models src/muduo/EPoll.h and src/muduo/EPoll.cpp.  The state holds the
    members [events_] (its size matters) and [channels_], the heap of channels
    the poller writes [index_] and [revents_] of, and the kernel's interest
    list: for each descriptor the mask and the [data.ptr] of [epoll_ctl].
    The result of [epoll_wait] is an argument. *)

From S2P Require Import Prelude Callbacks Channel.

Definition kNew : Z := -1.
Definition kAdded : Z := 1.
Definition kDeleted : Z := 2.
Definition kInitEventListSize : Z := 16.

(** What [epoll_wait] stores for a ready descriptor: [events], [data.ptr]. *)
Abbreviation epoll_event := (Z * chan_id)%type.

Record EPoller : Type := mkEPoller {
  events_size : Z;                       (* events_.size() *)
  echannels_ : gmap Z chan_id;
  echans : gmap chan_id channel;
  kernel : gmap Z epoll_event;
}.

Definition EPoller_new (chans : gmap chan_id channel) : EPoller :=
  mkEPoller kInitEventListSize ∅ chans ∅.

(** Closing [epollfd_] ends the kernel's list; the channels keep their index. *)
Definition EPoller_delete : M EPoller unit :=
  modify (λ s, mkEPoller (events_size s) (echannels_ s) (echans s) ∅).

Definition echan (c : chan_id) : M EPoller channel :=
  s ← get; deref DanglingPtr (echans s !! c).
Definition eupd_chan (c : chan_id) (f : channel → channel) : M EPoller unit :=
  ch ← echan c;
  modify (λ s, mkEPoller (events_size s) (echannels_ s) (<[c := f ch]> (echans s)) (kernel s)).
Definition set_kernel (k : gmap Z epoll_event) (s : EPoller) : EPoller :=
  mkEPoller (events_size s) (echannels_ s) (echans s) k.
Definition set_echannels (m : gmap Z chan_id) (s : EPoller) : EPoller :=
  mkEPoller (events_size s) m (echans s) (kernel s).

Inductive epoll_op : Set := EPOLL_CTL_ADD | EPOLL_CTL_MOD | EPOLL_CTL_DEL.

(** epoll_ctl(2): adding a present descriptor (EEXIST) and changing or deleting
    an absent one (ENOENT) fail and change nothing. *)
Definition epoll_ctl (op : epoll_op) (fd : Z) (event : epoll_event) (k : gmap Z epoll_event) :
    Z * gmap Z epoll_event :=
  match op, k !! fd with
  | EPOLL_CTL_ADD, None => (0, <[fd := event]> k)
  | EPOLL_CTL_MOD, Some _ => (0, <[fd := event]> k)
  | EPOLL_CTL_DEL, Some _ => (0, delete fd k)
  | _, _ => (-1, k)
  end.

(** A failure is only logged. *)
Definition update (op : epoll_op) (c : chan_id) : M EPoller unit :=
  channel ← echan c;
  modify (λ s, set_kernel (epoll_ctl op (fd_ channel) (u32 (events_ channel), c) (kernel s)).2 s).

Definition updateChannel (c : chan_id) : M EPoller unit :=
  channel ← echan c;
  let index := index_ channel in
  if (index =? kNew) || (index =? kDeleted) then
    (if index =? kNew
     then modify (λ s, set_echannels (<[fd_ channel := c]> (echannels_ s)) s)
     else mret ()) ;;
    eupd_chan c (λ ch, set_index ch kAdded) ;;
    update EPOLL_CTL_ADD c
  else if isNoneEvent channel then
    update EPOLL_CTL_DEL c ;;
    eupd_chan c (λ ch, set_index ch kDeleted)
  else update EPOLL_CTL_MOD c.

Definition removeChannel (c : chan_id) : M EPoller unit :=
  channel ← echan c;
  modify (λ s, set_echannels (delete (fd_ channel) (echannels_ s)) s) ;;
  (if index_ channel =? kAdded then update EPOLL_CTL_DEL c else mret ()) ;;
  eupd_chan c (λ ch, set_index ch kNew).

(** [ready]: the array [events_], its first [numEvents] entries filled in. *)
Definition fillActiveChannels (ready : list epoll_event) (numEvents : Z)
    (activeChannels : list chan_id) : M EPoller (list chan_id) :=
  s ← get;
  assert_ (u64 numEvents <? events_size s) ;;
  for_each (λ e : epoll_event, eupd_chan e.2 (λ ch, set_revents ch e.1))
    (take (Z.to_nat numEvents) ready) ;;
  mret (activeChannels ++ (take (Z.to_nat numEvents) ready).*2).

(** [now]: the reading of [Timestamp::now()]. *)
Definition poll (now : Z) (numEvents : Z) (ready : list epoll_event)
    (activeChannels : list chan_id) : M EPoller (Z * list chan_id) :=
  if numEvents <? 0 then
    active ← fillActiveChannels ready numEvents activeChannels;
    s ← get;
    (if u64 numEvents =? events_size s
     then modify (λ s, mkEPoller (events_size s * 2) (echannels_ s) (echans s) (kernel s))
     else mret ()) ;;
    mret (now, active)
  else mret (now, activeChannels).

(** ** Invariant: [index_] says what the kernel knows *)

Record inv (s : EPoller) : Prop := mkInv {
  inv_kernel : ∀ k m c, kernel s !! k = Some (m, c) →
    ∃ ch, echans s !! c = Some ch ∧ fd_ ch = k ∧ index_ ch = kAdded ∧ echannels_ s !! k = Some c;
  inv_added : ∀ c ch, echans s !! c = Some ch → index_ ch = kAdded →
    ∃ m, kernel s !! fd_ ch = Some (m, c);
  inv_known : ∀ k c, echannels_ s !! k = Some c →
    ∃ ch, echans s !! c = Some ch ∧ fd_ ch = k ∧ index_ ch ≠ kNew;
  inv_index : ∀ c ch, echans s !! c = Some ch →
    index_ ch = kNew ∨ ((index_ ch = kAdded ∨ index_ ch = kDeleted) ∧ echannels_ s !! fd_ ch = Some c);
}.

(** The watched set. *)
Definition interest (s : EPoller) : gmap Z Z := fst <$> kernel s.

Lemma echan_eq s c ch : echans s !! c = Some ch → echan c s = Ok (ch, s).
Proof. intros H. unfold echan. mstep. by rewrite H. Qed.

Lemma eupd_chan_eq s c ch f :
  echans s !! c = Some ch →
  eupd_chan c f s =
    Ok (tt, mkEPoller (events_size s) (echannels_ s) (<[c := f ch]> (echans s)) (kernel s)).
Proof. intros H. unfold eupd_chan. by mstep_by (by apply echan_eq). Qed.

Lemma update_eq s op c ch :
  echans s !! c = Some ch →
  update op c s =
    Ok (tt, set_kernel (epoll_ctl op (fd_ ch) (u32 (events_ ch), c) (kernel s)).2 s).
Proof. intros H. unfold update. by mstep_by (by apply echan_eq). Qed.

(** What [updateChannel] does to the watched set: an unwatched channel is added
    (also with an empty mask, also again after it was dropped), a watched one
    is changed, or dropped when its mask is empty. *)
Definition spec_updateChannel (ch : channel) (w : gmap Z Z) : gmap Z Z :=
  if decide (index_ ch = kAdded) then
    if isNoneEvent ch then delete (fd_ ch) w else <[fd_ ch := u32 (events_ ch)]> w
  else <[fd_ ch := u32 (events_ ch)]> w.

(** A channel [updateChannel] may be called for: a new one must have a
    descriptor no other channel is known for. *)
Definition can_update (s : EPoller) (c : chan_id) (ch : channel) : Prop :=
  echans s !! c = Some ch ∧ (index_ ch = kNew → echannels_ s !! fd_ ch = None).

(** The state after a call on [c], whose channel is now [ch']. *)
Definition after (s : EPoller) (m : gmap Z chan_id) (c : chan_id) (ch' : channel)
    (k : gmap Z epoll_event) : EPoller :=
  mkEPoller (events_size s) m (<[c := ch']> (echans s)) k.

Section update.
Context (s : EPoller) (c : chan_id) (ch : channel).
Context (Hs : inv s) (Hc : echans s !! c = Some ch).

Lemma kernel_owner k m d : kernel s !! k = Some (m, d) → d = c → k = fd_ ch.
Proof using Hs Hc.
  intros Hk ->. destruct (inv_kernel _ Hs _ _ _ Hk) as (ch' & ? & <- & _). congruence.
Qed.

Lemma kernel_not_added : index_ ch ≠ kAdded → kernel s !! fd_ ch = None ∨
  (∃ m d, kernel s !! fd_ ch = Some (m, d) ∧ d ≠ c).
Proof using Hs Hc.
  intros Hi. destruct (kernel s !! fd_ ch) as [[m d]|] eqn:Ek; [right|by left].
  exists m, d. split; [done|]. intros ->.
  destruct (inv_kernel _ Hs _ _ _ Ek) as (ch' & ? & _ & ? & _). congruence.
Qed.

Lemma kernel_absent :
  index_ ch ≠ kAdded → (index_ ch = kNew → echannels_ s !! fd_ ch = None) →
  kernel s !! fd_ ch = None.
Proof using Hs Hc.
  intros Hi Hnew. destruct (kernel_not_added Hi) as [?|(m & d & Hk & Hd)]; [done|].
  destruct (inv_kernel _ Hs _ _ _ Hk) as (ch' & _ & _ & _ & Hm).
  destruct (inv_index _ Hs c ch Hc) as [?|[_ ?]]; [|congruence].
  rewrite Hnew in Hm by done. done.
Qed.

(** Registering [c] as added with the mask [mask]. *)
Lemma inv_after_added mask m :
  (∀ d, echannels_ s !! fd_ ch = Some d → d = c) →
  m = <[fd_ ch := c]> (echannels_ s) →
  inv (after s m c (set_index ch kAdded) (<[fd_ ch := (mask, c)]> (kernel s))).
Proof using Hs Hc.
  intros Hown ->. split; simpl.
  - intros k m' d [[<- [= <- <-]]|[Hk Hd]]%lookup_insert_Some.
    + exists (set_index ch kAdded). rewrite !lookup_insert_eq. done.
    + destruct (inv_kernel _ Hs _ _ _ Hd) as (chd & Hcd & Hf & Hi & Hm).
      assert (d ≠ c) by (intros ->; congruence).
      exists chd. rewrite !lookup_insert_ne by done. done.
  - intros d chd [[<- <-]|[Hd Hcd]]%lookup_insert_Some Hi; simpl.
    + exists mask. by rewrite lookup_insert_eq.
    + destruct (inv_added _ Hs d chd Hcd Hi) as [m' Hk]. exists m'.
      rewrite lookup_insert_ne; [done|]. intros E. rewrite <- E in Hk.
      destruct (inv_kernel _ Hs _ _ _ Hk) as (_ & _ & _ & _ & Hm). by apply Hd, eq_sym, Hown.
  - intros k d [[<- <-]|[Hk Hd]]%lookup_insert_Some.
    + exists (set_index ch kAdded). rewrite lookup_insert_eq. done.
    + destruct (inv_known _ Hs k d Hd) as (chd & Hcd & Hf & Hi).
      assert (d ≠ c) by (intros ->; congruence). exists chd. by rewrite lookup_insert_ne.
  - intros d chd [[<- <-]|[Hd Hcd]]%lookup_insert_Some; simpl.
    + right. rewrite lookup_insert_eq. auto.
    + destruct (inv_index _ Hs d chd Hcd) as [?|[? Hm]]; [by left|]. right. split; [done|].
      rewrite lookup_insert_ne; [done|]. intros E. rewrite <- E in Hm. by apply Hd, eq_sym, Hown.
Qed.

(** Dropping [c] from the kernel, as deleted or as new. *)
Lemma inv_after_dropped i m :
  (i = kDeleted ∧ m = echannels_ s ∧ echannels_ s !! fd_ ch = Some c) ∨
  (i = kNew ∧ m = delete (fd_ ch) (echannels_ s) ∧ echannels_ s !! fd_ ch = Some c) →
  inv (after s m c (set_index ch i) (delete (fd_ ch) (kernel s))).
Proof using Hs Hc.
  intros Hm'. assert (echannels_ s !! fd_ ch = Some c) as Hown by tauto.
  assert (∀ d chd, d ≠ c → echannels_ s !! fd_ chd = Some d → fd_ ch ≠ fd_ chd) as Hne by congruence.
  assert (∀ k, k ≠ fd_ ch → m !! k = echannels_ s !! k) as Hmk.
  { intros k Hk. destruct Hm' as [(_ & -> & _)|(_ & -> & _)]; [done|]. by rewrite lookup_delete_ne. }
  split; simpl.
  - intros k m' d [Hk Hd]%lookup_delete_Some.
    destruct (inv_kernel _ Hs _ _ _ Hd) as (chd & Hcd & Hf & Hi & Hmd).
    assert (d ≠ c) by (intros ->; congruence). exists chd.
    rewrite lookup_insert_ne, Hmk by done. done.
  - intros d chd [[<- <-]|[Hd Hcd]]%lookup_insert_Some Hi; simpl in *.
    + destruct Hm' as [(-> & _)|(-> & _)]; done.
    + destruct (inv_added _ Hs d chd Hcd Hi) as [m' Hk]. exists m'.
      destruct (inv_kernel _ Hs _ _ _ Hk) as (_ & _ & _ & _ & Hmd).
      rewrite lookup_delete_ne; [done|]. eauto.
  - intros k d Hk. destruct (decide (k = fd_ ch)) as [->|Hkf].
    + destruct Hm' as [(-> & -> & _)|(_ & -> & _)]; [|by rewrite lookup_delete_eq in Hk].
      rewrite Hown in Hk. simplify_eq. exists (set_index ch kDeleted).
      rewrite lookup_insert_eq. done.
    + rewrite Hmk in Hk by done. destruct (inv_known _ Hs k d Hk) as (chd & Hcd & Hf & Hi).
      assert (d ≠ c) by (intros ->; congruence). exists chd. by rewrite lookup_insert_ne.
  - intros d chd [[<- <-]|[Hd Hcd]]%lookup_insert_Some; simpl.
    + destruct Hm' as [(-> & -> & ?)|(-> & _)]; auto.
    + destruct (inv_index _ Hs d chd Hcd) as [?|[? Hmd]]; [by left|]. right. split; [done|].
      rewrite Hmk; [done|]. intros E. by apply (Hne d chd).
Qed.
End update.

Lemma interest_insert k m c (w : gmap Z epoll_event) : fst <$> <[k := (m, c)]> w = <[k := m]> (fst <$> w).
Proof. by rewrite fmap_insert. Qed.

Lemma owner_unique s c ch : inv s → can_update s c ch →
  ∀ d, echannels_ s !! fd_ ch = Some d → d = c.
Proof.
  intros Hs [Hc Hnew] d Hd. destruct (inv_index _ Hs c ch Hc) as [Hi|[_ Hi]]; [|congruence].
  rewrite Hnew in Hd by done. done.
Qed.

Lemma updateChannel_added s c ch :
  inv s → can_update s c ch →
  ∃ s', updateChannel c s = Ok (tt, s') ∧ inv s' ∧
    interest s' = spec_updateChannel ch (interest s) ∧
    (isNoneEvent ch = false ∨ index_ ch ≠ kAdded → echans s' !! c = Some (set_index ch kAdded)).
Proof.
  intros Hs Hcan. pose proof Hcan as [Hc Hnew]. unfold updateChannel, spec_updateChannel.
  mstep_by (by apply echan_eq). destruct (decide (index_ ch = kAdded)) as [Hi|Hi].
  - rewrite Hi. simpl. destruct (inv_added _ Hs c ch Hc Hi) as [m Hk].
    pose proof (owner_unique s c ch Hs Hcan) as Hown.
    assert (echannels_ s !! fd_ ch = Some c) as Hm.
    { destruct (inv_index _ Hs c ch Hc) as [E|[_ ?]]; [by rewrite Hi in E|done]. }
    assert (<[c := set_index ch kAdded]> (echans s) = echans s) as Hsame.
    { apply insert_id. rewrite Hc, <- Hi. by destruct ch. }
    destruct (isNoneEvent ch).
    + mstep_by (by apply update_eq). erewrite eupd_chan_eq by done. eexists. split; [done|].
      unfold epoll_ctl. rewrite Hk. simpl. split; [|split].
      * apply (inv_after_dropped s c ch Hs Hc kDeleted). left. done.
      * unfold interest; simpl. by rewrite fmap_delete.
      * intros [?|?]; done.
    + erewrite update_eq by done. eexists. split; [done|]. unfold epoll_ctl. rewrite Hk. simpl.
      split; [|split].
      * pose proof (inv_after_added s c ch Hs Hc (u32 (events_ ch)) _ Hown eq_refl) as H.
        unfold after in H. rewrite Hsame in H. rewrite (insert_id (echannels_ s)) in H by done. done.
      * apply interest_insert.
      * intros _. rewrite Hc, <- Hi. by destruct ch.
  - assert ((index_ ch =? kNew) || (index_ ch =? kDeleted) = true) as ->.
    { destruct (inv_index _ Hs c ch Hc) as [->|[[?| ->] _]]; done. }
    pose proof (kernel_absent s c ch Hs Hc Hi Hnew) as Hk.
    pose proof (inv_after_added s c ch Hs Hc (u32 (events_ ch)) _ (owner_unique s c ch Hs Hcan) eq_refl) as H.
    exists (after s (<[fd_ ch := c]> (echannels_ s)) c (set_index ch kAdded)
      (<[fd_ ch := (u32 (events_ ch), c)]> (kernel s))).
    split; [|split; [exact H|split; [apply interest_insert|intros _; apply lookup_insert_eq]]].
    set (m := <[fd_ ch := c]> (echannels_ s)).
    assert ((if index_ ch =? kNew then modify (λ s, set_echannels (<[fd_ ch := c]> (echannels_ s)) s)
      else mret ()) s = Ok (tt, set_echannels m s)) as Hstep.
    { destruct (Z.eqb_spec (index_ ch) kNew) as [E|E]; [done|].
      destruct (inv_index _ Hs c ch Hc) as [?|[_ Hm]]; [done|].
      unfold m. rewrite insert_id by done. by destruct s. }
    mstep_by (exact Hstep). mstep_by (apply eupd_chan_eq; exact Hc).
    erewrite update_eq by apply lookup_insert_eq. simpl. unfold set_kernel, after, epoll_ctl; simpl.
    by rewrite Hk.
Qed.

Lemma inv_set_mask s c ch m :
  inv s → echans s !! c = Some ch →
  inv (mkEPoller (events_size s) (echannels_ s) (<[c := set_events ch m]> (echans s)) (kernel s)).
Proof.
  intros Hs Hc.
  assert (∀ d chd, <[c := set_events ch m]> (echans s) !! d = Some chd →
    ∃ ch0, echans s !! d = Some ch0 ∧ fd_ ch0 = fd_ chd ∧ index_ ch0 = index_ chd) as Hb.
  { intros d chd [[<- <-]|[_ Hd]]%lookup_insert_Some; [by exists ch|by exists chd]. }
  assert (∀ d chd, echans s !! d = Some chd → ∃ ch0, <[c := set_events ch m]> (echans s) !! d = Some ch0 ∧
    fd_ ch0 = fd_ chd ∧ index_ ch0 = index_ chd) as Hf.
  { intros d chd Hd. destruct (decide (d = c)) as [->|Hne].
    - exists (set_events ch m). rewrite lookup_insert_eq. assert (chd = ch) as -> by congruence. done.
    - exists chd. by rewrite lookup_insert_ne. }
  split; simpl.
  - intros k m' d Hk. destruct (inv_kernel _ Hs _ _ _ Hk) as (chd & Hd & ? & ? & ?).
    destruct (Hf d chd Hd) as (ch0 & ? & ? & ?). exists ch0. split_and!; try done; congruence.
  - intros d chd Hd Hi. destruct (Hb d chd Hd) as (ch0 & H0 & <- & Hi0).
    apply (inv_added _ Hs d ch0 H0). congruence.
  - intros k d Hk. destruct (inv_known _ Hs k d Hk) as (chd & Hd & ? & ?).
    destruct (Hf d chd Hd) as (ch0 & ? & ? & ?). exists ch0. split_and!; try done; congruence.
  - intros d chd Hd. destruct (Hb d chd Hd) as (ch0 & H0 & <- & <-). by apply (inv_index _ Hs).
Qed.

(** A poller whose channels are all new. *)
Lemma inv_EPoller_new chans :
  (∀ c ch, chans !! c = Some ch → index_ ch = kNew) → inv (EPoller_new chans).
Proof.
  intros H. split; simpl; try done.
  - intros c ch Hc Hi. rewrite (H c ch Hc) in Hi. done.
  - intros c ch Hc. left. by apply (H c).
Qed.

(** A channel left in an [EPoller] that is destroyed is lost to the next one: its
    index still says [kAdded], so the first update is an [EPOLL_CTL_MOD] of an
    absent descriptor, whose failure is not even logged. *)
Lemma EPoller_delete_leaves s c ch :
  echans s !! c = Some ch → index_ ch = kAdded → isNoneEvent ch = false →
  ∃ s', EPoller_delete s = Ok (tt, s') ∧ interest s' = ∅ ∧
    updateChannel c (EPoller_new (echans s')) = Ok (tt, EPoller_new (echans s')).
Proof.
  intros Hc Hi Hn. eexists. split; [reflexivity|]. split; [apply fmap_empty|]. simpl.
  set (s1 := EPoller_new (echans s)). assert (echan c s1 = Ok (ch, s1)) as E by by apply echan_eq.
  unfold updateChannel. mstep_by (exact E). rewrite Hi, Hn. simpl. unfold update. mstep_by (exact E). done.
Qed.

(** C31: [EPoller::updateChannel] keeps [index_] and the kernel's interest list
    in step, never issues an [epoll_ctl] that fails, and changes the watched
    set exactly as [spec_updateChannel] says; a channel that was dropped is
    watched again when its events are enabled again. *)
Theorem epoll_updateChannel_refines s c ch :
  inv s → can_update s c ch →
  ∃ s', updateChannel c s = Ok (tt, s') ∧ inv s' ∧
    interest s' = spec_updateChannel ch (interest s).
Proof.
  intros Hs Hcan. destruct (updateChannel_added s c ch Hs Hcan) as (s' & ? & ? & ? & _). by exists s'.
Qed.

(** Removing a registered channel erases it from the map and from the
    kernel's interest list and makes it new again. *)
Theorem epoll_removeChannel_correct s c ch :
  inv s → echans s !! c = Some ch → index_ ch ≠ kNew →
  ∃ s', removeChannel c s = Ok (tt, s') ∧ inv s' ∧
    interest s' = delete (fd_ ch) (interest s) ∧ echannels_ s' !! fd_ ch = None ∧
    echans s' !! c = Some (set_index ch kNew).
Proof.
  intros Hs Hc Hi. destruct (inv_index _ Hs c ch Hc) as [?|[Hor Hm]]; [done|].
  set (m := delete (fd_ ch) (echannels_ s)).
  exists (after s m c (set_index ch kNew) (delete (fd_ ch) (kernel s))).
  split; [|split_and!].
  - unfold removeChannel. mstep_by (by apply echan_eq). mstep. fold m.
    assert ((if index_ ch =? kAdded then update EPOLL_CTL_DEL c else mret ()) (set_echannels m s) =
      Ok (tt, set_kernel (delete (fd_ ch) (kernel s)) (set_echannels m s))) as Hstep.
    { destruct (Z.eqb_spec (index_ ch) kAdded) as [E|E].
      - erewrite update_eq by exact Hc. unfold epoll_ctl; simpl.
        destruct (inv_added _ Hs c ch Hc E) as [mask ->]. done.
      - assert (kernel s !! fd_ ch = None) as Hk.
        { apply (kernel_absent s c ch Hs Hc E). intros ?; done. }
        rewrite delete_id by done. done. }
    mstep_by (exact Hstep). erewrite eupd_chan_eq by exact Hc. done.
  - apply (inv_after_dropped s c ch Hs Hc kNew). right. done.
  - unfold interest; simpl. by rewrite fmap_delete.
  - apply lookup_delete_eq.
  - apply lookup_insert_eq.
Qed.

(** The result test of [EPoller::poll] is inverted: ready descriptors
    ([numEvents > 0]) are never reported to the loop, whatever they are, and a
    failed [epoll_wait] (-1) fails the assertion of [fillActiveChannels]. *)
Theorem epoll_poll_inverted s now ready n :
  events_size s < 2 ^ 64 - 1 → 0 ≤ n →
  poll now n ready [] s = Ok ((now, []), s) ∧ poll now (-1) ready [] s = Err AssertFailed.
Proof.
  intros Hsz Hn. unfold poll. rewrite (proj2 (Z.ltb_ge _ _)) by done. split; [done|].
  change (-1 <? 0) with true. unfold fillActiveChannels. cbn iota.
  rewrite bind_unfold. rewrite bind_unfold. unfold get at 1, assert_ at 1. rewrite bind_unfold.
  change (u64 (-1)) with (2 ^ 64 - 1). rewrite (proj2 (Z.ltb_ge _ _)) by lia. done.
Qed.

(** ** Concrete states *)

Module Demo.
Definition ch : channel := set_events (Channel_new 0 7) 4.
Definition s0 : EPoller := EPoller_new {[0%nat := ch]}.
Definition s1 : EPoller := after s0 {[7 := 0%nat]} 0 (set_index ch kAdded) {[7 := (4, 0%nat)]}.

Lemma inv_e0 : inv s0.
Proof. apply inv_EPoller_new. by intros c ch' [<- <-]%lookup_singleton_Some. Qed.

Lemma inv_e1 : inv s1.
Proof. apply (inv_after_added s0 0 ch inv_e0 eq_refl 4); done. Qed.
End Demo.

Lemma epoll_updateChannel_refines_witness :
  ∃ s', updateChannel 0 Demo.s0 = Ok (tt, s') ∧ inv s' ∧
    interest s' = spec_updateChannel Demo.ch (interest Demo.s0).
Proof. apply epoll_updateChannel_refines; [apply Demo.inv_e0|by split]. Defined.

Lemma epoll_removeChannel_correct_witness :
  ∃ s', removeChannel 0 Demo.s1 = Ok (tt, s') ∧ inv s' ∧
    interest s' = delete 7 (interest Demo.s1) ∧ echannels_ s' !! 7 = None ∧
    echans s' !! 0%nat = Some (set_index (set_index Demo.ch kAdded) kNew).
Proof. apply (epoll_removeChannel_correct Demo.s1 0 (set_index Demo.ch kAdded)); [apply Demo.inv_e1|done|done]. Defined.

Lemma epoll_poll_inverted_witness :
  poll 5 1 [(1, 0%nat)] [] Demo.s1 = Ok ((5, []), Demo.s1) ∧
  poll 5 (-1) [(1, 0%nat)] [] Demo.s1 = Err AssertFailed.
Proof. apply epoll_poll_inverted; [reflexivity|lia]. Defined.
