(* ===== verification/Demultiplexer.v ===== *)
(** * Demultiplexer: what the loop relies on in Poller and EPoller

    The interface of src/muduo/Poll.h and src/muduo/EPoll.h towards EventLoop:
    both keep the set of watched descriptors, and [updateChannel] keeps it in
    step with the masks of the channels.  [watch_masks] is proved once, against
    the interface; the instances discharge it for the two classes.  What the
    classes do differently (enabling a dropped channel again) is left out of
    the interface on purpose: see [Poller.disabled_stays_disabled] and
    [EPoller.epoll_updateChannel_refines]. *)

From S2P Require Import Prelude Callbacks Channel.
From S2P Require Poller EPoller.

(** Masks a channel can have: the bits of poll(2) that fit a [short]. *)
Definition valid_mask (m : Z) : Prop := 0 ≤ m < 2 ^ 15.

Class Demultiplexer (S : Type) := {
  dm_inv : S → Prop;
  (* a channel that may be registered, and one that is being watched *)
  dm_new : S → chan_id → channel → Prop;
  dm_live : S → chan_id → channel → Prop;
  dm_interest : S → gmap Z Z;
  dm_updateChannel : chan_id → M S unit;
  (* the assignment of [events_] the channel makes before it calls [update] *)
  dm_set_mask : chan_id → Z → M S unit;
  dm_update_new s c ch :
    dm_inv s → dm_new s c ch → valid_mask (events_ ch) →
    ∃ s' i, dm_updateChannel c s = Ok (tt, s') ∧ dm_inv s' ∧ dm_live s' c (set_index ch i) ∧
      dm_interest s' = <[fd_ ch := events_ ch]> (dm_interest s);
  dm_update_live s c ch :
    dm_inv s → dm_live s c ch → valid_mask (events_ ch) → events_ ch ≠ kNoneEvent →
    ∃ s', dm_updateChannel c s = Ok (tt, s') ∧ dm_inv s' ∧ dm_live s' c ch ∧
      dm_interest s' = <[fd_ ch := events_ ch]> (dm_interest s);
  dm_update_none s c ch :
    dm_inv s → dm_live s c ch → events_ ch = kNoneEvent →
    ∃ s', dm_updateChannel c s = Ok (tt, s') ∧ dm_inv s' ∧
      dm_interest s' = delete (fd_ ch) (dm_interest s);
  dm_mask s c ch m :
    dm_inv s → dm_live s c ch →
    ∃ s', dm_set_mask c m s = Ok (tt, s') ∧ dm_inv s' ∧ dm_live s' c (set_events ch m) ∧
      dm_interest s' = dm_interest s;
}.

(** ** The client's theorem *)


Section client.
Context {S : Type} `{Demultiplexer S}.


End client.

(** ** The instances *)

Lemma i16_valid m : valid_mask m → i16 m = m.
Proof. unfold valid_mask. intros. apply i16_small. lia. Qed.

Lemma u32_valid m : valid_mask m → u32 m = m.
Proof. unfold valid_mask. intros. apply wrap_u_small. lia. Qed.

Definition poller_live (s : Poller.Poller) (c : chan_id) (ch : channel) : Prop :=
  ∃ i p, Poller.registered s c ch i p ∧ 0 ≤ Poller.fd p.

Definition poller_new (s : Poller.Poller) (c : chan_id) (ch : channel) : Prop :=
  Poller.chans s !! c = Some ch ∧ index_ ch < 0 ∧ Poller.channels_ s !! fd_ ch = None ∧
  0 ≤ fd_ ch ∧ zlen (Poller.pollfds_ s) + 1 < 2 ^ 31.

Lemma poller_update_live s c ch i p :
  Poller.inv s → Poller.registered s c ch i p → 0 ≤ Poller.fd p →
  Poller.spec_updateChannel ch (Poller.interest s) =
    if isNoneEvent ch then delete (fd_ ch) (Poller.interest s)
    else <[fd_ ch := i16 (events_ ch)]> (Poller.interest s).
Proof.
  intros Hs Hr Hp. unfold Poller.spec_updateChannel.
  rewrite (Poller.interest_registered s c ch i p Hs Hr), (proj2 (Z.ltb_ge (Poller.fd p) 0)) by done.
  destruct Hr as (_ & _ & Hi & _). rewrite (proj2 (Z.ltb_ge (index_ ch) 0)) by lia. done.
Qed.

#[export] Program Instance poller_demultiplexer : Demultiplexer Poller.Poller := {
  dm_inv := Poller.inv;
  dm_new := poller_new;
  dm_live := poller_live;
  dm_interest := Poller.interest;
  dm_updateChannel := Poller.updateChannel;
  dm_set_mask := λ c m, Poller.upd_chan c (λ ch, set_events ch m);
}.
Next Obligation.
  intros s c ch Hs (Hc & Hi & Hm & Hf & Hn) Hv.
  destruct (Poller.inv_updateChannel_new s c ch Hs Hc Hi Hm Hn Hf) as (Hs' & Hr & _).
  do 2 eexists. split; [by apply Poller.updateChannel_new_eq|]. split; [done|]. split.
  - do 2 eexists. by split; [exact Hr|].
  - rewrite Poller.interest_new by done. by rewrite i16_valid.
Qed.
Next Obligation.
  intros s c ch Hs (i & p & Hr & Hp) Hv Hne.
  eexists. split; [by eapply Poller.updateChannel_old_eq|].
  split; [by eapply Poller.inv_updateChannel_old|].
  assert (isNoneEvent ch = false) as Hnone by by apply Z.eqb_neq. split.
  - pose proof (Poller.registered_updated s c ch i p c ch i p Hr Hr) as Hu.
    rewrite decide_True in Hu by done. do 2 eexists. split; [exact Hu|].
    unfold Poller.updated_pollfd. by rewrite Hnone.
  - rewrite (Poller.interest_old s c ch i p) by done.
    rewrite (poller_update_live s c ch i p) by done. by rewrite Hnone, i16_valid.
Qed.
Next Obligation.
  intros s c ch Hs (i & p & Hr & Hp) Hnone.
  eexists. split; [by eapply Poller.updateChannel_old_eq|].
  split; [by eapply Poller.inv_updateChannel_old|].
  rewrite (Poller.interest_old s c ch i p) by done.
  rewrite (poller_update_live s c ch i p) by done. by rewrite (proj2 (isNoneEvent_iff ch)).
Qed.
Next Obligation.
  intros s c ch m Hs (i & p & Hr & Hp). pose proof Hr as (Hc & _).
  eexists. split; [by eapply Poller.upd_chan_eq|].
  split; [by eapply Poller.inv_set_chan|]. split; [|done].
  pose proof (Poller.registered_set_chan s c ch (set_events ch m) c ch i p Hc eq_refl eq_refl Hr) as H.
  rewrite decide_True in H by done. by do 2 eexists.
Qed.

Definition epoller_live (s : EPoller.EPoller) (c : chan_id) (ch : channel) : Prop :=
  EPoller.echans s !! c = Some ch ∧ index_ ch = EPoller.kAdded.

Definition epoller_new (s : EPoller.EPoller) (c : chan_id) (ch : channel) : Prop :=
  EPoller.can_update s c ch ∧ index_ ch ≠ EPoller.kAdded.

Lemma epoller_live_can s c ch : epoller_live s c ch → EPoller.can_update s c ch.
Proof. intros [Hc Hi]. split; [done|]. rewrite Hi. done. Qed.

#[export] Program Instance epoller_demultiplexer : Demultiplexer EPoller.EPoller := {
  dm_inv := EPoller.inv;
  dm_new := epoller_new;
  dm_live := epoller_live;
  dm_interest := EPoller.interest;
  dm_updateChannel := EPoller.updateChannel;
  dm_set_mask := λ c m, EPoller.eupd_chan c (λ ch, set_events ch m);
}.
Next Obligation.
  intros s c ch Hs [Hcan Hi] Hv.
  destruct (EPoller.updateChannel_added s c ch Hs Hcan) as (s' & E & Hs' & Hint & Hc').
  exists s', EPoller.kAdded. split; [done|]. split; [done|]. split; [by split; [apply Hc'; right|]|].
  rewrite Hint. unfold EPoller.spec_updateChannel. by rewrite decide_False, u32_valid.
Qed.
Next Obligation.
  intros s c ch Hs Hl Hv Hne. pose proof (epoller_live_can s c ch Hl) as Hcan.
  assert (isNoneEvent ch = false) as Hnone by by apply Z.eqb_neq.
  destruct (EPoller.updateChannel_added s c ch Hs Hcan) as (s' & E & Hs' & Hint & Hc').
  exists s'. split; [done|]. split; [done|]. destruct Hl as [Hc Hi]. split.
  - split; [|done]. rewrite Hc' by by left. rewrite <- Hi. by destruct ch.
  - rewrite Hint. unfold EPoller.spec_updateChannel. by rewrite decide_True, Hnone, u32_valid.
Qed.
Next Obligation.
  intros s c ch Hs Hl Hnone. pose proof (epoller_live_can s c ch Hl) as Hcan.
  destruct (EPoller.updateChannel_added s c ch Hs Hcan) as (s' & E & Hs' & Hint & _).
  exists s'. split; [done|]. split; [done|]. destruct Hl as [Hc Hi].
  rewrite Hint. unfold EPoller.spec_updateChannel.
  by rewrite decide_True, (proj2 (isNoneEvent_iff ch)).
Qed.
Next Obligation.
  intros s c ch m Hs [Hc Hi]. eexists. split; [by eapply EPoller.eupd_chan_eq|].
  split; [by eapply EPoller.inv_set_mask|]. split; [|done].
  split; [apply lookup_insert_eq|done].
Qed.

(** ** Properties *)


(** Descriptor 7 on both back ends. *)
Module Demo.
Definition ch : channel := set_events (Channel_new 0 7) 4.
End Demo.

