(* ===== verification/LogStream.v ===== *)
(** * LogStream: the fixed buffers and formatting of the logger

    Models src/muduo/log/base/LogStream.h, LogStream.cpp and the [Logger] of
    Logging.h, Logging.cpp.  A [FixedBuffer<SIZE>] is its array and the offset
    of [cur_]; every write into it is bounds checked by [mem_write], so that a
    buffer overrun is the fault [OutOfBounds].  [decimal] is the reference for
    the digit loop of [convert]; [render] is the reference for a whole log
    statement.  The text [snprintf] produces for a floating-point number or a
    pointer, and the local time, are arguments. *)

From Stdlib Require Import String.
From S2P Require Import Prelude Printf.

Definition kSmallBuffer : Z := 4000.
Definition kLargeBuffer : Z := 4000 * 1000.

(** ** FixedBuffer *)

Module FixedBuffer.
Record t : Type := mk { data_ : bytes; cur_ : Z }.

(** [SIZE] bytes of unspecified contents. *)
Definition new (raw : bytes) : t := mk raw 0.

Definition length_ (b : t) : Z := i32 (cur_ b).
Definition avail (b : t) : Z := i32 (zlen (data_ b) - cur_ b).

(** [buf]: the object the argument points to; [len]: a [size_t]. *)
Definition append (buf : bytes) (len : Z) : M t unit :=
  b ← get;
  if avail b >? i32 len then
    src ← lift (mem_read 0 len buf);
    data ← lift (mem_write (cur_ b) src (data_ b));
    put (mk data (cur_ b + len))
  else mret ().

Definition add (len : Z) : M t unit := modify (λ b, mk (data_ b) (cur_ b + len)).
Definition reset : M t unit := modify (λ b, mk (data_ b) 0).
Definition bzero : M t unit :=
  modify (λ b, mk (replicate (length (data_ b)) Byte.x00) (cur_ b)).

(** The bytes [data()] and [length()] describe. *)
Definition content (b : t) : bytes := zsub 0 (cur_ b) (data_ b).
Definition inv (b : t) : Prop := 0 ≤ cur_ b ≤ zlen (data_ b) ∧ zlen (data_ b) < 2 ^ 31.

Lemma avail_eq b : inv b → avail b = zlen (data_ b) - cur_ b.
Proof. unfold inv, avail. intros. apply i32_small. lia. Qed.

Lemma length_eq b : inv b → length_ b = zlen (content b).
Proof.
  unfold inv, length_, content. intros. rewrite i32_small by lia. rewrite zlen_zsub; lia.
Qed.

(** Writing [src] at [cur_] and advancing over a prefix of it. *)
Lemma content_written b src len :
  inv b → cur_ b + zlen src ≤ zlen (data_ b) → 0 ≤ len ≤ zlen src →
  let b' := mk (zblit (cur_ b) src (data_ b)) (cur_ b + len) in
  inv b' ∧ content b' = content b ++ take (Z.to_nat len) src ∧
  zlen (data_ b') = zlen (data_ b).
Proof.
  intros [Hc Hz] Hfit Hlen b'. unfold inv, content, b'; simpl.
  rewrite !zlen_zblit by lia. split; [lia|]. split; [|done].
  rewrite zsub_split by lia. f_equal.
  - apply zsub_zblit_before; lia.
  - rewrite <- (zsub_zblit_same (cur_ b) (cur_ b) src (data_ b) (zlen src)) at 2 by lia.
    simpl. unfold zsub, sub. rewrite take_take. f_equal. lia.
Qed.

(** [append] copies the whole argument, or nothing of it. *)
Lemma append_content b buf len :
  inv b → 0 ≤ len < 2 ^ 31 → len ≤ zlen buf →
  ∃ b', append buf len b = Ok (tt, b') ∧ inv b' ∧ zlen (data_ b') = zlen (data_ b) ∧
    content b' = content b ++
      (if len <? zlen (data_ b) - cur_ b then take (Z.to_nat len) buf else []).
Proof.
  intros Hb Hl Hbuf. unfold append. mstep. rewrite avail_eq, i32_small by (done || lia).
  rewrite Z.gtb_ltb. destruct (Z.ltb_spec len (zlen (data_ b) - cur_ b)) as [Hlt|Hge].
  - pose proof Hb as [Hc Hz].
    rewrite mem_read_ok by lia. mstep.
    assert (zlen (zsub 0 len buf) = len) as Esrc by (apply zlen_zsub; lia).
    rewrite mem_write_ok by (rewrite ?Esrc; lia). mstep.
    destruct (content_written b (zsub 0 len buf) len) as (H1 & H2 & H3); [done|lia..|].
    eexists. split; [reflexivity|]. split; [exact H1|]. split; [exact H3|].
    rewrite H2. f_equal. unfold zsub, sub. simpl. rewrite drop_0, take_take. f_equal. lia.
  - exists b. split; [done|]. split; [done|]. split; [done|]. by rewrite app_nil_r.
Qed.
End FixedBuffer.

(** ** convert: integers to decimal text *)

(** [char digits[]], with its terminator; [zero] points at offset 9. *)
Definition digits : bytes := str "9876543210123456789" ++ [Byte.x00].
Definition zero : Z := 9.

(** [fuel] bounds the iterations: a 64-bit value has at most 20 digits. *)
Fixpoint convert_loop (fuel : nat) (i : Z) (p : bytes) : res bytes :=
  match fuel with
  | O => Err OutOfFuel
  | S fuel' =>
      let lsd := i32 (Z.rem i 10) in
      let i' := Z.quot i 10 in
      c ← mem_read (zero + lsd) 1 digits;
      let p' := p ++ c in
      if i' =? 0 then Ok p' else convert_loop fuel' i' p'
  end.

(** The characters before the terminator, after [std::reverse]. *)
Definition convert (value : Z) : res bytes :=
  p ← convert_loop 20 value [];
  let p' := if value <? 0 then p ++ [minus] else p in
  Ok (rev p').

Lemma digit_char lsd : -9 ≤ lsd ≤ 9 →
  mem_read (zero + lsd) 1 digits = Ok [digit_byte (Z.abs lsd)].
Proof.
  intros H. assert (∃ n, (n < 19)%nat ∧ lsd = Z.of_nat n - 9) as (n & Hn & ->).
  { exists (Z.to_nat (lsd + 9)). lia. }
  do 19 (destruct n as [|n]; [reflexivity|]). lia.
Qed.

Lemma abs_quot_rem i :
  Z.abs (Z.quot i 10) = Z.abs i / 10 ∧ Z.abs (Z.rem i 10) = Z.abs i mod 10.
Proof.
  rewrite <- Z.quot_abs, <- Z.rem_abs by lia. change (Z.abs 10) with 10.
  rewrite Z.quot_div_nonneg, Z.rem_mod_nonneg by lia. done.
Qed.

Lemma convert_loop_S n i p :
  convert_loop (S n) i p =
    (c ← mem_read (zero + i32 (Z.rem i 10)) 1 digits;
     if Z.quot i 10 =? 0 then Ok (p ++ c) else convert_loop n (Z.quot i 10) (p ++ c)).
Proof. done. Qed.

(** The loop writes the digits of [|i|], least significant first. *)
Lemma convert_loop_spec n i p :
  Z.abs i < 10 ^ Z.of_nat (S n) →
  convert_loop (S n) i p = Ok (p ++ rev (dec_u (S n) (Z.abs i))).
Proof.
  revert i p. induction n as [|n IH]; intros i p Hi;
    destruct (abs_quot_rem i) as [Hq Hr]; pose proof (Z.mod_pos_bound (Z.abs i) 10 ltac:(lia));
    pose proof (Z.div_mod (Z.abs i) 10 ltac:(lia));
    pose proof (Z.rem_bound_abs i 10 ltac:(lia));
    assert (-9 ≤ Z.rem i 10 ≤ 9) by lia;
    rewrite convert_loop_S, dec_u_S; rewrite (i32_small (Z.rem i 10)) by lia; rewrite (digit_char (Z.rem i 10)) by lia; rewrite Hr; cbn [mbind res_bind].
  - change (10 ^ Z.of_nat 1) with 10 in Hi. rewrite (proj2 (Z.ltb_lt _ _)) by done.
    rewrite (proj2 (Z.eqb_eq _ _)); [done|]. lia.
  - destruct (Z.ltb_spec (Z.abs i) 10) as [Hlt|Hge].
    + rewrite (proj2 (Z.eqb_eq _ _)); [done|]. lia.
    + rewrite (proj2 (Z.eqb_neq _ _)) by lia.
      rewrite IH, Hq, rev_app_distr, <- app_assoc; [done|]. rewrite Hq.
      rewrite Nat2Z.inj_succ, Z.pow_succ_r in Hi by lia. apply Z.div_lt_upper_bound; lia.
Qed.

Lemma convert_dec v : - 2 ^ 63 ≤ v < 2 ^ 64 → convert v = Ok (dec v).
Proof.
  intros Hv. unfold convert, dec. rewrite convert_loop_spec by lia. cbn [mbind res_bind app].
  destruct (Z.ltb_spec v 0).
  - rewrite rev_app_distr, rev_involutive, Z.abs_neq by lia. done.
  - rewrite rev_involutive, Z.abs_eq by lia. done.
Qed.

(** ** LogStream: the insertion operators *)

Definition kMaxNumericSize : Z := 32.

(** The instances of [formatInteger<T>]. *)
Inductive int_type : Set := Int | UInt | Long | ULong | LongLong | ULongLong.

Definition int_range (ty : int_type) : Z * Z :=
  match ty with
  | Int => (- 2 ^ 31, 2 ^ 31)
  | UInt => (0, 2 ^ 32)
  | Long | LongLong => (- 2 ^ 63, 2 ^ 63)
  | ULong | ULongLong => (0, 2 ^ 64)
  end.

Definition in_type (ty : int_type) (v : Z) : Prop := (int_range ty).1 ≤ v < (int_range ty).2.

Definition formatInteger (v : Z) : M FixedBuffer.t unit :=
  b ← get;
  if FixedBuffer.avail b >=? kMaxNumericSize then
    text ← lift (convert v);
    data ← lift (mem_write (FixedBuffer.cur_ b) (text ++ [Byte.x00]) (FixedBuffer.data_ b));
    put (FixedBuffer.mk data (FixedBuffer.cur_ b)) ;;
    FixedBuffer.add (zlen text)
  else mret ().

(** [snprintf(current(), 32, ...)] of a conversion whose full text is [text]
    writes at most 31 characters of it and a terminator, and returns the length
    of the full text. *)
Definition snprintf_32 (text : bytes) : M FixedBuffer.t Z :=
  b ← get;
  data ← lift (mem_write (FixedBuffer.cur_ b) (take 31 text ++ [Byte.x00]) (FixedBuffer.data_ b));
  put (FixedBuffer.mk data (FixedBuffer.cur_ b)) ;;
  mret (zlen text).

(** [operator<<(double)] and [operator<<(long double)]. *)
Definition insert_double (text : bytes) : M FixedBuffer.t unit :=
  b ← get;
  if FixedBuffer.avail b >=? kMaxNumericSize then
    len ← snprintf_32 text; FixedBuffer.add len
  else mret ().

(** [operator<<(const void* )]: [strlen] of what [snprintf] wrote. *)
Definition insert_pointer (text : bytes) : M FixedBuffer.t unit :=
  b ← get;
  if FixedBuffer.avail b >=? kMaxNumericSize then
    snprintf_32 text ;; FixedBuffer.add (zlen (take 31 text))
  else mret ().

(** The operands of [<<]; a C string is its bytes before the terminator. *)
Inductive item : Type :=
  | IBool (v : bool)
  | IShort (v : Z)
  | IUShort (v : Z)
  | IInteger (ty : int_type) (v : Z)
  | IDouble (text : bytes)
  | IPointer (text : bytes)
  | IChar (c : byte)
  | ICStr (s : option bytes)
  | IString (s : bytes).

Definition insert (it : item) : M FixedBuffer.t unit :=
  match it with
  | IBool v => FixedBuffer.append (if v then str "1" else str "0") 1
  | IShort v | IUShort v => formatInteger v
  | IInteger _ v => formatInteger v
  | IDouble text => insert_double text
  | IPointer text => insert_pointer text
  | IChar c => FixedBuffer.append [c] 1
  | ICStr (Some s) => FixedBuffer.append (s ++ [Byte.x00]) (zlen s)
  | ICStr None => FixedBuffer.append (str "(null)") 6
  | IString s => FixedBuffer.append (s ++ [Byte.x00]) (zlen s)
  end.

(** [Logger(file, line)], the client's insertions, then [~Logger()]: the bytes
    given to [AsyncLogging::append].  [time]: what [strftime] produced. *)
Definition Logger_message (raw time : bytes) (user : list item) (basename : bytes) (line : Z) :
    res bytes :=
  match (insert (ICStr (Some time)) ;;
         for_each insert user ;;
         for_each insert [ICStr (Some (str " -- ")); IString basename; IChar Byte.x3a;
                          IInteger Int line; IChar Byte.x0a]) (FixedBuffer.new raw) with
  | Ok (_, b) => mem_read 0 (FixedBuffer.length_ b) (FixedBuffer.data_ b)
  | Err f => Err f
  end.

(** *** The reference: the text of an operand and the room it needs *)

Definition render (it : item) : bytes :=
  match it with
  | IBool v => if v then str "1" else str "0"
  | IShort v | IUShort v | IInteger _ v => dec v
  | IDouble t | IPointer t => t
  | IChar c => [c]
  | ICStr s => default (str "(null)") s
  | IString s => s
  end.

Definition valid_item (it : item) : Prop :=
  match it with
  | IShort v => - 2 ^ 15 ≤ v < 2 ^ 15
  | IUShort v => 0 ≤ v < 2 ^ 16
  | IInteger ty v => in_type ty v
  | IDouble t | IPointer t => zlen t < kMaxNumericSize
  | ICStr (Some s) | IString s => zlen s < 2 ^ 31
  | _ => True
  end.

(** The free space below which the operand is dropped. *)
Definition room (it : item) : Z :=
  match it with
  | IShort _ | IUShort _ | IInteger _ _ | IDouble _ | IPointer _ => kMaxNumericSize
  | IBool _ | IChar _ => 2
  | ICStr s => 1 + zlen (default (str "(null)") s)
  | IString s => 1 + zlen s
  end.

(** An upper bound of the length of an operand's text. *)
Definition width (it : item) : Z :=
  match it with
  | IShort _ | IUShort _ | IInteger _ _ => 21
  | IDouble t | IPointer t => zlen t
  | IBool _ | IChar _ => 1
  | ICStr s => zlen (default (str "(null)") s)
  | IString s => zlen s
  end.

Definition free (b : FixedBuffer.t) : Z := zlen (FixedBuffer.data_ b) - FixedBuffer.cur_ b.

(** The outcome of an insertion: all of [text], or none when there is no room. *)
Definition inserted (m : M FixedBuffer.t unit) (b : FixedBuffer.t) (need : Z) (text : bytes) : Prop :=
  ∃ b', m b = Ok (tt, b') ∧ FixedBuffer.inv b' ∧
    zlen (FixedBuffer.data_ b') = zlen (FixedBuffer.data_ b) ∧
    FixedBuffer.content b' = FixedBuffer.content b ++ (if need <=? free b then text else []).

Lemma append_inserted b s n k :
  FixedBuffer.inv b → zlen s < 2 ^ 31 → n = zlen s →
  inserted (FixedBuffer.append (s ++ k) n) b (1 + zlen s) s.
Proof.
  intros Hb Hs ->. pose proof (zlen_nonneg s).
  destruct (FixedBuffer.append_content b (s ++ k) (zlen s)) as (b' & E & Hi & Hz & Hc);
    [done|lia|rewrite zlen_app; pose proof (zlen_nonneg k); lia|].
  exists b'. split_and!; try done. rewrite Hc. f_equal. unfold free.
  rewrite take_zlen_app.
  destruct (Z.ltb_spec (zlen s) (zlen (FixedBuffer.data_ b) - FixedBuffer.cur_ b));
    destruct (Z.leb_spec (1 + zlen s) (zlen (FixedBuffer.data_ b) - FixedBuffer.cur_ b)); done || lia.
Qed.

(** Writing [src] at the end and advancing by the length of its prefix [text]. *)
Lemma write_advance b (text k : bytes) :
  FixedBuffer.inv b → FixedBuffer.cur_ b + zlen (text ++ k) ≤ zlen (FixedBuffer.data_ b) →
  let data := zblit (FixedBuffer.cur_ b) (text ++ k) (FixedBuffer.data_ b) in
  mem_write (FixedBuffer.cur_ b) (text ++ k) (FixedBuffer.data_ b) = Ok data ∧
  let b' := FixedBuffer.mk data (FixedBuffer.cur_ b + zlen text) in
  FixedBuffer.inv b' ∧ zlen (FixedBuffer.data_ b') = zlen (FixedBuffer.data_ b) ∧
  FixedBuffer.content b' = FixedBuffer.content b ++ text.
Proof.
  intros Hb Hfit data. pose proof Hb as [? _]. split; [apply mem_write_ok; lia|].
  intros b'. pose proof (zlen_nonneg text). pose proof (zlen_nonneg k).
  destruct (FixedBuffer.content_written b (text ++ k) (zlen text)) as (G1 & G2 & G3);
    [done|lia|rewrite zlen_app; lia|].
  split; [done|]. split; [done|]. etransitivity; [exact G2|].
  by rewrite take_zlen_app.
Qed.

Lemma no_room b need text :
  FixedBuffer.inv b → free b < need → inserted (mret ()) b need text.
Proof.
  intros Hb Hn. exists b. split_and!; try done. rewrite (proj2 (Z.leb_gt _ _)) by lia.
  by rewrite app_nil_r.
Qed.

Lemma formatInteger_inserted b v :
  FixedBuffer.inv b → - 2 ^ 63 ≤ v < 2 ^ 64 →
  zlen (dec v) ≤ 21 ∧ inserted (formatInteger v) b kMaxNumericSize (dec v).
Proof.
  intros Hb Hv. pose proof (zlen_dec v ltac:(lia)). split; [lia|].
  unfold formatInteger, inserted. mstep. rewrite FixedBuffer.avail_eq by done.
  fold (free b). rewrite Z.geb_leb. destruct (Z.leb_spec kMaxNumericSize (free b)) as [Hr|Hr].
  - unfold lift at 1. rewrite (convert_dec v Hv). mstep. unfold free, kMaxNumericSize in Hr.
    destruct (write_advance b (dec v) [Byte.x00]) as (W & H1 & H2 & H3);
      [done|rewrite zlen_app, zlen_cons, zlen_nil; lia|].
    unfold lift. rewrite W. do 2 mstep. eexists. by split.
  - exists b. by rewrite app_nil_r.
Qed.

Lemma snprintf_inserted b text (m : M FixedBuffer.t unit) :
  FixedBuffer.inv b → zlen text < kMaxNumericSize →
  (∀ b1, snprintf_32 text b = Ok (zlen text, b1) → m b = FixedBuffer.add (zlen text) b1) →
  kMaxNumericSize ≤ free b → inserted m b kMaxNumericSize text.
Proof.
  intros Hb Ht Hm Hr. unfold kMaxNumericSize, free in *.
  destruct (write_advance b text [Byte.x00]) as (W & H1 & H2 & H3);
    [done|rewrite zlen_app, zlen_cons, zlen_nil; lia|].
  unfold inserted. erewrite Hm.
  2:{ unfold snprintf_32. mstep. rewrite take_ge by (unfold zlen in *; lia).
      unfold lift. rewrite W. do 2 mstep. reflexivity. }
  unfold free. rewrite (proj2 (Z.leb_le _ _)) by lia. eexists. by split.
Qed.

(** Every operand is inserted whole or dropped, and never written past the end. *)
Lemma insert_inserted b it :
  FixedBuffer.inv b → valid_item it →
  zlen (render it) ≤ width it ∧ inserted (insert it) b (room it) (render it).
Proof.
  intros Hb Hv. destruct it as [v|v|v|ty v|t|t|c|[s|]|s]; simpl in *.
  - split; [by destruct v|]. destruct v; [by apply (append_inserted b (str "1") 1 [])|].
    by apply (append_inserted b (str "0") 1 []).
  - apply formatInteger_inserted; [done|lia].
  - apply formatInteger_inserted; [done|lia].
  - apply formatInteger_inserted; [done|]. unfold in_type in Hv. destruct ty; simpl in Hv; lia.
  - split; [done|]. destruct (Z.le_gt_cases kMaxNumericSize (free b)).
    + apply snprintf_inserted; [done..| |done]. intros b1 Hb1. unfold insert_double. mstep.
      rewrite FixedBuffer.avail_eq by done. fold (free b).
      rewrite Z.geb_leb, (proj2 (Z.leb_le _ _)) by done. by mstep.
    + unfold inserted. unfold insert_double. setoid_rewrite (bind_step get _ b b b eq_refl).
      rewrite FixedBuffer.avail_eq by done. fold (free b).
      rewrite Z.geb_leb, (proj2 (Z.leb_gt _ _)) by done. exists b. by rewrite app_nil_r.
  - split; [done|]. destruct (Z.le_gt_cases kMaxNumericSize (free b)).
    + apply snprintf_inserted; [done..| |done]. intros b1 Hb1. unfold insert_pointer. mstep.
      rewrite FixedBuffer.avail_eq by done. fold (free b).
      rewrite Z.geb_leb, (proj2 (Z.leb_le _ _)) by done. mstep.
      by rewrite take_ge by (unfold zlen, kMaxNumericSize in *; lia).
    + unfold inserted. unfold insert_pointer. setoid_rewrite (bind_step get _ b b b eq_refl).
      rewrite FixedBuffer.avail_eq by done. fold (free b).
      rewrite Z.geb_leb, (proj2 (Z.leb_gt _ _)) by done. exists b. by rewrite app_nil_r.
  - split; [done|]. by apply (append_inserted b [c] 1 []).
  - split; [done|]. by apply append_inserted.
  - split; [done|]. by apply (append_inserted b (str "(null)") 6 []).
  - split; [done|]. by apply append_inserted.
Qed.

Lemma width_nonneg it : 0 ≤ width it.
Proof. destruct it; simpl; auto with muduo; lia. Qed.

Lemma room_width it : valid_item it → room it ≤ width it + kMaxNumericSize.
Proof.
  pose proof (width_nonneg it) as H. destruct it; simpl in *; unfold kMaxNumericSize; lia.
Qed.

Fixpoint widths (its : list item) : Z :=
  match its with [] => 0 | it :: its' => width it + widths its' end.

Lemma widths_nonneg its : 0 ≤ widths its.
Proof. induction its as [|it its]; simpl; [lia|]. pose proof (width_nonneg it). lia. Qed.

Lemma widths_app a b : widths (a ++ b) = widths a + widths b.
Proof. induction a; simpl; lia. Qed.

Lemma free_content b b' :
  FixedBuffer.inv b → FixedBuffer.inv b' →
  zlen (FixedBuffer.data_ b') = zlen (FixedBuffer.data_ b) → ∀ t,
  FixedBuffer.content b' = FixedBuffer.content b ++ t → free b' = free b - zlen t.
Proof.
  intros [Hb _] [Hb' _] Hz t Hc. apply (f_equal zlen) in Hc.
  rewrite zlen_app in Hc. unfold FixedBuffer.content in Hc.
  rewrite !zlen_zsub in Hc by lia. unfold free. lia.
Qed.

(** A sequence that fits with [kMaxNumericSize] to spare is inserted whole. *)
Lemma inserts_complete its b :
  FixedBuffer.inv b → Forall valid_item its → widths its + kMaxNumericSize ≤ free b →
  ∃ b', for_each insert its b = Ok (tt, b') ∧ FixedBuffer.inv b' ∧
    FixedBuffer.content b' = FixedBuffer.content b ++ concat (render <$> its).
Proof.
  revert b. induction its as [|it its IH]; intros b Hb Hv Hw.
  - exists b. by rewrite app_nil_r.
  - apply Forall_cons in Hv as [Hit Hv]. simpl in Hw. pose proof (widths_nonneg its).
    destruct (insert_inserted b it Hb Hit) as (Hwt & b1 & E1 & Hb1 & Hz1 & Hc1).
    pose proof (room_width it Hit). rewrite (proj2 (Z.leb_le _ _)) in Hc1 by lia.
    pose proof (free_content b b1 Hb Hb1 Hz1 _ Hc1).
    destruct (IH b1 Hb1 Hv) as (b' & E & Hb' & Hc); [lia|].
    exists b'. split_and!; [by simpl; mstep_by (exact E1)|done|].
    by rewrite Hc, Hc1, <- app_assoc.
Qed.

Lemma inv_FixedBuffer_new raw : zlen raw < 2 ^ 31 → FixedBuffer.inv (FixedBuffer.new raw).
Proof. pose proof (zlen_nonneg raw). unfold FixedBuffer.inv; simpl. lia. Qed.

(** ** Properties *)

(** C32: [convert] of any value of the integer types ends within its 20
    iterations and writes exactly the text of the [%d] family, the minimum of
    [long], which has no positive counterpart, included; the text reads back as
    the value and fits with its terminator in the [kMaxNumericSize] bytes
    reserved for it. *)
Theorem convert_correct ty v :
  in_type ty v →
  convert v = Ok (dec v) ∧ parse_decimal (dec v) = v ∧ zlen (dec v) + 1 ≤ kMaxNumericSize.
Proof.
  intros Hv. assert (- 2 ^ 63 ≤ v < 2 ^ 64) as Hr.
  { unfold in_type in Hv. destruct ty; simpl in Hv; lia. }
  split; [by apply convert_dec|]. split; [apply parse_dec; lia|].
  pose proof (zlen_dec v). unfold kMaxNumericSize. lia.
Qed.

Lemma convert_correct_witness :
  in_type Long (- 2 ^ 63) ∧ convert (- 2 ^ 63) = Ok (dec (- 2 ^ 63)) ∧
  parse_decimal (dec (- 2 ^ 63)) = - 2 ^ 63 ∧ zlen (dec (- 2 ^ 63)) + 1 ≤ kMaxNumericSize.
Proof.
  split; [split; vm_compute; done|]. apply (convert_correct Long). split; vm_compute; done.
Defined.

Example convert_min : convert (- 2 ^ 63) = Ok (str "-9223372036854775808").
Proof. vm_compute. reflexivity. Qed.

Lemma inserts_ok its b :
  FixedBuffer.inv b → Forall valid_item its →
  ∃ kept b', Forall2 (λ it k, k = render it ∨ k = []) its kept ∧
    for_each insert its b = Ok (tt, b') ∧ FixedBuffer.inv b' ∧
    FixedBuffer.content b' = FixedBuffer.content b ++ concat kept.
Proof.
  revert b. induction its as [|it its IH]; intros b Hb Hv.
  - exists [], b. split_and!; try done. by rewrite app_nil_r.
  - apply Forall_cons in Hv as [Hit Hv].
    destruct (insert_inserted b it Hb Hit) as (_ & b1 & E1 & Hb1 & Hz1 & Hc1).
    destruct (IH b1 Hb1 Hv) as (kept & b' & Hk & E & Hb' & Hc).
    exists ((if room it <=? free b then render it else []) :: kept), b'.
    split_and!; [|by simpl; mstep_by (exact E1)|done|].
    + constructor; [|done]. destruct (_ <=? _); auto.
    + by rewrite Hc, Hc1, <- app_assoc.
Qed.

(** C33: whatever sequence of operands is inserted, no byte is written past the
    end of the buffer, and each operand is either appended whole or dropped
    whole, in order. *)
Theorem inserts_safe its b :
  FixedBuffer.inv b → Forall valid_item its →
  ∃ kept b', Forall2 (λ it k, k = render it ∨ k = []) its kept ∧
    for_each insert its b = Ok (tt, b') ∧ FixedBuffer.inv b' ∧
    FixedBuffer.content b' = FixedBuffer.content b ++ concat kept.
Proof. apply inserts_ok. Qed.

Lemma inserts_safe_witness :
  ∃ kept b', Forall2 (λ it k, k = render it ∨ k = []) [IInteger Int 7; ICStr None] kept ∧
    for_each insert [IInteger Int 7; ICStr None] (FixedBuffer.new (replicate 10 Byte.x00)) =
      Ok (tt, b') ∧ FixedBuffer.inv b' ∧
    FixedBuffer.content b' = FixedBuffer.content (FixedBuffer.new (replicate 10 Byte.x00)) ++ concat kept.
Proof.
  apply inserts_safe; [by apply inv_FixedBuffer_new|]. repeat constructor; vm_compute; discriminate.
Defined.

(** The operands of a log statement, with those of the constructor and the
    destructor of [Logger]. *)
Definition log_items (time : bytes) (user : list item) (basename : bytes) (line : Z) : list item :=
  ICStr (Some time) :: user ++
  [ICStr (Some (str " -- ")); IString basename; IChar Byte.x3a; IInteger Int line; IChar Byte.x0a].

(** What the statement has put in the stream is what it passes on. *)
Lemma Logger_message_content raw time user basename line b :
  for_each insert (log_items time user basename line) (FixedBuffer.new raw) = Ok (tt, b) →
  FixedBuffer.inv b →
  Logger_message raw time user basename line = Ok (FixedBuffer.content b).
Proof.
  intros E Hb. pose proof Hb as [? _]. unfold Logger_message, log_items in *. cbn [for_each] in E |- *.
  unfold mbind, M_bind in *. destruct (insert (ICStr (Some time)) (FixedBuffer.new raw)) as [[[] b1]|]; [|done].
  rewrite for_each_app in E. unfold mbind, M_bind in E.
  destruct (for_each insert user b1) as [[[] b2]|]; [|done].
  cbn [for_each] in E. unfold mbind, M_bind in E. rewrite E.
  rewrite FixedBuffer.length_eq by done. unfold FixedBuffer.content. rewrite zlen_zsub by lia.
  rewrite mem_read_ok by lia. done.
Qed.

(** A log statement whose operands fit in the stream's buffer reaches the
    back end complete: the time, the client's operands, the separator, the file
    name, the line and a newline, in this order and nothing else. *)
Theorem Logger_message_complete raw time user basename line :
  zlen raw = kSmallBuffer → Forall valid_item (log_items time user basename line) →
  widths (log_items time user basename line) + kMaxNumericSize ≤ kSmallBuffer →
  Logger_message raw time user basename line =
    Ok (time ++ concat (render <$> user) ++ str " -- " ++ basename ++ [Byte.x3a] ++ dec line ++ [Byte.x0a]).
Proof.
  intros Hraw Hv Hw. assert (FixedBuffer.inv (FixedBuffer.new raw)) as Hb.
  { apply inv_FixedBuffer_new. by rewrite Hraw. }
  destruct (inserts_complete (log_items time user basename line) _ Hb Hv) as (b' & E & Hb' & Hc).
  { unfold free; simpl. by rewrite Hraw, Z.sub_0_r. }
  rewrite (Logger_message_content _ _ _ _ _ b' E Hb'), Hc. f_equal. unfold log_items.
  cbn [fmap list_fmap concat render default]. rewrite fmap_app, concat_app.
  cbn [fmap list_fmap concat render default]. by rewrite ?app_nil_r.
Qed.

(** Whatever the operands, the statement does not fault, and what it passes on
    fits in the stream's buffer. *)
Lemma Logger_message_safe raw time user basename line :
  zlen raw < 2 ^ 31 → Forall valid_item (log_items time user basename line) →
  ∃ msg, Logger_message raw time user basename line = Ok msg ∧ zlen msg < 2 ^ 31.
Proof.
  intros Hraw Hv. destruct (inserts_ok (log_items time user basename line) _ (inv_FixedBuffer_new raw Hraw) Hv)
    as (kept & b & _ & E & Hb & _).
  exists (FixedBuffer.content b). split; [by apply Logger_message_content|]. destruct Hb as [? ?].
  unfold FixedBuffer.content. rewrite zlen_zsub; lia.
Qed.

Lemma Logger_message_complete_witness :
  Logger_message (replicate (Z.to_nat 4000) Byte.x00) (str "2024-01-01 00:00:00")
      [IInteger Int (-3); IBool true] (str "a.cc") 42 =
    Ok (str "2024-01-01 00:00:00" ++ concat (render <$> [IInteger Int (-3); IBool true]) ++
        str " -- " ++ str "a.cc" ++ [Byte.x3a] ++ dec 42 ++ [Byte.x0a]).
Proof.
  apply Logger_message_complete.
  - vm_compute. reflexivity.
  - repeat constructor; vm_compute; discriminate.
  - vm_compute. discriminate.
Defined.

Example Logger_message_text :
  Logger_message (replicate (Z.to_nat 4000) Byte.x00) (str "T ")
      [IInteger Int (-3); IBool true] (str "a.cc") 42 = Ok (str "T -31 -- a.cc:42" ++ [Byte.x0a]).
Proof. vm_compute. reflexivity. Qed.

(** A string of 2^31 bytes or more passes the space test, because the test
    narrows its length to [int], and [memcpy] writes past the buffer. *)
Theorem append_huge_overflows b buf len :
  FixedBuffer.inv b → 2 ^ 31 ≤ len < 2 ^ 32 → zlen buf = len →
  FixedBuffer.append buf len b = Err OutOfBounds.
Proof.
  intros Hb Hl Hbuf. unfold FixedBuffer.append. mstep. rewrite FixedBuffer.avail_eq by done.
  assert (i32 len = len - 2 ^ 32) as ->.
  { unfold wrap_s. replace (len + 2 ^ (32 - 1)) with (len - 2 ^ 31 + 1 * 2 ^ 32) by lia.
    rewrite Z.mod_add, Z.mod_small by lia. lia. }
  destruct Hb as [? ?]. rewrite Z.gtb_ltb, (proj2 (Z.ltb_lt _ _)) by lia.
  rewrite mem_read_ok by lia. mstep.
  assert (zlen (zsub 0 len buf) = len) as Esrc by (apply zlen_zsub; lia).
  unfold mem_write. rewrite Esrc, (proj2 (Z.leb_le 0 _)), (proj2 (Z.leb_gt _ _)) by lia. done.
Qed.

Lemma append_huge_overflows_witness :
  FixedBuffer.append (replicate (Z.to_nat (2 ^ 31)) Byte.x00) (2 ^ 31) (FixedBuffer.new [])
    = Err OutOfBounds.
Proof.
  apply append_huge_overflows; [by apply inv_FixedBuffer_new|lia|].
  unfold zlen. rewrite length_replicate. apply Z2Nat.id. lia.
Defined.
