(* ===== verification/LogFile.v ===== *)
(** * LogFile: the file the logger writes

    Models src/muduo/log/base/FileUtil.h, FileUtil.cpp ([AppendFile]) and
    LogFile.h, LogFile.cpp.  The state of the stdio stream is the bytes
    [fwrite_unlocked] accepted, in order, and how many of them were flushed;
    the results of [fwrite_unlocked] are the sequence [accepts_]: a short count,
    or [None] for a call that accepts everything. *)

From Stdlib Require Import String.
From S2P Require Import Prelude.

(** ** AppendFile *)

Record AppendFile : Type := mkAppendFile {
  stream_ : bytes;
  flushed_ : Z;
  accepts_ : nat → option Z;
  calls_ : nat;
}.

Definition AppendFile_open (old : bytes) (accepts : nat → option Z) : AppendFile :=
  mkAppendFile old (zlen old) accepts 0.

(** [fwrite_unlocked]: accepts a prefix and returns its length. *)
Definition write (logline : bytes) : M AppendFile Z :=
  f ← get;
  let n := match accepts_ f (calls_ f) with
           | None => zlen logline
           | Some k => Z.min (Z.max 0 k) (zlen logline)
           end in
  put (mkAppendFile (stream_ f ++ take (Z.to_nat n) logline) (flushed_ f) (accepts_ f)
         (S (calls_ f))) ;;
  mret n.

(** The loop of [AppendFile::append]; [fuel] bounds the iterations, each of
    which makes progress or stops. *)
Fixpoint append_loop (fuel : nat) (logline : bytes) (n : Z) : M AppendFile unit :=
  if zlen logline - n >? 0 then
    match fuel with
    | O => fail OutOfFuel
    | S fuel' =>
        x ← write (drop (Z.to_nat n) logline);
        if x =? 0 then mret () else append_loop fuel' logline (n + x)
    end
  else mret ().

Definition append (logline : bytes) : M AppendFile unit :=
  n ← write logline;
  append_loop (length logline) logline n.

Definition flush : M AppendFile unit :=
  modify (λ f, mkAppendFile (stream_ f) (zlen (stream_ f)) (accepts_ f) (calls_ f)).

(** [fclose] flushes the stream. *)
Definition AppendFile_delete : M AppendFile unit := flush.

(** ** LogFile *)

Record LogFile : Type := mkLogFile {
  file_ : AppendFile;
  flushEveryN_ : Z;
  count_ : Z;
}.

Definition LogFile_new (flushEveryN : Z) (file : AppendFile) : LogFile :=
  mkLogFile file flushEveryN 0.

(** The default argument of the constructor. *)
Definition kFlushEveryN : Z := 1024.

Definition on_file {A} (m : M AppendFile A) : M LogFile A :=
  λ s, match m (file_ s) with
       | Ok (a, f) => Ok (a, mkLogFile f (flushEveryN_ s) (count_ s))
       | Err e => Err e
       end.

Definition append_unlocked (logline : bytes) : M LogFile unit :=
  on_file (append logline) ;;
  modify (λ s, mkLogFile (file_ s) (flushEveryN_ s) (count_ s + 1)) ;;
  s ← get;
  if count_ s >=? flushEveryN_ s then
    put (mkLogFile (file_ s) (flushEveryN_ s) 0) ;; on_file flush
  else mret ().

(** [append] and [flush] under [mutex_]. *)
Definition LogFile_append (logline : bytes) : M LogFile unit := append_unlocked logline.
Definition LogFile_flush : M LogFile unit := on_file flush.

(** The destructor: [file_] goes with it. *)
Definition LogFile_delete : M LogFile unit := on_file AppendFile_delete.

(** ** Facts *)

Definition healthy (f : AppendFile) : Prop := ∀ k, accepts_ f k = None.

Lemma write_spec logline f :
  ∃ n, write logline f = Ok (n, mkAppendFile (stream_ f ++ take (Z.to_nat n) logline)
         (flushed_ f) (accepts_ f) (S (calls_ f))) ∧
    0 ≤ n ≤ zlen logline ∧ (accepts_ f (calls_ f) = None → n = zlen logline).
Proof.
  pose proof (zlen_nonneg logline). unfold write. mstep.
  destruct (accepts_ f (calls_ f)) as [k|]; eexists; (split; [done|]);
    (split; [lia|]); [done|]. done.
Qed.

(** Whatever the results of [fwrite]: a prefix of the line joins the stream. *)
Lemma append_loop_spec fuel logline n f :
  0 ≤ n ≤ zlen logline → zlen logline - n ≤ Z.of_nat fuel →
  ∃ m f', append_loop fuel logline n f = Ok (tt, f') ∧ n ≤ m ≤ zlen logline ∧
    stream_ f' = stream_ f ++ take (Z.to_nat (m - n)) (drop (Z.to_nat n) logline) ∧
    flushed_ f' = flushed_ f ∧ accepts_ f' = accepts_ f ∧
    (healthy f → m = zlen logline).
Proof.
  revert n f. induction fuel as [|fuel IH]; intros n f Hn Hf; cbn [append_loop];
    destruct (Z.gtb_spec (zlen logline - n) 0) as [Hr|Hr]; try lia;
    try (exists n, f; rewrite Z.sub_diag, app_nil_r; split_and!; done || lia).
  assert (zlen (drop (Z.to_nat n) logline) = zlen logline - n) as Hz.
  { unfold zlen in *. rewrite length_drop. lia. }
  destruct (write_spec (drop (Z.to_nat n) logline) f) as (x & E & Hx & Hall). rewrite Hz in *.
  mstep_by (exact E). destruct (Z.eqb_spec x 0) as [->|Hx0].
  - exists n, (mkAppendFile (stream_ f ++ []) (flushed_ f) (accepts_ f) (S (calls_ f))).
    split; [by simpl; rewrite take_0|]. split; [lia|]. simpl. rewrite Z.sub_diag. simpl. rewrite take_0.
    split_and!; try done. intros Hh. specialize (Hall (Hh _)). lia.
  - destruct (IH (n + x) (mkAppendFile (stream_ f ++ take (Z.to_nat x) (drop (Z.to_nat n) logline))
      (flushed_ f) (accepts_ f) (S (calls_ f)))) as (m & f' & El & Hm & Hs & Hfl & Ha & Hh); [lia..|].
    exists m, f'. split; [done|]. split; [lia|]. simpl in *. split; [|done].
    rewrite Hs, <- app_assoc. f_equal.
    replace (Z.to_nat (m - n)) with (Z.to_nat x + Z.to_nat (m - (n + x)))%nat by lia.
    rewrite <- take_take_drop. f_equal. rewrite drop_drop. f_equal. f_equal. lia.
Qed.

Lemma AppendFile_append_spec logline f :
  ∃ m f', append logline f = Ok (tt, f') ∧ 0 ≤ m ≤ zlen logline ∧
    stream_ f' = stream_ f ++ take (Z.to_nat m) logline ∧
    flushed_ f' = flushed_ f ∧ accepts_ f' = accepts_ f ∧
    (healthy f → m = zlen logline).
Proof.
  destruct (write_spec logline f) as (n & E & Hn & Hall). unfold append. mstep_by (exact E).
  destruct (append_loop_spec (length logline) logline n
    (mkAppendFile (stream_ f ++ take (Z.to_nat n) logline) (flushed_ f) (accepts_ f) (S (calls_ f))))
    as (m & f' & El & Hm & Hs & Hfl & Ha & Hh); [lia|unfold zlen in *; lia|].
  exists m, f'. split; [done|]. split; [lia|]. simpl in *. split; [|done].
  rewrite Hs, <- app_assoc. f_equal.
  replace (Z.to_nat m) with (Z.to_nat n + Z.to_nat (m - n))%nat by lia. apply take_take_drop.
Qed.

(** The invariant of a log file that is flushed every [N] lines: what is not
    flushed yet is the text of the last [count_] lines. *)
Definition log_ok (s : LogFile) : Prop :=
  healthy (file_ s) ∧ 0 ≤ count_ s < flushEveryN_ s.

Lemma LogFile_append_spec logline s :
  log_ok s →
  ∃ s', LogFile_append logline s = Ok (tt, s') ∧ log_ok s' ∧ flushEveryN_ s' = flushEveryN_ s ∧
    stream_ (file_ s') = stream_ (file_ s) ++ logline ∧
    (if count_ s + 1 =? flushEveryN_ s
     then count_ s' = 0 ∧ flushed_ (file_ s') = zlen (stream_ (file_ s'))
     else count_ s' = count_ s + 1 ∧ flushed_ (file_ s') = flushed_ (file_ s)).
Proof.
  intros [Hh Hc]. destruct (AppendFile_append_spec logline (file_ s)) as (m & f' & E & Hm & Hs & Hf & Ha & Hall).
  rewrite (Hall Hh), to_nat_zlen, take_ge in Hs by done.
  assert (healthy f') as Hh' by (unfold healthy in *; by rewrite Ha).
  unfold LogFile_append, append_unlocked. mstep_by (unfold on_file; rewrite E; reflexivity).
  do 2 mstep. rewrite Z.geb_leb. destruct (Z.leb_spec (flushEveryN_ s) (count_ s + 1)) as [Hle|Hlt].
  - mstep. eexists. split; [done|]. destruct (Z.eqb_spec (count_ s + 1) (flushEveryN_ s)); [|lia].
    split; [split; [done|simpl; lia]|done].
  - eexists. split; [done|]. destruct (Z.eqb_spec (count_ s + 1) (flushEveryN_ s)); [lia|].
    split; [split; [done|simpl; lia]|done].
Qed.

Lemma LogFile_flush_spec s :
  log_ok s →
  ∃ s', LogFile_flush s = Ok (tt, s') ∧ log_ok s' ∧ flushEveryN_ s' = flushEveryN_ s ∧
    stream_ (file_ s') = stream_ (file_ s) ∧ flushed_ (file_ s') = zlen (stream_ (file_ s)).
Proof. intros [Hh Hc]. eexists. split; [done|]. simpl. split; [by split|done]. Qed.

(** ** Properties *)

(** Whatever short counts [fwrite] returns, [AppendFile::append] terminates
    (each iteration writes something or is the last), and what it adds to the
    file is a prefix of the line, in order and without repetition; it is the
    whole line when no call comes up short. *)
Theorem append_writes_prefix logline f :
  ∃ m f', append logline f = Ok (tt, f') ∧ 0 ≤ m ≤ zlen logline ∧
    stream_ f' = stream_ f ++ take (Z.to_nat m) logline ∧
    (healthy f → stream_ f' = stream_ f ++ logline).
Proof.
  destruct (AppendFile_append_spec logline f) as (m & f' & E & Hm & Hs & _ & _ & Hall).
  exists m, f'. split_and!; try done; try lia. intros Hh.
  by rewrite Hs, (Hall Hh), to_nat_zlen, take_ge.
Qed.

(** A log file accumulates the lines in order, and after every
    [flushEveryN_]-th line everything written so far is flushed: fewer than
    [flushEveryN_] lines are ever unflushed. *)
Theorem LogFile_appends lines s :
  log_ok s → flushed_ (file_ s) = zlen (stream_ (file_ s)) → count_ s = 0 →
  ∃ s', for_each LogFile_append lines s = Ok (tt, s') ∧ log_ok s' ∧
    stream_ (file_ s') = stream_ (file_ s) ++ concat lines ∧
    count_ s' = zlen lines mod flushEveryN_ s ∧
    flushed_ (file_ s') =
      zlen (stream_ (file_ s) ++ concat (take (Z.to_nat (zlen lines - count_ s')) lines)).
Proof.
  intros Hok Hfl Hc. induction lines as [|l lines IH] using rev_ind.
  - exists s. simpl. rewrite take_nil; simpl. rewrite !app_nil_r, Hc, Zmod_0_l. done.
  - destruct IH as (s1 & E1 & Hok1 & Hs1 & Hc1 & Hf1).
    assert (flushEveryN_ s1 = flushEveryN_ s) as HN.
    { clear -E1 Hok. revert s Hok E1. induction lines as [|x lines IH]; intros s Hok E1.
      - by injection E1 as <-.
      - cbn [for_each] in E1. destruct (LogFile_append_spec x s Hok) as (s2 & E2 & Hok2 & HN2 & _).
        rewrite bind_unfold, E2 in E1. by rewrite <- HN2, (IH s2). }
    destruct (LogFile_append_spec l s1 Hok1) as (s2 & E2 & Hok2 & HN2 & Hs2 & Hif).
    rewrite concat_app. simpl. rewrite app_nil_r.
    exists s2. split; [rewrite for_each_app; mstep_by (exact E1); cbn [for_each]; by mstep_by (exact E2)|].
    split; [done|]. split; [by rewrite Hs2, Hs1, <- app_assoc|].
    pose proof (zlen_nonneg lines) as Hz. destruct Hok as [_ HN0].
    rewrite zlen_app, zlen_cons, zlen_nil, HN in *. change (1 + 0) with 1.
    pose proof (Z.div_mod (zlen lines) (flushEveryN_ s) ltac:(lia)) as Hdm.
    destruct (Z.eqb_spec (count_ s1 + 1) (flushEveryN_ s)) as [He|Hne]; destruct Hif as [Hc2 Hf2].
    + split.
      * rewrite Hc2. apply (Z.mod_unique_pos _ _ (zlen lines / flushEveryN_ s + 1)); lia.
      * rewrite Hf2, Hs2, Hs1, Hc2, Z.sub_0_r. rewrite take_ge.
        -- by rewrite concat_app, app_assoc; simpl; rewrite app_nil_r.
        -- rewrite length_app. unfold zlen in *. simpl. lia.
    + split.
      * rewrite Hc2. apply (Z.mod_unique_pos _ _ (zlen lines / flushEveryN_ s)); [|lia].
        destruct Hok1 as [_ ?]. lia.
      * rewrite Hf2, Hf1, Hc2. do 2 f_equal. f_equal.
        replace (zlen lines + 1 - (count_ s1 + 1)) with (zlen lines - count_ s1) by lia.
        symmetry. apply take_app_le. unfold zlen in *. destruct Hok1 as [_ ?]. lia.
Qed.

Lemma LogFile_appends_witness :
  let s := LogFile_new 2 (AppendFile_open (str "old") (λ _, None)) in
  ∃ s', for_each LogFile_append [str "a"; str "b"; str "c"] s = Ok (tt, s') ∧ log_ok s' ∧
    stream_ (file_ s') = str "old" ++ concat [str "a"; str "b"; str "c"] ∧
    count_ s' = 3 mod 2 ∧
    flushed_ (file_ s') =
      zlen (str "old" ++ concat (take (Z.to_nat (3 - count_ s')) [str "a"; str "b"; str "c"])).
Proof.
  apply (LogFile_appends [str "a"; str "b"; str "c"]
    (LogFile_new 2 (AppendFile_open (str "old") (λ _, None)))); [|done..].
  split; [done|]. vm_compute. by split.
Defined.
