(* ===== verification/AsyncLogging.v ===== *)
(** * AsyncLogging: the asynchronous back end of the logger

    Models src/muduo/log/base/AsyncLogging.h and AsyncLogging.cpp.  The front
    end ([append]) and the thread ([threadFunc]) share the members under
    [mutex_]; an execution is a sequence of atomic steps, one per critical
    section or stretch of thread-local code, in any interleaving.  The program
    counter [pc] names where the thread is: before the loop, at its condition,
    before the critical section, waiting on [cond_] (which releases the mutex),
    with [buffersToWrite] taken, or finished.  A buffer has one owner at a time
    in this code, so that a [shared_ptr] is an optional buffer; a null pointer
    dereferenced is the fault [NullDeref].

    [SIZE] is the capacity of a buffer ([kLargeBuffer] in the program);
    [raw]: the contents of newly allocated memory. *)

From Stdlib Require Import String.
From S2P Require Import Prelude LogStream LogFile.

Abbreviation BufferPtr := (option FixedBuffer.t).

Inductive pc : Set := PcStart | PcLoop | PcLock | PcWait | PcWrite | PcDone.

#[export] Instance pc_eq_dec : EqDecision pc.
Proof. solve_decision. Defined.

Record AsyncLogging : Type := mkAsyncLogging {
  running_ : bool;
  currentBuffer_ : BufferPtr;
  nextBuffer_ : BufferPtr;
  buffers_ : list BufferPtr;
  latch_ : Z;
  (* threadFunc *)
  pc_ : pc;
  newBuffer1 : BufferPtr;
  newBuffer2 : BufferPtr;
  buffersToWrite : list BufferPtr;
  output : LogFile;
}.

Section async.
Context (raw : bytes).

(** [new Buffer], then [bzero] where the source calls it. *)
Definition new_Buffer : FixedBuffer.t := FixedBuffer.new raw.
Definition bzeroed : FixedBuffer.t :=
  FixedBuffer.mk (replicate (length raw) Byte.x00) 0.

Definition AsyncLogging_new (out : LogFile) : AsyncLogging :=
  mkAsyncLogging false (Some bzeroed) (Some bzeroed) [] 1 PcStart None None [] out.

(** [start()] up to [thread_.start()]. *)
Definition start : M AsyncLogging unit :=
  modify (λ s, mkAsyncLogging true (currentBuffer_ s) (nextBuffer_ s) (buffers_ s) (latch_ s)
    (pc_ s) (newBuffer1 s) (newBuffer2 s) (buffersToWrite s) (output s)).

(** [stop()] up to [thread_.join()]. *)
Definition stop : M AsyncLogging unit :=
  modify (λ s, mkAsyncLogging false (currentBuffer_ s) (nextBuffer_ s) (buffers_ s) (latch_ s)
    (pc_ s) (newBuffer1 s) (newBuffer2 s) (buffersToWrite s) (output s)).

(** [~AsyncLogging]. *)
Definition AsyncLogging_delete : M AsyncLogging unit :=
  s ← get; if running_ s then stop else mret ().

Definition set_front (cur next : BufferPtr) (bufs : list BufferPtr) (s : AsyncLogging) : AsyncLogging :=
  mkAsyncLogging (running_ s) cur next bufs (latch_ s) (pc_ s) (newBuffer1 s) (newBuffer2 s)
    (buffersToWrite s) (output s).

Definition set_back (p : pc) (n1 n2 : BufferPtr) (w : list BufferPtr) (out : LogFile)
    (s : AsyncLogging) : AsyncLogging :=
  mkAsyncLogging (running_ s) (currentBuffer_ s) (nextBuffer_ s) (buffers_ s) (latch_ s) p n1 n2 w out.

Definition goto (p : pc) : M AsyncLogging unit :=
  modify (λ s, set_back p (newBuffer1 s) (newBuffer2 s) (buffersToWrite s) (output s) s).

(** [buffer->append(logline, len)] through a pointer. *)
Definition ptr_append (b : BufferPtr) (logline : bytes) : res BufferPtr :=
  match b with
  | None => Err NullDeref
  | Some b =>
      match FixedBuffer.append logline (zlen logline) b with
      | Ok (_, b') => Ok (Some b')
      | Err f => Err f
      end
  end.

(** [AsyncLogging::append], one critical section. *)
Definition append (logline : bytes) : M AsyncLogging unit :=
  s ← get;
  cur ← deref NullDeref (currentBuffer_ s);
  if FixedBuffer.avail cur >? zlen logline then
    cur' ← lift (ptr_append (Some cur) logline);
    put (set_front cur' (nextBuffer_ s) (buffers_ s) s)
  else
    let buffers := buffers_ s ++ [Some cur] in
    let '(cur, next) := match nextBuffer_ s with
                        | Some b => (Some b, None)
                        | None => (Some new_Buffer, None)
                        end in
    cur' ← lift (ptr_append cur logline);
    put (set_front cur' next buffers s).

(** [new1 && new1->length() == 0]. *)
Definition empty_buffer (b : BufferPtr) : bool :=
  match b with Some b => FixedBuffer.length_ b =? 0 | None => false end.

(** The critical section of [threadFunc], after the wait if there is one. *)
Definition swap_buffers : M AsyncLogging unit :=
  s ← get;
  let buffers := buffers_ s ++ [currentBuffer_ s] in
  let cur := newBuffer1 s in
  let '(next, n2) := match nextBuffer_ s with
                     | Some b => (Some b, newBuffer2 s)
                     | None => (newBuffer2 s, None)
                     end in
  put (set_back PcWrite None n2 buffers (output s) (set_front cur next [] s)).

(** [output.append(buffer->data(), buffer->length())]. *)
Definition write_buffer (b : BufferPtr) : M LogFile unit :=
  buf ← deref NullDeref b;
  text ← lift (mem_read 0 (FixedBuffer.length_ buf) (FixedBuffer.data_ buf));
  LogFile_append text.

(** Takes the last buffer of [buffersToWrite] for a null [newBuffer]. *)
Definition recycle (n : BufferPtr) (w : list BufferPtr) : res (BufferPtr * list BufferPtr) :=
  match n with
  | Some b => Ok (Some b, w)
  | None =>
      match last w with
      | None => Err AssertFailed
      | Some None => Err NullDeref
      | Some (Some b) => Ok (Some (FixedBuffer.mk (FixedBuffer.data_ b) 0), removelast w)
      end
  end.

(** The thread-local rest of the loop's body. *)
Definition write_buffers : M AsyncLogging unit :=
  s ← get;
  assert_ (negb (bool_decide (buffersToWrite s = []))) ;;
  let w := if zlen (buffersToWrite s) >? 25 then take 2 (buffersToWrite s) else buffersToWrite s in
  '(_, out) ← lift (for_each write_buffer w (output s));
  let w := if zlen w >? 2 then take 2 w else w in
  '(n1, w) ← lift (recycle (newBuffer1 s) w);
  '(n2, w) ← lift (recycle (newBuffer2 s) w);
  '(_, out) ← lift (LogFile_flush out);
  put (set_back PcLoop n1 n2 [] out s).

(** One step of the thread. *)
Definition thread_step : M AsyncLogging unit :=
  s ← get;
  match pc_ s with
  | PcStart =>
      assert_ (running_ s) ;;
      put (mkAsyncLogging (running_ s) (currentBuffer_ s) (nextBuffer_ s) (buffers_ s) (latch_ s - 1)
        PcLoop (Some bzeroed) (Some bzeroed) [] (output s))
  | PcLoop =>
      if running_ s then
        assert_ (empty_buffer (newBuffer1 s)) ;;
        assert_ (empty_buffer (newBuffer2 s)) ;;
        assert_ (bool_decide (buffersToWrite s = [])) ;;
        goto PcLock
      else
        '(_, out) ← lift ((LogFile_flush ;; LogFile_delete) (output s));
        put (set_back PcDone (newBuffer1 s) (newBuffer2 s) (buffersToWrite s) out s)
  | PcLock => if decide (buffers_ s = []) then goto PcWait else swap_buffers
  | PcWait => swap_buffers      (* notified, timed out or woken spuriously *)
  | PcWrite => write_buffers
  | PcDone => mret ()
  end.

(** An execution after [start]: appends of any threads, steps of the logging
    thread, and the call of [stop]. *)
Inductive event : Type := Append (logline : bytes) | Thread | Stop.

Definition exec (e : event) : M AsyncLogging unit :=
  match e with
  | Append logline => append logline
  | Thread => thread_step
  | Stop => stop
  end.
End async.

#[global] Arguments ptr_append : simpl never.
#[global] Arguments recycle : simpl never.
#[global] Arguments write_buffer : simpl never.

(** ** Invariant *)

Section invariant.
Context (raw : bytes) (Hraw : 0 < zlen raw < 2 ^ 31).

Definition SIZE : Z := zlen raw.

(** A usable buffer, and one with nothing in it. *)
Definition usable (b : FixedBuffer.t) : Prop :=
  FixedBuffer.inv b ∧ zlen (FixedBuffer.data_ b) = SIZE.
Definition blank (p : BufferPtr) : Prop :=
  ∃ b, p = Some b ∧ usable b ∧ FixedBuffer.cur_ b = 0.
Definition filled (p : BufferPtr) : Prop := ∃ b, p = Some b ∧ usable b.

Definition ptr_content (p : BufferPtr) : bytes :=
  match p with Some b => FixedBuffer.content b | None => [] end.
Definition contents (l : list BufferPtr) : bytes := concat (ptr_content <$> l).

(** What the thread owns at each point. *)
Definition back_inv (s : AsyncLogging) : Prop :=
  match pc_ s with
  | PcStart => False
  | PcLoop | PcLock | PcWait =>
      blank (newBuffer1 s) ∧ blank (newBuffer2 s) ∧ buffersToWrite s = []
  | PcWrite =>
      newBuffer1 s = None ∧ Forall filled (buffersToWrite s) ∧ buffersToWrite s ≠ [] ∧
      (blank (newBuffer2 s) ∨ (newBuffer2 s = None ∧ 2 ≤ zlen (buffersToWrite s)))
  | PcDone => buffersToWrite s = []
  end.

Record inv (s : AsyncLogging) : Prop := mkInv {
  inv_current : filled (currentBuffer_ s);
  inv_next : nextBuffer_ s = None ∨ blank (nextBuffer_ s);
  inv_buffers : Forall filled (buffers_ s);
  inv_rotated : nextBuffer_ s = None → buffers_ s ≠ [];
  inv_back : back_inv s;
  inv_output : log_ok (output s);
  inv_latch : latch_ s = 0;
}.

(** Everything logged so far: in the file, taken by the thread, waiting. *)
Definition logged (s : AsyncLogging) : bytes :=
  stream_ (file_ (output s)) ++ contents (buffersToWrite s) ++ contents (buffers_ s) ++
  ptr_content (currentBuffer_ s).

(** A line is accepted when a buffer can hold it. *)
Definition accepted (logline : bytes) : bytes := if zlen logline <? SIZE then logline else [].

Definition event_text (e : event) : bytes :=
  match e with Append logline => accepted logline | _ => [] end.

Definition valid_event (e : event) : Prop :=
  match e with Append logline => zlen logline < 2 ^ 31 | _ => True end.

Lemma contents_app a b : contents (a ++ b) = contents a ++ contents b.
Proof. unfold contents. by rewrite fmap_app, concat_app. Qed.

Lemma contents_snoc a p : contents (a ++ [p]) = contents a ++ ptr_content p.
Proof. rewrite contents_app. unfold contents at 2. simpl. by rewrite app_nil_r. Qed.

Lemma blank_filled p : blank p → filled p.
Proof. intros (b & -> & ? & _). by exists b. Qed.

Lemma blank_content p : blank p → ptr_content p = [].
Proof. intros (b & -> & _ & E). simpl. unfold FixedBuffer.content. by rewrite E. Qed.

Lemma usable_empty data : zlen data = SIZE → usable (FixedBuffer.mk data 0).
Proof using Hraw.
  intros E. unfold usable, FixedBuffer.inv, SIZE in *; simpl. lia.
Qed.

Lemma blank_bzeroed : blank (Some (bzeroed raw)).
Proof using Hraw.
  eexists. split; [done|]. split; [|done]. apply usable_empty.
  unfold zlen, SIZE, zlen. by rewrite length_replicate.
Qed.

Lemma blank_new : blank (Some (new_Buffer raw)).
Proof using Hraw. eexists. split; [done|]. split; [|done]. by apply usable_empty. Qed.

Lemma empty_blank p : blank p → empty_buffer p = true.
Proof. intros (b & -> & _ & E). unfold empty_buffer, FixedBuffer.length_. by rewrite E. Qed.

Lemma ptr_append_ok b logline :
  usable b → zlen logline < 2 ^ 31 →
  ∃ b', ptr_append (Some b) logline = Ok (Some b') ∧ usable b' ∧
    FixedBuffer.content b' = FixedBuffer.content b ++
      (if zlen logline <? SIZE - FixedBuffer.cur_ b then logline else []).
Proof.
  intros [Hi Hz] Hl. pose proof (zlen_nonneg logline).
  destruct (FixedBuffer.append_content b logline (zlen logline)) as (b' & E & Hi' & Hz' & Hc); [done|lia..|].
  exists b'. unfold ptr_append. rewrite E. split; [done|]. split; [split; [done|congruence]|].
  rewrite Hc, Hz, to_nat_zlen. by rewrite take_ge.
Qed.

(** *** The front end *)

Lemma append_ok logline s :
  inv s → zlen logline < 2 ^ 31 →
  ∃ s', append raw logline s = Ok (tt, s') ∧ inv s' ∧ logged s' = logged s ++ accepted logline ∧
    (pc_ s', running_ s', buffersToWrite s', output s') = (pc_ s, running_ s, buffersToWrite s, output s).
Proof using Hraw.
  intros [Hcur Hnext Hbufs Hrot Hback Hout Hlatch] Hl. destruct Hcur as (b & Eb & Hb).
  unfold append. mstep. rewrite Eb. mstep. pose proof Hb as [Hi Hz].
  rewrite FixedBuffer.avail_eq, Hz, Z.gtb_ltb by done.
  assert (0 ≤ FixedBuffer.cur_ b) as Hpos by apply Hi.
  destruct (Z.ltb_spec (zlen logline) (SIZE - FixedBuffer.cur_ b)) as [Hfit|Hfull].
  - destruct (ptr_append_ok b logline Hb Hl) as (b' & E & Hb' & Hc).
    rewrite (proj2 (Z.ltb_lt _ _)) in Hc by done.
    mstep_by (unfold lift; rewrite E; reflexivity). eexists. split; [done|]. split.
    + split; simpl; try done. by exists b'.
    + split; [|done]. unfold logged, accepted; simpl. rewrite (proj2 (Z.ltb_lt _ _)) by lia.
      by rewrite Hc, Eb, !app_assoc.
  - assert (∃ f, blank (Some f) ∧ (match nextBuffer_ s with Some b => (Some b, None)
      | None => (Some (new_Buffer raw), None) end : BufferPtr * BufferPtr) = (Some f, None)) as (f & Hf & Ef).
    { destruct Hnext as [E|(f & E & Hf)]; rewrite E; [exists (new_Buffer raw)|exists f].
      - split; [apply blank_new|done].
      - split; [by exists f|done]. }
    rewrite Ef. destruct Hf as (f' & [= <-] & Huf & Hf0).
    destruct (ptr_append_ok f logline Huf Hl) as (b' & E & Hb' & Hc). rewrite Hf0, Z.sub_0_r in Hc.
    mstep_by (unfold lift; rewrite E; reflexivity). eexists. split; [done|]. split.
    + split; simpl; try done; [by exists b'|by left| |by destruct (buffers_ s)].
      apply Forall_app. split; [done|]. apply Forall_singleton. by exists b.
    + split; [|done]. unfold logged, accepted; simpl. rewrite Hc, contents_snoc, Eb. simpl.
      assert (FixedBuffer.content f = []) as -> by (unfold FixedBuffer.content; by rewrite Hf0).
      simpl. by rewrite <- !app_assoc.
Qed.

(** *** The thread *)

Lemma write_buffer_ok p out :
  filled p → log_ok out →
  ∃ out', write_buffer p out = Ok (tt, out') ∧ log_ok out' ∧
    stream_ (file_ out') = stream_ (file_ out) ++ ptr_content p.
Proof.
  intros (b & -> & Hi & Hz) Hok. unfold write_buffer. mstep.
  rewrite FixedBuffer.length_eq by done. pose proof Hi as [? ?].
  assert (zlen (FixedBuffer.content b) = FixedBuffer.cur_ b) as Ec.
  { unfold FixedBuffer.content. rewrite zlen_zsub; lia. }
  rewrite Ec, mem_read_ok by lia. mstep. fold (FixedBuffer.content b).
  destruct (LogFile_append_spec (FixedBuffer.content b) out Hok) as (out' & E & Hok' & _ & Hs & _).
  exists out'. done.
Qed.

Lemma write_all_ok w out :
  Forall filled w → log_ok out →
  ∃ out', for_each write_buffer w out = Ok (tt, out') ∧ log_ok out' ∧
    stream_ (file_ out') = stream_ (file_ out) ++ contents w.
Proof.
  intros Hw. revert out. induction Hw as [|p w Hp Hw IH]; intros out Hok; cbn [for_each].
  - exists out. unfold contents; simpl. by rewrite app_nil_r.
  - destruct (write_buffer_ok p out Hp Hok) as (out1 & E1 & Hok1 & Hs1).
    destruct (IH out1 Hok1) as (out2 & E2 & Hok2 & Hs2). exists out2.
    split; [by mstep_by (exact E1)|]. split; [done|]. rewrite Hs2, Hs1, <- app_assoc. done.
Qed.

(** A null [newBuffer] takes the last buffer, emptied. *)
Lemma recycle_ok n w :
  (blank n ∨ (n = None ∧ w ≠ [])) → Forall filled w →
  ∃ n' w', recycle n w = Ok (n', w') ∧ blank n' ∧ Forall filled w' ∧
    (n = None → zlen w' = zlen w - 1).
Proof using Hraw.
  intros Hn Hw. destruct Hn as [(b & -> & Hb)|[-> Hne]].
  - eexists _, w. split; [done|]. split_and!; [by exists b|done|done].
  - destruct w as [|p w _] using rev_ind; [done|]. apply Forall_app in Hw as [Hw Hp].
    apply Forall_singleton in Hp as (b & -> & Hi & Hz).
    unfold recycle. rewrite last_snoc. rewrite removelast_last.
    eexists _, w. split; [done|]. split_and!; [|done|].
    + eexists. split; [done|]. split; [by apply usable_empty|done].
    + intros _. rewrite zlen_app, zlen_cons, zlen_nil. lia.
Qed.

Lemma zlen_take {A} n (l : list A) : 0 ≤ n → zlen (take (Z.to_nat n) l) = Z.min n (zlen l).
Proof. intros. unfold zlen. rewrite length_take. lia. Qed.

Definition written (w : list BufferPtr) : list BufferPtr :=
  if zlen w >? 25 then take 2 w else w.

Lemma written_ok w :
  Forall filled w → w ≠ [] →
  Forall filled (written w) ∧ written w ≠ [] ∧ (2 ≤ zlen w → 2 ≤ zlen (written w)) ∧
  (zlen w ≤ 25 → written w = w).
Proof.
  intros Hw Hne. unfold written. destruct (Z.gtb_spec (zlen w) 25) as [H|H]; [|done].
  destruct w as [|p1 [|p2 w]]; [done|vm_compute in H; discriminate|].
  apply Forall_cons in Hw as [H1 Hw]. apply Forall_cons in Hw as [H2 _].
  split_and!; [by repeat constructor|done|intros _; vm_compute; discriminate|lia].
Qed.

Lemma kept_ok (w : list BufferPtr) :
  Forall filled w → w ≠ [] →
  let k := if zlen w >? 2 then take 2 w else w in
  Forall filled k ∧ k ≠ [] ∧ (2 ≤ zlen w → zlen k = 2).
Proof.
  intros Hw Hne k. subst k. destruct (Z.gtb_spec (zlen w) 2) as [H|H].
  - destruct w as [|p1 [|p2 w]]; [done|vm_compute in H; discriminate|].
    apply Forall_cons in Hw as [H1 Hw]. apply Forall_cons in Hw as [H2 _].
    split_and!; [by repeat constructor|done|done].
  - split_and!; [done|done|lia].
Qed.

Lemma write_buffers_ok s :
  inv s → pc_ s = PcWrite →
  ∃ s', write_buffers s = Ok (tt, s') ∧ inv s' ∧ (pc_ s', running_ s') = (PcLoop, running_ s) ∧
    (zlen (buffersToWrite s) ≤ 25 → logged s' = logged s ∧
       stream_ (file_ (output s')) = stream_ (file_ (output s)) ++ contents (buffersToWrite s)).
Proof using Hraw.
  intros [Hcur Hnext Hbufs Hrot Hback Hout Hlatch] Hpc. unfold back_inv in Hback. rewrite Hpc in Hback.
  destruct Hback as (Hn1 & Hw & Hne & Hn2). unfold write_buffers. mstep.
  unfold assert_. rewrite bool_decide_eq_false_2 by done. mstep.
  fold (written (buffersToWrite s)).
  destruct (written_ok _ Hw Hne) as (Hww & Hwne & Hw2 & Hw25).
  destruct (write_all_ok _ (output s) Hww Hout) as (out' & E & Hok' & Hs').
  mstep_by (unfold lift; rewrite E; reflexivity).
  destruct (kept_ok _ Hww Hwne) as (Hk & Hkne & Hk2).
  remember (if zlen (written (buffersToWrite s)) >? 2 then take 2 (written (buffersToWrite s))
            else written (buffersToWrite s)) as k eqn:Ek.
  destruct (recycle_ok (newBuffer1 s) k) as (n1 & w1 & E1 & Hb1 & Hf1 & Hl1); [by right|done|].
  mstep_by (unfold lift; rewrite E1; reflexivity).
  destruct (recycle_ok (newBuffer2 s) w1) as (n2 & w2 & E2 & Hb2 & Hf2 & _); [|done|].
  { destruct Hn2 as [?|[? H2]]; [by left|right]. split; [done|]. intros ->.
    specialize (Hl1 Hn1). rewrite (Hk2 (Hw2 H2)) in Hl1. done. }
  mstep_by (unfold lift; rewrite E2; reflexivity).
  destruct (LogFile_flush_spec out' Hok') as (out2 & E3 & Hok2 & _ & Hs2 & _).
  mstep_by (unfold lift; rewrite E3; reflexivity). eexists. split; [done|]. split.
  - by split.
  - split; [done|]. intros H25. unfold logged; simpl. rewrite Hs2, Hs', (Hw25 H25), <- app_assoc. done.
Qed.

Lemma swap_buffers_ok s :
  inv s → pc_ s = PcLock ∨ pc_ s = PcWait →
  ∃ s', swap_buffers s = Ok (tt, s') ∧ inv s' ∧ logged s' = logged s ∧
    (pc_ s', running_ s', output s') = (PcWrite, running_ s, output s) ∧
    logged s = stream_ (file_ (output s)) ++ contents (buffersToWrite s').
Proof using Hraw.
  intros [Hcur Hnext Hbufs Hrot Hback Hout Hlatch] Hpc.
  assert (blank (newBuffer1 s) ∧ blank (newBuffer2 s) ∧ buffersToWrite s = []) as (Hn1 & Hn2 & Hw).
  { unfold back_inv in Hback. by destruct Hpc as [E|E]; rewrite E in Hback. }
  unfold swap_buffers. mstep.
  assert (logged s = stream_ (file_ (output s)) ++ contents (buffers_ s ++ [currentBuffer_ s]) ++ []) as El.
  { unfold logged. rewrite Hw, contents_snoc, app_nil_r. done. }
  assert (Forall filled (buffers_ s ++ [currentBuffer_ s])) as HwF.
  { apply Forall_app. split; [done|]. by apply Forall_singleton. }
  destruct (nextBuffer_ s) as [b|] eqn:En; eexists; (split; [done|]).
  - split; [|rewrite El; unfold logged; simpl; rewrite (blank_content _ Hn1), !app_nil_r; done].
    split; simpl; [by apply blank_filled| |constructor|done| |done|done].
    + destruct Hnext as [?|?]; [done|by right].
    + unfold back_inv; simpl. split_and!; [done|done|by destruct (buffers_ s)|by left].
  - split; [|rewrite El; unfold logged; simpl; rewrite (blank_content _ Hn1), !app_nil_r; done].
    split; simpl; [by apply blank_filled|by right|constructor| | |done|done].
    + intros E. destruct Hn2 as (b & ? & _). congruence.
    + unfold back_inv; simpl. split_and!; [done|done|by destruct (buffers_ s)|]. right. split; [done|].
      specialize (Hrot eq_refl). rewrite zlen_app, zlen_cons, zlen_nil.
      destruct (buffers_ s) as [|p l]; [done|]. rewrite zlen_cons. pose proof (zlen_nonneg l). lia.
Qed.

(** Where a step takes the thread, and what it moves. *)
Definition next_pc (s : AsyncLogging) (p : pc) : Prop :=
  match pc_ s with
  | PcStart => False
  | PcLoop => p = if running_ s then PcLock else PcDone
  | PcLock => p = PcWait ∨ p = PcWrite
  | PcWait => p = PcWrite
  | PcWrite => p = PcLoop
  | PcDone => p = PcDone
  end.

Definition moved (s s' : AsyncLogging) : Prop :=
  stream_ (file_ (output s')) =
    stream_ (file_ (output s)) ++ (if decide (pc_ s = PcWrite) then contents (buffersToWrite s) else []) ∧
  (pc_ s' = PcWrite → logged s = stream_ (file_ (output s')) ++ contents (buffersToWrite s')).

Lemma thread_step_ok s :
  inv s →
  ∃ s', thread_step raw s = Ok (tt, s') ∧ inv s' ∧ running_ s' = running_ s ∧ next_pc s (pc_ s') ∧
    (zlen (buffersToWrite s) ≤ 25 → logged s' = logged s ∧ moved s s').
Proof using Hraw.
  intros Hs. pose proof Hs as [Hcur Hnext Hbufs Hrot Hback Hout Hlatch]. unfold thread_step. mstep.
  assert (pc_ s = PcLock ∨ pc_ s = PcWait →
    ∃ s', swap_buffers s = Ok (tt, s') ∧ inv s' ∧ running_ s' = running_ s ∧ pc_ s' = PcWrite ∧
      logged s' = logged s ∧ moved s s') as Hswap.
  { intros Hpc. destruct (swap_buffers_ok s Hs Hpc) as (s' & E & Hs' & El & [= Ep Er Eo] & Et).
    exists s'. split_and!; try done. split; rewrite Eo; [|done].
    rewrite decide_False by (destruct Hpc; congruence). by rewrite app_nil_r. }
  unfold back_inv in Hback. unfold next_pc, moved in *. destruct (pc_ s) eqn:Hpc; [done| | | | |].
  - destruct (running_ s) eqn:Hrun.
    + destruct Hback as (Hn1 & Hn2 & Hw). unfold assert_.
      rewrite (empty_blank _ Hn1). mstep. rewrite (empty_blank _ Hn2). mstep.
      rewrite bool_decide_eq_true_2 by done. mstep. eexists. split; [done|].
      split; [by split|]. by rewrite app_nil_r.
    + destruct (LogFile_flush_spec (output s) Hout) as (out1 & E1 & Hok1 & _ & Hst1 & _).
      destruct (LogFile_flush_spec out1 Hok1) as (out & E & Hok & _ & Hst & _).
      mstep_by (unfold lift; rewrite (bind_step _ _ _ _ _ E1); change LogFile_delete with LogFile_flush;
        rewrite E; reflexivity). eexists. split; [done|]. split.
      * split; simpl; try done. unfold back_inv; simpl. apply Hback.
      * unfold logged; simpl. rewrite Hst, Hst1, app_nil_r. by split_and!.
  - destruct (decide (buffers_ s = [])) as [Hempty|Hempty].
    + eexists. split; [done|]. split; [by split|]. simpl. rewrite app_nil_r. split_and!; [done|by left|done].
    + destruct Hswap as (s' & E & Hs' & Hr & Hp & El & Hm); [by left|]. exists s'. naive_solver.
  - destruct Hswap as (s' & E & Hs' & Hr & Hp & El & Hm); [by right|]. exists s'. naive_solver.
  - destruct (write_buffers_ok s Hs Hpc) as (s' & E & Hs' & [= Hp Hr] & H25). exists s'.
    split_and!; try done. intros H. destruct (H25 H) as [H1 H2]. split_and!; [done|by rewrite H2|congruence].
  - exists s. simpl. rewrite app_nil_r. split_and!; [done..|]. intros _. split_and!; [done..|congruence].
Qed.

Lemma exec_ok e s :
  inv s → valid_event e →
  ∃ s', exec raw e s = Ok (tt, s') ∧ inv s' ∧
    (zlen (buffersToWrite s) ≤ 25 → logged s' = logged s ++ event_text e).
Proof using Hraw.
  intros Hs He. destruct e as [logline| |]; simpl.
  - destruct (append_ok logline s Hs He) as (s' & E & Hs' & El & _). by exists s'.
  - destruct (thread_step_ok s Hs) as (s' & E & Hs' & _ & _ & El). exists s'. rewrite app_nil_r. naive_solver.
  - eexists. split; [done|]. rewrite app_nil_r. split; [|done]. destruct Hs. by split.
Qed.

(** *** Progress of the thread *)

(** The thread never takes more than 25 buffers at once. *)
Definition bounded (es : list event) (s : AsyncLogging) : Prop :=
  ∀ k s', for_each (exec raw) (take k es) s = Ok (tt, s') → zlen (buffersToWrite s') ≤ 25.

(** [T] is at most [n] steps of the thread away from the file. *)
Inductive due (T : bytes) (s : AsyncLogging) : nat → Prop :=
  | DueFile : T `prefix_of` stream_ (file_ (output s)) → due T s 0
  | DueWrite : pc_ s = PcWrite →
      T `prefix_of` stream_ (file_ (output s)) ++ contents (buffersToWrite s) → due T s 1
  | DueWait : pc_ s = PcWait → T `prefix_of` logged s → due T s 2
  | DueLock : pc_ s = PcLock → T `prefix_of` logged s → due T s 3
  | DueLoop : pc_ s = PcLoop → running_ s = true → T `prefix_of` logged s → due T s 4
  | DueRound : pc_ s = PcWrite → running_ s = true → T `prefix_of` logged s → due T s 5.

(** Steps of the thread from [p] to its end once [running_] is false. *)
Definition steps_left (p : pc) : nat :=
  match p with PcDone => 0 | PcLoop => 1 | PcWrite => 2 | PcWait => 3 | PcLock => 4 | PcStart => 5 end.

Definition is_thread (e : event) : bool := match e with Thread => true | _ => false end.
Definition is_stop (e : event) : bool := match e with Stop => true | _ => false end.
Definition threads (es : list event) : nat := length (filter is_thread es).

Lemma due_now s : inv s → running_ s = true → pc_ s ≠ PcDone → ∃ n, due (logged s) s n ∧ (n <= 5)%nat.
Proof.
  intros [_ _ _ _ Hb _ _] Hr Hp. unfold back_inv in Hb. destruct (pc_ s) eqn:E; [done| | | | |done].
  - exists 4%nat. split; [by apply DueLoop|lia].
  - exists 3%nat. split; [by apply DueLock|lia].
  - exists 2%nat. split; [by apply DueWait|lia].
  - exists 5%nat. split; [by apply DueRound|lia].
Qed.

Lemma thread_due T s n :
  inv s → due T s n → zlen (buffersToWrite s) ≤ 25 →
  ∃ s' m, thread_step raw s = Ok (tt, s') ∧ inv s' ∧ running_ s' = running_ s ∧
    due T s' m ∧ (m <= pred n)%nat.
Proof using Hraw.
  intros Hs Hd H25. destruct (thread_step_ok s Hs) as (s' & E & Hs' & Hr & Hp & Hm).
  destruct (Hm H25) as (El & Es & Ew). exists s'. cut (∃ m, due T s' m ∧ (m <= pred n)%nat); [naive_solver|].
  unfold next_pc in Hp.
  destruct Hd as [H|Hpc H|Hpc H|Hpc H|Hpc Hrun H|Hpc Hrun H]; try (rewrite Hpc in Hp, Es); simpl in *.
  - exists 0%nat. split; [|lia]. apply DueFile. rewrite Es. by apply prefix_app_r.
  - exists 0%nat. split; [|lia]. apply DueFile. by rewrite Es.
  - exists 1%nat. split; [|lia]. apply DueWrite; [done|]. by rewrite <- Ew.
  - destruct Hp as [Hp|Hp].
    + exists 2%nat. split; [|lia]. apply DueWait; [done|by rewrite El].
    + exists 1%nat. split; [|lia]. apply DueWrite; [done|]. by rewrite <- Ew.
  - exists 3%nat. split; [|lia]. rewrite Hrun in Hp. apply DueLock; [done|by rewrite El].
  - exists 4%nat. split; [|lia]. apply DueLoop; [done|congruence|by rewrite El].
Qed.

(** Lines that arrive later, and [stop], do not hold [T] up. *)
Lemma event_due T s n e :
  inv s → valid_event e → due T s n → zlen (buffersToWrite s) ≤ 25 → (is_stop e = true → (n <= 3)%nat) →
  ∃ s' m, exec raw e s = Ok (tt, s') ∧ inv s' ∧ due T s' m ∧
    (m <= n - (if is_thread e then 1 else 0))%nat.
Proof using Hraw.
  intros Hs He Hd H25 Hn. destruct e as [logline| |]; simpl.
  - destruct (append_ok logline s Hs He) as (s' & E & Hs' & El & [= Ep Er Ew Eo]).
    exists s', n. rewrite Nat.sub_0_r. split_and!; try done.
    assert (T `prefix_of` logged s → T `prefix_of` logged s') as Hl by (rewrite El; apply prefix_app_r).
    destruct Hd; [apply DueFile|apply DueWrite|apply DueWait|apply DueLock|apply DueLoop|apply DueRound];
      rewrite ?Ep, ?Er, ?Ew, ?Eo; auto.
  - destruct (thread_due T s n Hs Hd H25) as (s' & m & E & Hs' & _ & Hm & Hle).
    exists s', m. split_and!; try done. lia.
  - specialize (Hn eq_refl). eexists _, n. rewrite Nat.sub_0_r.
    split; [reflexivity|]. split; [by destruct Hs; split|]. split; [|lia].
    destruct Hd; [apply DueFile|apply DueWrite|apply DueWait|apply DueLock|lia|lia]; done.
Qed.

Lemma bounded_head es s : bounded es s → zlen (buffersToWrite s) ≤ 25.
Proof. intros H. by apply (H 0%nat). Qed.

Lemma bounded_app es es' s :
  bounded (es ++ es') s →
  bounded es s ∧ ∀ s1, for_each (exec raw) es s = Ok (tt, s1) → bounded es' s1.
Proof.
  intros H. split.
  - intros k s' E. destruct (decide (k <= length es)%nat).
    + apply (H k). by rewrite take_app_le.
    + apply (H (length es)). rewrite take_app_length. by rewrite take_ge in E by lia.
  - intros s1 E k s' E'. apply (H (length es + k)%nat). rewrite take_app_add.
    by rewrite for_each_app, (bind_step _ _ _ _ _ E).
Qed.

Lemma bounded_tail e es s s1 : bounded (e :: es) s → exec raw e s = Ok (tt, s1) → bounded es s1.
Proof. intros H E k s' E'. apply (H (S k)). simpl. by rewrite (bind_step _ _ _ _ _ E). Qed.

Lemma events_due T es s n :
  inv s → Forall valid_event es → due T s n → existsb is_stop es = false ∨ (n <= 3)%nat →
  bounded es s → (n <= threads es)%nat →
  ∃ s', for_each (exec raw) es s = Ok (tt, s') ∧ inv s' ∧ T `prefix_of` stream_ (file_ (output s')).
Proof using Hraw.
  revert s n. induction es as [|e es IH]; intros s n Hs Hes Hd Hstop H25 Hn.
  - exists s. split_and!; try done. unfold threads in Hn. simpl in Hn. inversion Hd; subst; try lia. done.
  - apply Forall_cons in Hes as [He Hes]. cbn [for_each].
    destruct (event_due T s n e Hs He Hd) as (s1 & m & E1 & Hs1 & Hd1 & Hm).
    { by eapply bounded_head. }
    { intros Hst. destruct Hstop as [Hno|]; [|done]. simpl in Hno. by rewrite Hst in Hno. }
    destruct (IH s1 m Hs1 Hes Hd1) as (s2 & E2 & Hs2 & HT).
    + destruct Hstop as [Hno|?]; [left|right; lia]. simpl in Hno. by apply orb_false_iff in Hno as [_ ?].
    + by eapply bounded_tail.
    + unfold threads in *. rewrite filter_cons in Hn. destruct e; simpl in *; lia.
    + exists s2. split; [|done]. by mstep_by (exact E1).
Qed.

(** Any events: no fault, nothing lost, and without [stop] the thread goes on. *)
Lemma events_ok es s :
  inv s → Forall valid_event es →
  ∃ s', for_each (exec raw) es s = Ok (tt, s') ∧ inv s' ∧
    (bounded es s → logged s' = logged s ++ concat (event_text <$> es)) ∧
    (existsb is_stop es = false → running_ s = true → pc_ s ≠ PcDone →
       running_ s' = true ∧ pc_ s' ≠ PcDone).
Proof using Hraw.
  intros Hs Hes. revert s Hs. induction Hes as [|e es He Hes IH]; intros s Hs.
  { exists s. rewrite app_nil_r. by split_and!. }
  cbn [for_each]. destruct (exec_ok e s Hs He) as (s1 & E1 & Hs1 & El1).
  destruct (IH s1 Hs1) as (s2 & E2 & Hs2 & El2 & Hr2). exists s2.
  split; [by mstep_by (exact E1)|]. split; [done|]. split.
  - intros H25. rewrite El2 by (by eapply bounded_tail). rewrite El1 by (by eapply bounded_head).
    by rewrite <- app_assoc.
  - intros [Hst Hno]%orb_false_iff Hr Hp. cut (running_ s1 = true ∧ pc_ s1 ≠ PcDone); [naive_solver|].
    destruct e as [logline| |]; simpl in *; [| |done].
    + destruct (append_ok logline s Hs He) as (s' & E & _ & _ & [= Ep Er _ _]).
      assert (s' = s1) as -> by congruence. split; congruence.
    + destruct (thread_step_ok s Hs) as (s' & E & _ & Er & Hn & _). assert (s' = s1) as -> by congruence.
      split; [congruence|]. unfold next_pc in Hn. rewrite Hr in Hn.
      destruct (pc_ s); try done; (try destruct Hn as [Hn|Hn]); by rewrite Hn.
Qed.

(** After [stop], the thread needs at most [steps_left] more steps. *)
Lemma events_end es s :
  inv s → Forall valid_event es → running_ s = false → (steps_left (pc_ s) <= threads es)%nat →
  ∃ s', for_each (exec raw) es s = Ok (tt, s') ∧ inv s' ∧ pc_ s' = PcDone.
Proof using Hraw.
  revert s. induction es as [|e es IH]; intros s Hs Hes Hr Hn.
  - exists s. split_and!; try done. unfold threads in Hn. simpl in Hn. by destruct (pc_ s); simpl in Hn; try lia.
  - apply Forall_cons in Hes as [He Hes]. cbn [for_each].
    cut (∃ s1, exec raw e s = Ok (tt, s1) ∧ inv s1 ∧ running_ s1 = false ∧ (steps_left (pc_ s1) <= threads es)%nat).
    { intros (s1 & E1 & Hs1 & Hr1 & Hn1). destruct (IH s1 Hs1 Hes Hr1 Hn1) as (s2 & E2 & H2).
      exists s2. split; [|done]. by mstep_by (exact E1). }
    unfold threads in *. rewrite filter_cons in Hn. destruct e as [logline| |]; simpl in *.
    + destruct (append_ok logline s Hs He) as (s' & E & Hs' & _ & [= Ep Er _ _]).
      exists s'. rewrite Ep, Er. by split_and!.
    + destruct (thread_step_ok s Hs) as (s' & E & Hs' & Er & Hp & _). exists s'. rewrite Er.
      split_and!; try done. unfold next_pc in Hp. rewrite Hr in Hp.
      destruct (pc_ s); [done| | | | |]; (try destruct Hp as [Hp|Hp]); rewrite ?Hp in *; simpl in *; lia.
    + eexists. split; [reflexivity|]. split; [by destruct Hs; split|]. simpl. split; [done|exact Hn].
Qed.

(** [start()], which returns once the thread has counted the latch down. *)
Definition started : M AsyncLogging unit := start ;; thread_step raw.

Lemma started_ok out :
  log_ok out →
  ∃ s, started (AsyncLogging_new raw out) = Ok (tt, s) ∧ inv s ∧ logged s = stream_ (file_ out) ∧
    latch_ s = 0 ∧ running_ s = true ∧ pc_ s = PcLoop.
Proof using Hraw.
  intros Hout. eexists. split; [done|]. split; [split; simpl; try done|].
  - apply blank_filled, blank_bzeroed.
  - right. apply blank_bzeroed.
  - unfold back_inv; simpl. split_and!; [apply blank_bzeroed..|done].
  - split; [|done]. unfold logged; simpl. unfold contents; simpl.
    by rewrite app_nil_r.
Qed.
End invariant.

(** ** Properties *)

Section properties.
Context (raw : bytes) (Hraw : 0 < zlen raw < 2 ^ 31).

(** C35: whatever lines are logged by whatever threads, at whatever points of the
    logging thread's loop, and whenever [stop] is called: no assertion of
    [threadFunc] fails, no null buffer is dereferenced and no buffer is
    overrun (also when the thread falls behind and drops buffers). *)
Theorem async_safe out es :
  log_ok out → Forall valid_event es →
  ∃ s, (started raw ;; for_each (exec raw) es) (AsyncLogging_new raw out) = Ok (tt, s) ∧ inv raw s.
Proof using Hraw.
  intros Hout Hes. destruct (started_ok raw Hraw out Hout) as (s0 & E0 & Hs0 & _).
  destruct (events_ok raw Hraw es s0 Hs0 Hes) as (s & E & Hs & _). exists s.
  by rewrite (bind_step _ _ _ _ _ E0).
Qed.

(** C34: as long as the thread never has more than 25 buffers to write at once,
    no logged line is lost, duplicated, torn or reordered: at every point of
    every execution, the file followed by the buffers on their way is exactly
    the concatenation of the lines appended so far (those longer than a whole
    buffer excepted, which are dropped whole). *)
Theorem async_no_loss out es :
  log_ok out → Forall valid_event es →
  (∀ s, started raw (AsyncLogging_new raw out) = Ok (tt, s) → bounded raw es s) →
  ∃ s, (started raw ;; for_each (exec raw) es) (AsyncLogging_new raw out) = Ok (tt, s) ∧
    logged s = stream_ (file_ out) ++ concat (event_text raw <$> es).
Proof using Hraw.
  intros Hout Hes H25. destruct (started_ok raw Hraw out Hout) as (s0 & E0 & Hs0 & El0 & _).
  destruct (events_ok raw Hraw es s0 Hs0 Hes) as (s & E & _ & El & _). exists s.
  rewrite (bind_step _ _ _ _ _ E0), <- El0. auto.
Qed.

(** C36: every line reaches the file while the logger runs: five steps of the
    logging thread after a line was appended, whatever other threads append
    between them, the file starts with everything logged up to that line, in
    order. *)
Theorem lines_reach_file out es es' :
  log_ok out → Forall valid_event (es ++ es') → existsb is_stop (es ++ es') = false →
  (5 <= threads es')%nat →
  (∀ s, started raw (AsyncLogging_new raw out) = Ok (tt, s) → bounded raw (es ++ es') s) →
  ∃ s, (started raw ;; for_each (exec raw) (es ++ es')) (AsyncLogging_new raw out) = Ok (tt, s) ∧
    (stream_ (file_ out) ++ concat (event_text raw <$> es)) `prefix_of` stream_ (file_ (output s)).
Proof using Hraw.
  intros Hout [Hes Hes']%Forall_app Hst Hn H25. rewrite existsb_app in Hst. apply orb_false_iff in Hst as [Hst Hst'].
  destruct (started_ok raw Hraw out Hout) as (s0 & E0 & Hs0 & El0 & Hrun0).
  specialize (H25 s0 E0). destruct (bounded_app raw es es' s0 H25) as [H1 H2].
  destruct (events_ok raw Hraw es s0 Hs0 Hes) as (s1 & E1 & Hs1 & El1 & Hr1).
  destruct Hrun0 as (_ & Hr0 & Hp0). destruct (Hr1 Hst Hr0) as [Hr Hp]; [by rewrite Hp0|].
  destruct (due_now raw s1 Hs1 Hr Hp) as (n & Hd & Hle).
  destruct (events_due raw Hraw (logged s1) es' s1 n Hs1 Hes' Hd) as (s2 & E2 & _ & HT);
    [by left|by apply H2|lia|].
  exists s2. rewrite (bind_step _ _ _ _ _ E0), for_each_app, (bind_step _ _ _ _ _ E1), <- El0, <- El1 by done.
  done.
Qed.

(** C37: [stop] ends the logging thread: after it, at most four more steps of the
    thread, whatever is appended between them, and [threadFunc] returns, so that
    the [join] of [stop] does too.  When the thread was about to take the
    buffers, or waiting for some, everything logged before [stop] is in the
    file by then. *)
Theorem stop_ends out es es' :
  log_ok out → Forall valid_event (es ++ es') → (4 <= threads es')%nat →
  ∃ s s', (started raw ;; for_each (exec raw) es) (AsyncLogging_new raw out) = Ok (tt, s) ∧
    for_each (exec raw) (Stop :: es') s = Ok (tt, s') ∧ pc_ s' = PcDone ∧
    (pc_ s = PcLock ∨ pc_ s = PcWait → bounded raw (Stop :: es') s →
       logged s `prefix_of` stream_ (file_ (output s'))).
Proof using Hraw.
  intros Hout [Hes Hes']%Forall_app Hn.
  destruct (started_ok raw Hraw out Hout) as (s0 & E0 & Hs0 & _).
  destruct (events_ok raw Hraw es s0 Hs0 Hes) as (s1 & E1 & Hs1 & _).
  destruct (exec_ok raw Hraw Stop s1 Hs1 I) as (s2 & E2 & Hs2 & _).
  assert (running_ s2 = false ∧ pc_ s2 = pc_ s1) as [Hr2 Hp2] by (by injection E2 as <-).
  destruct (events_end raw Hraw es' s2 Hs2 Hes' Hr2) as (s3 & E3 & _ & Hp3).
  { pose proof (inv_back _ _ Hs2) as Hb. unfold back_inv in Hb. destruct (pc_ s2); simpl; done || lia. }
  assert (for_each (exec raw) (Stop :: es') s1 = Ok (tt, s3)) as E by (cbn [for_each]; by mstep_by (exact E2)).
  exists s1, s3. split; [by rewrite (bind_step _ _ _ _ _ E0)|]. split; [exact E|]. split; [done|].
  intros Hpc H25. assert (∃ n, due (logged s1) s1 n ∧ (n <= 3)%nat) as (n & Hd & Hle).
  { destruct Hpc; [exists 3%nat|exists 2%nat]; (split; [by constructor|lia]). }
  destruct (events_due raw Hraw (logged s1) (Stop :: es') s1 n Hs1) as (s3' & E' & _ & HT);
    [by constructor|done|by right|done|change (threads (Stop :: es')) with (threads es'); lia|]. congruence.
Qed.
End properties.

(** ** Concrete executions, with buffers of 8 bytes *)

Module Demo.
Definition raw : bytes := replicate 8 Byte.x00.
Definition out : LogFile := LogFile_new 1024 (AppendFile_open [] (λ _, None)).
Definition run (es : list event) : res AsyncLogging :=
  match (started raw ;; for_each (exec raw) es) (AsyncLogging_new raw out) with
  | Ok (_, s) => Ok s
  | Err f => Err f
  end.
Definition file_after (es : list event) : res bytes :=
  s ← run es; Ok (stream_ (file_ (output s))).

Lemma raw_size : 0 < zlen raw < 2 ^ 31.
Proof. vm_compute. by split. Qed.

Lemma out_ok : log_ok out.
Proof. split; [done|]. vm_compute. by split. Qed.

Definition es : list event :=
  [Append (str "abc"); Append (str "defgh"); Thread; Thread; Append (str "ij"); Thread; Thread].
End Demo.

Lemma async_safe_witness :
  ∃ s, (started Demo.raw ;; for_each (exec Demo.raw) (Demo.es ++ [Stop]))
         (AsyncLogging_new Demo.raw Demo.out) = Ok (tt, s) ∧ inv Demo.raw s.
Proof.
  apply async_safe; [apply Demo.raw_size|apply Demo.out_ok|].
  repeat constructor.
Defined.

Lemma async_no_loss_witness :
  ∃ s, (started Demo.raw ;; for_each (exec Demo.raw) Demo.es)
         (AsyncLogging_new Demo.raw Demo.out) = Ok (tt, s) ∧
    logged s = stream_ (file_ Demo.out) ++ concat (event_text Demo.raw <$> Demo.es).
Proof.
  apply async_no_loss; [apply Demo.raw_size|apply Demo.out_ok|repeat constructor|].
  intros s0 [= <-] k s. do 8 (destruct k as [|k]; [vm_compute; by intros [= <-]|]).
  vm_compute. by intros [= <-].
Defined.

(** A line too long for the room that is left, and steps of the thread. *)
Definition demo_before : list event := [Append (str "abc"); Thread; Append (str "defgh")].
Definition demo_after : list event := [Thread; Append (str "ij"); Thread; Thread; Thread; Thread].

Lemma lines_reach_file_witness :
  ∃ s, (started Demo.raw ;; for_each (exec Demo.raw) (demo_before ++ demo_after))
         (AsyncLogging_new Demo.raw Demo.out) = Ok (tt, s) ∧
    str "abcdefgh" `prefix_of` stream_ (file_ (output s)).
Proof.
  apply (lines_reach_file Demo.raw Demo.raw_size Demo.out demo_before demo_after).
  - apply Demo.out_ok.
  - repeat constructor.
  - reflexivity.
  - vm_compute. lia.
  - intros s0 [= <-] k s. do 10 (destruct k as [|k]; [vm_compute; by intros [= <-]|]).
    vm_compute. by intros [= <-].
Defined.

Lemma stop_ends_witness :
  ∃ s s', (started Demo.raw ;; for_each (exec Demo.raw) demo_before)
            (AsyncLogging_new Demo.raw Demo.out) = Ok (tt, s) ∧
    for_each (exec Demo.raw) (Stop :: demo_after) s = Ok (tt, s') ∧ pc_ s' = PcDone ∧
    pc_ s = PcLock ∧ logged s `prefix_of` stream_ (file_ (output s')).
Proof.
  destruct (stop_ends Demo.raw Demo.raw_size Demo.out demo_before demo_after) as (s & s' & E & E' & Hp & H).
  - apply Demo.out_ok.
  - repeat constructor.
  - vm_compute. lia.
  - exists s, s'. split; [exact E|]. split; [exact E'|]. split; [exact Hp|].
    assert (pc_ s = PcLock) as Hl by (vm_compute in E; injection E as <-; reflexivity).
    split; [exact Hl|]. apply H; [left; exact Hl|].
    vm_compute in E. injection E as <-. intros k s1. do 10 (destruct k as [|k]; [vm_compute; by intros [= <-]|]).
    vm_compute. by intros [= <-].
Defined.

(** The lines of the demonstration reach the file in order. *)
Example demo_file :
  Demo.file_after Demo.es = Ok (str "abcdefgh") ∧
  Demo.file_after (Demo.es ++ [Thread; Thread; Thread]) = Ok (str "abcdefghij").
Proof. split; vm_compute; reflexivity. Qed.

(** A line logged before [stop] is not in the file when the thread ends: the
    loop is left without a last look at [currentBuffer_]. *)
Example stop_loses_line :
  Demo.file_after [Append (str "abc"); Stop; Thread; Thread; Thread] = Ok [].
Proof. vm_compute. reflexivity. Qed.

(** With 26 full buffers waiting, only the first two are written. *)
Example overload_drops :
  Demo.file_after (replicate 26 (Append (str "1234567")) ++ [Thread; Thread; Thread]) =
    Ok (str "12345671234567").
Proof. vm_compute. reflexivity. Qed.
