(* ===== verification/Logging.v ===== *)
(** * Logging: the [LOG] statement and the logger of the process

    Models src/muduo/log/base/Logging.h and Logging.cpp: the [Logger] that a
    [LOG] statement builds and destroys, and [output], which creates the one
    [AsyncLogging] of the process under [pthread_once] and appends to it.

    An execution interleaves the statements of any number of threads with the
    steps of the logging thread.  A statement is a value of [pending]: about to
    call [pthread_once], inside [once_init] at the [latch_.wait()] of [start], or
    past [pthread_once].  A thread that must wait stays where it is.  [raw] and
    [raw_small]: the contents of new memory, as long as a buffer of the back end
    and one of a stream; [open]: the file a name denotes, as [LogFile] finds it. *)

From Stdlib Require Import String.
From S2P Require Import Prelude Printf LogStream LogFile AsyncLogging.

(** ** The time of a message *)

(** [struct tm]; the year counts from 1900 and the month from 0. *)
Record tm : Type := mkTm {
  tm_year : Z; tm_mon : Z; tm_mday : Z; tm_hour : Z; tm_min : Z; tm_sec : Z;
}.

(** The text of ["%Y-%m-%d %H:%M:%S\n"]. *)
Definition strftime_text (t : tm) : bytes :=
  dec (tm_year t + 1900) ++ str "-" ++ dec0 2 (tm_mon t + 1) ++ str "-" ++ dec0 2 (tm_mday t) ++
  str " " ++ dec0 2 (tm_hour t) ++ str ":" ++ dec0 2 (tm_min t) ++ str ":" ++ dec0 2 (tm_sec t) ++
  [Byte.x0a].

(** What [localtime] gives for a year of four digits. *)
Definition valid_tm (t : tm) : Prop :=
  1000 ≤ tm_year t + 1900 ≤ 9999 ∧ 0 ≤ tm_mon t ≤ 11 ∧ 1 ≤ tm_mday t ≤ 31 ∧
  0 ≤ tm_hour t ≤ 23 ∧ 0 ≤ tm_min t ≤ 59 ∧ 0 ≤ tm_sec t ≤ 60.

(** A [LOG] statement: its operands, and where it stands. *)
Record statement : Type := mkStatement {
  st_time : tm;
  st_operands : list item;
  st_file : bytes;
  st_line : Z;
}.

Definition statement_items (st : statement) : list item :=
  log_items (strftime_text (st_time st)) (st_operands st) (st_file st) (st_line st).

Definition valid_statement (st : statement) : Prop :=
  valid_tm (st_time st) ∧ Forall valid_item (statement_items st).

(** ** State *)

(** [pthread_once_t] *)
Inductive pthread_once_t : Set := ONCE_INIT | ONCE_BUSY (t : nat) | ONCE_DONE.

Inductive pending : Type :=
  | AtOnce (msg : bytes)
  | InInit (msg : bytes)
  | AtAppend (msg : bytes).

(** [AsyncLogger_]: with the file name it was given. *)
Record logger : Type := mkLogger {
  once_control_ : pthread_once_t;
  AsyncLogger_ : option (bytes * AsyncLogging);
  logFileName_ : bytes;
  clients : gmap nat pending;
}.

Definition logger_start : logger := mkLogger ONCE_INIT None (str "./muduo.log") ∅.

Definition set_once (o : pthread_once_t) (l : logger) : logger :=
  mkLogger o (AsyncLogger_ l) (logFileName_ l) (clients l).
Definition set_async (a : option (bytes * AsyncLogging)) (l : logger) : logger :=
  mkLogger (once_control_ l) a (logFileName_ l) (clients l).
Definition set_clients (m : gmap nat pending) (l : logger) : logger :=
  mkLogger (once_control_ l) (AsyncLogger_ l) (logFileName_ l) m.

Definition setLogFileName (fileName : bytes) : M logger unit :=
  modify (λ l, mkLogger (once_control_ l) (AsyncLogger_ l) fileName (clients l)).
Definition getLogFileName : M logger bytes := gets logFileName_.

Section operations.
Context (raw raw_small : bytes) (open : bytes → LogFile).

(** [once_init] up to the wait of [start]; the constructor asserts that the
    name is longer than one character. *)
Definition once_init : M logger unit :=
  name ← getLogFileName;
  assert_ (1 <? zlen name) ;;
  '(_, a) ← lift (AsyncLogging.start (AsyncLogging_new raw (open name)));
  modify (set_async (Some (name, a))).

Definition on_async (m : M AsyncLogging unit) : M logger unit :=
  l ← get;
  '(name, a) ← deref NullDeref (AsyncLogger_ l);
  '(_, a') ← lift (m a);
  modify (set_async (Some (name, a'))).

Definition at_step (t : nat) (p : pending) : M logger unit :=
  modify (λ l, set_clients (<[t := p]> (clients l)) l).

(** [output], the next step of thread [t]. *)
Definition output (t : nat) : M logger unit :=
  l ← get;
  match clients l !! t with
  | None => mret ()
  | Some (AtOnce msg) =>
      match once_control_ l with
      | ONCE_INIT => modify (set_once (ONCE_BUSY t)) ;; once_init ;; at_step t (InInit msg)
      | ONCE_BUSY _ => mret ()
      | ONCE_DONE => at_step t (AtAppend msg)
      end
  | Some (InInit msg) =>
      '(_, a) ← deref NullDeref (AsyncLogger_ l);
      if latch_ a =? 0 then modify (set_once ONCE_DONE) ;; at_step t (AtAppend msg) else mret ()
  | Some (AtAppend msg) =>
      on_async (AsyncLogging.append raw msg) ;;
      modify (λ l, set_clients (delete t (clients l)) l)
  end.

(** [Logger(file, line).stream() << ...] up to the call of [output]. *)
Definition LOG (t : nat) (st : statement) : M logger unit :=
  l ← get;
  match clients l !! t with
  | Some _ => mret ()
  | None =>
      msg ← lift (Logger_message raw_small (strftime_text (st_time st)) (st_operands st)
                    (st_file st) (st_line st));
      at_step t (AtOnce msg)
  end.

(** [thread_] exists once [start] has run. *)
Definition logging_thread : M logger unit :=
  l ← get;
  match AsyncLogger_ l with
  | None => mret ()
  | Some _ => on_async (thread_step raw)
  end.

Inductive log_event : Type :=
  | Begin (t : nat) (st : statement)
  | Client (t : nat)
  | Back
  | SetName (fileName : bytes).

Definition log_exec (e : log_event) : M logger unit :=
  match e with
  | Begin t st => LOG t st
  | Client t => output t
  | Back => logging_thread
  | SetName fileName => setLogFileName fileName
  end.
End operations.

(** ** Properties of the state *)

(** The text and its terminator fit in [str_t], whose size is 26. *)
Lemma strftime_fits t : valid_tm t → zlen (strftime_text t) ≤ 20.
Proof.
  intros (Hy & Hm & Hd & Hh & Hmi & Hs). unfold strftime_text. rewrite !zlen_app.
  rewrite !zlen_dec0 by lia. unfold dec. rewrite (proj2 (Z.ltb_ge _ _)) by lia.
  pose proof (length_dec_u 20 3 (tm_year t + 1900)). unfold zlen in *. simpl length. lia.
Qed.

Definition message (p : pending) : bytes :=
  match p with AtOnce m | InInit m | AtAppend m => m end.
Definition at_once (p : pending) : Prop := match p with AtOnce _ => True | _ => False end.
Definition in_init (p : pending) : bool := match p with InInit _ => true | _ => false end.

Section properties.
Context (raw raw_small : bytes) (open : bytes → LogFile).
Context (Hraw : 0 < zlen raw < 2 ^ 31) (Hsmall : zlen raw_small < 2 ^ 31).
Context (Hopen : ∀ name, log_ok (open name)).

(** The back end between [start] and its first step. *)
Definition created (name : bytes) (a : AsyncLogging) : Prop :=
  AsyncLogging.start (AsyncLogging_new raw (open name)) = Ok (tt, a).

Definition once_inv (l : logger) : Prop :=
  match once_control_ l with
  | ONCE_INIT => AsyncLogger_ l = None ∧ ∀ t p, clients l !! t = Some p → at_once p
  | ONCE_BUSY h =>
      (∃ name a, AsyncLogger_ l = Some (name, a) ∧ (created name a ∨ inv raw a)) ∧
      (∃ msg, clients l !! h = Some (InInit msg)) ∧
      ∀ t p, t ≠ h → clients l !! t = Some p → at_once p
  | ONCE_DONE =>
      (∃ name a, AsyncLogger_ l = Some (name, a) ∧ inv raw a) ∧
      ∀ t p, clients l !! t = Some p → in_init p = false
  end.

Record log_inv (l : logger) : Prop := mkLogInv {
  li_name : 1 < zlen (logFileName_ l);
  li_msgs t p : clients l !! t = Some p → zlen (message p) < 2 ^ 31;
  li_once : once_inv l;
}.

Definition valid_log_event (e : log_event) : Prop :=
  match e with
  | Begin _ st => valid_statement st
  | SetName fileName => 1 < zlen fileName
  | _ => True
  end.

(** The line an event hands to the back end. *)
Definition line_of (e : log_event) (l : logger) : list bytes :=
  match e with
  | Client t => match clients l !! t with Some (AtAppend msg) => [msg] | _ => [] end
  | _ => []
  end.

Abbreviation lexec := (log_exec raw raw_small open).

(** The lines of an execution, in the order of their [append]s. *)
Fixpoint lines (es : list log_event) (l : logger) : list bytes :=
  match es with
  | [] => []
  | e :: es' =>
      line_of e l ++ match lexec e l with Ok (_, l') => lines es' l' | Err _ => [] end
  end.

(** What is in the file of the process and on its way there. *)
Definition all_logged (l : logger) (text : bytes) : Prop :=
  match AsyncLogger_ l with
  | None => text = []
  | Some (name, a) => logged a = stream_ (file_ (open name)) ++ text
  end.

Lemma created_logged name a : created name a → logged a = stream_ (file_ (open name)).
Proof using Type. intros [= <-]. unfold logged, contents. simpl. by rewrite app_nil_r. Qed.

Lemma created_ok name : ∃ a, created name a ∧ latch_ a = 1.
Proof using Type. by eexists. Qed.

(** A step of the back end, its first one included. *)
Lemma back_step name a : created name a ∨ inv raw a →
  ∃ a', thread_step raw a = Ok (tt, a') ∧ inv raw a' ∧
    (zlen (buffersToWrite a) ≤ 25 → logged a' = logged a).
Proof using Hraw Hopen.
  intros [Hc|Hi].
  - destruct (started_ok raw Hraw (open name) (Hopen name)) as (a' & E & Hi & El & _).
    unfold started in E. rewrite (bind_step _ _ _ _ _ Hc) in E. exists a'. split_and!; [done..|].
    intros _. by rewrite El, (created_logged name).
  - destruct (thread_step_ok raw Hraw a Hi) as (a' & E & Hi' & _ & _ & Hl). exists a'. naive_solver.
Qed.

(** The latch of [start] opens with the first step of the thread. *)
Lemma latch_open name a : created name a ∨ inv raw a → latch_ a = 0 → inv raw a.
Proof using Type. intros [[= <-]|Hi] Hl; [discriminate Hl|done]. Qed.

Lemma on_async_ok (m : M AsyncLogging unit) l name a a' :
  AsyncLogger_ l = Some (name, a) → m a = Ok (tt, a') →
  on_async m l = Ok (tt, set_async (Some (name, a')) l).
Proof using Type.
  intros Ha E. unfold on_async. mstep. rewrite Ha. mstep. unfold lift. rewrite E. done.
Qed.

(** What an event does: no fault, the invariant, the lines. *)
Definition good (e : log_event) (l : logger) : Prop :=
  ∃ l', lexec e l = Ok (tt, l') ∧ log_inv l' ∧
    (∀ name a, AsyncLogger_ l = Some (name, a) → ∃ a', AsyncLogger_ l' = Some (name, a')) ∧
    ∀ text, (∀ name a, AsyncLogger_ l = Some (name, a) → zlen (buffersToWrite a) ≤ 25) →
      all_logged l text → all_logged l' (text ++ concat (accepted raw <$> line_of e l)).

(** A thread's own entry changes, and nothing of the back end. *)
Lemma good_client e l t p :
  lexec e l = Ok (tt, set_clients (<[t := p]> (clients l)) l) → line_of e l = [] →
  log_inv l → zlen (message p) < 2 ^ 31 → once_inv (set_clients (<[t := p]> (clients l)) l) → good e l.
Proof using Type.
  intros E Hline [Hn Hm _] Hp Ho. eexists. split; [exact E|]. split; [|split].
  - split; [done| |done]. intros t' p'. simpl. rewrite lookup_insert_Some. intros [[<- <-]|[_ H]]; eauto.
  - simpl. eauto.
  - intros text _ H. rewrite Hline. simpl. by rewrite app_nil_r.
Qed.

Lemma good_stutter e l : lexec e l = Ok (tt, l) → line_of e l = [] → log_inv l → good e l.
Proof using Type.
  intros E Hl Hi. exists l. split_and!; [done..|eauto|]. intros text _ H. rewrite Hl. simpl. by rewrite app_nil_r.
Qed.

Lemma good_Begin t st l : log_inv l → valid_statement st → good (Begin t st) l.
Proof using Hsmall.
  intros Hi [_ Hv]. destruct (clients l !! t) as [p|] eqn:Ht.
  { apply good_stutter; [|done|done]. simpl. unfold LOG. mstep. by rewrite Ht. }
  destruct (Logger_message_safe raw_small (strftime_text (st_time st)) (st_operands st) (st_file st) (st_line st)
    Hsmall Hv) as (msg & E & Hz).
  apply (good_client _ _ t (AtOnce msg)); [|done|done|done|].
  - simpl. unfold LOG. mstep. rewrite Ht. mstep_by (unfold lift; rewrite E; reflexivity). done.
  - destruct Hi as [_ _ Ho]. unfold once_inv in *. simpl. destruct (once_control_ l) as [|h|].
    + destruct Ho as [Ha Hc]. split; [done|]. intros t' p. rewrite lookup_insert_Some.
      intros [[<- <-]|[_ H]]; [done|eauto].
    + destruct Ho as (Ha & [m Hh] & Hc). split; [done|]. split.
      * exists m. rewrite lookup_insert_ne; [done|congruence].
      * intros t' p Hne. rewrite lookup_insert_Some. intros [[<- <-]|[_ H]]; [done|eauto].
    + destruct Ho as [Ha Hc]. split; [done|]. intros t' p. rewrite lookup_insert_Some.
      intros [[<- <-]|[_ H]]; [done|eauto].
Qed.

Lemma good_Client t l : log_inv l → good (Client t) l.
Proof using Hraw Hopen.
  intros Hi. pose proof Hi as [Hname Hmsgs Ho]. unfold once_inv in Ho.
  destruct (clients l !! t) as [p|] eqn:Ht.
  2: { apply good_stutter; [|by simpl; rewrite Ht|done]. simpl. unfold output. mstep. by rewrite Ht. }
  pose proof (Hmsgs t p Ht) as Hz. destruct p as [msg|msg|msg].
  - destruct (once_control_ l) as [|h|] eqn:Hc.
    + destruct Ho as [Ha Hcl]. destruct (created_ok (logFileName_ l)) as (a & Hcr & _).
      eexists. split; [|split; [|split]].
      * simpl. unfold output. mstep. rewrite Ht, Hc. mstep.
        mstep_by (unfold once_init; mstep; mstep_by (unfold assert_; by rewrite (proj2 (Z.ltb_lt _ _)));
          mstep_by (unfold lift; rewrite Hcr; reflexivity); reflexivity). reflexivity.
      * split; simpl; [done| |].
        -- intros t' p'. rewrite lookup_insert_Some. intros [[<- <-]|[_ H]]; [done|eauto].
        -- unfold once_inv. simpl. split; [by eexists _, a; eauto|]. split; [exists msg; apply lookup_insert_eq|].
           intros t' p' Hne. rewrite lookup_insert_ne by done. apply Hcl.
      * rewrite Ha. done.
      * intros text _. unfold all_logged. rewrite Ha. simpl. intros ->. rewrite Ht, app_nil_r. by apply created_logged.
    + apply good_stutter; [|by simpl; rewrite Ht|done]. simpl. unfold output. mstep. by rewrite Ht, Hc.
    + apply (good_client _ _ t (AtAppend msg)); [|by simpl; rewrite Ht|done|done|].
      * simpl. unfold output. mstep. by rewrite Ht, Hc.
      * destruct Ho as [Ha Hcl]. unfold once_inv. simpl. rewrite Hc. split; [done|]. intros t' p'.
        rewrite lookup_insert_Some. intros [[<- <-]|[_ H]]; [done|eauto].
  - destruct (once_control_ l) as [|h|] eqn:Hc; [by destruct (proj2 Ho _ _ Ht)| |by discriminate (proj2 Ho _ _ Ht)].
    destruct Ho as ((name & a & Ha & Hl) & [m Hh] & Hcl).
    assert (t = h) as -> by (destruct (decide (t = h)); [done|by destruct (Hcl t _ ltac:(done) Ht)]).
    assert (lexec (Client h) l = (if latch_ a =? 0 then modify (set_once ONCE_DONE) ;; at_step h (AtAppend msg)
                                  else mret ()) l) as E.
    { simpl. unfold output. mstep. rewrite Ht, Ha. mstep. done. }
    destruct (Z.eqb_spec (latch_ a) 0) as [H0|H0]; [|by apply good_stutter; [|simpl; rewrite Ht|]].
    eexists. split; [rewrite E; reflexivity|]. split; [|split; [eauto|]].
    + split; simpl; [done| |].
      * intros t' p'. rewrite lookup_insert_Some. intros [[<- <-]|[_ H]]; [done|eauto].
      * unfold once_inv. simpl. split; [exists name, a; split; [done|by eapply latch_open]|]. intros t' p'.
        rewrite lookup_insert_Some. intros [[<- <-]|[Hne H]]; [done|].
        specialize (Hcl t' p' (not_eq_sym Hne) H). by destruct p'.
    + intros text _ H. simpl. by rewrite Ht, app_nil_r.
  - destruct (once_control_ l) as [|h|] eqn:Hc; [by destruct (proj2 Ho _ _ Ht)| |].
    { destruct Ho as (_ & [m Hh] & Hcl). destruct (decide (t = h)) as [->|Hne]; [congruence|]. by destruct (Hcl t _ Hne Ht). }
    destruct Ho as ((name & a & Ha & Hl) & Hcl).
    destruct (append_ok raw Hraw msg a Hl Hz) as (a' & E & Hl' & El & _).
    eexists. split; [|split; [|split]].
    + simpl. unfold output. mstep. rewrite Ht. mstep_by (by apply (on_async_ok _ _ name a a')). reflexivity.
    + split; simpl; [done| |].
      * intros t' p'. rewrite lookup_delete_Some. intros [_ H]. eauto.
      * unfold once_inv. simpl. rewrite Hc. split; [by exists name, a'|]. intros t' p'.
        rewrite lookup_delete_Some. intros [_ H]. eauto.
    + simpl. rewrite Ha. intros n a0 [= <- <-]. eauto.
    + intros text _. unfold all_logged. simpl. rewrite Ha, Ht. intros H. simpl.
      by rewrite El, H, app_nil_r, app_assoc.
Qed.

Lemma good_Back l : log_inv l → good Back l.
Proof using Hraw Hopen.
  intros Hi. pose proof Hi as [Hname Hmsgs Ho]. destruct (AsyncLogger_ l) as [[name a]|] eqn:Ha.
  2: { apply good_stutter; [|done|done]. simpl. unfold logging_thread. mstep. by rewrite Ha. }
  assert (created name a ∨ inv raw a) as Hl.
  { unfold once_inv in Ho. destruct (once_control_ l); [by destruct Ho; congruence|..];
      destruct Ho as ((n & a0 & E & H) & _); rewrite Ha in E; injection E as <- <-; auto. }
  destruct (back_step name a Hl) as (a' & E & Hi' & El). eexists. split; [|split; [|split]].
  - simpl. unfold logging_thread. mstep. rewrite Ha. by apply (on_async_ok _ _ name a).
  - split; simpl; [done|done|]. unfold once_inv in *. simpl. destruct (once_control_ l) as [|h|].
    + by destruct Ho; congruence.
    + destruct Ho as (_ & Hrest). split; [|exact Hrest]. exists name, a'. auto.
    + destruct Ho as (_ & Hrest). split; [|exact Hrest]. by exists name, a'.
  - simpl. rewrite Ha. intros n a0 [= <- <-]. eauto.
  - intros text H25 H. unfold all_logged in *. simpl. rewrite Ha in H. rewrite El, H by eauto. by rewrite app_nil_r.
Qed.

Lemma good_event e l : log_inv l → valid_log_event e → good e l.
Proof using Hraw Hsmall Hopen.
  intros Hi He. destruct e as [t st|t| |name]; [by apply good_Begin|by apply good_Client|by apply good_Back|].
  eexists. split; [reflexivity|]. split; [|split; [eauto|]].
  - destruct Hi. by split.
  - intros text _ H. simpl. by rewrite app_nil_r.
Qed.

(** The back end never has more than 25 buffers to write at once. *)
Definition log_bounded (es : list log_event) (l : logger) : Prop :=
  ∀ k l' name a, for_each lexec (take k es) l = Ok (tt, l') → AsyncLogger_ l' = Some (name, a) →
    zlen (buffersToWrite a) ≤ 25.

Lemma log_events_ok es l : log_inv l → Forall valid_log_event es →
  ∃ l', for_each lexec es l = Ok (tt, l') ∧ log_inv l' ∧
    (∀ name a, AsyncLogger_ l = Some (name, a) → ∃ a', AsyncLogger_ l' = Some (name, a')) ∧
    ∀ text, log_bounded es l → all_logged l text →
      all_logged l' (text ++ concat (accepted raw <$> lines es l)).
Proof using Hraw Hsmall Hopen.
  intros Hi Hes. revert l Hi. induction Hes as [|e es He Hes IH]; intros l Hi.
  { exists l. split_and!; [done..|eauto|]. intros text _ H. simpl. by rewrite app_nil_r. }
  destruct (good_event e l Hi He) as (l1 & E1 & Hi1 & Hn1 & Hl1).
  destruct (IH l1 Hi1) as (l2 & E2 & Hi2 & Hn2 & Hl2). exists l2. cbn [for_each lines]. rewrite E1.
  split; [mstep_by (exact E1); exact E2|]. split; [done|]. split.
  - intros name a Ha. destruct (Hn1 name a Ha) as (a1 & Ha1). eauto.
  - intros text H25 H. rewrite fmap_app, concat_app, app_assoc. apply Hl2.
    + intros k l' name a E. apply (H25 (S k)). simpl. by rewrite (bind_step _ _ _ _ _ E1).
    + apply Hl1; [|done]. intros name a. by apply (H25 0%nat l).
Qed.

(** C38: the logger of the process, whatever threads run [LOG] statements, in any
    interleaving with each other, with the logging thread and with
    [setLogFileName]: no statement finds a null [AsyncLogger_] and no assertion
    fails; the back end is created once and keeps the file it was given; and,
    while the backlog stays within 25 buffers, that file together with the
    buffers on their way holds exactly the lines of the statements that have
    returned, each once, in the order of their appends. *)
Theorem logger_once_in_order es : 
  Forall valid_log_event es →
  ∃ l, for_each lexec es logger_start = Ok (tt, l) ∧ log_inv l ∧
    (log_bounded es logger_start → all_logged l (concat (accepted raw <$> lines es logger_start))) ∧
    ∀ es' name a, Forall valid_log_event es' → AsyncLogger_ l = Some (name, a) →
      ∃ l' a', for_each lexec es' l = Ok (tt, l') ∧ AsyncLogger_ l' = Some (name, a').
Proof using Hraw Hsmall Hopen.
  intros Hes. destruct (log_events_ok es logger_start) as (l & E & Hi & _ & Hl); [by repeat split|done|].
  exists l. split_and!; [done..|intros H; by apply (Hl [])|]. intros es' name a Hes' Ha.
  destruct (log_events_ok es' l Hi Hes') as (l' & E' & _ & Hn & _). destruct (Hn name a Ha) as (a' & Ha'). eauto.
Qed.

(** *** Progress *)









End properties.

(** ** Concrete executions: two threads start the logger at the same time *)

Module Demo.
Definition raw_small : bytes := replicate (Z.to_nat 4000) Byte.x00.
Definition raw : bytes := replicate 100 Byte.x00.
Definition open (name : bytes) : LogFile := LogFile_new 1024 (AppendFile_open [] (λ _, None)).
Definition st (n : Z) : statement :=
  mkStatement (mkTm 124 0 31 9 5 7) [ICStr (Some (str "n = ")); IInteger Int n] (str "a.cc") n.
Definition es : list log_event :=
  [Begin 1 (st 1); Begin 2 (st 2); Client 2; Client 1; SetName (str "other.log"); Client 2; Back; Client 2;
   Client 1; Client 2; Client 1].
Definition rest : list log_event := [Back; Back; Back; Back].

Lemma sizes : 0 < zlen raw < 2 ^ 31 ∧ zlen raw_small < 2 ^ 31.
Proof. vm_compute. by repeat split. Qed.
Lemma open_ok name : log_ok (open name).
Proof. split; [done|]. vm_compute. by split. Qed.
Lemma valid_es : Forall valid_log_event es.
Proof.
  repeat constructor; try (vm_compute; discriminate); try (vm_compute; done).
Qed.
End Demo.

Example demo_lines :
  match for_each (log_exec Demo.raw Demo.raw_small Demo.open) (Demo.es ++ Demo.rest) logger_start with
  | Ok (_, l) => option_map (λ e, (e.1, stream_ (file_ (AsyncLogging.output e.2)))) (AsyncLogger_ l)
  | Err _ => None
  end = Some (str "./muduo.log",
    str "2024-01-31 09:05:07" ++ [Byte.x0a] ++ str "n = 2 -- a.cc:2" ++ [Byte.x0a] ++
    str "2024-01-31 09:05:07" ++ [Byte.x0a] ++ str "n = 1 -- a.cc:1" ++ [Byte.x0a]).
Proof. vm_compute. reflexivity. Qed.

Lemma logger_once_in_order_witness :
  ∃ l, for_each (log_exec Demo.raw Demo.raw_small Demo.open) Demo.es logger_start = Ok (tt, l) ∧
    log_inv Demo.raw Demo.open l ∧
    all_logged Demo.open l
      (str "2024-01-31 09:05:07" ++ [Byte.x0a] ++ str "n = 2 -- a.cc:2" ++ [Byte.x0a] ++
       str "2024-01-31 09:05:07" ++ [Byte.x0a] ++ str "n = 1 -- a.cc:1" ++ [Byte.x0a]).
Proof.
  destruct (logger_once_in_order Demo.raw Demo.raw_small Demo.open (proj1 Demo.sizes) (proj2 Demo.sizes)
    Demo.open_ok Demo.es Demo.valid_es) as (l & E & Hi & Hl & _).
  exists l. split; [exact E|]. split; [exact Hi|].
  refine (eq_rect _ (all_logged Demo.open l) (Hl _) _ _); [|vm_compute; reflexivity].
  intros k l' name a. do 12 (destruct k as [|k]; [vm_compute; intros [= <-]; vm_compute; by intros [= <- <-]|]).
  vm_compute. intros [= <-]. vm_compute. by intros [= <- <-].
Defined.

