(* ===== verification/Atomic.v ===== *)
(** * Atomic: the atomic counters

    Models src/muduo/thread/Atomic.h.  The state is [value_]; one operation is
    one atomic step, so that an execution of several threads is the sequence of
    their operations in the order the hardware serialises them.  Both
    [AtomicInt32] and [AtomicInt64] are [AtomicIntegerT<int>]: 32 bits. *)

From S2P Require Import Prelude.

(** [AtomicIntegerT<int>()]. *)
Definition AtomicIntegerT : Z := 0.

(** [__sync_val_compare_and_swap(&value_, 0, 0)] returns the old value. *)
Definition get_ : M Z Z := v ← get; put (if v =? 0 then 0 else v) ;; mret v.

(** [__sync_fetch_and_add] wraps around. *)
Definition getAndAdd (x : Z) : M Z Z := v ← get; put (i32 (v + x)) ;; mret v.

(** [getAndAdd(x) + x]: an [int] sum, undefined out of range. *)
Definition addAndGet (x : Z) : M Z Z :=
  v ← getAndAdd x;
  if in_s 32 (v + x) then mret (v + x) else fail SignedOverflow.

Definition incrementAndGet : M Z Z := addAndGet 1.
Definition add (x : Z) : M Z unit := getAndAdd x ;; mret ().
Definition increment : M Z unit := incrementAndGet ;; mret ().
Definition decrement : M Z unit := getAndAdd (-1) ;; mret ().
Definition getAndSet (newValue : Z) : M Z Z := v ← get; put newValue ;; mret v.

(** The operations the threads perform, in their serialised order. *)
Inductive op : Type := OpAdd (x : Z) | OpIncrement | OpDecrement | OpSet (x : Z) | OpGet.

Definition exec (o : op) : M Z unit :=
  match o with
  | OpAdd x => add x
  | OpIncrement => increment
  | OpDecrement => decrement
  | OpSet x => getAndSet x ;; mret ()
  | OpGet => get_ ;; mret ()
  end.

(** The unbounded counter. *)
Definition spec (o : op) (v : Z) : Z :=
  match o with
  | OpAdd x => v + x
  | OpIncrement => v + 1
  | OpDecrement => v - 1
  | OpSet x => x
  | OpGet => v
  end.

Lemma in_s_32 z : - 2 ^ 31 ≤ z < 2 ^ 31 → in_s 32 z = true.
Proof. intros. unfold in_s. change (32 - 1) with 31. lia. Qed.

Lemma incrementAndGet_ok v :
  - 2 ^ 31 ≤ v < 2 ^ 31 - 1 → incrementAndGet v = Ok (v + 1, v + 1).
Proof.
  intros. unfold incrementAndGet, addAndGet, getAndAdd.
  mstep. rewrite in_s_32, i32_small by lia. done.
Qed.

Lemma incrementAndGet_max : incrementAndGet (2 ^ 31 - 1) = Err SignedOverflow.
Proof. vm_compute. reflexivity. Qed.

Lemma exec_spec o v :
  - 2 ^ 31 ≤ v < 2 ^ 31 → - 2 ^ 31 ≤ spec o v < 2 ^ 31 → exec o v = Ok (tt, spec o v).
Proof.
  intros Hv Hs. destruct o; simpl in *.
  - unfold add, getAndAdd. mstep. by rewrite i32_small.
  - unfold increment. by mstep_by (apply incrementAndGet_ok; lia).
  - unfold decrement, getAndAdd. mstep. by rewrite i32_small.
  - reflexivity.
  - unfold get_. mstep. destruct (Z.eqb_spec v 0); by subst.
Qed.

(** Whatever the interleaving of the threads' operations, the counter holds
    what an unbounded counter would, as long as that one stays in the range of
    [int] after every operation. *)
Theorem exec_all_spec ops v :
  - 2 ^ 31 ≤ v < 2 ^ 31 →
  (∀ k, - 2 ^ 31 ≤ fold_left (λ v o, spec o v) (take k ops) v < 2 ^ 31) →
  for_each exec ops v = Ok (tt, fold_left (λ v o, spec o v) ops v).
Proof.
  revert v. induction ops as [|o ops IH]; intros v Hv Hk; [done|]. cbn [for_each fold_left].
  mstep_by (apply exec_spec; [done|apply (Hk 1%nat)]).
  apply IH; [apply (Hk 1%nat)|]. intros k. apply (Hk (S k)).
Qed.

Lemma exec_all_spec_witness :
  for_each exec [OpAdd 5; OpDecrement; OpIncrement] AtomicIntegerT = Ok (tt, 5).
Proof.
  apply (exec_all_spec [OpAdd 5; OpDecrement; OpIncrement]); [vm_compute; by split|].
  intros k. do 4 (destruct k as [|k]; [vm_compute; by split|]). vm_compute; by split.
Defined.
