(* ===== verification/Timestamp.v ===== *)
(** * Timestamp: microsecond time stamps

    Models src/muduo/TimeStamp.h, TimeStamp.cpp and the delays computed from
    them in TimerQueue.cpp ([howMuchTimeFromNow]).  A [Timestamp] is its
    [int64_t] count of microseconds; [double] is the IEEE binary64 format of
    [SpecFloat], with its rounding; conversions to [int64_t] out of range and
    signed sums out of range, undefined in C++, are the fault
    [SignedOverflow]. *)

From Stdlib Require Import SpecFloat.
From Stdlib Require Import String.
From S2P Require Import Prelude Printf.

Abbreviation double := spec_float.
Abbreviation Timestamp := Z.

Definition kMicroSecondsPerSecond : Z := 1000 * 1000.

(** ** double *)

Definition of_int (n : Z) : double := binary_normalize 53 1024 n 0 false.
Definition fmul (x y : double) : double := SFmul 53 1024 x y.
Definition fdiv (x y : double) : double := SFdiv 53 1024 x y.

(** [x > 0.0]. *)
Definition fpos (x : double) : bool := SFltb (of_int 0) x.

Definition truncate (x : double) : option Z :=
  match x with
  | S754_zero _ => Some 0
  | S754_finite s m e =>
      let a := if 0 <=? e then Z.pos m * 2 ^ e else Z.pos m / 2 ^ (- e) in
      Some (if s then - a else a)
  | S754_infinity _ | S754_nan => None
  end.

(** Checked conversions and sums of [int64_t]. *)
Definition checked_i64 (z : Z) : res Z := if in_s 64 z then Ok z else Err SignedOverflow.

Definition double_to_int64 (x : double) : res Z :=
  match truncate x with Some z => checked_i64 z | None => Err SignedOverflow end.

(** ** Operations *)

(** The default constructor and [Timestamp::invalid]. *)
Definition Timestamp_default : Timestamp := 0.
Definition invalid : Timestamp := Timestamp_default.
Definition valid (t : Timestamp) : bool := t >? 0.
Definition swap (a b : Timestamp) : Timestamp * Timestamp := (b, a).
(** [operator<] and [operator==]. *)
Definition timestamp_lt (lhs rhs : Timestamp) : bool := lhs <? rhs.
Definition timestamp_eq (lhs rhs : Timestamp) : bool := lhs =? rhs.

Definition timeDifference (high low : Timestamp) : res double :=
  diff ← checked_i64 (high - low);
  Ok (fdiv (of_int diff) (of_int kMicroSecondsPerSecond)).

Definition addTime (timestamp : Timestamp) (seconds : double) : res Timestamp :=
  delta ← double_to_int64 (fmul seconds (of_int kMicroSecondsPerSecond));
  checked_i64 (timestamp + delta).

(** [snprintf(buf, 31, "%ld.%06ld", ...)]: at most 30 characters. *)
Definition toString (us : Timestamp) : bytes :=
  let seconds := Z.quot us kMicroSecondsPerSecond in
  let microseconds := Z.rem us kMicroSecondsPerSecond in
  take 30 (dec seconds ++ str "." ++ dec0 6 microseconds).

(** The text of a broken-down UTC time, for any [gmtime_r]: its result is the
    argument (year, month from 1, day, hour, minute, second). *)
Definition dec_space (w : Z) (z : Z) : bytes :=
  replicate (Z.to_nat (w - zlen (dec z))) Byte.x20 ++ dec z.

Definition toFormattedString (gmtime : Z → Z * Z * Z * (Z * Z * Z)) (us : Timestamp)
    (showMicroseconds : bool) : bytes :=
  let '(y, mo, d, (h, mi, s)) := gmtime (Z.quot us kMicroSecondsPerSecond) in
  let date := dec_space 4 y ++ dec0 2 mo ++ dec0 2 d ++ str " " ++
              dec0 2 h ++ str ":" ++ dec0 2 mi ++ str ":" ++ dec0 2 s in
  take 31 (if showMicroseconds
           then date ++ str "." ++ dec0 6 (i32 (Z.rem us kMicroSecondsPerSecond))
           else date).

(** [struct timespec howMuchTimeFromNow(when)], with the clock's reading:
    the fields [tv_sec] and [tv_nsec]. *)
Definition howMuchTimeFromNow (now when : Timestamp) : res (Z * Z) :=
  microseconds ← checked_i64 (when - now);
  let microseconds := if microseconds <? 100 then 100 else microseconds in
  Ok (Z.quot microseconds kMicroSecondsPerSecond,
      Z.rem microseconds kMicroSecondsPerSecond * 1000).

(** ** Facts *)

(** The two operators are those of one order. *)
Lemma timestamp_eq_lt a b : timestamp_eq a b = negb (timestamp_lt a b) && negb (timestamp_lt b a).
Proof. unfold timestamp_eq, timestamp_lt. lia. Qed.

Lemma checked_i64_inv z r : checked_i64 z = Ok r → r = z ∧ - 2 ^ 63 ≤ z < 2 ^ 63.
Proof.
  unfold checked_i64. destruct (in_s 64 z) eqn:E; [|done]. intros [= <-]. split; [done|].
  unfold in_s in E. change (64 - 1) with 63 in E. lia.
Qed.

Lemma checked_i64_ok z : - 2 ^ 63 ≤ z < 2 ^ 63 → checked_i64 z = Ok z.
Proof.
  intros. unfold checked_i64, in_s. change (64 - 1) with 63.
  rewrite (proj2 (Z.leb_le _ _)), (proj2 (Z.ltb_lt _ _)) by lia. done.
Qed.

(** The sign of a product is the sign of its exact value. *)
Lemma fmul_sign s m e n r :
  fmul (S754_finite s m e) (of_int (Z.pos n)) = r →
  match r with
  | S754_zero s' | S754_finite s' _ _ | S754_infinity s' => s' = s
  | S754_nan => True
  end.
Proof.
  assert (∀ sx mx ex lx, match binary_round_aux 53 1024 sx mx ex lx with
    | S754_zero s' | S754_finite s' _ _ | S754_infinity s' => s' = sx | S754_nan => True end) as Haux.
  { intros. unfold binary_round_aux. destruct (shr_fexp _ _ _ _ _) as [mrs e'].
    destruct (shr_fexp _ _ _ _ _) as [mrs' e'']. destruct (shr_m mrs'); [done| |done].
    by destruct (_ <=? _). }
  intros <-. unfold fmul, of_int, binary_normalize, binary_round.
  destruct (shl_align _ _ _) as [mz ez].
  pose proof (Haux false (Z.pos mz) ez loc_Exact) as H.
  destruct (binary_round_aux 53 1024 false (Z.pos mz) ez loc_Exact) as [s'|s'| |s' m' e']; simpl;
    try (rewrite H; by destruct s); [done|].
  rewrite H. rewrite xorb_false_r. apply Haux.
Qed.

Lemma truncate_nonneg x z : (match x with S754_finite s _ _ => s = false | _ => True end) →
  truncate x = Some z → 0 ≤ z.
Proof.
  destruct x as [s|s| |s m e]; simpl; [naive_solver lia|naive_solver..|].
  intros -> [= <-]. destruct (Z.leb_spec 0 e); [lia|]. apply Z.div_pos; lia.
Qed.

(** Adding a positive number of seconds never moves a time back. *)
Lemma addTime_mono now secs t : fpos secs = true → addTime now secs = Ok t → now ≤ t.
Proof.
  unfold addTime, double_to_int64. intros Hp.
  destruct (truncate _) as [d|] eqn:Et; [|done].
  destruct (checked_i64 d) as [d'|] eqn:Ed; simpl; [|done].
  apply checked_i64_inv in Ed as [-> _]. intros [-> _]%checked_i64_inv.
  enough (0 ≤ d) by lia. eapply truncate_nonneg; [|exact Et].
  destruct secs as [s|s| |s m e]; [by destruct s..| |].
  { by vm_compute in Hp. }
  destruct s; [by vm_compute in Hp|].
  pose proof (fmul_sign false m e (Z.to_pos kMicroSecondsPerSecond) _ eq_refl) as H.
  change (Z.pos (Z.to_pos kMicroSecondsPerSecond)) with kMicroSecondsPerSecond in H.
  by destruct (fmul _ _).
Qed.

(** ** Properties *)

(** The relative expiry given to the timer is never zero or negative (which
    would disarm it), is a normalised [timespec], and is the exact distance to
    the deadline, raised to 100 microseconds when less or past. *)
Theorem howMuchTimeFromNow_correct now when :
  - 2 ^ 63 ≤ when - now < 2 ^ 63 →
  ∃ s ns, howMuchTimeFromNow now when = Ok (s, ns) ∧
    0 ≤ s ∧ 0 ≤ ns < 10 ^ 9 ∧ 100 * 1000 ≤ s * 10 ^ 9 + ns ∧
    s * 10 ^ 9 + ns = Z.max 100 (when - now) * 1000.
Proof.
  intros H. unfold howMuchTimeFromNow. rewrite checked_i64_ok by done. cbn [mbind res_bind].
  unfold kMicroSecondsPerSecond. change (1000 * 1000) with 1000000.
  remember (if when - now <? 100 then 100 else when - now) as us eqn:Eus.
  assert (us = Z.max 100 (when - now)) as Eus' by (destruct (Z.ltb_spec (when - now) 100); lia).
  pose proof (Z.quot_rem' us 1000000). pose proof (Z.rem_bound_pos us 1000000 ltac:(lia) ltac:(lia)).
  pose proof (Z.quot_pos us 1000000 ltac:(lia) ltac:(lia)).
  exists (Z.quot us 1000000), (Z.rem us 1000000 * 1000). split; [done|]. lia.
Qed.

Lemma howMuchTimeFromNow_correct_witness :
  ∃ s ns, howMuchTimeFromNow 1000 5 = Ok (s, ns) ∧
    0 ≤ s ∧ 0 ≤ ns < 10 ^ 9 ∧ 100 * 1000 ≤ s * 10 ^ 9 + ns ∧
    s * 10 ^ 9 + ns = Z.max 100 (5 - 1000) * 1000.
Proof. apply howMuchTimeFromNow_correct. lia. Defined.

(** Reading [toString] back: the part before the point, and the part after it. *)
Definition parse_time (l : bytes) : Z :=
  let secs := take (length l - 7) l in
  let frac := drop (length l - 6) l in
  parse_decimal secs * kMicroSecondsPerSecond + digits_value frac.

(** For every time from the epoch on, [toString] is not cut by its 32-byte
    buffer and denotes the time exactly, to the microsecond. *)
Theorem toString_roundtrip us :
  0 ≤ us < 2 ^ 63 → parse_time (toString us) = us ∧ zlen (toString us) < 31.
Proof.
  intros Hus. unfold toString, kMicroSecondsPerSecond in *. change (1000 * 1000) with 1000000.
  pose proof (Z.quot_rem' us 1000000). pose proof (Z.rem_bound_pos us 1000000 ltac:(lia) ltac:(lia)).
  pose proof (Z.quot_pos us 1000000 ltac:(lia) ltac:(lia)).
  remember (Z.quot us 1000000) as q. remember (Z.rem us 1000000) as r.
  pose proof (zlen_dec0 6 r ltac:(lia) ltac:(lia)) as Hl6.
  assert (zlen (dec q) ≤ 20) as Hlq.
  { unfold dec. rewrite (proj2 (Z.ltb_ge _ _)) by lia. apply dec_u_20. lia. }
  assert (zlen (dec q ++ str "." ++ dec0 6 r) = zlen (dec q) + 7) as Hlen.
  { rewrite !zlen_app, Hl6. change (zlen (str ".")) with 1. lia. }
  rewrite take_ge by (unfold zlen in *; lia). split; [|lia].
  unfold parse_time. replace (length (dec q ++ str "." ++ dec0 6 r) - 7)%nat
    with (length (dec q)) by (unfold zlen in *; lia).
  rewrite take_app_length, parse_dec by lia.
  assert (length (dec q ++ str ".") = S (length (dec q))) as Hd by (rewrite length_app; simpl; lia).
  replace (length (dec q ++ str "." ++ dec0 6 r) - 6)%nat
    with (length (dec q ++ str ".")) by (rewrite Hd; unfold zlen in *; lia).
  rewrite app_assoc, drop_app_length.
  destruct (dec0_spec 6 r) as [-> _]; unfold kMicroSecondsPerSecond; lia.
Qed.

Lemma toString_roundtrip_witness :
  parse_time (toString 1700000000000042) = 1700000000000042 ∧
  zlen (toString 1700000000000042) < 31.
Proof. apply toString_roundtrip. lia. Defined.

Example toString_text : toString 1700000000000042 = str "1700000000.000042".
Proof. vm_compute. reflexivity. Qed.

(** Before the epoch the fraction is printed with its own sign. *)
Example toString_negative : toString (-1) = str "0.-00001".
Proof. vm_compute. reflexivity. Qed.

(** The delays of Connector.cpp ([retryDelayMs_ / 1000.0]) are exact. *)
Definition ms_delay (ms : Z) : double := fdiv (of_int ms) (of_int 1000).

Lemma addTime_retry_delays :
  Forall (λ ms, addTime 0 (ms_delay ms) = Ok (ms * 1000))
    [500; 1000; 2000; 4000; 8000; 16000; 30000].
Proof. repeat constructor; vm_compute; reflexivity. Qed.

(** The same from any time. *)
Lemma addTime_ms now ms :
  ms ∈ [500; 1000; 2000; 4000; 8000; 16000; 30000] →
  addTime now (ms_delay ms) = checked_i64 (now + ms * 1000).
Proof.
  intros Hin. pose proof addTime_retry_delays as H. rewrite Forall_forall in H. specialize (H _ Hin).
  unfold addTime in *. destruct (double_to_int64 _) as [d|]; [|done]. cbn [mbind res_bind] in *.
  apply checked_i64_inv in H as [H _]. f_equal. lia.
Qed.
