(* ===== verification/TimerQueue.v ===== *)
(** * TimerQueue: the timers of a loop

    Models src/muduo/TimerQueue.h, TimerQueue.cpp, Timer.h, Timer.cpp and
    TimerId.h.  [timers_] is the ordered set of (expiration, address), a
    strictly sorted list; [heap_] holds the [Timer] objects allocated and not
    deleted, so that an access through a deleted pointer is the fault
    [DanglingPtr]; [armed_] is the last setting of the timer descriptor since it
    last fired; [clock_] gives the successive readings of [Timestamp::now()].
    Addresses of new timers are arguments: an address that is in use makes the
    allocation fail.  Callbacks run over any state containing the queue.

    [inv D] is the invariant with [D] the timers allocated but not in the queue
    (expired ones whose callbacks run, new ones on their way to the loop);
    [active] is the abstract state, a map from timer ids to expirations. *)

From S2P Require Import Prelude Callbacks Atomic Timestamp.

Record Timer : Type := mkTimer {
  callback_ : closure;
  expiration_ : Timestamp;
  interval_ : double;
  repeat_ : bool;
  seq_ : Z;            (* Timer::sequence_ *)
}.

Abbreviation Entry := (Timestamp * timer_ptr)%type.
Abbreviation ActiveTimer := (timer_ptr * Z)%type.

Record TimerQueue : Type := mkTimerQueue {
  timers_ : list Entry;
  callingExpiredTimers_ : bool;
  activeTimers_ : gset ActiveTimer;
  cancelingTimers_ : gset ActiveTimer;
  heap_ : gmap timer_ptr Timer;
  s_numCreated_ : Z;
  armed_ : option (Timestamp * (Z * Z));
  clock_ : nat → Timestamp;
  readings_ : nat;
}.

Definition TimerQueue_new (clock : nat → Timestamp) : TimerQueue :=
  mkTimerQueue [] false ∅ ∅ ∅ AtomicIntegerT None clock 0.

Section setters.
Context (q : TimerQueue).
Definition set_timers (l : list Entry) : TimerQueue :=
  mkTimerQueue l (callingExpiredTimers_ q) (activeTimers_ q) (cancelingTimers_ q) (heap_ q)
    (s_numCreated_ q) (armed_ q) (clock_ q) (readings_ q).
Definition set_calling (b : bool) : TimerQueue :=
  mkTimerQueue (timers_ q) b (activeTimers_ q) (cancelingTimers_ q) (heap_ q)
    (s_numCreated_ q) (armed_ q) (clock_ q) (readings_ q).
Definition set_active (a : gset ActiveTimer) : TimerQueue :=
  mkTimerQueue (timers_ q) (callingExpiredTimers_ q) a (cancelingTimers_ q) (heap_ q)
    (s_numCreated_ q) (armed_ q) (clock_ q) (readings_ q).
Definition set_canceling (a : gset ActiveTimer) : TimerQueue :=
  mkTimerQueue (timers_ q) (callingExpiredTimers_ q) (activeTimers_ q) a (heap_ q)
    (s_numCreated_ q) (armed_ q) (clock_ q) (readings_ q).
Definition set_heap (h : gmap timer_ptr Timer) : TimerQueue :=
  mkTimerQueue (timers_ q) (callingExpiredTimers_ q) (activeTimers_ q) (cancelingTimers_ q) h
    (s_numCreated_ q) (armed_ q) (clock_ q) (readings_ q).
Definition set_numCreated (n : Z) : TimerQueue :=
  mkTimerQueue (timers_ q) (callingExpiredTimers_ q) (activeTimers_ q) (cancelingTimers_ q)
    (heap_ q) n (armed_ q) (clock_ q) (readings_ q).
Definition set_armed (a : option (Timestamp * (Z * Z))) : TimerQueue :=
  mkTimerQueue (timers_ q) (callingExpiredTimers_ q) (activeTimers_ q) (cancelingTimers_ q)
    (heap_ q) (s_numCreated_ q) a (clock_ q) (readings_ q).
Definition set_readings (n : nat) : TimerQueue :=
  mkTimerQueue (timers_ q) (callingExpiredTimers_ q) (activeTimers_ q) (cancelingTimers_ q)
    (heap_ q) (s_numCreated_ q) (armed_ q) (clock_ q) n.
End setters.

(** ** std::set<Entry> *)

(** The order of [std::pair<Timestamp, Timer*>], made of [operator<] alone. *)
Definition entry_lt (a b : Entry) : bool :=
  timestamp_lt a.1 b.1 || (negb (timestamp_lt b.1 a.1) && (a.2 <? b.2)).

Fixpoint set_insert (e : Entry) (l : list Entry) : list Entry * bool :=
  match l with
  | [] => ([e], true)
  | x :: l' =>
      if entry_lt e x then (e :: l, true)
      else if entry_lt x e then let '(l'', b) := set_insert e l' in (x :: l'', b)
      else (l, false)
  end.

Fixpoint set_erase (e : Entry) (l : list Entry) : list Entry * Z :=
  match l with
  | [] => ([], 0)
  | x :: l' =>
      if entry_lt x e then let '(l'', n) := set_erase e l' in (x :: l'', n)
      else if entry_lt e x then (l, 0)
      else (l', 1)
  end.

(** The elements before and from [lower_bound(e)]. *)
Fixpoint lower_bound (e : Entry) (l : list Entry) : list Entry * list Entry :=
  match l with
  | [] => ([], [])
  | x :: l' =>
      if entry_lt x e then let '(a, b) := lower_bound e l' in (x :: a, b) else ([], l)
  end.

(** ** Operations *)

(** [Timestamp::now()]. *)
Definition now : M TimerQueue Timestamp :=
  q ← get; put (set_readings q (S (readings_ q))) ;; mret (clock_ q (readings_ q)).

(** Access through a [Timer*]. *)
Definition timer (p : timer_ptr) : M TimerQueue Timer :=
  q ← get; deref DanglingPtr (heap_ q !! p).

Definition UINTPTR_MAX : Z := 2 ^ 64 - 1.

(** [new Timer(cb, when, interval)] at address [p]. *)
Definition Timer_new (p : timer_ptr) (cb : closure) (when : Timestamp) (interval : double) :
    M TimerQueue timer_ptr :=
  q ← get;
  if decide (is_Some (heap_ q !! p) ∨ p <= 0 ∨ UINTPTR_MAX <= p) then fail BadAlloc else
  '(seq, n) ← lift (incrementAndGet (s_numCreated_ q));
  put (set_numCreated (set_heap q
         (<[p := mkTimer cb when interval (fpos interval) seq]> (heap_ q))) n) ;;
  mret p.

(** [delete timer]. *)
Definition Timer_delete (p : timer_ptr) : M TimerQueue unit :=
  timer p ;; modify (λ q, set_heap q (delete p (heap_ q))).

(** The timers that [~TimerQueue] deletes, after it disabled its channel and
    closed its descriptor. *)
Definition TimerQueue_delete : M TimerQueue unit :=
  q ← get; for_each Timer_delete (timers_ q).*2.

Definition restart (p : timer_ptr) (now : Timestamp) : M TimerQueue unit :=
  t ← timer p;
  e ← (if repeat_ t then lift (addTime now (interval_ t)) else mret invalid);
  modify (λ q, set_heap q (<[p := mkTimer (callback_ t) e (interval_ t) (repeat_ t) (seq_ t)]> (heap_ q))).

Definition resetTimerfd (expiration : Timestamp) : M TimerQueue unit :=
  n ← now;
  ts ← lift (howMuchTimeFromNow n expiration);
  modify (λ q, set_armed q (Some (expiration, ts))).

(** The descriptor has fired: it stays disarmed until it is set again. *)
Definition readTimerfd : M TimerQueue unit := modify (λ q, set_armed q None).

Definition assert_sizes : M TimerQueue unit :=
  q ← get; assert_ (zlen (timers_ q) =? Z.of_nat (size (activeTimers_ q))).

Section operations.
(** What reading [timers_.begin()->first] gives when the set is empty: the
    condition of [insert] is written with [|], which evaluates both sides. *)
Context (end_first : Timestamp).

Definition insert (p : timer_ptr) : M TimerQueue bool :=
  assert_sizes ;;
  t ← timer p;
  q ← get;
  let when := expiration_ t in
  let first := match timers_ q with [] => end_first | e :: _ => e.1 end in
  let earliestChanged := bool_decide (timers_ q = []) || timestamp_lt when first in
  let '(timers, inserted) := set_insert (when, p) (timers_ q) in
  put (set_timers q timers) ;;
  assert_ inserted ;;
  assert_ (bool_decide ((p, seq_ t) ∉ activeTimers_ q)) ;;
  modify (λ q, set_active q ({[(p, seq_ t)]} ∪ activeTimers_ q)) ;;
  mret earliestChanged.

Definition addTimerInLoop (p : timer_ptr) : M TimerQueue unit :=
  earliestChanged ← insert p;
  if (earliestChanged : bool) then t ← timer p; resetTimerfd (expiration_ t) else mret ().

Definition cancelInLoop (timerId : TimerId) : M TimerQueue unit :=
  assert_sizes ;;
  q ← get;
  let a := (timer_ timerId, sequence_ timerId) in
  (if decide (a ∈ activeTimers_ q) then
     t ← timer a.1;
     let '(timers, n) := set_erase (expiration_ t, a.1) (timers_ q) in
     modify (λ q, set_timers q timers) ;;
     assert_ (n =? 1) ;;
     Timer_delete a.1 ;;
     modify (λ q, set_active q (activeTimers_ q ∖ {[a]}))
   else if callingExpiredTimers_ q then
     modify (λ q, set_canceling q ({[a]} ∪ cancelingTimers_ q))
   else mret ()) ;;
  assert_sizes.

(** [activeTimers_.erase(timer)] for an expired entry, with its assertion. *)
Definition erase_active (e : Entry) : M TimerQueue unit :=
  t ← timer e.2;
  q ← get;
  let a := (e.2, seq_ t) in
  put (set_active q (activeTimers_ q ∖ {[a]})) ;;
  assert_ (bool_decide (a ∈ activeTimers_ q)).

Definition getExpired (now : Timestamp) : M TimerQueue (list Entry) :=
  assert_sizes ;;
  q ← get;
  let '(expired, rest) := lower_bound (now, UINTPTR_MAX) (timers_ q) in
  assert_ (match rest with [] => true | e :: _ => timestamp_lt now e.1 end) ;;
  put (set_timers q rest) ;;
  for_each erase_active expired ;;
  assert_sizes ;;
  mret expired.

Definition reset_one (now : Timestamp) (e : Entry) : M TimerQueue unit :=
  t ← timer e.2;
  q ← get;
  if repeat_ t && bool_decide ((e.2, seq_ t) ∉ cancelingTimers_ q) then
    restart e.2 now ;; insert e.2 ;; mret ()
  else Timer_delete e.2.

Definition reset (expired : list Entry) (now : Timestamp) : M TimerQueue unit :=
  for_each (reset_one now) expired ;;
  q ← get;
  nextExpire ← (match timers_ q with
                | [] => mret Timestamp_default
                | e :: _ => t ← timer e.2; mret (expiration_ t)
                end);
  if valid nextExpire then resetTimerfd nextExpire else mret ().

(** The operations that call back into the loop and the client. *)
Context {S : Type} `{Lens S TimerQueue}.

Definition addTimer (runInLoop : closure → M S unit) (p : timer_ptr)
    (cb : closure) (when : Timestamp) (interval : double) : M S TimerId :=
  timer_ ← zoom (Timer_new p cb when interval);
  runInLoop (FnTimerQueue_addTimerInLoop timer_) ;;
  t ← zoom (timer timer_);
  mret (mkTimerId timer_ (seq_ t)).

Definition cancel (runInLoop : closure → M S unit) (timerId : TimerId) : M S unit :=
  runInLoop (FnTimerQueue_cancelInLoop timerId).

(** [it->second->run()]. *)
Definition Timer_run (call : closure → M S unit) (e : Entry) : M S unit :=
  t ← zoom (timer e.2); call (callback_ t).

Definition handleRead (call : closure → M S unit) : M S unit :=
  n ← zoom now;
  zoom readTimerfd ;;
  expired ← zoom (getExpired n);
  zoom (modify (λ q, set_canceling (set_calling q true) ∅)) ;;
  for_each (Timer_run call) expired ;;
  zoom (modify (λ q, set_calling q false)) ;;
  zoom (reset expired n).
End operations.

(** ** The ordered set *)

Definition elt (a b : Entry) : Prop := entry_lt a b = true.

Lemma entry_lt_spec a b : entry_lt a b = true ↔ a.1 < b.1 ∨ (a.1 = b.1 ∧ a.2 < b.2).
Proof. unfold entry_lt, timestamp_lt. rewrite orb_true_iff, andb_true_iff. lia. Qed.

Lemma entry_lt_false a b : entry_lt a b = false ↔ ¬ elt a b.
Proof. unfold elt. by destruct (entry_lt a b). Qed.

Lemma elt_irrefl a : ¬ elt a a.
Proof. unfold elt. rewrite entry_lt_spec. lia. Qed.

Lemma elt_trans a b c : elt a b → elt b c → elt a c.
Proof. unfold elt. rewrite !entry_lt_spec. lia. Qed.

Lemma elt_total a b : ¬ elt a b → ¬ elt b a → a = b.
Proof.
  unfold elt. rewrite !entry_lt_spec. destruct a, b; simpl. intros. f_equal; lia.
Qed.

Abbreviation ssorted := (StronglySorted elt).

Lemma ssorted_head x y l : ssorted (x :: l) → y ∈ l → elt x y.
Proof. intros [_ H]%StronglySorted_inv Hy. by eapply Forall_forall in H. Qed.

Lemma set_insert_spec e l : ssorted l → e ∉ l →
  ∃ l', set_insert e l = (l', true) ∧ ssorted l' ∧ l' ≡ₚ e :: l.
Proof.
  induction l as [|x l IH]; intros Hs He; simpl.
  - exists [e]. split_and!; [done| |done]. repeat constructor.
  - apply not_elem_of_cons in He as [Hx He]. destruct (entry_lt e x) eqn:E1.
    + eexists. split_and!; [done| |done]. constructor; [done|]. apply Forall_forall.
      intros y [->|Hy]%elem_of_cons; [done|]. eapply elt_trans; [exact E1|]. by eapply ssorted_head.
    + destruct (entry_lt x e) eqn:E2; [|destruct Hx; apply elt_total; by apply entry_lt_false].
      apply StronglySorted_inv in Hs as [Hs Hf].
      destruct (IH Hs He) as (l' & -> & Hs' & Hp). eexists. split_and!; [done| |].
      * constructor; [done|]. rewrite Hp. by constructor.
      * rewrite Hp. constructor.
Qed.

Lemma set_erase_spec e l : ssorted l → e ∈ l →
  ∃ l', set_erase e l = (l', 1) ∧ ssorted l' ∧ l ≡ₚ e :: l'.
Proof.
  induction l as [|x l IH]; intros Hs He; [by apply not_elem_of_nil in He|]. simpl.
  destruct (entry_lt x e) eqn:E1.
  - apply elem_of_cons in He as [->|He]; [by destruct (elt_irrefl x)|].
    apply StronglySorted_inv in Hs as [Hs Hf].
    destruct (IH Hs He) as (l' & -> & Hs' & Hp). eexists. split_and!; [done| |].
    + constructor; [done|]. rewrite Hp in Hf. by apply Forall_cons in Hf as [_ ?].
    + rewrite Hp. constructor.
  - assert (x = e) as ->.
    { apply elem_of_cons in He as [->|He]; [done|].
      pose proof (ssorted_head x e l Hs He) as H. unfold elt in H. congruence. }
    destruct (entry_lt e e) eqn:E2; [by destruct (elt_irrefl e)|].
    apply StronglySorted_inv in Hs as [Hs _]. by eexists.
Qed.

Lemma lower_bound_spec e l a b : lower_bound e l = (a, b) → ssorted l →
  l = a ++ b ∧ Forall (λ x, elt x e) a ∧ Forall (λ x, ¬ elt x e) b ∧ ssorted a ∧ ssorted b.
Proof.
  revert a b. induction l as [|x l IH]; simpl; intros a b Hl Hs.
  { simplify_eq. split_and!; constructor. }
  pose proof (StronglySorted_inv Hs) as [Hs' Hf].
  destruct (entry_lt x e) eqn:E.
  - destruct (lower_bound e l) as [a' b'] eqn:El; simplify_eq.
    destruct (IH _ _ eq_refl Hs') as (-> & Ha & Hb & Hsa & Hsb).
    apply Forall_app in Hf as [Hfa _]. split_and!; [done|by constructor|done|by constructor|done].
  - simplify_eq. split_and!; [done|constructor| |constructor|done].
    apply Forall_forall. intros y [->|Hy]%elem_of_cons; [by apply entry_lt_false|].
    intros Hye. apply entry_lt_false in E. apply E. eapply elt_trans; [|exact Hye].
    by eapply ssorted_head.
Qed.

(** ** Invariant *)

(** The key of an entry in [activeTimers_]. *)
Definition tag (h : gmap timer_ptr Timer) (e : Entry) : ActiveTimer :=
  (e.2, default 0 (seq_ <$> h !! e.2)).

Record inv (D : gset timer_ptr) (q : TimerQueue) : Prop := mkInv {
  inv_sorted : ssorted (timers_ q);
  inv_timers : ∀ e, e ∈ timers_ q → ∃ t, heap_ q !! e.2 = Some t ∧ expiration_ t = e.1;
  inv_active : activeTimers_ q = list_to_set (tag (heap_ q) <$> timers_ q);
  inv_detached : ∀ p, p ∈ D → is_Some (heap_ q !! p) ∧ p ∉ (timers_ q).*2;
  inv_heap : ∀ p t, heap_ q !! p = Some t →
    (p ∈ D ∨ p ∈ (timers_ q).*2) ∧ 0 < p < UINTPTR_MAX ∧
    0 < seq_ t ≤ s_numCreated_ q ∧ repeat_ t = fpos (interval_ t);
  inv_seq : ∀ p t p' t', heap_ q !! p = Some t → heap_ q !! p' = Some t' → seq_ t = seq_ t' → p = p';
  inv_num : 0 ≤ s_numCreated_ q < 2 ^ 31;
}.

Section inv_facts.
Context (D : gset timer_ptr) (q : TimerQueue) (Hq : inv D q).

Lemma timers_ptr_inj e e' : e ∈ timers_ q → e' ∈ timers_ q → e.2 = e'.2 → e = e'.
Proof using Hq.
  intros He He' E. destruct (inv_timers _ _ Hq e He) as (t & Ht & Hx).
  destruct (inv_timers _ _ Hq e' He') as (t' & Ht' & Hx').
  destruct e, e'; simpl in *. congruence.
Qed.

Lemma NoDup_timers : NoDup (timers_ q).
Proof using Hq.
  pose proof (inv_sorted _ _ Hq) as Hs. induction (timers_ q) as [|x l IH]; [constructor|].
  apply NoDup_cons. split; [|by apply IH; apply StronglySorted_inv in Hs as [? _]].
  intros Hx. by apply (elt_irrefl x), (ssorted_head x x l).
Qed.

Lemma NoDup_tags : NoDup (tag (heap_ q) <$> timers_ q).
Proof using Hq.
  apply NoDup_fmap_2_strong; [|apply NoDup_timers].
  intros e e' He He' [= E _]. by apply timers_ptr_inj.
Qed.

Lemma sizes_equal : zlen (timers_ q) = Z.of_nat (size (activeTimers_ q)).
Proof using Hq.
  rewrite (inv_active _ _ Hq), size_list_to_set by apply NoDup_tags.
  unfold zlen. by rewrite length_fmap.
Qed.

Lemma assert_sizes_ok : assert_sizes q = Ok (tt, q).
Proof using Hq.
  unfold assert_sizes. mstep. unfold assert_. by rewrite sizes_equal, Z.eqb_refl.
Qed.

Lemma elem_of_active p n :
  (p, n) ∈ activeTimers_ q ↔
  ∃ t, heap_ q !! p = Some t ∧ seq_ t = n ∧ (expiration_ t, p) ∈ timers_ q.
Proof using Hq.
  rewrite (inv_active _ _ Hq), elem_of_list_to_set, list_elem_of_fmap. split.
  - intros ([x p'] & [= -> ->] & He). destruct (inv_timers _ _ Hq _ He) as (t & Ht & Hx).
    simpl in *. exists t. rewrite Ht. simpl. split_and!; [done..|]. by rewrite Hx.
  - intros (t & Ht & <- & He). eexists. split; [|exact He]. unfold tag; simpl. by rewrite Ht.
Qed.

Lemma timers_ptr p : p ∈ (timers_ q).*2 → ∃ t, heap_ q !! p = Some t ∧ (expiration_ t, p) ∈ timers_ q.
Proof using Hq.
  intros ([x p'] & -> & He)%list_elem_of_fmap. destruct (inv_timers _ _ Hq _ He) as (t & Ht & Hx).
  exists t. simpl in *. by rewrite Hx.
Qed.
End inv_facts.

Lemma tag_insert_ne h p t e : e.2 ≠ p → tag (<[p := t]> h) e = tag h e.
Proof. intros. unfold tag. by rewrite lookup_insert_ne. Qed.

Lemma tag_delete_ne h p e : e.2 ≠ p → tag (delete p h) e = tag h e.
Proof. intros. unfold tag. by rewrite lookup_delete_ne. Qed.

Lemma tags_ext (h h' : gmap timer_ptr Timer) (l : list Entry) :
  (∀ e, e ∈ l → tag h e = tag h' e) → tag h <$> l = tag h' <$> l.
Proof. intros H. by apply list_fmap_ext; intros i e ?%list_elem_of_lookup_2; apply H. Qed.

Lemma timer_eq q p t : heap_ q !! p = Some t → timer p q = Ok (t, q).
Proof. intros H. unfold timer. mstep. by rewrite H. Qed.

(** [inv] does not depend on the other members. *)
Lemma inv_ext D q q' :
  timers_ q' = timers_ q → activeTimers_ q' = activeTimers_ q → heap_ q' = heap_ q →
  s_numCreated_ q' = s_numCreated_ q → inv D q → inv D q'.
Proof. intros E1 E2 E3 E4 []. split; rewrite ?E1, ?E2, ?E3, ?E4; done. Qed.

(** ** The steps preserve the invariant *)

Lemma list_to_set_perm_eq (l l' : list ActiveTimer) :
  l ≡ₚ l' → (list_to_set l : gset ActiveTimer) = list_to_set l'.
Proof. intros E. apply list_to_set_perm_L, E. Qed.

Lemma elem_snd (l l' : list Entry) x : l' ≡ₚ x :: l → ∀ p, p ∈ l'.*2 ↔ p = x.2 ∨ p ∈ l.*2.
Proof. intros E p. rewrite E. simpl. by rewrite elem_of_cons. Qed.

Definition inserted (q : TimerQueue) (p : timer_ptr) (t : Timer) (l : list Entry) : TimerQueue :=
  set_active (set_timers q l) ({[(p, seq_ t)]} ∪ activeTimers_ q).

Lemma inv_inserted D q p t l :
  inv ({[p]} ∪ D) q → p ∉ D → heap_ q !! p = Some t →
  ssorted l → l ≡ₚ (expiration_ t, p) :: timers_ q → inv D (inserted q p t l).
Proof.
  intros Hq HpD Ht Hs Hp. pose proof (elem_snd _ _ _ Hp) as Hsnd.
  destruct (inv_detached _ _ Hq p) as [_ Hnew]; [set_solver|]. split; simpl.
  - done.
  - intros e. rewrite Hp. intros [->|He]%elem_of_cons; [by exists t|]. by apply (inv_timers _ _ Hq).
  - rewrite (inv_active _ _ Hq), (list_to_set_perm_eq (tag (heap_ q) <$> l)
      (tag (heap_ q) <$> (expiration_ t, p) :: timers_ q)) by by rewrite Hp.
    simpl. f_equal. unfold tag; simpl. by rewrite Ht.
  - intros p' Hp'. destruct (inv_detached _ _ Hq p') as [? ?]; [set_solver|].
    split; [done|]. rewrite Hsnd. simpl. intros [->|?]; done.
  - intros p' t' Ht'. rewrite Hsnd. simpl.
    destruct (inv_heap _ _ Hq p' t' Ht') as ([?|?] & ? & ? & ?); split_and!; try done; set_solver.
  - apply Hq.
  - apply Hq.
Qed.

Definition earliest (end_first : Timestamp) (q : TimerQueue) (when : Timestamp) : bool :=
  bool_decide (timers_ q = []) ||
  (when <? match timers_ q with [] => end_first | e :: _ => e.1 end).

Lemma insert_ok ef D q p t :
  inv ({[p]} ∪ D) q → p ∉ D → heap_ q !! p = Some t →
  ∃ l, insert ef p q = Ok (earliest ef q (expiration_ t), inserted q p t l) ∧
    ssorted l ∧ l ≡ₚ (expiration_ t, p) :: timers_ q ∧ inv D (inserted q p t l).
Proof.
  intros Hq HpD Ht. destruct (inv_detached _ _ Hq p) as [_ Hnew]; [set_solver|].
  destruct (set_insert_spec (expiration_ t, p) (timers_ q)) as (l & El & Hs & Hp); [apply Hq|..].
  { intros He. apply Hnew. apply list_elem_of_fmap. by exists (expiration_ t, p). }
  exists l. split; [|split; [done|split; [done|by eapply inv_inserted]]].
  unfold insert. mstep_by (by eapply assert_sizes_ok). mstep_by (by apply timer_eq).
  mstep. rewrite El. mstep. unfold assert_ at 1. mstep. unfold assert_.
  rewrite (bool_decide_eq_true_2 ((p, seq_ t) ∉ activeTimers_ q)); [reflexivity|].
  rewrite (elem_of_active _ _ Hq). intros (t' & ? & _ & He). apply Hnew.
  apply list_elem_of_fmap. by exists (expiration_ t', p).
Qed.

Lemma inv_delete D q p :
  inv ({[p]} ∪ D) q → p ∉ D → inv D (set_heap q (delete p (heap_ q))).
Proof.
  intros Hq HpD. destruct (inv_detached _ _ Hq p) as [_ Hnew]; [set_solver|].
  assert (∀ e, e ∈ timers_ q → e.2 ≠ p) as Hne.
  { intros e He E. apply Hnew. apply list_elem_of_fmap. by exists e. }
  split; simpl.
  - apply Hq.
  - intros e He. rewrite lookup_delete_ne by (symmetry; auto). by apply (inv_timers _ _ Hq).
  - rewrite (inv_active _ _ Hq). f_equal. apply tags_ext. intros e He.
    symmetry. apply tag_delete_ne. auto.
  - intros p' Hp'. assert (p ≠ p') by set_solver. rewrite lookup_delete_ne by done.
    apply (inv_detached _ _ Hq). set_solver.
  - intros p' t' [? Ht']%lookup_delete_Some.
    destruct (inv_heap _ _ Hq p' t' Ht') as ([?|?] & ? & ? & ?); split_and!; try done; set_solver.
  - intros p1 t1 p2 t2 [_ H1]%lookup_delete_Some [_ H2]%lookup_delete_Some.
    by apply (inv_seq _ _ Hq).
  - apply Hq.
Qed.

Lemma Timer_delete_ok D q p :
  inv ({[p]} ∪ D) q →
  Timer_delete p q = Ok (tt, set_heap q (delete p (heap_ q))).
Proof.
  intros Hq. destruct (inv_detached _ _ Hq p) as [[t Ht] _]; [set_solver|].
  unfold Timer_delete. by mstep_by (by apply timer_eq).
Qed.

Lemma delete_all_ok ps q :
  NoDup ps → (∀ p, p ∈ ps → is_Some (heap_ q !! p)) →
  ∃ q', for_each Timer_delete ps q = Ok (tt, q') ∧
    (∀ p, heap_ q' !! p = if decide (p ∈ ps) then None else heap_ q !! p).
Proof.
  revert q. induction ps as [|p ps IH]; intros q Hn Hp; [exists q; split; [done|intros p; by rewrite decide_False by set_solver]|].
  apply NoDup_cons in Hn as [Hnp Hn]. destruct (Hp p ltac:(left)) as [t Ht].
  destruct (IH (set_heap q (delete p (heap_ q)))) as (q' & E & Hq'); [done| |].
  { intros p' Hp'. simpl. rewrite lookup_delete_ne by congruence. apply Hp. by right. }
  exists q'. split.
  - cbn [for_each]. mstep_by (unfold Timer_delete; by erewrite bind_step by (by apply timer_eq)). exact E.
  - intros p'. rewrite Hq'. simpl. destruct (decide (p' = p)) as [->|Hne].
    + rewrite lookup_delete_eq, (decide_True (P := p ∈ p :: ps)) by left. by case_decide.
    + rewrite lookup_delete_ne by done. repeat case_decide; set_solver.
Qed.

(** The destructor deletes every timer once: no timer is left, and none is
    deleted twice. *)
Lemma TimerQueue_delete_frees q :
  inv ∅ q → ∃ q', TimerQueue_delete q = Ok (tt, q') ∧ heap_ q' = ∅.
Proof.
  intros Hq. destruct (delete_all_ok (timers_ q).*2 q) as (q' & E & Hh).
  - apply NoDup_fmap_2_strong; [|apply (NoDup_timers ∅ q Hq)].
    intros e e' He He' Ee. by apply (timers_ptr_inj ∅ q Hq).
  - intros p (e & -> & He)%list_elem_of_fmap. destruct (inv_timers _ _ Hq e He) as (t & Ht & _). by exists t.
  - exists q'. split; [unfold TimerQueue_delete; by mstep|]. apply map_eq. intros p. rewrite Hh, lookup_empty.
    case_decide as Hp; [done|]. destruct (heap_ q !! p) as [t|] eqn:Et; [|done].
    destruct (inv_heap _ _ Hq p t Et) as [[?|?] _]; [set_solver|done].
Qed.

(** Changing a timer that is not in the queue. *)
Lemma inv_update D q p t t' :
  inv D q → p ∈ D → heap_ q !! p = Some t → seq_ t' = seq_ t →
  repeat_ t' = fpos (interval_ t') → inv D (set_heap q (<[p := t']> (heap_ q))).
Proof.
  intros Hq HpD Ht Hseq Hrep. destruct (inv_detached _ _ Hq p HpD) as [_ Hnew].
  assert (∀ e, e ∈ timers_ q → e.2 ≠ p) as Hne.
  { intros e He E. apply Hnew. apply list_elem_of_fmap. by exists e. }
  split; simpl.
  - apply Hq.
  - intros e He. rewrite lookup_insert_ne by (symmetry; auto). by apply (inv_timers _ _ Hq).
  - rewrite (inv_active _ _ Hq). f_equal. apply tags_ext. intros e He.
    symmetry. apply tag_insert_ne. auto.
  - intros p' Hp'. split; [|by apply (inv_detached _ _ Hq)].
    destruct (decide (p = p')) as [->|]; [by rewrite lookup_insert_eq|].
    rewrite lookup_insert_ne by done. by apply (inv_detached _ _ Hq).
  - intros p1 t1 [[<- <-]|[_ H1]]%lookup_insert_Some; [|by apply (inv_heap _ _ Hq)].
    destruct (inv_heap _ _ Hq p t Ht) as (? & ? & ? & ?). rewrite Hseq. split_and!; try done; lia.
  - intros p1 t1 p2 t2 [[<- <-]|[_ H1]]%lookup_insert_Some [[<- <-]|[_ H2]]%lookup_insert_Some;
      [done|rewrite Hseq|rewrite Hseq|]; by apply (inv_seq _ _ Hq).
  - apply Hq.
Qed.

Lemma inv_new D q p cb when interval :
  inv D q → heap_ q !! p = None → 0 < p < UINTPTR_MAX → s_numCreated_ q + 1 < 2 ^ 31 →
  inv ({[p]} ∪ D)
    (set_numCreated (set_heap q (<[p := mkTimer cb when interval (fpos interval) (s_numCreated_ q + 1)]>
       (heap_ q))) (s_numCreated_ q + 1)).
Proof.
  intros Hq Hp Hr Hn.
  assert (∀ e, e ∈ timers_ q → e.2 ≠ p) as Hne.
  { intros e He E. destruct (inv_timers _ _ Hq e He) as (t & Ht & _). congruence. }
  assert (∀ p' t', heap_ q !! p' = Some t' → p ≠ p') as Hne' by congruence.
  pose proof (inv_num _ _ Hq). split; simpl.
  - apply Hq.
  - intros e He. rewrite lookup_insert_ne by (symmetry; auto). by apply (inv_timers _ _ Hq).
  - rewrite (inv_active _ _ Hq). f_equal. apply tags_ext. intros e He.
    symmetry. apply tag_insert_ne. auto.
  - intros p' [->%elem_of_singleton|Hp']%elem_of_union.
    + rewrite lookup_insert_eq. split; [eauto|]. intros (e & -> & He)%list_elem_of_fmap. by apply (Hne e).
    + destruct (inv_detached _ _ Hq p' Hp') as [[t' Ht'] ?].
      rewrite lookup_insert_ne by eauto. eauto.
  - intros p' t' [[<- <-]|[_ Ht']]%lookup_insert_Some; simpl.
    + split_and!; try done; [set_solver|lia..].
    + destruct (inv_heap _ _ Hq p' t' Ht') as ([?|?] & ? & ? & ?); split_and!; try done;
        (set_solver || lia).
  - intros p1 t1 p2 t2 [[<- <-]|[_ H1]]%lookup_insert_Some [[<- <-]|[_ H2]]%lookup_insert_Some; simpl;
      [done| | |by apply (inv_seq _ _ Hq)].
    + pose proof (inv_heap _ _ Hq _ _ H2). lia.
    + pose proof (inv_heap _ _ Hq _ _ H1). lia.
  - lia.
Qed.

(** ** The abstract state: timer ids to expirations *)

Definition active (q : TimerQueue) : gmap ActiveTimer Timestamp :=
  list_to_map ((λ e, (tag (heap_ q) e, e.1)) <$> timers_ q).

Lemma lookup_active D q p n x : inv D q →
  active q !! (p, n) = Some x ↔
  (x, p) ∈ timers_ q ∧ ∃ t, heap_ q !! p = Some t ∧ seq_ t = n.
Proof.
  intros Hq. unfold active. rewrite <- elem_of_list_to_map.
  2:{ rewrite <- list_fmap_compose. unfold compose; simpl.
      replace ((λ e, tag (heap_ q) e) <$> timers_ q) with (tag (heap_ q) <$> timers_ q) by done.
      by eapply NoDup_tags. }
  rewrite list_elem_of_fmap. split.
  - intros ([x' p'] & [= -> -> ->] & He). split; [done|].
    destruct (inv_timers _ _ Hq _ He) as (t & Ht & _). simpl in Ht. exists t. by rewrite Ht.
  - intros (He & t & Ht & <-). exists (x, p). split; [|done]. unfold tag; simpl. by rewrite Ht.
Qed.

Lemma active_ext D D' q q' :
  inv D q → inv D' q' →
  (∀ x p n, ((x, p) ∈ timers_ q ∧ ∃ t, heap_ q !! p = Some t ∧ seq_ t = n) ↔
            ((x, p) ∈ timers_ q' ∧ ∃ t, heap_ q' !! p = Some t ∧ seq_ t = n)) →
  active q = active q'.
Proof.
  intros Hq Hq' H. apply map_eq. intros [p n]. apply option_eq. intros x.
  by rewrite (lookup_active D q), (lookup_active D' q').
Qed.

Lemma active_inserted D q p t l :
  inv ({[p]} ∪ D) q → p ∉ D → heap_ q !! p = Some t →
  ssorted l → l ≡ₚ (expiration_ t, p) :: timers_ q →
  active (inserted q p t l) = <[(p, seq_ t) := expiration_ t]> (active q).
Proof.
  intros Hq HpD Ht Hs Hp. pose proof (inv_inserted D q p t l Hq HpD Ht Hs Hp) as Hq'.
  destruct (inv_detached _ _ Hq p) as [_ Hnew]; [set_solver|].
  apply map_eq. intros [p' n]. apply option_eq. intros x.
  rewrite (lookup_active D _ _ _ _ Hq'). simpl. rewrite Hp, elem_of_cons, lookup_insert_Some.
  rewrite (lookup_active _ _ _ _ _ Hq). split.
  - intros ([[= -> ->]|Hx] & t' & Ht' & <-).
    + left. split; congruence.
    + right. split; [|eauto]. intros [= -> _]. apply Hnew. apply list_elem_of_fmap. by exists (x, p').
  - intros [([= -> <-] & ->)|(Hne & Hx & t' & Ht' & <-)]; eauto 6.
Qed.

(** The timer descriptor is set to fire no later than each entry, or the entry
    is not before the bound [b] (the time the queue is processing). *)
Definition covered (b : option Timestamp) (q : TimerQueue) : Prop :=
  ∀ e, e ∈ timers_ q →
    (∃ a n ts, armed_ q = Some (a, ts) ∧ howMuchTimeFromNow n a = Ok ts ∧ a ≤ e.1) ∨
    (∃ n, b = Some n ∧ n ≤ e.1).

Definition ok (D : gset timer_ptr) (b : option Timestamp) (q : TimerQueue) : Prop :=
  inv D q ∧ covered b q.

(** The faults a client can provoke: no memory, or a time out of range. *)
Definition allowed (f : fault) : Prop := f = BadAlloc ∨ f = SignedOverflow.

Lemma sorted_min e l x : ssorted (e :: l) → x ∈ e :: l → e.1 ≤ x.1.
Proof.
  intros Hs [->|Hx]%elem_of_cons; [lia|]. pose proof (ssorted_head e x l Hs Hx) as H.
  apply entry_lt_spec in H. lia.
Qed.

Lemma inv_armed D q a n : inv D q → inv D (set_armed (set_readings q n) a).
Proof. by apply inv_ext. Qed.

(** [resetTimerfd] arms the descriptor; the rest of the state is unchanged. *)
Lemma resetTimerfd_ok e q :
  match resetTimerfd e q with
  | Ok (_, q') => ∃ n ts, howMuchTimeFromNow n e = Ok ts ∧
      q' = set_armed (set_readings q (S (readings_ q))) (Some (e, ts))
  | Err f => f = SignedOverflow
  end.
Proof.
  unfold resetTimerfd. mstep. unfold mbind, M_bind, lift.
  destruct (howMuchTimeFromNow (clock_ q (readings_ q)) e) as [ts|f] eqn:E.
  - eexists _, ts. split; [exact E|]. done.
  - unfold howMuchTimeFromNow, checked_i64 in E. by destruct (in_s _ _); simplify_eq/=.
Qed.

Lemma addTimerInLoop_ok ef D b q p t :
  ok ({[p]} ∪ D) b q → p ∉ D → heap_ q !! p = Some t →
  match addTimerInLoop ef p q with
  | Ok (_, q') => ok D b q' ∧ heap_ q' = heap_ q ∧ cancelingTimers_ q' = cancelingTimers_ q ∧
      callingExpiredTimers_ q' = callingExpiredTimers_ q ∧ s_numCreated_ q' = s_numCreated_ q ∧
      active q' = <[(p, seq_ t) := expiration_ t]> (active q)
  | Err f => f = SignedOverflow
  end.
Proof.
  intros [Hq Hcov] HpD Ht. destruct (insert_ok ef D q p t Hq HpD Ht) as (l & E & Hs & Hp & Hi).
  pose proof (active_inserted D q p t l Hq HpD Ht Hs Hp) as Ha.
  unfold addTimerInLoop. mstep_by (exact E). destruct (earliest ef q (expiration_ t)) eqn:Ee.
  - mstep_by (by apply timer_eq). pose proof (resetTimerfd_ok (expiration_ t) (inserted q p t l)) as Hr.
    destruct (resetTimerfd _ _) as [[u q']|f]; [|done]. destruct Hr as (n & ts & Hts & ->).
    split; [|by split_and!]. split; [by apply inv_armed|].
    intros e He. left. exists (expiration_ t), n, ts. split_and!; [done..|].
    simpl in He. rewrite Hp in He. apply elem_of_cons in He as [->|He]; [simpl; lia|].
    unfold earliest in Ee. pose proof (inv_sorted _ _ Hq) as Hsq.
    destruct (timers_ q) as [|e0 l0]; [by apply not_elem_of_nil in He|].
    pose proof (sorted_min e0 l0 e Hsq He). rewrite bool_decide_eq_false_2 in Ee by done. simpl in Ee. lia.
  - split; [|by split_and!]. split; [done|]. intros e He. simpl in He. rewrite Hp in He.
    apply elem_of_cons in He as [->|He]; [|by apply Hcov].
    unfold earliest in Ee. destruct (timers_ q) as [|e0 l0] eqn:El.
    { by rewrite bool_decide_eq_true_2 in Ee. }
    rewrite bool_decide_eq_false_2 in Ee by done. simpl in Ee.
    destruct (Hcov e0) as [(a & n & ts & ? & ? & ?)|(n & ? & ?)]; [rewrite El; left| |]; simpl.
    + left. exists a, n, ts. split_and!; [done..|]. lia.
    + right. exists n. split; [done|]. lia.
Qed.

Lemma Timer_new_ok D b q p cb when interval :
  ok D b q →
  match Timer_new p cb when interval q with
  | Ok (p', q') => p' = p ∧ ¬ (p ∈ D) ∧ ok ({[p]} ∪ D) b q' ∧
      heap_ q !! p = None ∧ timers_ q' = timers_ q ∧ cancelingTimers_ q' = cancelingTimers_ q ∧
      callingExpiredTimers_ q' = callingExpiredTimers_ q ∧ active q' = active q ∧
      s_numCreated_ q' = s_numCreated_ q + 1 ∧
      heap_ q' = <[p := mkTimer cb when interval (fpos interval) (s_numCreated_ q + 1)]> (heap_ q)
  | Err f => allowed f
  end.
Proof.
  intros [Hq Hcov]. unfold Timer_new. mstep. case_decide as Hfresh; [by left|].
  pose proof (inv_num _ _ Hq) as Hn. destruct (decide (s_numCreated_ q + 1 < 2 ^ 31)) as [Hlt|Hge].
  2:{ replace (s_numCreated_ q) with (2 ^ 31 - 1) by lia. unfold mbind, M_bind, lift.
      rewrite incrementAndGet_max. by right. }
  unfold lift. mstep_by (rewrite incrementAndGet_ok by lia; reflexivity).
  apply Decidable.not_or in Hfresh as [Hnone Hr]. rewrite <- eq_None_not_Some in Hnone.
  assert (p ∉ D).
  { intros HpD. destruct (inv_detached _ _ Hq p HpD) as [[? ?] _]. congruence. }
  pose proof (inv_new D q p cb when interval Hq Hnone ltac:(lia) Hlt) as Hi.
  split_and!; try done. eapply active_ext; [exact Hi|exact Hq|]. intros x p' n. simpl.
  split; intros (He & t' & Ht' & <-).
  - apply lookup_insert_Some in Ht' as [[<- _]|[_ ?]]; [|eauto].
    destruct (inv_timers _ _ Hq _ He) as (t & Ht & _). simpl in Ht. congruence.
  - split; [done|]. exists t'. split; [|done]. rewrite lookup_insert_ne; [done|]. congruence.
Qed.

(** ** Cancellation *)

Definition erased (q : TimerQueue) (a : ActiveTimer) (l : list Entry) : TimerQueue :=
  set_active (set_heap (set_timers q l) (delete a.1 (heap_ q))) (activeTimers_ q ∖ {[a]}).

Section erase.
Context (D : gset timer_ptr) (q : TimerQueue) (p : timer_ptr) (t : Timer) (l : list Entry).
Context (Hq : inv D q) (Ht : heap_ q !! p = Some t) (He : (expiration_ t, p) ∈ timers_ q).
Context (Hs : ssorted l) (Hp : timers_ q ≡ₚ (expiration_ t, p) :: l).

Lemma erased_other e : e ∈ l → e.2 ≠ p.
Proof using Hq Hp.
  intros Hl E. assert (e = (expiration_ t, p)) as ->.
  { apply (timers_ptr_inj D q Hq); [rewrite Hp; by right|rewrite Hp; by left|done]. }
  pose proof (NoDup_timers D q Hq) as Hnd. rewrite Hp in Hnd. by apply NoDup_cons in Hnd as [? _].
Qed.

Lemma p_not_detached : ¬ (p ∈ D).
Proof using Hq He.
  intros HD. destruct (inv_detached _ _ Hq p HD) as [_ []]. apply list_elem_of_fmap.
  by exists (expiration_ t, p).
Qed.

Lemma inv_erased : inv D (erased q (p, seq_ t) l).
Proof using All.
  pose proof (elem_snd _ _ _ Hp) as Hsnd. pose proof erased_other as Hne.
  pose proof p_not_detached as HpD. split; simpl.
  - done.
  - intros e Hl. rewrite lookup_delete_ne by (symmetry; auto).
    apply (inv_timers _ _ Hq). rewrite Hp. by right.
  - rewrite (inv_active _ _ Hq), (list_to_set_perm_eq (tag (heap_ q) <$> timers_ q)
      (tag (heap_ q) <$> (expiration_ t, p) :: l)) by by rewrite Hp.
    rewrite (tags_ext (delete p (heap_ q)) (heap_ q) l)
      by (intros e Hl; apply tag_delete_ne; auto).
    assert (tag (heap_ q) (expiration_ t, p) = (p, seq_ t)) as Etag.
    { unfold tag; simpl. by rewrite Ht. }
    rewrite fmap_cons, Etag. simpl.
    assert ((p, seq_ t) ∉ (list_to_set (tag (heap_ q) <$> l) : gset ActiveTimer)) as Hn.
    { rewrite elem_of_list_to_set. intros (e & [= E _] & Hl)%list_elem_of_fmap. by apply (Hne e). }
    clear Hsnd. set_solver.
  - intros p' Hp'. destruct (inv_detached _ _ Hq p' Hp') as [? Hn].
    rewrite lookup_delete_ne by (intros ->; done). split; [done|].
    intros Hin. apply Hn. rewrite Hsnd. by right.
  - intros p' t' [Hpp Ht']%lookup_delete_Some.
    destruct (inv_heap _ _ Hq p' t' Ht') as [Hor Hrest]. split; [|exact Hrest].
    destruct Hor as [?|Hin]; [by left|]. right. rewrite Hsnd in Hin. simpl in Hin.
    destruct Hin as [->|?]; done.
  - intros p1 t1 p2 t2 [_ H1]%lookup_delete_Some [_ H2]%lookup_delete_Some.
    by apply (inv_seq _ _ Hq).
  - apply Hq.
Qed.

Lemma active_erased : active (erased q (p, seq_ t) l) = delete (p, seq_ t) (active q).
Proof using All.
  apply map_eq. intros [p' n]. apply option_eq. intros x.
  rewrite (lookup_active D _ _ _ _ inv_erased), lookup_delete_Some, (lookup_active D q) by done.
  simpl. split.
  - intros (Hx & t' & [Hpp Ht']%lookup_delete_Some & <-). split; [congruence|].
    rewrite Hp. split; [by right|eauto].
  - intros (Hne & Hx & t' & Ht' & <-). assert (p ≠ p').
    { intros <-. apply Hne. congruence. }
    rewrite Hp in Hx. apply elem_of_cons in Hx as [[=]|Hx]; [congruence|].
    split; [done|]. exists t'. split; [|done]. by rewrite lookup_delete_ne.
Qed.
End erase.

Lemma active_None D q p n : inv D q → (p, n) ∉ activeTimers_ q → active q !! (p, n) = None.
Proof.
  intros Hq Hn. apply eq_None_not_Some. intros [x Hx]. apply (lookup_active D q) in Hx as (Hx & t & Ht & <-); [|done].
  apply Hn, (elem_of_active D q Hq). exists t. split_and!; [done..|].
  destruct (inv_timers _ _ Hq _ Hx) as (t' & Ht' & E). simpl in *. congruence.
Qed.

Lemma cancelInLoop_ok D b q tid :
  ok D b q →
  let a := (timer_ tid, sequence_ tid) in
  ∃ q', cancelInLoop tid q = Ok (tt, q') ∧ ok D b q' ∧ active q' = delete a (active q) ∧
    callingExpiredTimers_ q' = callingExpiredTimers_ q ∧
    cancelingTimers_ q' = (if decide (a ∈ activeTimers_ q) then cancelingTimers_ q
      else if callingExpiredTimers_ q then {[a]} ∪ cancelingTimers_ q else cancelingTimers_ q) ∧
    s_numCreated_ q' = s_numCreated_ q ∧
    (∀ p, p ∈ D → heap_ q' !! p = heap_ q !! p).
Proof.
  intros [Hq Hcov] a. unfold cancelInLoop. fold a.
  mstep_by (by eapply assert_sizes_ok). mstep. destruct (decide (a ∈ activeTimers_ q)) as [Ha|Ha].
  - apply (elem_of_active D q Hq) in Ha as (t & Ht & Hseq & He).
    destruct (set_erase_spec _ _ (inv_sorted _ _ Hq) He) as (l & El & Hs & Hp).
    assert (a = (timer_ tid, seq_ t)) as Ea by (unfold a; congruence).
    pose proof (inv_erased D q (timer_ tid) t l Hq Ht He Hs Hp) as Hi.
    exists (erased q a l). split; [|split; [split|split_and!; try done]].
    + mstep_by (unfold a; simpl; mstep_by (by apply timer_eq); rewrite El; mstep;
                unfold assert_; simpl; mstep; unfold Timer_delete;
                mstep_by (mstep_by (by apply (timer_eq _ _ t)); reflexivity); reflexivity).
      fold a. change (assert_sizes (erased q a l) = Ok (tt, erased q a l)).
      eapply assert_sizes_ok. rewrite Ea. exact Hi.
    + rewrite Ea. exact Hi.
    + intros e He'. simpl in He'. apply Hcov. rewrite Hp. by right.
    + rewrite Ea. by apply (active_erased D).
    + intros p HpD. simpl. rewrite lookup_delete_ne; [done|]. intros <-.
      by apply (p_not_detached D q (timer_ tid) t).
  - pose proof (active_None D q _ _ Hq Ha) as Hnone. fold a in Hnone.
    rewrite (delete_id (active q) a) by done.
    destruct (callingExpiredTimers_ q) eqn:Ec.
    + assert (inv D (set_canceling q ({[a]} ∪ cancelingTimers_ q))) by by apply (inv_ext D q).
      exists (set_canceling q ({[a]} ∪ cancelingTimers_ q)).
      split; [|split; [by split|split_and!; try done]]. mstep. by eapply assert_sizes_ok.
    + exists q. split; [|split; [by split|split_and!; try done]]. mstep. by eapply assert_sizes_ok.
Qed.

(** ** getExpired *)

Definition ptrs (E : list Entry) : gset timer_ptr := list_to_set E.*2.

Lemma erase_actives q E :
  NoDup (tag (heap_ q) <$> E) →
  (∀ e, e ∈ E → is_Some (heap_ q !! e.2) ∧ tag (heap_ q) e ∈ activeTimers_ q) →
  for_each erase_active E q =
    Ok (tt, set_active q (activeTimers_ q ∖ list_to_set (tag (heap_ q) <$> E))).
Proof.
  revert q. induction E as [|e E IH]; intros q Hnd HE; simpl.
  - rewrite difference_empty_L. by destruct q.
  - apply NoDup_cons in Hnd as [Hn Hnd].
    destruct (HE e) as [[t Ht] Ha]; [left|].
    assert (tag (heap_ q) e = (e.2, seq_ t)) as Etag by (unfold tag; by rewrite Ht).
    assert (erase_active e q = Ok (tt, set_active q (activeTimers_ q ∖ {[tag (heap_ q) e]}))) as Hstep.
    { unfold erase_active. mstep_by (by apply timer_eq). do 2 mstep. unfold assert_.
      rewrite <- Etag. by rewrite bool_decide_eq_true_2. }
    mstep_by (exact Hstep). rewrite IH; simpl; [|done|].
    + unfold set_active; simpl. do 3 f_equal. set_solver.
    + intros e' He'. destruct (HE e') as [? ?]; [by right|]. split; [done|].
      apply elem_of_difference. split; [done|]. rewrite elem_of_singleton. intros E'.
      apply Hn. rewrite <- E'. apply list_elem_of_fmap_2. done.
Qed.

Definition popped (q : TimerQueue) (R : list Entry) : TimerQueue :=
  set_active (set_timers q R) (list_to_set (tag (heap_ q) <$> R)).

Section pop.
Context (D : gset timer_ptr) (q : TimerQueue) (E R : list Entry).
Context (Hq : inv D q) (Hl : timers_ q = E ++ R) (HsR : ssorted R).

Lemma popped_disjoint p : p ∈ E.*2 → p ∈ R.*2 → False.
Proof using Hq Hl.
  intros (e & -> & He)%list_elem_of_fmap (e' & Ee & He')%list_elem_of_fmap.
  assert (e = e') as ->.
  { apply (timers_ptr_inj D q Hq); rewrite ?Hl; [by apply elem_of_app; left|by apply elem_of_app; right|done]. }
  pose proof (NoDup_timers D q Hq) as Hnd. rewrite Hl in Hnd.
  apply NoDup_app in Hnd as (_ & Hd & _). by apply (Hd e').
Qed.

Lemma inv_popped : inv (D ∪ ptrs E) (popped q R).
Proof using All.
  assert (∀ p, p ∈ (timers_ q).*2 ↔ p ∈ E.*2 ∨ p ∈ R.*2) as Hsnd.
  { intros p. by rewrite Hl, fmap_app, elem_of_app. }
  split; simpl.
  - done.
  - intros e He. apply (inv_timers _ _ Hq). rewrite Hl. apply elem_of_app. by right.
  - done.
  - intros p [Hp|Hp]%elem_of_union.
    + destruct (inv_detached _ _ Hq p Hp) as [? Hn]. split; [done|].
      intros HR. apply Hn, Hsnd. by right.
    + unfold ptrs in Hp. rewrite elem_of_list_to_set in Hp.
      split; [|intros ?; by apply (popped_disjoint p)].
      destruct (timers_ptr D q Hq p) as (t & Ht & _); [apply Hsnd; by left|]. by exists t.
  - intros p t Ht. destruct (inv_heap _ _ Hq p t Ht) as [Hor Hrest]. split; [|exact Hrest].
    rewrite Hsnd in Hor. unfold ptrs. rewrite elem_of_union, elem_of_list_to_set. tauto.
  - apply Hq.
  - apply Hq.
Qed.
End pop.

Lemma getExpired_ok D q n :
  inv D q →
  ∃ E R, getExpired n q = Ok (E, popped q R) ∧ timers_ q = E ++ R ∧
    Forall (λ e, e.1 ≤ n) E ∧ Forall (λ e, n < e.1) R ∧ inv (D ∪ ptrs E) (popped q R).
Proof.
  intros Hq. destruct (lower_bound (n, UINTPTR_MAX) (timers_ q)) as [E R] eqn:El.
  destruct (lower_bound_spec _ _ _ _ El (inv_sorted _ _ Hq)) as (Hl & HE & HR & HsE & HsR).
  pose proof (inv_popped D q E R Hq Hl HsR) as Hi. exists E, R.
  assert (Forall (λ e, n < e.1) R) as HR'.
  { apply Forall_forall. intros [x p] He. eapply Forall_forall in HR; [|exact He].
    destruct (inv_timers _ _ Hq (x, p)) as (t & Ht & _); [rewrite Hl; apply elem_of_app; by right|].
    pose proof (inv_heap _ _ Hq p t Ht). unfold elt in HR. rewrite entry_lt_spec in HR.
    simpl in *. lia. }
  split; [|split_and!; try done].
  - unfold getExpired. mstep_by (by eapply assert_sizes_ok). mstep. rewrite El.
    assert ((match R with [] => true | e :: _ => timestamp_lt n e.1 end) = true) as Hassert.
    { destruct R as [|e R']; [done|]. apply Forall_cons in HR' as [? _]. by apply Z.ltb_lt. }
    unfold assert_ at 1. rewrite Hassert. do 2 mstep.
    pose proof (NoDup_tags D q Hq) as Hnd. rewrite Hl, fmap_app in Hnd.
    apply NoDup_app in Hnd as (HndE & Hdisj & _).
    mstep_by (apply erase_actives; [exact HndE|]; intros e He; simpl;
      (assert (e ∈ timers_ q) as Ht by (rewrite Hl; apply elem_of_app; by left));
      destruct (inv_timers _ _ Hq e Ht) as (t & ? & _); split; [by eauto|];
      rewrite (inv_active _ _ Hq); apply elem_of_list_to_set, list_elem_of_fmap_2, Ht).
    assert (set_active (set_timers q R)
      (activeTimers_ q ∖ list_to_set (tag (heap_ q) <$> E)) = popped q R) as Ep.
    { unfold popped. f_equal. rewrite (inv_active _ _ Hq), Hl, fmap_app, list_to_set_app_L.
      apply set_eq. intros a. rewrite elem_of_difference, elem_of_union, !elem_of_list_to_set.
      split; [tauto|]. intros Ha. split; [by right|]. intros Ha'. by apply (Hdisj a). }
    simpl. change (activeTimers_ (set_timers q R)) with (activeTimers_ q). rewrite Ep.
    by mstep_by (by eapply assert_sizes_ok).
  - eapply Forall_impl; [exact HE|]. intros e He. apply entry_lt_spec in He. simpl in He. lia.
Qed.

(** What is left active: the entries after [n]. *)
Lemma active_popped D q E R n :
  inv D q → timers_ q = E ++ R → ssorted R →
  Forall (λ e, e.1 ≤ n) E → Forall (λ e, n < e.1) R →
  active (popped q R) = filter (λ '(_, x), n < x) (active q).
Proof.
  intros Hq Hl HsR HE HR. pose proof (inv_popped D q E R Hq Hl HsR) as Hi.
  apply map_eq. intros [p k]. apply option_eq. intros x.
  rewrite map_lookup_filter_Some, (lookup_active _ _ _ _ _ Hi), (lookup_active _ _ _ _ _ Hq).
  simpl. rewrite Hl, elem_of_app. split.
  - intros (Hx & Ht). split; [by split; [right|]|]. eapply Forall_forall in HR; [|exact Hx]. done.
  - intros (([Hx|Hx] & Ht) & Hlt); [|by split].
    eapply Forall_forall in HE; [|exact Hx]. simpl in *. lia.
Qed.

(** ** reset *)

(** The effect of [reset_one] on the active timers. *)
Definition rearm (n : Timestamp) (h : gmap timer_ptr Timer) (c : gset ActiveTimer)
    (m : gmap ActiveTimer Timestamp) (e : Entry) : gmap ActiveTimer Timestamp :=
  match h !! e.2 with
  | Some t =>
      if repeat_ t && bool_decide ((e.2, seq_ t) ∉ c) then
        match addTime n (interval_ t) with
        | Ok x => <[(e.2, seq_ t) := x]> m
        | Err _ => m
        end
      else m
  | None => m
  end.

Definition restarted (q : TimerQueue) (p : timer_ptr) (t : Timer) (x : Timestamp) : TimerQueue :=
  set_heap q (<[p := mkTimer (callback_ t) x (interval_ t) (repeat_ t) (seq_ t)]> (heap_ q)).

Lemma active_set_heap D D' q h :
  inv D q → inv D' (set_heap q h) → (∀ e, e ∈ timers_ q → tag h e = tag (heap_ q) e) →
  active (set_heap q h) = active q.
Proof.
  intros Hq Hq' Htag. unfold active; simpl. f_equal. apply list_fmap_ext.
  intros i e He%list_elem_of_lookup_2. by rewrite Htag.
Qed.

Lemma detached_ne D q p : inv D q → p ∈ D → ∀ e, e ∈ timers_ q → e.2 ≠ p.
Proof.
  intros Hq Hp e He E. destruct (inv_detached _ _ Hq p Hp) as [_ []].
  apply list_elem_of_fmap. by exists e.
Qed.

Lemma reset_one_ok ef D n q e :
  ok ({[e.2]} ∪ D) (Some n) q → e.2 ∉ D →
  match reset_one ef n e q with
  | Ok (_, q') => ok D (Some n) q' ∧ cancelingTimers_ q' = cancelingTimers_ q ∧
      callingExpiredTimers_ q' = callingExpiredTimers_ q ∧
      (∀ p, p ∈ D → heap_ q' !! p = heap_ q !! p) ∧
      active q' = rearm n (heap_ q) (cancelingTimers_ q) (active q) e
  | Err f => f = SignedOverflow
  end.
Proof.
  intros [Hq Hcov] HpD. assert (e.2 ∈ {[e.2]} ∪ D) as HpD' by set_solver.
  destruct (inv_detached _ _ Hq e.2 HpD') as [[t Ht] Hnew].
  pose proof (detached_ne _ q e.2 Hq HpD') as Hne.
  unfold reset_one, rearm. rewrite Ht. mstep_by (by apply timer_eq). mstep.
  destruct (inv_heap _ _ Hq _ _ Ht) as (_ & _ & _ & Hrep).
  destruct (repeat_ t) eqn:Er; simpl; [destruct (bool_decide _)|].
  - destruct (addTime n (interval_ t)) as [x|f] eqn:Ea.
    2:{ rewrite bind_unfold. unfold restart. rewrite (bind_step _ _ _ _ _ (timer_eq q e.2 t Ht)).
        rewrite Er. unfold lift. unfold mbind, M_bind. rewrite Ea.
        unfold addTime, double_to_int64 in Ea. destruct (truncate _) as [d|]; simpl in Ea; [|congruence].
        unfold checked_i64 in Ea. destruct (in_s 64 d); simpl in Ea; [|congruence].
        destruct (in_s 64 _); congruence. }
    mstep_by (unfold restart; mstep_by (by apply timer_eq); rewrite Er; unfold lift; rewrite Ea; reflexivity).
    rewrite <- Er. fold (restarted q e.2 t x).
    pose proof (inv_update _ q e.2 t (mkTimer (callback_ t) x (interval_ t) (repeat_ t) (seq_ t))
      Hq HpD' Ht eq_refl ltac:(simpl; congruence)) as Hi. fold (restarted q e.2 t x) in Hi.
    assert (heap_ (restarted q e.2 t x) !! e.2 = Some (mkTimer (callback_ t) x (interval_ t) (repeat_ t) (seq_ t)))
      as Ht' by (simpl; by rewrite lookup_insert_eq).
    destruct (insert_ok ef D _ e.2 _ Hi HpD Ht') as (l & El & Hs & Hp & Hins).
    mstep_by (exact El). split; [split; [done|]|split_and!; try done].
    + intros e' He'. simpl in He'. rewrite Hp in He'. apply elem_of_cons in He' as [->|He']; [|by apply Hcov].
      right. exists n. split; [done|]. simpl. eapply addTime_mono; [|exact Ea]. congruence.
    + intros p Hp'. simpl. rewrite lookup_insert_ne; [done|]. intros <-. done.
    + rewrite (active_inserted D _ _ _ _ Hi HpD Ht' Hs Hp). simpl. f_equal.
      eapply active_set_heap; [done|exact Hi|]. intros e' He'. apply tag_insert_ne. auto.
  - rewrite (Timer_delete_ok D) by done. pose proof (inv_delete D q e.2 Hq HpD) as Hi.
    split; [split; [done|exact Hcov]|split_and!; try done].
    + intros p Hp'. simpl. rewrite lookup_delete_ne; [done|]. intros <-. done.
    + eapply active_set_heap; [done|exact Hi|]. intros e' He'. apply tag_delete_ne. auto.
  - rewrite (Timer_delete_ok D) by done. pose proof (inv_delete D q e.2 Hq HpD) as Hi.
    split; [split; [done|exact Hcov]|split_and!; try done].
    + intros p Hp'. simpl. rewrite lookup_delete_ne; [done|]. intros <-. done.
    + eapply active_set_heap; [done|exact Hi|]. intros e' He'. apply tag_delete_ne. auto.
Qed.

Lemma rearm_ext n h h' c m e : h !! e.2 = h' !! e.2 → rearm n h c m e = rearm n h' c m e.
Proof. unfold rearm. by intros ->. Qed.

Lemma rearms_ext n h h' c E m :
  (∀ e, e ∈ E → h !! e.2 = h' !! e.2) →
  fold_left (rearm n h c) E m = fold_left (rearm n h' c) E m.
Proof.
  revert m. induction E as [|e E IH]; intros m H; [done|]. cbn [fold_left].
  rewrite (rearm_ext n h h') by (apply H; left). apply IH. intros e' He'. apply H. by right.
Qed.

Lemma reset_loop_ok ef D n E q :
  ok (ptrs E ∪ D) (Some n) q → NoDup E.*2 → (∀ e, e ∈ E → e.2 ∉ D) →
  match for_each (reset_one ef n) E q with
  | Ok (_, q') => ok D (Some n) q' ∧ callingExpiredTimers_ q' = callingExpiredTimers_ q ∧
      active q' = fold_left (rearm n (heap_ q) (cancelingTimers_ q)) E (active q)
  | Err f => f = SignedOverflow
  end.
Proof.
  revert q. induction E as [|e E IH]; intros q Hok Hnd HE.
  - unfold ptrs in Hok. simpl in *. rewrite union_empty_l_L in Hok. done.
  - rewrite fmap_cons in Hnd. apply NoDup_cons in Hnd as [He Hnd].
    assert (ok ({[e.2]} ∪ (ptrs E ∪ D)) (Some n) q) as Hok1.
    { unfold ptrs in *. simpl in Hok. by rewrite union_assoc_L. }
    assert (e.2 ∉ ptrs E ∪ D) as He1.
    { unfold ptrs. rewrite elem_of_union, elem_of_list_to_set. intros [?|?]; [done|].
      apply (HE e); [left|done]. }
    pose proof (reset_one_ok ef _ n q e Hok1 He1) as H1. cbn [for_each].
    rewrite bind_unfold. destruct (reset_one ef n e q) as [[u q1]|f]; [|done].
    destruct H1 as (Hok2 & Hc & Hcall & Hheap & Ha).
    specialize (IH q1 Hok2 Hnd). assert (∀ e', e' ∈ E → e'.2 ∉ D) as HE' by (intros; apply HE; by right).
    specialize (IH HE'). destruct (for_each _ E q1) as [[u' q2]|f]; [|done].
    destruct IH as (Hok3 & Hcall2 & Ha2). split_and!; [done|congruence|].
    rewrite Ha2, Hc, Ha. cbn [fold_left]. apply rearms_ext. intros e' He'. apply Hheap.
    apply elem_of_union. left. unfold ptrs. rewrite elem_of_list_to_set. by apply list_elem_of_fmap_2.
Qed.

Lemma reset_ok ef D n E q :
  ok (ptrs E ∪ D) (Some n) q → NoDup E.*2 → (∀ e, e ∈ E → e.2 ∉ D) → 0 < n →
  match reset ef E n q with
  | Ok (_, q') => ok D None q' ∧ callingExpiredTimers_ q' = callingExpiredTimers_ q ∧
      active q' = fold_left (rearm n (heap_ q) (cancelingTimers_ q)) E (active q)
  | Err f => f = SignedOverflow
  end.
Proof.
  intros Hok Hnd HE Hn. pose proof (reset_loop_ok ef D n E q Hok Hnd HE) as H1. unfold reset.
  rewrite bind_unfold. destruct (for_each _ E q) as [[u q1]|f]; [|done].
  destruct H1 as ([Hq1 Hcov] & Hcall & Ha). mstep.
  destruct (timers_ q1) as [|e l] eqn:El.
  - mstep. split; [split; [done|]|done]. intros e He. rewrite El in He. by apply not_elem_of_nil in He.
  - assert (e ∈ timers_ q1) as He by (rewrite El; left).
    destruct (inv_timers _ _ Hq1 e He) as (t & Ht & Hx).
    assert (∀ e', e' ∈ timers_ q1 → e.1 ≤ e'.1) as Hmin.
    { intros e' He'. pose proof (inv_sorted _ _ Hq1) as Hs. rewrite El in *. by eapply sorted_min. }
    mstep_by (mstep_by (by apply timer_eq); reflexivity). rewrite Hx.
    unfold valid. rewrite Z.gtb_ltb. destruct (Z.ltb_spec 0 e.1) as [Hv|Hv].
    + pose proof (resetTimerfd_ok e.1 q1) as Hr. destruct (resetTimerfd e.1 q1) as [[u' q2]|f]; [|done].
      destruct Hr as (k & ts & Hts & ->). split; [split; [by apply inv_armed|]|by split_and!].
      intros e' He'. left. exists e.1, k, ts. split_and!; [done..|]. by apply Hmin.
    + split; [split; [done|]|done]. destruct (Hcov e He) as [(a & k & ts & ? & ? & ?)|(k & [= <-] & ?)]; [|lia].
      intros e' He'. left. exists a, k, ts. split_and!; [done..|]. specialize (Hmin e' He'). lia.
Qed.

(** ** Callbacks that use the queue, on the loop's thread *)

Inductive timer_call : Type :=
  | CallAdd (p : timer_ptr) (cb : closure) (when : Timestamp) (interval : double)
  | CallCancel (timerId : TimerId).

Section loop_thread.
Context (ef : Timestamp).
#[local] Existing Instance lens_id.

(** [runInLoop] on the loop's thread calls the function at once. *)
Definition in_loop (cb : closure) : M TimerQueue unit :=
  match cb with
  | FnTimerQueue_addTimerInLoop p => addTimerInLoop ef p
  | FnTimerQueue_cancelInLoop timerId => cancelInLoop timerId
  | _ => mret ()
  end.

Definition exec_call (c : timer_call) : M TimerQueue unit :=
  match c with
  | CallAdd p cb when interval => addTimer in_loop p cb when interval ;; mret ()
  | CallCancel timerId => cancel in_loop timerId
  end.

(** A client whose function [cb] performs the calls [user cb]. *)
Definition call_user (user : closure → list timer_call) (cb : closure) : M TimerQueue unit :=
  for_each exec_call (user cb).

Definition handle_timers (user : closure → list timer_call) : M TimerQueue unit :=
  handleRead ef (call_user user).

Lemma addTimer_ok D b q p cb when interval :
  ok D b q →
  match addTimer in_loop p cb when interval q with
  | Ok (tid, q') => ok D b q' ∧ tid = mkTimerId p (s_numCreated_ q + 1) ∧
      s_numCreated_ q' = s_numCreated_ q + 1 ∧
      callingExpiredTimers_ q' = callingExpiredTimers_ q ∧
      cancelingTimers_ q' = cancelingTimers_ q ∧
      (∀ p, p ∈ D → heap_ q' !! p = heap_ q !! p) ∧
      active q !! (p, s_numCreated_ q + 1) = None ∧
      active q' = <[(p, s_numCreated_ q + 1) := when]> (active q)
  | Err f => allowed f
  end.
Proof.
  intros Hok. pose proof (Timer_new_ok D b q p cb when interval Hok) as H1. unfold addTimer.
  rewrite bind_unfold, zoom_id. destruct (Timer_new _ _ _ _ q) as [[p' q1]|f]; [|done].
  destruct H1 as (-> & HpD & Hok1 & Hnone & Et & Ec & Ecall & Ea & En & Eh).
  assert (heap_ q1 !! p = Some (mkTimer cb when interval (fpos interval) (s_numCreated_ q + 1))) as Hp.
  { by rewrite Eh, lookup_insert_eq. }
  pose proof (addTimerInLoop_ok ef D b q1 p _ Hok1 HpD Hp) as H2. simpl in H2.
  rewrite bind_unfold. unfold in_loop.
  destruct (addTimerInLoop ef p q1) as [[u q2]|f] eqn:E2; [|by right].
  destruct H2 as (Hok2 & Eh2 & Ec2 & Ecall2 & En2 & Ea2).
  mstep_by (rewrite zoom_id; apply timer_eq; rewrite Eh2; exact Hp).
  split_and!; try done; try congruence.
  - intros p' Hp'. rewrite Eh2, Eh. rewrite lookup_insert_ne; [done|]. intros <-. done.
  - destruct Hok as [Hq _]. apply eq_None_not_Some. intros [x Hx].
    apply (lookup_active D q) in Hx as (_ & t & Ht & _); [congruence|done].
Qed.

(** The clock is the kernel's: only its readings advance. *)
Lemma addTimer_clock p cb when interval q id q' :
  addTimer in_loop p cb when interval q = Ok (id, q') →
  clock_ q' = clock_ q ∧ (readings_ q <= readings_ q')%nat.
Proof.
  unfold addTimer. intros (p' & q1 & E1 & H)%bind_Ok. rewrite zoom_id in E1.
  apply bind_Ok in H as (u & q2 & E2 & H). simpl in E2.
  assert (clock_ q1 = clock_ q ∧ readings_ q1 = readings_ q) as [<- <-].
  { unfold Timer_new in E1. minv E1. case_decide; [done|].
    apply bind_Ok in E1 as ([seq n] & s1 & El & E1). minv_prim El. minv E1. done. }
  assert (q' = q2) as ->.
  { apply bind_Ok in H as (t & q3 & E3 & [= <- <-]). rewrite zoom_id in E3. unfold timer in E3. by minv E3. }
  unfold addTimerInLoop in E2. apply bind_Ok in E2 as (b & q3 & E3 & H3).
  assert (clock_ q3 = clock_ q1 ∧ readings_ q3 = readings_ q1) as [<- <-].
  { unfold insert in E3. apply bind_Ok in E3 as (u1 & s1 & Ea & E3). unfold assert_sizes in Ea. minv Ea.
    apply bind_Ok in E3 as (t & s2 & Et & E3). unfold timer in Et. minv Et. minv E3.
    match type of E3 with context [set_insert ?e ?l] => destruct (set_insert e l) end. by minv E3. }
  destruct b; [|by minv H3]. unfold timer, resetTimerfd, now in H3. minv H3. minv E. minv E0. simpl. split; [done|lia].
Qed.

Lemma ok_readings D b q n : ok D b q → ok D b (set_readings q n).
Proof.
  intros [Hq Hc]. split; [|exact Hc].
  assert (set_readings q n = set_armed (set_readings q n) (armed_ q)) as -> by done. by apply inv_armed.
Qed.

(** The map of active timers after a call: adding a timer maps its new id to
    its expiration, cancelling deletes the id. *)
Definition spec_call (c : timer_call) (n : Z) (m : gmap ActiveTimer Timestamp) :
    gmap ActiveTimer Timestamp :=
  match c with
  | CallAdd p _ when _ => <[(p, n + 1) := when]> m
  | CallCancel tid => delete (timer_ tid, sequence_ tid) m
  end.

Definition spec_created (c : timer_call) (n : Z) : Z :=
  match c with CallAdd _ _ _ _ => n + 1 | CallCancel _ => n end.

Lemma exec_call_ok D b q c :
  ok D b q →
  match exec_call c q with
  | Ok (_, q') => ok D b q' ∧ callingExpiredTimers_ q' = callingExpiredTimers_ q ∧
      cancelingTimers_ q ⊆ cancelingTimers_ q' ∧
      (∀ p, p ∈ D → heap_ q' !! p = heap_ q !! p) ∧
      (∀ tid, c = CallCancel tid → timer_ tid ∈ D → callingExpiredTimers_ q = true →
         (timer_ tid, sequence_ tid) ∈ cancelingTimers_ q') ∧
      s_numCreated_ q' = spec_created c (s_numCreated_ q) ∧
      active q' = spec_call c (s_numCreated_ q) (active q)
  | Err f => allowed f
  end.
Proof.
  intros Hok. destruct c as [p cb when interval|tid]; simpl.
  - pose proof (addTimer_ok D b q p cb when interval Hok) as H. rewrite bind_unfold.
    destruct (addTimer _ _ _ _ _ q) as [[tid q1]|f]; [|done].
    destruct H as (? & -> & ? & ? & E & ? & ? & ?). split_and!; try done. by rewrite E.
  - destruct (cancelInLoop_ok D b q tid Hok) as (q' & E & Hok' & Ha & Hcall & Hc & Hn & Hh).
    unfold cancel, in_loop. rewrite E. split_and!; try done.
    + rewrite Hc. destruct (decide _); [done|]. destruct (callingExpiredTimers_ q); set_solver.
    + intros tid' [= <-] HD Hcalling. rewrite Hc, Hcalling. rewrite decide_False; [set_solver|].
      destruct Hok as [Hq _]. rewrite (elem_of_active D q Hq). intros (t & Ht & _ & He).
      by apply (p_not_detached D q (timer_ tid) t).
Qed.

(** The calls of one callback, then of all the expired ones: the expired
    timers stay allocated and a cancellation of one of them is remembered. *)
Definition during (D : gset timer_ptr) (n : Timestamp) (q q' : TimerQueue) : Prop :=
  ok D (Some n) q' ∧ callingExpiredTimers_ q' = true ∧
  cancelingTimers_ q ⊆ cancelingTimers_ q' ∧ (∀ p, p ∈ D → heap_ q' !! p = heap_ q !! p).

Lemma during_refl D n q : ok D (Some n) q → callingExpiredTimers_ q = true → during D n q q.
Proof. done. Qed.

Lemma during_trans D n q1 q2 q3 : during D n q1 q2 → during D n q2 q3 → during D n q1 q3.
Proof.
  intros (_ & _ & Hc & Hh) (Hok & Hcall & Hc' & Hh'). split_and!; [done..|set_solver|].
  intros p Hp. by rewrite Hh', Hh.
Qed.

Lemma calls_ok D n cs q :
  ok D (Some n) q → callingExpiredTimers_ q = true →
  match for_each exec_call cs q with
  | Ok (_, q') => during D n q q' ∧
      (∀ tid, CallCancel tid ∈ cs → timer_ tid ∈ D →
         (timer_ tid, sequence_ tid) ∈ cancelingTimers_ q')
  | Err f => allowed f
  end.
Proof.
  revert q. induction cs as [|c cs IH]; intros q Hok Hcall; cbn [for_each].
  - split; [by apply during_refl|]. by intros tid ?%not_elem_of_nil.
  - pose proof (exec_call_ok D (Some n) q c Hok) as H1. rewrite bind_unfold.
    destruct (exec_call c q) as [[u q1]|f]; [|done].
    destruct H1 as (Hok1 & Hcall1 & Hc1 & Hh1 & Hcancel & _ & _). rewrite Hcall in Hcall1.
    specialize (IH q1 Hok1 Hcall1). destruct (for_each exec_call cs q1) as [[u' q2]|f]; [|done].
    destruct IH as [Hd Hcs]. split; [by eapply during_trans|].
    intros tid [<-|Hin]%elem_of_cons HD; [|by apply Hcs].
    destruct Hd as (_ & _ & Hsub & _). apply Hsub. by apply Hcancel.
Qed.

Lemma Timer_run_eq (call : closure → M TimerQueue unit) e q t :
  heap_ q !! e.2 = Some t → Timer_run call e q = call (callback_ t) q.
Proof.
  intros H. unfold Timer_run. by rewrite bind_unfold, zoom_id, (timer_eq q e.2 t H).
Qed.

Lemma runs_ok user D n E q :
  ok D (Some n) q → callingExpiredTimers_ q = true → (∀ e, e ∈ E → e.2 ∈ D) →
  match for_each (Timer_run (call_user user)) E q with
  | Ok (_, q') => during D n q q' ∧
      (∀ tid e t, e ∈ E → heap_ q !! e.2 = Some t → CallCancel tid ∈ user (callback_ t) →
         timer_ tid ∈ D → (timer_ tid, sequence_ tid) ∈ cancelingTimers_ q')
  | Err f => allowed f
  end.
Proof.
  revert q. induction E as [|e E IH]; intros q Hok Hcall HE; cbn [for_each].
  - split; [by apply during_refl|]. by intros tid e t ?%not_elem_of_nil.
  - assert (e.2 ∈ D) as HeD by (apply HE; left).
    destruct Hok as [Hq Hcov]. destruct (inv_detached _ _ Hq _ HeD) as [[t Ht] _].
    pose proof (calls_ok D n (user (callback_ t)) q (conj Hq Hcov) Hcall) as H1.
    rewrite bind_unfold, (Timer_run_eq _ e q t Ht).
    change (for_each exec_call (user (callback_ t)) q) with (call_user user (callback_ t) q) in H1.
    destruct (call_user user (callback_ t) q) as [[u q1]|f]; [|done].
    destruct H1 as [Hd1 Hcs]. pose proof Hd1 as (Hok1 & Hcall1 & _ & Hh1).
    assert (∀ e', e' ∈ E → e'.2 ∈ D) as HE' by (intros; apply HE; by right).
    specialize (IH q1 Hok1 Hcall1 HE').
    destruct (for_each (Timer_run (call_user user)) E q1) as [[u' q2]|f]; [|done].
    destruct IH as [Hd2 Hrest]. split; [by eapply during_trans|].
    intros tid e' t' [->|Hin]%elem_of_cons Ht' Hc HD.
    + assert (t' = t) as -> by congruence. destruct Hd2 as (_ & _ & Hsub & _).
      apply Hsub. by apply Hcs.
    + apply (Hrest tid e' t'); [done| |done..]. rewrite Hh1; [done|]. apply HE. by right.
Qed.

Lemma runs_none E q :
  (∀ e, e ∈ E → is_Some (heap_ q !! e.2)) →
  for_each (Timer_run (call_user (λ _, []))) E q = Ok (tt, q).
Proof.
  intros HE. induction E as [|e E IH]; cbn [for_each]; [done|].
  destruct (HE e) as [t Ht]; [left|]. rewrite bind_unfold, (Timer_run_eq _ e q t Ht).
  apply IH. intros e' He'. apply HE. by right.
Qed.

(** One [handleRead], with the intermediate states: after the expired timers
    are taken out, after their callbacks, and at the end. *)
Lemma handle_timers_steps user q :
  ok ∅ None q → 0 < clock_ q (readings_ q) →
  let n := clock_ q (readings_ q) in
  match handle_timers user q with
  | Ok (_, q') => ∃ E q0 q1,
      for_each (Timer_run (call_user user)) E q0 = Ok (tt, q1) ∧ cancelingTimers_ q0 = ∅ ∧
      NoDup E.*2 ∧ (∀ e, e ∈ E → is_Some (heap_ q !! e.2)) ∧ (∀ p, p ∈ ptrs E → ∀ e, e ∈ timers_ q1 → e.2 ≠ p) ∧
      (∀ p k x, (x, p) ∈ E ∧ (∃ t, heap_ q !! p = Some t ∧ seq_ t = k) ↔
                active q !! (p, k) = Some x ∧ x ≤ n) ∧
      heap_ q0 = heap_ q ∧ active q0 = filter (λ '(_, x), n < x) (active q) ∧
      during (ptrs E) n q0 q1 ∧
      (∀ tid e t, e ∈ E → heap_ q !! e.2 = Some t → CallCancel tid ∈ user (callback_ t) →
         timer_ tid ∈ ptrs E → (timer_ tid, sequence_ tid) ∈ cancelingTimers_ q1) ∧
      ok ∅ None q' ∧ callingExpiredTimers_ q' = false ∧
      active q' = fold_left (rearm n (heap_ q1) (cancelingTimers_ q1)) E (active q1)
  | Err f => allowed f
  end.
Proof.
  intros [Hq Hcov] Hn n. set (qr := set_armed (set_readings q (S (readings_ q))) None).
  assert (inv ∅ qr) as Hqr by by apply inv_armed.
  destruct (getExpired_ok ∅ qr n Hqr) as (E & R & EE & Hl & HE & HR & Hi).
  set (q0 := set_canceling (set_calling (popped qr R) true) ∅).
  assert (ok (ptrs E) (Some n) q0) as Hok0.
  { split; [apply (inv_ext _ (popped qr R)); try done; by rewrite union_empty_l_L in Hi|].
    intros e He. right. exists n. split; [done|]. eapply Forall_forall in HR; [|exact He].
    simpl in HR. lia. }
  assert (∀ e, e ∈ E → e.2 ∈ ptrs E) as HEp.
  { intros e He. unfold ptrs. rewrite elem_of_list_to_set. by apply list_elem_of_fmap_2. }
  pose proof (runs_ok user (ptrs E) n E q0 Hok0 eq_refl HEp) as Hruns.
  unfold handle_timers, handleRead. mstep_by (rewrite zoom_id; reflexivity).
  mstep_by (rewrite zoom_id; reflexivity). fold n qr.
  mstep_by (rewrite zoom_id; exact EE). mstep_by (rewrite zoom_id; reflexivity). fold q0.
  rewrite bind_unfold. destruct (for_each _ E q0) as [[[] q1]|f] eqn:Erun; [|done].
  destruct Hruns as [Hd Hcan]. mstep_by (rewrite zoom_id; reflexivity). rewrite zoom_id.
  pose proof Hd as ([Hq1 Hcov1] & _ & _ & Hh1).
  assert (NoDup E.*2) as HndE.
  { pose proof (NoDup_fmap_2_strong snd (timers_ qr)) as Hnd. rewrite Hl, fmap_app in Hnd.
    apply NoDup_app in Hnd as [? _]; [done| |].
    - intros e e' He He'. apply (timers_ptr_inj ∅ qr Hqr); by rewrite Hl.
    - rewrite <- Hl. by eapply NoDup_timers. }
  pose proof (reset_ok ef ∅ n E (set_calling q1 false)) as Hreset.
  destruct (reset ef E n (set_calling q1 false)) as [[u' q']|f].
  2:{ right. apply Hreset; try done. rewrite union_empty_r_L.
      split; [by apply (inv_ext _ q1)|exact Hcov1]. }
  destruct Hreset as (Hok' & Hcall' & Ha'); try done.
  { rewrite union_empty_r_L. split; [by apply (inv_ext _ q1)|exact Hcov1]. }
  exists E, q0, q1. split_and!; try done.
  - intros e He. destruct (inv_timers _ _ Hqr e) as (t & Ht & _); [|by exists t].
    rewrite Hl. apply elem_of_app. by left.
  - intros p Hp e He. by apply (detached_ne _ q1 p Hq1).
  - intros p k x. rewrite (lookup_active ∅ q) by done. change (timers_ q) with (timers_ qr).
    rewrite Hl, elem_of_app. split.
    + intros [HxE Ht]. split; [by split; [left|]|]. eapply Forall_forall in HE; [|exact HxE]. exact HE.
    + intros [[[Hx|Hx] Ht] Hle]; [by split|]. eapply Forall_forall in HR; [|exact Hx]. simpl in HR. lia.
  - change (active q0) with (active (popped qr R)).
    rewrite (active_popped ∅ qr E R n Hqr Hl); [done| |done..]. apply Hi.
Qed.
End loop_thread.

(** ** Looking up the timers after [reset] *)

Section rearms.
Context (n : Timestamp) (h : gmap timer_ptr Timer) (c : gset ActiveTimer).

Lemma lookup_rearm_ne m e p k : e.2 ≠ p → rearm n h c m e !! (p, k) = m !! (p, k).
Proof.
  intros Hne. unfold rearm. destruct (h !! e.2) as [t|]; [|done]. case_match; [|done].
  destruct (addTime n (interval_ t)); [|done]. rewrite lookup_insert_ne; [done|]. congruence.
Qed.

Lemma lookup_rearms_ne E m p k :
  p ∉ E.*2 → fold_left (rearm n h c) E m !! (p, k) = m !! (p, k).
Proof.
  revert m. induction E as [|e E IH]; intros m Hp; [done|]. cbn [fold_left].
  rewrite fmap_cons, not_elem_of_cons in Hp. destruct Hp as [Hne Hp].
  rewrite IH by done. by apply lookup_rearm_ne.
Qed.

(** Where the timer of an expired entry ends up. *)
Definition next_expiration (t : Timer) (a : ActiveTimer) (old : option Timestamp) : option Timestamp :=
  if repeat_ t && bool_decide (a ∉ c) then
    match addTime n (interval_ t) with Ok y => Some y | Err _ => old end
  else old.

Lemma lookup_rearms E m p t :
  NoDup E.*2 → p ∈ E.*2 → h !! p = Some t →
  fold_left (rearm n h c) E m !! (p, seq_ t) =
    next_expiration t (p, seq_ t) (m !! (p, seq_ t)).
Proof.
  revert m. induction E as [|e E IH]; intros m Hnd Hp Ht; [by apply not_elem_of_nil in Hp|].
  cbn [fold_left]. rewrite fmap_cons in *. apply NoDup_cons in Hnd as [Hn Hnd].
  destruct (decide (e.2 = p)) as [<-|Hne].
  - rewrite lookup_rearms_ne by done. unfold rearm, next_expiration. rewrite Ht.
    case_match; [|done]. destruct (addTime n (interval_ t)); [|done]. by rewrite lookup_insert_eq.
  - apply elem_of_cons in Hp as [->|Hp]; [done|]. rewrite IH by done.
    unfold next_expiration. by rewrite lookup_rearm_ne.
Qed.
End rearms.

(** ** Properties *)

Fixpoint spec_calls (cs : list timer_call) (n : Z) (m : gmap ActiveTimer Timestamp) :
    gmap ActiveTimer Timestamp :=
  match cs with
  | [] => m
  | c :: cs' => spec_calls cs' (spec_created c n) (spec_call c n m)
  end.

(** C24: adding and cancelling timers implements a map from timer ids to
    expirations: a new timer gets an id that is not in the map, cancelling an
    id deletes it, and cancelling an id that is no longer (or never was) in the
    map changes nothing, even when its address is in use again.  No assertion
    fails, no deleted timer is accessed, and the timer descriptor stays set to
    fire by the earliest expiration. *)
Theorem timer_calls_refine ef cs q :
  ok ∅ None q →
  match for_each (exec_call ef) cs q with
  | Ok (_, q') => ok ∅ None q' ∧ active q' = spec_calls cs (s_numCreated_ q) (active q)
  | Err f => allowed f
  end.
Proof.
  revert q. induction cs as [|c cs IH]; intros q Hok; cbn [for_each spec_calls]; [done|].
  pose proof (exec_call_ok ef ∅ None q c Hok) as H1. rewrite bind_unfold.
  destruct (exec_call ef c q) as [[u q1]|f]; [|done].
  destruct H1 as (Hok1 & _ & _ & _ & _ & Hn & Ha). specialize (IH q1 Hok1).
  destruct (for_each (exec_call ef) cs q1) as [[u' q2]|f]; [|done]. by rewrite <- Hn, <- Ha.
Qed.

(** C23: [handleRead] fails no assertion and never touches a deleted timer,
    whatever timers its callbacks add or cancel, themselves included; every
    allocated timer is in the queue afterwards (none leaks) and the descriptor
    is set to fire by the earliest of them. *)
Theorem handleRead_safe ef user q :
  ok ∅ None q → 0 < clock_ q (readings_ q) →
  match handle_timers ef user q with
  | Ok (_, q') => ok ∅ None q' ∧ callingExpiredTimers_ q' = false ∧
      (∀ p, is_Some (heap_ q' !! p) ↔ p ∈ (timers_ q').*2)
  | Err f => allowed f
  end.
Proof.
  intros Hok Hn. pose proof (handle_timers_steps ef user q Hok Hn) as H. simpl in H.
  destruct (handle_timers ef user q) as [[u q']|f]; [|done].
  destruct H as (_ & _ & _ & _ & _ & _ & _ & _ & _ & _ & _ & _ & _ & [Hq' Hcov] & Hc & _).
  split_and!; [by split|done|]. intros p. split.
  - intros [t Ht]. by destruct (inv_heap _ _ Hq' p t Ht) as [[?|?] _].
  - intros Hp. destruct (timers_ptr ∅ q' Hq' p Hp) as (t & Ht & _). by exists t.
Qed.

(** C25: what a [handleRead] at time [n] does to each timer, when the callbacks
    leave the queue alone: a later timer is untouched, an expired one-shot
    timer is gone, an expired repeating one is active again with the expiration
    [addTime(n, interval)]. *)
Theorem handleRead_fires ef q q' :
  ok ∅ None q → 0 < clock_ q (readings_ q) →
  handle_timers ef (λ _, []) q = Ok (tt, q') →
  ∀ p t x, heap_ q !! p = Some t → active q !! (p, seq_ t) = Some x →
    active q' !! (p, seq_ t) =
      (if clock_ q (readings_ q) <? x then Some x
       else if repeat_ t then
         match addTime (clock_ q (readings_ q)) (interval_ t) with Ok y => Some y | Err _ => None end
       else None).
Proof.
  intros Hok Hn Eq p t x Ht Hx.
  pose proof (handle_timers_steps ef (λ _, []) q Hok Hn) as H. simpl in H. rewrite Eq in H.
  destruct H as (E & q0 & q1 & Hrun & Hc0 & Hnd & Hheap & _ & HE & Hh0 & Ha0 & _ & _ & _ & _ & Ha).
  set (n := clock_ q (readings_ q)) in *.
  rewrite runs_none in Hrun by (intros e He; rewrite Hh0; by apply Hheap). injection Hrun as <-.
  rewrite Ha, Hc0, Hh0, Ha0.
  assert (p ∈ E.*2 ↔ x ≤ n) as HpE.
  { split.
    - intros ([y p'] & -> & He)%list_elem_of_fmap. simpl in *.
      assert (active q !! (p', seq_ t) = Some y ∧ y ≤ n) as [Hy ?] by (apply HE; eauto).
      congruence.
    - intros Hle. apply list_elem_of_fmap. exists (x, p). split; [done|].
      by apply (HE p (seq_ t) x). }
  destruct (Z.ltb_spec n x) as [Hlt|Hle].
  - rewrite lookup_rearms_ne by (rewrite HpE; lia). by apply map_lookup_filter_Some.
  - rewrite (lookup_rearms _ _ _ _ _ _ t) by (done || by apply HpE). unfold next_expiration.
    assert (filter (λ '(_, x0), n < x0) (active q) !! (p, seq_ t) = None) as ->.
    { apply map_lookup_filter_None. right. intros y Hy. rewrite Hx in Hy. simplify_eq. lia. }
    rewrite bool_decide_eq_true_2 by set_solver. rewrite andb_true_r.
    destruct (repeat_ t); [|done]. by destruct (addTime n (interval_ t)).
Qed.

(** A timer that has expired and is cancelled by a callback of the same
    [handleRead] (its own callback included) is not scheduled again, also when
    it repeats. *)
Theorem cancel_in_callback ef user q q' :
  ok ∅ None q → 0 < clock_ q (readings_ q) →
  handle_timers ef user q = Ok (tt, q') →
  ∀ p t x p' t' x',
    heap_ q !! p = Some t → active q !! (p, seq_ t) = Some x → x ≤ clock_ q (readings_ q) →
    heap_ q !! p' = Some t' → active q !! (p', seq_ t') = Some x' → x' ≤ clock_ q (readings_ q) →
    CallCancel (mkTimerId p (seq_ t)) ∈ user (callback_ t') →
    active q' !! (p, seq_ t) = None.
Proof.
  intros Hok Hn Eq p t x p' t' x' Ht Hx Hle Ht' Hx' Hle' Hcancel.
  pose proof (handle_timers_steps ef user q Hok Hn) as H. simpl in H. rewrite Eq in H.
  destruct H as (E & q0 & q1 & _ & _ & Hnd & _ & Hdet & HE & Hh0 & _ & Hd & Hcan & _ & _ & Ha).
  set (n := clock_ q (readings_ q)) in *.
  assert ((x, p) ∈ E ∧ (x', p') ∈ E) as [HpE HpE'].
  { split; [apply (HE p (seq_ t) x)|apply (HE p' (seq_ t') x')]; done. }
  assert (p ∈ E.*2) as Hp2 by by apply (list_elem_of_fmap_2 snd E (x, p)).
  assert (p ∈ ptrs E) as Hp3 by by apply elem_of_list_to_set.
  destruct Hd as ([Hq1 _] & _ & _ & Hh1). specialize (Hh1 p Hp3). rewrite Hh0, Ht in Hh1.
  rewrite Ha, (lookup_rearms _ _ _ _ _ _ t) by done. unfold next_expiration.
  rewrite (bool_decide_eq_false_2 ((p, seq_ t) ∉ _)), andb_false_r.
  - apply eq_None_not_Some. intros [y Hy]. apply (lookup_active (ptrs E) q1) in Hy as [Hy _]; [|done].
    by apply (Hdet p Hp3 (y, p)).
  - intros Hno. apply Hno. by apply (Hcan (mkTimerId p (seq_ t)) (x', p') t').
Qed.

(** ** Concrete runs *)

Lemma TimerQueue_new_ok clock : ok ∅ None (TimerQueue_new clock).
Proof.
  split; [|by intros e ?%not_elem_of_nil]. split; simpl; try done; try constructor.
  by intros e ?%not_elem_of_nil.
Qed.

(** A clock that reads 10, 20, 30, ...; a one-shot timer at 5 and one that
    repeats every 2 seconds from 7 on. *)
Module Demo.
Definition clock (k : nat) : Timestamp := 10 * (1 + Z.of_nat k).
Definition q0 : TimerQueue := TimerQueue_new clock.
Definition calls : list timer_call :=
  [CallAdd 16 (FnUser 1) 5 (of_int 0); CallAdd 32 (FnUser 2) 7 (of_int 2)].
Definition run (cs : list timer_call) (q : TimerQueue) : TimerQueue :=
  match for_each (exec_call 0) cs q with Ok (_, q') => q' | Err _ => q end.
Definition q1 : TimerQueue := run calls q0.

Lemma ok_q0 : ok ∅ None q0.
Proof. apply TimerQueue_new_ok. Qed.

Lemma ok_run cs q : ok ∅ None q → ok ∅ None (run cs q).
Proof.
  intros Hok. unfold run. revert q Hok. induction cs as [|c cs IH]; intros q Hok; [done|].
  cbn [for_each]. pose proof (exec_call_ok 0 ∅ None q c Hok) as H. rewrite bind_unfold.
  destruct (exec_call 0 c q) as [[u q']|f]; [|done]. destruct H as [H _]. specialize (IH q' H).
  by destruct (for_each (exec_call 0) cs q') as [[u' q'']|f].
Qed.

Lemma ok_q1 : ok ∅ None q1.
Proof. apply ok_run, ok_q0. Qed.

Lemma clock_pos : 0 < clock_ q1 (readings_ q1).
Proof. vm_compute. reflexivity. Qed.

(** The repeating timer, and a client that cancels it when it fires. *)
Definition t2 : Timer := mkTimer (FnUser 2) 7 (of_int 2) true 2.
Definition cancel_2 (cb : closure) : list timer_call :=
  if decide (cb = FnUser 2) then [CallCancel (mkTimerId 32 2)] else [].
Definition after (user : closure → list timer_call) : TimerQueue :=
  match handle_timers 0 user q1 with Ok (_, q') => q' | Err _ => q1 end.
Definition q2 : TimerQueue := after (λ _, []).
Definition q3 : TimerQueue := after cancel_2.
End Demo.

Lemma timer_calls_refine_witness :
  match for_each (exec_call 0) Demo.calls Demo.q0 with
  | Ok (_, q') => ok ∅ None q' ∧ active q' = spec_calls Demo.calls 0 (active Demo.q0)
  | Err f => allowed f
  end.
Proof. apply (timer_calls_refine 0 Demo.calls Demo.q0). apply Demo.ok_q0. Defined.

(** The calls of the demonstration succeed. *)
Example demo_active : map_to_list (active Demo.q1) = [((16, 1), 5); ((32, 2), 7)] ∨
  map_to_list (active Demo.q1) = [((32, 2), 7); ((16, 1), 5)].
Proof. vm_compute. tauto. Qed.

Lemma handleRead_safe_witness :
  match handle_timers 0 Demo.cancel_2 Demo.q1 with
  | Ok (_, q') => ok ∅ None q' ∧ callingExpiredTimers_ q' = false ∧
      (∀ p, is_Some (heap_ q' !! p) ↔ p ∈ (timers_ q').*2)
  | Err f => allowed f
  end.
Proof. apply handleRead_safe; [apply Demo.ok_q1|apply Demo.clock_pos]. Defined.

(** After it, no timer is left: the one-shot one is done, the other cancelled
    itself. *)
Example demo_handleRead :
  (handle_timers 0 Demo.cancel_2 Demo.q1 ≫= λ '(_, q'), Ok (timers_ q', map_to_list (heap_ q') )) = Ok ([], []).
Proof. vm_compute. reflexivity. Qed.

Lemma handleRead_fires_witness :
  handle_timers 0 (λ _, []) Demo.q1 = Ok (tt, Demo.q2) ∧
  active Demo.q2 !! (32, 2) =
    (if clock_ Demo.q1 (readings_ Demo.q1) <? 7 then Some 7
     else if repeat_ Demo.t2 then
       match addTime (clock_ Demo.q1 (readings_ Demo.q1)) (interval_ Demo.t2) with
       | Ok y => Some y | Err _ => None
       end
     else None).
Proof.
  assert (handle_timers 0 (λ _, []) Demo.q1 = Ok (tt, Demo.q2)) as E by (vm_compute; reflexivity).
  split; [exact E|].
  apply (handleRead_fires 0 Demo.q1 Demo.q2 Demo.ok_q1 Demo.clock_pos E 32 Demo.t2 7);
    vm_compute; reflexivity.
Defined.

Example demo_repeats : active Demo.q2 !! (32, 2) = Some 2000020.
Proof. vm_compute. reflexivity. Qed.

Lemma cancel_in_callback_witness :
  handle_timers 0 Demo.cancel_2 Demo.q1 = Ok (tt, Demo.q3) ∧ active Demo.q3 !! (32, 2) = None.
Proof.
  assert (handle_timers 0 Demo.cancel_2 Demo.q1 = Ok (tt, Demo.q3)) as E by (vm_compute; reflexivity).
  split; [exact E|].
  assert (heap_ Demo.q1 !! 32 = Some Demo.t2) as Ht by (vm_compute; reflexivity).
  assert (active Demo.q1 !! (32, 2) = Some 7) as Hx by (vm_compute; reflexivity).
  assert (7 ≤ clock_ Demo.q1 (readings_ Demo.q1)) as Hle by (vm_compute; discriminate).
  apply (cancel_in_callback 0 Demo.cancel_2 Demo.q1 Demo.q3 Demo.ok_q1 Demo.clock_pos E
    32 Demo.t2 7 32 Demo.t2 7 Ht Hx Hle Ht Hx Hle).
  simpl. left.
Defined.
