(* ===== verification/EventLoop.v ===== *)
(** * EventLoop: the loop of a thread and the functors queued to it

    Models src/muduo/EventLoop.h and src/muduo/EventLoop.cpp, and the members of
    src/muduo/Channel.cpp that call the loop ([update], [handleEvent]).  The
    state is the class's members; [poller_] and [timerQueue_] are the states of
    Poller.v and TimerQueue.v, [eventfd_] is the counter of [wakeupFd_] in the
    kernel.  [tid] is [CurrentThread::tid()] of the thread that makes a call.

    Handlers run client code, so they are written over any state [S] that
    contains the loop, with the effect of a function value as an argument.  The
    loop reads a list of inputs: what other threads do before a poll, and what
    the poll reports; the end of the list stands for a poll that has not
    returned yet. *)

From S2P Require Import Prelude Callbacks Channel Timestamp.
From S2P Require Poller TimerQueue.
Import Poller (Poller).
Import TimerQueue (TimerQueue).

Record EventLoop : Type := mkEventLoop {
  this_ : nat;
  looping_ : bool;
  quit_ : bool;
  callingPendingFunctors : bool;
  threadId_ : Z;
  pollReturnTime_ : Timestamp;
  wakeupFd_ : Z;
  wakeupChannel_ : chan_id;
  poller_ : Poller;
  activeChannels_ : list chan_id;
  timerQueue_ : TimerQueue;
  pendingFunctors_ : list closure;
  eventfd_ : Z;
}.

Section setters.
Context (e : EventLoop).
Definition set_looping (b : bool) : EventLoop :=
  mkEventLoop (this_ e) b (quit_ e) (callingPendingFunctors e) (threadId_ e) (pollReturnTime_ e)
    (wakeupFd_ e) (wakeupChannel_ e) (poller_ e) (activeChannels_ e) (timerQueue_ e)
    (pendingFunctors_ e) (eventfd_ e).
Definition set_quit (b : bool) : EventLoop :=
  mkEventLoop (this_ e) (looping_ e) b (callingPendingFunctors e) (threadId_ e) (pollReturnTime_ e)
    (wakeupFd_ e) (wakeupChannel_ e) (poller_ e) (activeChannels_ e) (timerQueue_ e)
    (pendingFunctors_ e) (eventfd_ e).
Definition set_calling (b : bool) : EventLoop :=
  mkEventLoop (this_ e) (looping_ e) (quit_ e) b (threadId_ e) (pollReturnTime_ e)
    (wakeupFd_ e) (wakeupChannel_ e) (poller_ e) (activeChannels_ e) (timerQueue_ e)
    (pendingFunctors_ e) (eventfd_ e).
Definition set_poller (p : Poller) : EventLoop :=
  mkEventLoop (this_ e) (looping_ e) (quit_ e) (callingPendingFunctors e) (threadId_ e)
    (pollReturnTime_ e) (wakeupFd_ e) (wakeupChannel_ e) p (activeChannels_ e) (timerQueue_ e)
    (pendingFunctors_ e) (eventfd_ e).
Definition set_polled (t : Timestamp) (l : list chan_id) : EventLoop :=
  mkEventLoop (this_ e) (looping_ e) (quit_ e) (callingPendingFunctors e) (threadId_ e) t
    (wakeupFd_ e) (wakeupChannel_ e) (poller_ e) l (timerQueue_ e)
    (pendingFunctors_ e) (eventfd_ e).
Definition set_timerQueue (q : TimerQueue) : EventLoop :=
  mkEventLoop (this_ e) (looping_ e) (quit_ e) (callingPendingFunctors e) (threadId_ e)
    (pollReturnTime_ e) (wakeupFd_ e) (wakeupChannel_ e) (poller_ e) (activeChannels_ e) q
    (pendingFunctors_ e) (eventfd_ e).
Definition set_pending (l : list closure) : EventLoop :=
  mkEventLoop (this_ e) (looping_ e) (quit_ e) (callingPendingFunctors e) (threadId_ e)
    (pollReturnTime_ e) (wakeupFd_ e) (wakeupChannel_ e) (poller_ e) (activeChannels_ e)
    (timerQueue_ e) l (eventfd_ e).
Definition set_eventfd (n : Z) : EventLoop :=
  mkEventLoop (this_ e) (looping_ e) (quit_ e) (callingPendingFunctors e) (threadId_ e)
    (pollReturnTime_ e) (wakeupFd_ e) (wakeupChannel_ e) (poller_ e) (activeChannels_ e)
    (timerQueue_ e) (pendingFunctors_ e) n.
End setters.

#[export] Instance loop_poller : Lens EventLoop Poller :=
  {| lget := poller_; lset := λ p e, set_poller e p |}.
#[export] Instance loop_timers : Lens EventLoop TimerQueue :=
  {| lget := timerQueue_; lset := λ q e, set_timerQueue e q |}.

#[export] Instance loop_poller_laws : LensLaws EventLoop Poller.
Proof. split; [done| |done]. by intros []. Qed.
#[export] Instance loop_timers_laws : LensLaws EventLoop TimerQueue.
Proof. split; [done| |done]. by intros []. Qed.

(** ** Operations of the loop *)

(** What write(2) on an eventfd does: the number of bytes, the value and the
    counter; [None] is a failed call. *)
Abbreviation eventfd_model := (Z → Z → Z → option Z).

Section operations.
Context (eventfd_write : eventfd_model) (tid : Z).

Definition isInLoopThread (e : EventLoop) : bool := threadId_ e =? tid.

(** Only writes a log line. *)
Definition abortNotInLoopThread : M EventLoop unit := mret ().

Definition assertInLoopThread : M EventLoop unit :=
  e ← get; if isInLoopThread e then mret () else abortNotInLoopThread.

Definition updateChannel (c : chan_id) : M EventLoop unit :=
  channel ← zoom (Poller.chan c);
  e ← get;
  assert_ (loop_ channel =? this_ e)%nat ;;
  assertInLoopThread ;;
  zoom (Poller.updateChannel c).

Definition removeChannel (c : chan_id) : M EventLoop unit :=
  channel ← zoom (Poller.chan c);
  e ← get;
  assert_ (loop_ channel =? this_ e)%nat ;;
  assertInLoopThread ;;
  zoom (Poller.removeChannel c).

(** [Channel::enableReading] and its like: the mask, then [update]. *)
Definition change_mask (o : mask_op) (c : chan_id) : M EventLoop unit :=
  zoom (Poller.upd_chan c (λ ch, set_events ch (mask_update o (events_ ch)))) ;;
  updateChannel c.

(** [sizeof one], an [int]. *)
Definition sizeof_one : Z := 4.

Definition wakeup : M EventLoop unit :=
  e ← get;
  match eventfd_write sizeof_one 1 (eventfd_ e) with
  | Some n => put (set_eventfd e n)
  | None => mret ()
  end.

(** read(2) on the eventfd: resets the counter, or fails when it is zero. *)
Definition handleRead : M EventLoop unit := modify (λ e, set_eventfd e 0).

Definition queueInLoop (cb : closure) : M EventLoop unit :=
  modify (λ e, set_pending e (pendingFunctors_ e ++ [cb])) ;;
  e ← get;
  if negb (isInLoopThread e) || callingPendingFunctors e then wakeup else mret ().

Definition quit : M EventLoop unit :=
  modify (λ e, set_quit e true) ;;
  e ← get;
  if negb (isInLoopThread e) then wakeup else mret ().

(** The critical section of [dePendingFunctors] and the assignments around it. *)
Definition take_pending : M EventLoop (list closure) :=
  modify (λ e, set_calling e true) ;;
  e ← get;
  put (set_pending e []) ;;
  mret (pendingFunctors_ e).

Definition finish_calling : M EventLoop unit := modify (λ e, set_calling e false).
End operations.

(** What other threads do to a loop. *)
Inductive foreign : Type :=
  | ForeignQueue (tid : Z) (cb : closure)
  | ForeignQuit (tid : Z).

Definition foreign_step (eventfd_write : eventfd_model) (f : foreign) : M EventLoop unit :=
  match f with
  | ForeignQueue tid cb => queueInLoop eventfd_write tid cb
  | ForeignQuit tid => quit eventfd_write tid
  end.

(** ** Operations that run function values *)

Section calls.
Context {S : Type} `{Lens S EventLoop}.
Context (eventfd_write : eventfd_model) (tid : Z).
(** The effect of a function value, and of a read callback. *)
Context (call : closure → M S unit) (call_read : Timestamp → closure → M S unit).
(** The destructor of a function value, next to the others of a vector. *)
Context (destroy : list closure → closure → M S unit).

Definition on_poller {A} (m : M Poller A) : M S A := zoom (zoom (S:=EventLoop) m).

Definition runInLoop (cb : closure) : M S unit :=
  e ← zoom get;
  if isInLoopThread tid e then call cb else zoom (queueInLoop eventfd_write tid cb).

(** The destructor of a vector of functors, from the first to the last. *)
Fixpoint destroy_all (functors : list closure) : M S unit :=
  match functors with
  | [] => mret ()
  | f :: functors' => destroy functors' f ;; destroy_all functors'
  end.

(** The local vector lives to the end of the function. *)
Definition dePendingFunctors : M S unit :=
  functors ← zoom take_pending;
  for_each call functors ;;
  zoom finish_calling ;;
  destroy_all functors.

(** One conditional call of [handleEvent], without a [receiveTime]. *)
Definition fire (wants : Z → bool) (cb : channel → option closure) (c : chan_id) : M S unit :=
  ch ← on_poller (Poller.chan c);
  if wants (revents_ ch) then
    match cb ch with Some f => call f | None => mret () end
  else mret ().

Definition set_handling (c : chan_id) (b : bool) : M S unit :=
  on_poller (Poller.upd_chan c (λ ch, set_eventHandling ch b)).

Definition handleEvent (c : chan_id) (receiveTime : Timestamp) : M S unit :=
  set_handling c true ;;
  fire wants_error errorCallback_ c ;;
  fire wants_close closeCallback_ c ;;
  ch ← on_poller (Poller.chan c);
  match (if wants_read (revents_ ch) then readCallback_ ch else None) with
  | Some f => call_read receiveTime f   (* return *)
  | None =>
      fire wants_write writeCallback_ c ;;
      set_handling c false
  end.

(** The body of the [while] of [loop]. *)
Definition iteration (ready : option (Z → Z)) : M S unit :=
  zoom (modify (λ e, set_polled e (pollReturnTime_ e) [])) ;;
  '(t, active) ← on_poller (Poller.poll ready []);
  zoom (modify (λ e, set_polled e t active)) ;;
  for_each (λ c, e ← zoom get; handleEvent c (pollReturnTime_ e)) active ;;
  dePendingFunctors.

Abbreviation input := (list foreign * option (Z → Z))%type.

(** [true] when the loop has ended, [false] when it waits for more input. *)
Fixpoint while_not_quit (inputs : list input) : M S bool :=
  e ← zoom get;
  if quit_ e then mret true else
  match inputs with
  | [] => mret false
  | (others, ready) :: inputs' =>
      for_each (λ f, zoom (foreign_step eventfd_write f)) others ;;
      iteration ready ;;
      while_not_quit inputs'
  end.

Definition loop (inputs : list input) : M S bool :=
  e ← zoom get;
  assert_ (negb (looping_ e)) ;;
  zoom (assertInLoopThread tid) ;;
  zoom (modify (λ e, set_quit (set_looping e true) false)) ;;
  ended ← while_not_quit inputs;
  if (ended : bool) then zoom (modify (λ e, set_looping e false)) ;; mret true else mret false.

(** ** Timers *)

Definition on_timers {A} (m : M TimerQueue A) : M S A := zoom (zoom (S:=EventLoop) m).

Definition timers_lens : Lens S TimerQueue :=
  {| lget := λ s, timerQueue_ (lget s); lset := λ q s, lset (set_timerQueue (lget s) q) s |}.

Definition runAt (p : timer_ptr) (time : Timestamp) (cb : closure) : M S TimerId :=
  @TimerQueue.addTimer S timers_lens runInLoop p cb time (of_int 0).

Definition runEvery (p : timer_ptr) (interval : double) (cb : closure) : M S TimerId :=
  now ← on_timers TimerQueue.now;
  time ← lift (addTime now interval);
  @TimerQueue.addTimer S timers_lens runInLoop p cb time interval.

Definition runAfter (p : timer_ptr) (delay : double) (cb : closure) : M S TimerId :=
  now ← on_timers TimerQueue.now;
  time ← lift (addTime now delay);
  runAt p time cb.

Definition cancel (timerId : TimerId) : M S unit :=
  @TimerQueue.cancel S runInLoop timerId.
End calls.

(** Functors that own nothing. *)
Definition holds_nothing {S} : list closure → closure → M S unit := λ _ _, mret ().

Lemma destroy_all_noop {S} (destroy : list closure → closure → M S unit) l s :
  (∀ l' f, destroy l' f s = Ok (tt, s)) → destroy_all destroy l s = Ok (tt, s).
Proof. intros H. induction l as [|f l IH]; cbn [destroy_all]; [done|]. by mstep_by (apply H). Qed.

(** ** Construction *)

(** What [::eventfd] returned; without a descriptor the program ends. *)
Definition createEventfd (evtfd : Z) : res Z := if evtfd <? 0 then Err Aborted else Ok evtfd.

(** What [::timerfd_create] returned; a failure is only logged. *)
Definition createTimerfd (timerfd : Z) : Z := timerfd.

(** The addresses of the two channels of a loop. *)
Definition timerfdChannel_ : chan_id := 0%nat.
Definition wakeup_chan : chan_id := 1%nat.

(** [EventLoop::EventLoop], with the channel of [TimerQueue::TimerQueue]: the
    descriptors the kernel hands out and the readings of the clock are given. *)
Definition EventLoop_new (this : nat) (tid timerfd wakeupfd : Z) (clock : nat → Timestamp) :
    res EventLoop :=
  evtfd ← createEventfd wakeupfd;
  let timerfdChannel := setWReadCallback (Channel_new this (createTimerfd timerfd)) FnTimerQueue_handleRead in
  let wakeupChannel := setWReadCallback (Channel_new this evtfd) FnEventLoop_handleRead in
  let e := mkEventLoop this false false false tid Timestamp_default evtfd wakeup_chan
             (Poller.mkPoller [] ∅ {[timerfdChannel_ := timerfdChannel]}) []
             (TimerQueue.TimerQueue_new clock) [] 0 in
  match (change_mask tid EnableReading timerfdChannel_ ;;
         zoom (modify (Poller.set_chan wakeup_chan wakeupChannel)) ;;
         change_mask tid EnableReading wakeup_chan) e with
  | Ok (_, e') => Ok e'
  | Err f => Err f
  end.

(** ** Execution of the handlers: facts shared by the theorems *)

Lemma queueInLoop_spec ew tid cb e :
  ∃ e', queueInLoop ew tid cb e = Ok (tt, e') ∧
    pendingFunctors_ e' = pendingFunctors_ e ++ [cb] ∧
    callingPendingFunctors e' = callingPendingFunctors e ∧ quit_ e' = quit_ e ∧
    poller_ e' = poller_ e ∧
    eventfd_ e' = (if negb (isInLoopThread tid e) || callingPendingFunctors e
                   then default (eventfd_ e) (ew sizeof_one 1 (eventfd_ e)) else eventfd_ e).
Proof.
  unfold queueInLoop. do 2 mstep. unfold isInLoopThread at 1; simpl.
  change (threadId_ e =? tid) with (isInLoopThread tid e).
  destruct (negb (isInLoopThread tid e) || callingPendingFunctors e).
  - unfold wakeup. mstep. destruct (ew sizeof_one 1 (eventfd_ e)); by eexists.
  - by eexists.
Qed.

(** The thread check never stops a caller. *)
Lemma assertInLoopThread_noop tid e : assertInLoopThread tid e = Ok (tt, e).
Proof. unfold assertInLoopThread. mstep. by destruct (isInLoopThread tid e). Qed.

(** ** Timers of the loop's own thread: the calls of TimerQueue.v at once *)

Section timer_facts.
Context {S : Type} `{LL : LensLaws S EventLoop}.
Context (ew : eventfd_model) (tid : Z) (call : closure → M S unit) (end_first : Timestamp).
Context (Hadd : ∀ p s, call (FnTimerQueue_addTimerInLoop p) s =
           on_timers (TimerQueue.addTimerInLoop end_first p) s).
Context (Hcancel : ∀ id s, call (FnTimerQueue_cancelInLoop id) s =
           on_timers (TimerQueue.cancelInLoop id) s).
#[local] Existing Instance lens_id.

Definition put_timers (q : TimerQueue) (s : S) : S := lset (set_timerQueue (lget s) q) s.

(** A command of the timer queue, run on the loop. *)
Definition timers_res {A} (s : S) (r : res (A * TimerQueue)) : res (A * S) :=
  match r with Ok (a, q) => Ok (a, put_timers q s) | Err f => Err f end.

Lemma on_timers_eq {A} (m : M TimerQueue A) s :
  on_timers m s = timers_res s (m (timerQueue_ (lget s))).
Proof using Type.
  unfold on_timers, zoom, timers_res, put_timers. simpl. by destruct (m _) as [[a q]|].
Qed.

Lemma zoom_timers_eq {A} (m : M TimerQueue A) s :
  @zoom S TimerQueue A timers_lens m s = timers_res s (m (timerQueue_ (lget s))).
Proof using Type. unfold zoom, timers_res, put_timers. simpl. by destruct (m _) as [[a q]|]. Qed.

Lemma timers_put q s : timerQueue_ (lget (put_timers q s)) = q.
Proof using LL. unfold put_timers. by rewrite lget_lset. Qed.

Lemma put_put q q' s : put_timers q (put_timers q' s) = put_timers q s.
Proof using LL. unfold put_timers. by rewrite lget_lset, lset_lset. Qed.

Lemma runInLoop_own f s : threadId_ (lget s) = tid → runInLoop ew tid call f s = call f s.
Proof using LL.
  intros Ht. unfold runInLoop. rewrite bind_unfold. unfold zoom. simpl. rewrite lset_lget.
  unfold isInLoopThread. by rewrite Ht, Z.eqb_refl.
Qed.

Lemma addTimer_own p cb when interval s :
  threadId_ (lget s) = tid →
  @TimerQueue.addTimer S timers_lens (runInLoop ew tid call) p cb when interval s =
  timers_res s (TimerQueue.addTimer (TimerQueue.in_loop end_first) p cb when interval (timerQueue_ (lget s))).
Proof using LL Hadd.
  intros Ht. unfold TimerQueue.addTimer. rewrite !bind_unfold, zoom_timers_eq, zoom_id.
  destruct (TimerQueue.Timer_new p cb when interval _) as [[p' q1]|]; [|done]. simpl.
  rewrite !bind_unfold, runInLoop_own, Hadd by (unfold put_timers; by rewrite lget_lset).
  rewrite on_timers_eq, timers_put.
  destruct (TimerQueue.addTimerInLoop end_first p' q1) as [[u q2]|]; [|done]. simpl.
  rewrite put_put, !bind_unfold, zoom_timers_eq, zoom_id, timers_put.
  destruct (TimerQueue.timer p' q2) as [[t q3]|]; [|done]. simpl. by rewrite put_put.
Qed.

Lemma cancel_own id s :
  threadId_ (lget s) = tid →
  cancel ew tid call id s = timers_res s (TimerQueue.cancelInLoop id (timerQueue_ (lget s))).
Proof using LL Hcancel.
  intros Ht. unfold cancel, TimerQueue.cancel. by rewrite runInLoop_own, Hcancel, on_timers_eq.
Qed.

(** [runAfter]: a one-shot timer at the clock's reading plus the delay. *)
Lemma runAfter_own b p delay cb s q0 time :
  threadId_ (lget s) = tid → timerQueue_ (lget s) = q0 → TimerQueue.ok ∅ b q0 →
  addTime (TimerQueue.clock_ q0 (TimerQueue.readings_ q0)) delay = Ok time →
  match runAfter ew tid call p delay cb s with
  | Ok (id, s') => ∃ q, s' = put_timers q s ∧ TimerQueue.ok ∅ b q ∧
      id = mkTimerId p (TimerQueue.s_numCreated_ q0 + 1) ∧
      TimerQueue.active q = <[(timer_ id, sequence_ id) := time]> (TimerQueue.active q0) ∧
      TimerQueue.clock_ q = TimerQueue.clock_ q0 ∧
      (TimerQueue.readings_ q0 < TimerQueue.readings_ q)%nat
  | Err f => TimerQueue.allowed f
  end.
Proof using LL Hadd.
  intros Ht Eq Hok Hd. unfold runAfter. rewrite bind_unfold, on_timers_eq, Eq. simpl.
  set (q1 := TimerQueue.set_readings q0 _). rewrite bind_unfold. unfold lift. rewrite Hd. unfold runAt.
  rewrite addTimer_own, timers_put by (unfold put_timers; by rewrite lget_lset).
  pose proof (TimerQueue.addTimer_ok end_first ∅ b q1 p cb time (of_int 0) (TimerQueue.ok_readings _ _ _ _ Hok)) as Hadded.
  pose proof (TimerQueue.addTimer_clock end_first p cb time (of_int 0) q1) as Hclk.
  destruct (TimerQueue.addTimer _ _ _ _ _ q1) as [[id q]|f]; [|done]. simpl.
  destruct Hadded as (Hq & -> & _ & _ & _ & _ & _ & Ha). destruct (Hclk _ _ eq_refl) as [Ec Er].
  exists q. rewrite put_put. split; [done|]. split; [done|]. split; [done|]. split; [exact Ha|].
  split; [done|]. simpl in Er. lia.
Qed.
End timer_facts.

Section dispatch_facts.
Context {S : Type} `{LL : LensLaws S EventLoop}.
Context (ran : S → list closure) (Hran : ∀ e s, ran (lset e s) = ran s).

Definition channels (s : S) : gmap chan_id channel := Poller.chans (poller_ (lget s)).

Lemma on_poller_chan c s ch :
  channels s !! c = Some ch → on_poller (Poller.chan c) s = Ok (ch, s).
Proof.
  intros Hc. unfold on_poller. erewrite zoom_ok.
  2: { erewrite zoom_ok by (by apply Poller.chan_eq). by rewrite lset_lget. }
  by rewrite lset_lget.
Qed.

Lemma set_handling_spec c b s ch :
  channels s !! c = Some ch →
  ∃ s', set_handling c b s = Ok (tt, s') ∧ ran s' = ran s ∧
    channels s' = <[c := set_eventHandling ch b]> (channels s).
Proof.
  intros Hc. unfold set_handling, on_poller. eexists. split.
  - apply zoom_ok, zoom_ok. by apply (Poller.upd_chan_eq _ _ ch).
  - split; [by rewrite Hran|]. unfold channels. by rewrite lget_lset.
Qed.

(** Equal but for the mask and the slot, which callbacks may change. *)
Definition same_handlers (a b : channel) : Prop :=
  revents_ a = revents_ b ∧ eventHandling_ a = eventHandling_ b ∧
  readCallback_ a = readCallback_ b ∧ writeCallback_ a = writeCallback_ b ∧
  errorCallback_ a = errorCallback_ b ∧ closeCallback_ a = closeCallback_ b.

Lemma same_handlers_trans a b d : same_handlers a b → same_handlers b d → same_handlers a d.
Proof. unfold same_handlers. intuition congruence. Qed.

(** A callback records itself and leaves the handlers of channel [c] alone. *)
Definition benign (c : chan_id) (run : M S unit) (f : closure) : Prop :=
  ∀ s ch, channels s !! c = Some ch →
    ∃ s' ch', run s = Ok (tt, s') ∧ ran s' = ran s ++ [f] ∧
      channels s' !! c = Some ch' ∧ same_handlers ch ch'.

Context (call : closure → M S unit) (call_read : Timestamp → closure → M S unit).

Definition due (b : bool) (cb : option closure) : list closure :=
  if b then option_list cb else [].

Lemma fire_spec wants cb c s ch :
  (∀ f, benign c (call f) f) → channels s !! c = Some ch →
  ∃ s' ch', fire call wants cb c s = Ok (tt, s') ∧
    ran s' = ran s ++ due (wants (revents_ ch)) (cb ch) ∧
    channels s' !! c = Some ch' ∧ same_handlers ch ch'.
Proof.
  intros Hb Hc. unfold fire. mstep_by (by apply on_poller_chan). unfold due.
  destruct (wants (revents_ ch)); [destruct (cb ch) as [f|]|].
  - by apply Hb.
  - exists s, ch. by rewrite app_nil_r.
  - exists s, ch. by rewrite app_nil_r.
Qed.

(** The callbacks [handleEvent] owes to the events of a channel, and whether
    the last of them is the read callback. *)
Definition read_due (ch : channel) : list closure :=
  due (wants_read (revents_ ch)) (readCallback_ ch).

Definition owed (ch : channel) : list closure :=
  due (wants_error (revents_ ch)) (errorCallback_ ch) ++
  due (wants_close (revents_ ch)) (closeCallback_ ch) ++
  match read_due ch with
  | [] => due (wants_write (revents_ ch)) (writeCallback_ ch)
  | l => l
  end.
End dispatch_facts.

Lemma for_each_functors {S} `{LL : LensLaws S EventLoop} (ran : S → list closure)
    (call : closure → M S unit) (more : closure → list closure) l s :
  (∀ cb s, callingPendingFunctors (lget s) = true →
     ∃ s', call cb s = Ok (tt, s') ∧ ran s' = ran s ++ [cb] ∧
       callingPendingFunctors (lget s') = true ∧
       pendingFunctors_ (lget s') = pendingFunctors_ (lget s) ++ more cb) →
  callingPendingFunctors (lget s) = true →
  ∃ s', for_each call l s = Ok (tt, s') ∧ ran s' = ran s ++ l ∧
    callingPendingFunctors (lget s') = true ∧
    pendingFunctors_ (lget s') = pendingFunctors_ (lget s) ++ concat (more <$> l).
Proof.
  intros Hcall. revert s. induction l as [|f l IH]; intros s Hc; cbn [for_each].
  - exists s. by rewrite !app_nil_r.
  - destruct (Hcall f s Hc) as (s1 & E1 & Hr1 & Hc1 & Hp1). mstep_by (exact E1).
    destruct (IH s1 Hc1) as (s2 & E2 & Hr2 & Hc2 & Hp2).
    exists s2. split; [done|]. rewrite Hr2, Hp2, Hr1, Hp1. by rewrite <- !app_assoc.
Qed.

(** What queueing a functor leaves alone. *)
Definition same_loop (e e' : EventLoop) : Prop :=
  poller_ e' = poller_ e ∧ this_ e' = this_ e ∧ threadId_ e' = threadId_ e.

Lemma queueInLoop_frame ew tid cb e :
  ∃ e', queueInLoop ew tid cb e = Ok (tt, e') ∧ same_loop e e' ∧
    pendingFunctors_ e' = pendingFunctors_ e ++ [cb].
Proof.
  unfold queueInLoop. do 2 mstep. destruct (negb _ || _); [|by eexists].
  unfold wakeup. mstep. destruct (ew _ _ _); by eexists.
Qed.

Lemma queueInLoop_timers ew tid cb e e' :
  queueInLoop ew tid cb e = Ok (tt, e') → timerQueue_ e' = timerQueue_ e.
Proof.
  unfold queueInLoop. do 2 mstep. destruct (negb _ || _); [|by intros [= <-]].
  unfold wakeup. mstep. destruct (ew _ _ _); by intros [= <-].
Qed.

(** Changing the mask of a registered channel: no assertion fails, and the
    channel keeps its slot. *)
Lemma change_mask_registered tid o c e ch i p :
  Poller.inv (poller_ e) → Poller.registered (poller_ e) c ch i p → loop_ ch = this_ e →
  let ch' := set_events ch (mask_update o (events_ ch)) in
  ∃ q, change_mask tid o c e = Ok (tt, set_poller e q) ∧ Poller.inv q ∧
    Poller.registered q c ch' i (Poller.updated_pollfd ch' p) ∧
    zlen (Poller.pollfds_ q) = zlen (Poller.pollfds_ (poller_ e)) ∧
    Poller.channels_ q = Poller.channels_ (poller_ e) ∧
    (∀ d chd j pd, d ≠ c → Poller.registered (poller_ e) d chd j pd → Poller.registered q d chd j pd) ∧
    (∀ d, d ≠ c → Poller.chans q !! d = Poller.chans (poller_ e) !! d).
Proof.
  intros Hi Hr Hl ch'. pose proof Hr as (Hc & _).
  set (p1 := Poller.set_chan c ch' (poller_ e)).
  assert (Poller.registered p1 c ch' i p) as Hr1.
  { pose proof (Poller.registered_set_chan (poller_ e) c ch ch' c ch i p Hc eq_refl eq_refl Hr) as H.
    by rewrite decide_True in H by done. }
  assert (Poller.inv p1) as Hi1 by (by eapply Poller.inv_set_chan).
  pose proof (Poller.registered_updated _ _ _ _ _ _ _ _ _ Hr1 Hr1) as Hu.
  rewrite decide_True in Hu by done.
  eexists. split; [|split; [by eapply (Poller.inv_updateChannel_old p1)|split; [exact Hu|split; [|split; [done|split]]]]].
  - unfold change_mask. mstep_by (by apply zoom_ok, (Poller.upd_chan_eq _ _ ch)). fold ch'. fold p1.
    unfold updateChannel. mstep_by (by apply zoom_ok, (Poller.chan_eq _ _ ch'); destruct Hr1). mstep.
    unfold assert_. rewrite (proj2 (Nat.eqb_eq _ _)) by done. mstep.
    mstep_by (apply assertInLoopThread_noop).
    erewrite zoom_ok by (by apply Poller.updateChannel_old_eq). done.
  - unfold zlen. simpl. by rewrite length_insert.
  - intros d chd j pd Hd Hrd.
    pose proof (Poller.registered_set_chan (poller_ e) c ch ch' d chd j pd Hc eq_refl eq_refl Hrd) as H.
    rewrite decide_False in H by done.
    pose proof (Poller.registered_updated _ _ _ _ _ _ _ _ _ Hr1 H) as H2.
    by rewrite decide_False in H2 by done.
  - intros d Hd. simpl. by rewrite lookup_insert_ne.
Qed.

Lemma removeChannel_ok tid c e ch q :
  Poller.chans (poller_ e) !! c = Some ch → loop_ ch = this_ e →
  Poller.removeChannel c (poller_ e) = Ok (tt, q) → removeChannel tid c e = Ok (tt, set_poller e q).
Proof.
  intros Hc Hl E. unfold removeChannel. mstep_by (by apply zoom_ok, (Poller.chan_eq _ _ ch)). mstep.
  unfold assert_. rewrite (proj2 (Nat.eqb_eq _ _)) by done. mstep.
  mstep_by (apply assertInLoopThread_noop). by erewrite zoom_ok by exact E.
Qed.

(** A channel that was removed keeps its index: no mask of it can be set again. *)
Lemma change_mask_removed tid o c e ch :
  Poller.chans (poller_ e) !! c = Some ch → 0 ≤ index_ ch →
  Poller.channels_ (poller_ e) !! fd_ ch = None → loop_ ch = this_ e →
  change_mask tid o c e = Err AssertFailed.
Proof.
  intros Hc Hix Hm Hl. unfold change_mask. mstep_by (by apply zoom_ok, (Poller.upd_chan_eq _ _ ch)).
  unfold updateChannel. mstep_by (by apply zoom_ok, Poller.chan_eq, lookup_insert_eq). mstep.
  unfold assert_. rewrite (proj2 (Nat.eqb_eq _ _)) by done. mstep.
  mstep_by (apply assertInLoopThread_noop).
  unfold zoom, Poller.updateChannel. simpl. rewrite bind_unfold.
  rewrite (Poller.chan_eq _ _ _ (lookup_insert_eq _ _ _)). mstep. simpl.
  rewrite (proj2 (Z.ltb_ge _ _) Hix), Hm. done.
Qed.

(** The first mask of a new channel: it gets a slot. *)
Lemma change_mask_new tid o c e ch :
  Poller.inv (poller_ e) → Poller.chans (poller_ e) !! c = Some ch → index_ ch < 0 →
  Poller.channels_ (poller_ e) !! fd_ ch = None → 0 ≤ fd_ ch →
  zlen (Poller.pollfds_ (poller_ e)) + 1 < 2 ^ 31 → loop_ ch = this_ e →
  ∃ q i p, change_mask tid o c e = Ok (tt, set_poller e q) ∧ Poller.inv q ∧
    Poller.registered q c (set_index (set_events ch (mask_update o (events_ ch))) (Z.of_nat i)) i p ∧
    p = Poller.new_pollfd (set_events ch (mask_update o (events_ ch))) ∧
    zlen (Poller.pollfds_ q) = zlen (Poller.pollfds_ (poller_ e)) + 1 ∧
    Poller.channels_ q = <[fd_ ch := c]> (Poller.channels_ (poller_ e)) ∧
    (∀ d chd j pd, Poller.registered (poller_ e) d chd j pd → Poller.registered q d chd j pd) ∧
    (∀ d, d ≠ c → Poller.chans q !! d = Poller.chans (poller_ e) !! d).
Proof.
  intros Hi Hc Hix Hm Hf Hn Hl. set (ch' := set_events ch (mask_update o (events_ ch))).
  set (p1 := Poller.set_chan c ch' (poller_ e)).
  assert (Poller.inv p1) as Hi1 by (by apply (Poller.inv_set_chan (poller_ e) c ch ch')).
  assert (Poller.chans p1 !! c = Some ch') as Hc1 by apply lookup_insert_eq.
  destruct (Poller.inv_updateChannel_new p1 c ch' Hi1 Hc1 Hix Hm Hn Hf) as (Hq & Hr & Hold).
  do 3 eexists. split; [|split; [exact Hq|split; [exact Hr|split; [done|split; [|split; [done|split]]]]]].
  2: { simpl. rewrite zlen_app. done. }
  2: { intros d chd j pd Hd. apply Hold.
       pose proof (Poller.registered_set_chan (poller_ e) c ch ch' d chd j pd Hc eq_refl eq_refl Hd) as H.
       rewrite decide_False in H; [done|]. intros ->. destruct Hd as (Hd & _ & Hix' & _). simplify_eq. lia. }
  2: { intros d Hd. simpl. by rewrite !lookup_insert_ne by done. }
  unfold change_mask. mstep_by (by apply zoom_ok, (Poller.upd_chan_eq _ _ ch)). fold ch'. fold p1.
  unfold updateChannel. mstep_by (by apply zoom_ok, (Poller.chan_eq _ _ ch')). mstep.
  unfold assert_. rewrite (proj2 (Nat.eqb_eq _ _)) by done. mstep.
  mstep_by (apply assertInLoopThread_noop).
  erewrite zoom_ok by (by apply Poller.updateChannel_new_eq). done.
Qed.

(** ** Interleavings of queueInLoop with dePendingFunctors

    The loop thread's progress through [dePendingFunctors]: the local vector of
    functors not yet called, and the functors called so far. *)

Record machine : Type := mkMachine {
  m_loop : EventLoop;
  m_functors : option (list closure);
  m_ran : list closure;
}.

Inductive mevent : Type :=
  | Queue (tid : Z) (cb : closure)   (* any thread, also from inside a functor *)
  | Take
  | Call
  | Finish.

Definition on_loop (m : machine) {A} (r : res (A * EventLoop)) : option (A * machine) :=
  match r with
  | Ok (a, e) => Some (a, mkMachine e (m_functors m) (m_ran m))
  | Err _ => None
  end.

(** One step; [None] when the loop thread is not at that point. *)
Definition mexec (ew : eventfd_model) (ev : mevent) (m : machine) : option machine :=
  match ev with
  | Queue tid cb => snd <$> on_loop m (queueInLoop ew tid cb (m_loop m))
  | Take =>
      match m_functors m with
      | Some _ => None
      | None => '(l, m') ← on_loop m (take_pending (m_loop m));
                Some (mkMachine (m_loop m') (Some l) (m_ran m'))
      end
  | Call =>
      match m_functors m with
      | Some (f :: l) => Some (mkMachine (m_loop m) (Some l) (m_ran m ++ [f]))
      | _ => None
      end
  | Finish =>
      match m_functors m with
      | Some [] => '(_, m') ← on_loop m (finish_calling (m_loop m));
                   Some (mkMachine (m_loop m') None (m_ran m'))
      | _ => None
      end
  end.

Fixpoint mexec_all (ew : eventfd_model) (evs : list mevent) (m : machine) : option machine :=
  match evs with
  | [] => Some m
  | ev :: evs' => m' ← mexec ew ev m; mexec_all ew evs' m'
  end.

Definition queued (evs : list mevent) : list closure :=
  omap (λ ev, match ev with Queue _ cb => Some cb | _ => None end) evs.

(** Every functor accounted for, in queue order. *)
Definition ledger (m : machine) : list closure :=
  m_ran m ++ default [] (m_functors m) ++ pendingFunctors_ (m_loop m).

Definition calling_ok (m : machine) : Prop :=
  callingPendingFunctors (m_loop m) = bool_decide (is_Some (m_functors m)).

Lemma mexec_ledger ew ev m m' :
  mexec ew ev m = Some m' → calling_ok m →
  ledger m' = ledger m ++ queued [ev] ∧ calling_ok m'.
Proof.
  unfold ledger, calling_ok. destruct m as [e fs ran], ev; simpl; intros E Hc.
  - destruct (queueInLoop_spec ew tid cb e) as (e' & Eq & Hp & Hcalling & _).
    rewrite Eq in E. simplify_eq/=. rewrite Hp, Hcalling. by rewrite !app_assoc.
  - destruct fs; simplify_eq/=. by rewrite !app_nil_r.
  - destruct fs as [[|f l]|]; simplify_eq/=. by rewrite app_nil_r, <- !app_assoc.
  - destruct fs as [[|f l]|]; simplify_eq/=. by rewrite app_nil_r.
Qed.

(** ** What a loop's channels can be told about

    Any program over a loop: channels are created, their masks changed, they
    are removed, and the loop polls. *)

Inductive chan_op : Type :=
  | ChanNew (c : chan_id) (fd : Z)
  | ChanMask (o : mask_op) (c : chan_id)
  | ChanRemove (c : chan_id)
  | ChanPoll (ready : option (Z → Z)).

Definition chan_exec (tid : Z) (o : chan_op) : M EventLoop unit :=
  match o with
  | ChanNew c fd =>
      e ← get;
      assert_ (bool_decide (Poller.chans (poller_ e) !! c = None)) ;;
      zoom (modify (Poller.set_chan c (Channel_new (this_ e) fd)))
  | ChanMask o c => change_mask tid o c
  | ChanRemove c => removeChannel tid c
  | ChanPoll ready =>
      '(t, active) ← zoom (Poller.poll ready []);
      modify (λ e, set_polled e t active)
  end.

Definition no_reads (mask : Z) : Prop := mask = kNoneEvent ∨ mask = kWriteEvent.

(** No channel, and no slot of the poller, asks for reading. *)
Definition quiet (p : Poller) : Prop :=
  (∀ c ch, Poller.chans p !! c = Some ch → no_reads (events_ ch)) ∧
  (∀ pf, pf ∈ Poller.pollfds_ p → no_reads (Poller.events pf)).

Definition unread (p : Poller) (c : chan_id) : Prop :=
  ∃ ch, Poller.chans p !! c = Some ch ∧ wants_read (revents_ ch) = false.

Lemma no_reads_i16 m : no_reads m → no_reads (i16 m).
Proof. intros [-> | ->]; vm_compute; auto. Qed.

Lemma quiet_set_chan p c ch :
  quiet p → no_reads (events_ ch) → quiet (Poller.set_chan c ch p).
Proof.
  intros [H1 H2] Hm. split; [|done]. intros d chd. simpl.
  destruct (decide (d = c)) as [->|]; [rewrite lookup_insert_eq; by intros [= <-]|].
  rewrite lookup_insert_ne by done. apply H1.
Qed.

(** A reported event is a requested one or an error: never POLLIN here. *)
Lemma quiet_reports pf ready :
  no_reads (Poller.events pf) →
  wants_read (Poller.revents (Poller.kernel_poll_entry pf ready)) = false.
Proof.
  intros Hm. unfold wants_read, Poller.kernel_poll_entry. simpl.
  apply negb_false_iff, Z.eqb_eq. destruct (Poller.fd pf <? 0); [done|].
  rewrite <- Z.land_assoc. destruct Hm as [-> | ->]; apply Z.land_0_r.
Qed.

Lemma fill_unread pfds n act p act' p' :
  (∀ pf, pf ∈ pfds → wants_read (Poller.revents pf) = false) →
  Poller.fillActiveChannels_loop pfds n act p = Ok (act', p') →
  quiet p → Forall (unread p) act → quiet p' ∧ Forall (unread p') act'.
Proof.
  revert n act p. induction pfds as [|pf pfds IH]; intros n act p Hpf E Hq Ha; simpl in E.
  { minv E. done. }
  assert (∀ q, q ∈ pfds → wants_read (Poller.revents q) = false) as Hrest by (intros; apply Hpf; by right).
  destruct (n >? 0); [|by minv E]. destruct (Poller.revents pf >? 0); [|by eapply IH].
  minv E.
  match goal with H : Poller.chan _ _ = _ |- _ => apply Poller.chan_inv in H as [Hc ->] end.
  match goal with H : Poller.upd_chan _ _ _ = _ |- _ =>
    apply Poller.upd_chan_inv in H as (ch & Hc' & ->) end.
  pose proof (Hpf pf ltac:(left)) as Hr.
  eapply (IH _ _ _ Hrest E).
  - apply quiet_set_chan; [done|]. simpl. by eapply Hq.
  - apply Forall_app. split.
    + eapply Forall_impl; [exact Ha|]. intros d (chd & Hd & Hu). unfold unread. simpl.
      destruct (decide (d = a)) as [->|]; [rewrite lookup_insert_eq; by eexists|].
      rewrite lookup_insert_ne by done. by exists chd.
    + apply Forall_singleton. eexists. split; [apply lookup_insert_eq|done].
Qed.


Lemma quiet_poll ready act p t p' :
  Poller.poll ready [] p = Ok ((t, act), p') → quiet p → quiet p' ∧ Forall (unread p') act.
Proof.
  unfold Poller.poll. destruct ready as [r|]; [|intros [= _ <- <-]; by split].
  rewrite bind_unfold. simpl. rewrite bind_unfold. intros E [Hc Hs]. simpl in E.
  set (pfds := Poller.kernel_poll _ r) in *.
  assert (∀ pf, pf ∈ pfds → no_reads (Poller.events pf) ∧ wants_read (Poller.revents pf) = false)
    as Hpf.
  { intros pf (q & -> & Hq)%list_elem_of_fmap. split; [by apply (Hs q)|].
    by apply quiet_reports, Hs. }
  assert (quiet (Poller.mkPoller pfds (Poller.channels_ p) (Poller.chans p))) as Hq0.
  { split; [done|]. intros pf H. by apply Hpf. }
  destruct (Poller.ready_count pfds >? 0); [|by minv E]. minv E.
  unfold Poller.fillActiveChannels in *. match goal with H : (_ ≫= _) _ = _ |- _ => minv H end.
  eapply fill_unread; [|eassumption|done|constructor]. intros pf H. by apply Hpf.
Qed.

Lemma quiet_updateChannel c p u p' :
  Poller.updateChannel c p = Ok (u, p') → quiet p → quiet p'.
Proof.
  unfold Poller.updateChannel. intros E [Hc Hs].
  apply bind_Ok in E as (ch & p1 & [Hch ->]%Poller.chan_inv & E).
  pose proof (Hc c ch Hch) as Hm. minv E. destruct (index_ ch <? 0); minv E; split; simpl.
  - intros d chd. destruct (decide (d = c)) as [->|]; [rewrite lookup_insert_eq; by intros [= <-]|].
    rewrite lookup_insert_ne by done. apply Hc.
  - intros pf [?|Hpf]%elem_of_app; [by apply Hs|].
    apply list_elem_of_singleton in Hpf as ->. by apply no_reads_i16.
  - done.
  - intros pf [->|Hpf]%elem_of_insert_inv; [by apply no_reads_i16|by apply Hs].
Qed.

Lemma elem_of_removelast {A} (x : A) l : x ∈ removelast l → x ∈ l.
Proof.
  induction l as [|y [|z l] IH]; simpl; [done|by intros ?%not_elem_of_nil|].
  intros [->|H]%elem_of_cons; [left|right]. by apply IH.
Qed.

Lemma quiet_removeChannel c p u p' :
  Poller.removeChannel c p = Ok (u, p') → quiet p → quiet p'.
Proof.
  unfold Poller.removeChannel. intros E [Hc Hs].
  apply bind_Ok in E as (ch & p1 & [Hch ->]%Poller.chan_inv & E). minv E.
  destruct (index_ ch =? _); minv E.
  - split; [done|]. simpl. intros pf Hpf%elem_of_removelast. by apply Hs.
  - match goal with H : Poller.chan _ _ = _ |- _ => apply Poller.chan_inv in H as [He ->] end.
    match goal with H : last _ = _ |- _ => rename H into Hl end. simpl in He.
    apply quiet_set_chan; [|simpl; by eapply Hc]. split; [done|]. simpl.
    intros pf [->|Hpf]%elem_of_removelast%elem_of_insert_inv; [|by apply Hs].
    apply Hs. by apply last_Some_elem_of.
Qed.

Lemma zoom_inv {S C A} `{Lens S C} (m : M C A) s a s' :
  zoom m s = Ok (a, s') → ∃ c, m (lget s) = Ok (a, c) ∧ s' = lset c s.
Proof. unfold zoom. destruct (m (lget s)) as [[b c]|]; [|done]. intros [= <- <-]. by exists c. Qed.

Lemma set_poller_id e : set_poller e (poller_ e) = e.
Proof. by destruct e. Qed.

Definition quiet_loop (e : EventLoop) : Prop := quiet (poller_ e).

(** [updateChannel] and [removeChannel] of the loop are those of its poller. *)
Lemma guarded_inv tid c (m : M Poller unit) e u e' :
  (channel ← zoom (Poller.chan c);
   e ← get;
   assert_ (loop_ channel =? this_ e)%nat ;;
   assertInLoopThread tid ;;
   zoom m) e = Ok (u, e') →
  ∃ p, m (poller_ e) = Ok (tt, p) ∧ e' = set_poller e p.
Proof.
  intros (ch & e1 & (p1 & [_ ->]%Poller.chan_inv & ->)%zoom_inv & E)%bind_Ok.
  apply bind_Ok in E as (? & ? & [= <- <-] & E). rewrite set_poller_id in E.
  apply bind_Ok in E as (? & ? & Ha & E). unfold assert_ in Ha. destruct (_ =? _)%nat; [|done].
  injection Ha as _ <-. rewrite (bind_step _ _ _ _ _ (assertInLoopThread_noop _ _)) in E.
  apply zoom_inv in E as (p & E & ->). destruct u. by exists p.
Qed.

Lemma updateChannel_inv tid c e u e' :
  updateChannel tid c e = Ok (u, e') →
  ∃ p, Poller.updateChannel c (poller_ e) = Ok (tt, p) ∧ e' = set_poller e p.
Proof. apply guarded_inv. Qed.

Lemma removeChannel_inv tid c e u e' :
  removeChannel tid c e = Ok (u, e') →
  ∃ p, Poller.removeChannel c (poller_ e) = Ok (tt, p) ∧ e' = set_poller e p.
Proof. apply guarded_inv. Qed.

Lemma chan_exec_quiet tid o e u e' :
  chan_exec tid o e = Ok (u, e') → quiet_loop e → quiet_loop e'.
Proof.
  intros E Hq. destruct o as [c fd|o c|c|ready]; simpl in E.
  - apply bind_Ok in E as (? & ? & [= <- <-] & E). apply bind_Ok in E as (? & ? & Ha & E).
    unfold assert_ in Ha. destruct (bool_decide _); [|done]. injection Ha as _ <-.
    apply zoom_inv in E as (p & [= _ <-] & ->). apply quiet_set_chan; [done|by left].
  - unfold change_mask in E.
    apply bind_Ok in E as (? & ? & (p & (ch & Hc & ->)%Poller.upd_chan_inv & ->)%zoom_inv & E).
    apply updateChannel_inv in E as (p' & E & ->). apply (quiet_updateChannel _ _ _ _ E).
    apply quiet_set_chan; [done|]. simpl. apply mask_update_reachable. by eapply Hq.
  - apply removeChannel_inv in E as (p & E & ->). by apply (quiet_removeChannel _ _ _ _ E).
  - apply bind_Ok in E as ([t act] & ? & (p & E & ->)%zoom_inv & [= _ <-]).
    by eapply quiet_poll.
Qed.

(** The constructor asks for no reading either. *)
Lemma EventLoop_new_quiet this tid timerfd wakeupfd clock e :
  EventLoop_new this tid timerfd wakeupfd clock = Ok e → quiet_loop e.
Proof.
  unfold EventLoop_new, createEventfd. intros Hnew. destruct (wakeupfd <? 0); [done|]. simpl in Hnew.
  destruct (_ : res (unit * EventLoop)) as [[u e']|] eqn:E in Hnew; [|done].
  injection Hnew as ->. apply bind_Ok in E as (u1 & e2 & E1 & E).
  apply bind_Ok in E as (u2 & e3 & E2 & E3).
  apply (chan_exec_quiet tid (ChanMask EnableReading 1) _ _ _ E3).
  apply zoom_inv in E2 as (q & [= _ <-] & ->). apply quiet_set_chan; [|by left].
  apply (chan_exec_quiet tid (ChanMask EnableReading 0) _ _ _ E1).
  split; simpl; [|by intros ? ?%not_elem_of_nil].
  intros d chd [<- <-]%lookup_singleton_Some. by left.
Qed.

(** A new loop: the channels of its two descriptors, each in its slot. *)
Record fresh_loop (this : nat) (tid timerfd wakeupfd : Z) (clock : nat → Timestamp)
    (e : EventLoop) (cht chw : channel) : Prop := mkFreshLoop {
  fl_loop : ∃ p, e = mkEventLoop this false false false tid Timestamp_default wakeupfd wakeup_chan p []
                       (TimerQueue.TimerQueue_new clock) [] 0;
  fl_inv : Poller.inv (poller_ e);
  fl_timer : ∃ i p, Poller.registered (poller_ e) timerfdChannel_ cht i p;
  fl_wakeup : ∃ i p, Poller.registered (poller_ e) wakeup_chan chw i p;
  fl_timer_made : ∃ i m, cht = set_index
    (set_events (setWReadCallback (Channel_new this timerfd) FnTimerQueue_handleRead) m) i;
  fl_wakeup_made : ∃ i m, chw = set_index
    (set_events (setWReadCallback (Channel_new this wakeupfd) FnEventLoop_handleRead) m) i;
  fl_slots : zlen (Poller.pollfds_ (poller_ e)) = 2;
  fl_channels : Poller.channels_ (poller_ e) = {[wakeupfd := wakeup_chan; timerfd := timerfdChannel_]};
  fl_chans : Poller.chans (poller_ e) = {[wakeup_chan := chw; timerfdChannel_ := cht]};
}.

Lemma EventLoop_new_spec this tid timerfd wakeupfd clock :
  0 ≤ timerfd → 0 ≤ wakeupfd → timerfd ≠ wakeupfd →
  ∃ e cht chw, EventLoop_new this tid timerfd wakeupfd clock = Ok e ∧
    fresh_loop this tid timerfd wakeupfd clock e cht chw.
Proof.
  intros Ht Hw Hne. unfold EventLoop_new, createEventfd, createTimerfd.
  rewrite (proj2 (Z.ltb_ge _ _) Hw). change (mbind ?k (Ok ?w)) with (k w). cbv beta zeta.
  set (ch0 := setWReadCallback (Channel_new this timerfd) FnTimerQueue_handleRead).
  set (ch1 := setWReadCallback (Channel_new this wakeupfd) FnEventLoop_handleRead).
  match goal with |- context [mbind _ _ ?e] => set (e0 := e) end.
  destruct (change_mask_new tid EnableReading timerfdChannel_ e0 ch0)
    as (p1 & i & pf & E1 & I1 & R1 & _ & Z1 & M1 & _ & O1); try done.
  assert (Poller.chans p1 !! wakeup_chan = None) as Hn1 by by rewrite O1.
  set (e1 := set_poller e0 (Poller.set_chan wakeup_chan ch1 p1)).
  destruct (change_mask_new tid EnableReading wakeup_chan e1 ch1)
    as (p2 & j & pg & E2 & I2 & R2 & _ & Z2 & M2 & K2 & O2); try done.
  { by apply Poller.inv_set_chan_new. }
  { apply lookup_insert_eq. }
  { simpl. rewrite M1. by rewrite lookup_insert_ne. }
  { simpl. rewrite Z1. done. }
  pose proof (K2 _ _ _ _ (Poller.registered_set_chan_new p1 _ ch1 _ _ _ _ Hn1 R1)) as R1'.
  eexists _, (set_index (set_events ch0 _) _), (set_index (set_events ch1 _) _).
  rewrite (bind_step _ _ _ _ _ E1). cbv beta.
  erewrite (bind_step (zoom (modify (Poller.set_chan wakeup_chan ch1))) _ _ tt e1) by reflexivity.
  rewrite E2. split; [done|]. split; simpl; try by do 2 eexists.
  - done.
  - rewrite Z2. simpl. by rewrite Z1.
  - by rewrite M2; simpl; rewrite M1.
  - apply map_eq. intros c. destruct (decide (c = wakeup_chan)) as [->|Hc1].
    { rewrite lookup_insert_eq. apply R2. }
    rewrite O2 by done. change (Poller.chans (poller_ e1)) with (<[wakeup_chan := ch1]> (Poller.chans p1)).
    rewrite !lookup_insert_ne by done.
    destruct (decide (c = timerfdChannel_)) as [->|Hc0]; [rewrite lookup_singleton_eq; apply R1|].
    rewrite O1 by done. simpl. by rewrite !lookup_singleton_ne by done.
Qed.

(** ** Properties *)

(** C22: one [handleEvent] calls the error, close and read or write callbacks the
    reported events ask for, in this order, and no other, whatever the
    callbacks do short of replacing the channel's handlers.  When a read
    callback is due the function returns with it: the write callback is not
    called even if the descriptor is writable, and [eventHandling_] stays set. *)
Theorem handleEvent_dispatches {S} `{LL : LensLaws S EventLoop} (ran : S → list closure)
    call call_read c ch t s :
  (∀ e s, ran (lset e s) = ran s) →
  (∀ f, benign ran c (call f) f ∧ benign ran c (call_read t f) f) →
  channels s !! c = Some ch →
  ∃ s' ch', handleEvent call call_read c t s = Ok (tt, s') ∧
    ran s' = ran s ++ owed ch ∧ channels s' !! c = Some ch' ∧
    revents_ ch' = revents_ ch ∧ eventHandling_ ch' = negb (bool_decide (read_due ch = [])).
Proof.
  intros Hran Hb Hc.
  destruct (set_handling_spec ran Hran c true s ch Hc) as (s0 & E0 & R0 & C0).
  destruct (fire_spec ran call wants_error errorCallback_ c s0 (set_eventHandling ch true))
    as (s1 & ch1 & E1 & R1 & C1 & (Hv1 & Hh1 & Hr1 & Hw1 & He1 & Hc1)).
  { intros f. apply Hb. } { rewrite C0. apply lookup_insert_eq. }
  destruct (fire_spec ran call wants_close closeCallback_ c s1 ch1)
    as (s2 & ch2 & E2 & R2 & C2 & (Hv2 & Hh2 & Hr2 & Hw2 & He2 & Hc2)).
  { intros f. apply Hb. } { done. }
  assert (R2' : ran s2 = ran s ++ due (wants_error (revents_ ch)) (errorCallback_ ch) ++
                due (wants_close (revents_ ch)) (closeCallback_ ch)).
  { rewrite R2, R1, R0, <- Hv1, <- Hc1. by rewrite <- app_assoc. }
  unfold handleEvent. mstep_by (exact E0). mstep_by (exact E1). mstep_by (exact E2).
  mstep_by (by apply on_poller_chan). simpl in *. unfold owed, read_due, due in *.
  rewrite <- Hr2, <- Hv2, <- Hr1, <- Hv1.
  destruct (if wants_read (revents_ ch) then readCallback_ ch else None) as [f|] eqn:Ef.
  - destruct (proj2 (Hb f) s2 ch2 C2) as (s3 & ch3 & E3 & R3 & C3 & (Hv3 & Hh3 & _)).
    assert ((if wants_read (revents_ ch) then option_list (readCallback_ ch) else []) = [f]) as ->.
    { by destruct (wants_read _); simplify_eq; rewrite ?Ef. }
    exists s3, ch3. split; [done|]. rewrite R3, R2', <- !app_assoc. split; [done|]. split; [done|].
    rewrite bool_decide_eq_false_2 by done. simpl. split; congruence.
  - assert ((if wants_read (revents_ ch) then option_list (readCallback_ ch) else []) = []) as ->.
    { by destruct (wants_read _); rewrite ?Ef. }
    destruct (fire_spec ran call wants_write writeCallback_ c s2 ch2)
      as (s3 & ch3 & E3 & R3 & C3 & (Hv3 & Hh3 & _)).
    { intros g. apply Hb. } { done. }
    destruct (set_handling_spec ran Hran c false s3 ch3 C3) as (s4 & E4 & R4 & C4).
    mstep_by (exact E3). exists s4, (set_eventHandling ch3 false). split; [done|].
    rewrite R4, R3, R2', <- !app_assoc. unfold due. rewrite <- Hv2, <- Hv1, <- Hw2, <- Hw1.
    split; [done|]. rewrite C4, lookup_insert_eq. split; [done|]. simpl. split; [congruence|done].
Qed.

(** [dePendingFunctors] runs every functor that was queued when it started,
    once and in the order they were queued; what the functors queue in the
    meantime is not run by this call but is left, in order, for the next. *)
Theorem dePendingFunctors_runs {S} `{LL : LensLaws S EventLoop} (ran : S → list closure)
    (call : closure → M S unit) destroy (more : closure → list closure) s :
  (∀ e s, ran (lset e s) = ran s) →
  (∀ cb s, callingPendingFunctors (lget s) = true →
     ∃ s', call cb s = Ok (tt, s') ∧ ran s' = ran s ++ [cb] ∧
       callingPendingFunctors (lget s') = true ∧
       pendingFunctors_ (lget s') = pendingFunctors_ (lget s) ++ more cb) →
  (∀ l f s, destroy l f s = Ok (tt, s)) →
  ∃ s', dePendingFunctors call destroy s = Ok (tt, s') ∧
    ran s' = ran s ++ pendingFunctors_ (lget s) ∧
    pendingFunctors_ (lget s') = concat (more <$> pendingFunctors_ (lget s)) ∧
    callingPendingFunctors (lget s') = false.
Proof.
  intros Hran Hcall Hdestroy. set (e := lget s).
  set (s1 := lset (set_pending (set_calling e true) []) s).
  destruct (for_each_functors ran call more (pendingFunctors_ e) s1 Hcall) as (s2 & E2 & R2 & C2 & P2).
  { unfold s1. by rewrite lget_lset. }
  eexists. split; [|split; [|split]].
  - unfold dePendingFunctors. mstep_by (by apply zoom_ok). fold e. mstep_by (exact E2).
    mstep_by (by apply zoom_ok). by apply destroy_all_noop.
  - rewrite Hran, R2. unfold s1. by rewrite Hran.
  - rewrite lget_lset. simpl. rewrite P2. unfold s1. by rewrite lget_lset.
  - by rewrite lget_lset.
Qed.

(** C21: however calls of [queueInLoop] from any threads interleave with the
    steps of [dePendingFunctors], no functor is lost, run twice or overtaken:
    those called, those in the local vector and those pending are together
    exactly the functors queued so far, in the order of their queueing; and
    [callingPendingFunctors] is set exactly while the local vector is in use. *)
Theorem functors_fifo ew evs e m :
  pendingFunctors_ e = [] → callingPendingFunctors e = false →
  mexec_all ew evs (mkMachine e None []) = Some m →
  ledger m = queued evs ∧ calling_ok m.
Proof.
  intros Hp Hc.
  cut (∀ m0, calling_ok m0 → mexec_all ew evs m0 = Some m →
         ledger m = ledger m0 ++ queued evs ∧ calling_ok m).
  { intros H E. destruct (H (mkMachine e None [])) as [H1 H2]; [done|done|].
    by rewrite H1; unfold ledger; simpl; rewrite Hp. }
  clear. induction evs as [|ev evs IH]; intros m0 Hc E; simpl in E.
  - simplify_eq. by rewrite app_nil_r.
  - destruct (mexec ew ev m0) as [m1|] eqn:E1; [|done]. simpl in E.
    destruct (mexec_ledger ew ev m0 m1 E1 Hc) as [L1 C1].
    destruct (IH m1 C1 E) as [L C]. split; [|done]. rewrite L, L1, <- app_assoc.
    f_equal. unfold queued. by destruct ev.
Qed.

(** C29: no channel of a loop is ever told that its descriptor is readable:
    [kReadEvent] is [POLLIN/POLLPRI], that is 0, so [enableReading] asks for
    nothing.  Whatever channels a program creates, enables, disables and
    removes on a new loop, and whatever is pending on their descriptors, every
    poll returns channels for which [handleEvent] has no read callback to call:
    neither new connections, nor data, nor timers, nor wakeups are noticed. *)
Theorem no_read_events this tid timerfd wakeupfd clock ops ready e e1 t active p :
  EventLoop_new this tid timerfd wakeupfd clock = Ok e →
  for_each (chan_exec tid) ops e = Ok (tt, e1) →
  Poller.poll ready [] (poller_ e1) = Ok ((t, active), p) →
  ∀ c ch, c ∈ active → Poller.chans p !! c = Some ch → read_due ch = [].
Proof.
  intros Hnew Hops Hpoll c ch Hc Hch.
  pose proof (EventLoop_new_quiet _ _ _ _ _ _ Hnew) as Hq.
  assert (quiet_loop e1) as Hq1.
  { clear -Hops Hq. revert e Hq Hops. induction ops as [|o ops IH]; intros e Hq E; cbn [for_each] in E.
    - by injection E as <-.
    - apply bind_Ok in E as (u & e2 & E2 & E). eapply IH; [|exact E]. by eapply chan_exec_quiet. }
  destruct (quiet_poll _ _ _ _ _ Hpoll Hq1) as [_ Ha]. rewrite Forall_forall in Ha.
  destruct (Ha c Hc) as (ch' & Hc' & Hw). assert (ch' = ch) as -> by congruence.
  unfold read_due, due. by rewrite Hw.
Qed.

(** [wakeup] never wakes the loop: it writes the 4 bytes of an [int] to an
    eventfd, which takes at least 8, so whatever functors are queued and
    whatever threads call [quit], the counter the loop polls stays zero. *)
Theorem wakeup_never_signals (ew : eventfd_model) fs e :
  (∀ n v c, n < 8 → ew n v c = None) →
  ∃ e', for_each (foreign_step ew) fs e = Ok (tt, e') ∧ eventfd_ e' = eventfd_ e ∧
    pendingFunctors_ e' = pendingFunctors_ e ++
      omap (λ f, match f with ForeignQueue _ cb => Some cb | ForeignQuit _ => None end) fs.
Proof.
  intros Hew. assert (∀ c, ew sizeof_one 1 c = None) as Hone by (intros; by apply Hew).
  revert e. induction fs as [|f fs IH]; intros e; cbn [for_each].
  - exists e. by rewrite app_nil_r.
  - destruct f as [tid cb|tid]; cbn [foreign_step omap].
    + destruct (queueInLoop_spec ew tid cb e) as (e1 & E1 & P1 & _ & _ & _ & F1).
      mstep_by (exact E1). destruct (IH e1) as (e2 & E2 & F2 & P2). exists e2.
      rewrite E2, F2, P2, P1, F1, Hone. split; [done|]. split; [by destruct (_ || _)|].
      by rewrite <- app_assoc.
    + destruct (IH (set_quit e true)) as (e2 & E2 & F2 & P2). exists e2. split; [|done].
      erewrite bind_step; [exact E2|]. unfold quit. do 2 mstep.
      destruct (negb _); [|done]. unfold wakeup. mstep. simpl. by rewrite Hone.
Qed.

(** A [quit] that comes before [loop] is lost: [loop] clears [quit_] and
    does exactly what it would have done without it. *)
Theorem early_quit_lost {S} `{LL : LensLaws S EventLoop} (ew : eventfd_model) tid tid'
    (call : closure → M S unit) call_read destroy inputs s :
  (∀ n v c, n < 8 → ew n v c = None) →
  (zoom (quit ew tid') ;; loop ew tid call call_read destroy inputs) s =
  loop ew tid call call_read destroy inputs s.
Proof.
  intros Hew. erewrite (bind_step _ _ _ _ (lset (set_quit (lget s) true) s)).
  2: { apply zoom_ok. unfold quit. do 2 mstep. destruct (negb _); [|done]. unfold wakeup. mstep.
       by rewrite Hew by done. }
  unfold loop. rewrite !(bind_step _ _ _ _ _ (zoom_ok get _ _ _ eq_refl)), !lset_lget, lget_lset.
  simpl. destruct (looping_ (lget s)); [done|].
  assert (∀ k s', (assert_ (negb false) ;; zoom (assertInLoopThread tid) ;; k) s' =
                  (k : M S bool) s') as Hstart.
  { intros k s'. mstep. erewrite bind_step; [done|]. rewrite <- (lset_lget s') at 2.
    apply zoom_ok, assertInLoopThread_noop. }
  rewrite !Hstart, !(bind_step _ _ _ _ _ (zoom_ok (modify _) _ _ _ eq_refl)).
  by rewrite lget_lset, lset_lset.
Qed.

(** ** Concrete executions *)

Module Demo.
(** A client state that records the functions called; functor 1 queues functor
    2 from inside the loop. *)
Definition S : Type := EventLoop * list closure.

#[global] Instance loop_lens : Lens S EventLoop := {| lget := fst; lset := λ e s, (e, s.2) |}.
#[global] Instance loop_laws : LensLaws S EventLoop.
Proof. split; [done| |done]. by intros []. Qed.

Definition more (f : closure) : list closure :=
  if decide (f = FnUser 1) then [FnUser 2; FnUser 3] else [].

(** eventfd(2) *)
Definition ew : eventfd_model := λ n v c, if n <? 8 then None else Some (c + v).

Definition call (f : closure) : M S unit :=
  modify (λ s, (s.1, s.2 ++ [f])) ;;
  for_each (λ g, zoom (queueInLoop ew 7 g)) (more f).
Definition call_read (t : Timestamp) (f : closure) : M S unit := call f.

(** A channel with all its callbacks, and everything reported for it. *)
Definition ch : channel :=
  set_revents
    (setCloseCallback (setErrorCallback (setWReadCallback (setWriteCallback
       (Channel_new 0 9) (FnUser 10)) (FnUser 11)) (FnUser 12)) (FnUser 13)) 0x3f.

Definition e0 : EventLoop :=
  match EventLoop_new 0 7 3 4 (λ n, 1000 + Z.of_nat n) with
  | Ok e => e
  | Err _ => mkEventLoop 0 false false false 0 0 0 0 (Poller.mkPoller [] ∅ ∅) []
               (TimerQueue.TimerQueue_new (λ _, 0)) [] 0
  end.
Definition s0 : S := (set_poller e0 (Poller.set_chan 5 ch (poller_ e0)), []).

Definition ops : list chan_op :=
  [ChanNew 5 9; ChanMask EnableReading 5; ChanMask EnableWriting 5].
Definition e1 : EventLoop :=
  match for_each (chan_exec 7) ops e0 with Ok (_, e) => e | Err _ => e0 end.

Lemma benign_call c f : more f = [] → benign snd c (call f) f.
Proof.
  intros Hf s ch Hc. exists (s.1, s.2 ++ [f]), ch. unfold call. rewrite Hf. by split_and!.
Qed.

Lemma queue_all gs s : ∃ s', for_each (λ g, zoom (queueInLoop ew 7 g)) gs s = Ok (tt, s') ∧
  s'.2 = s.2 ∧ callingPendingFunctors s'.1 = callingPendingFunctors s.1 ∧
  pendingFunctors_ s'.1 = pendingFunctors_ s.1 ++ gs.
Proof.
  revert s. induction gs as [|g gs IH]; intros s; cbn [for_each].
  - exists s. by rewrite app_nil_r.
  - destruct (queueInLoop_spec ew 7 g (lget s)) as (e & E & P & C & _).
    mstep_by (by apply zoom_ok). destruct (IH (e, s.2)) as (s' & E' & R' & C' & P').
    exists s'. rewrite E', R', C', P'. simpl. rewrite P, C, <- app_assoc. done.
Qed.
End Demo.

Lemma handleEvent_dispatches_witness :
  ∃ s' ch', handleEvent (λ f, modify (λ s : Demo.S, (s.1, s.2 ++ [f])))
       (λ _ f, modify (λ s : Demo.S, (s.1, s.2 ++ [f]))) 5 0 Demo.s0 = Ok (tt, s') ∧
     s'.2 = [FnUser 12; FnUser 11] ∧ channels s' !! 5%nat = Some ch' ∧
     revents_ ch' = 0x3f ∧ eventHandling_ ch' = true.
Proof.
  apply (handleEvent_dispatches (@snd EventLoop (list closure)) _ _ 5 Demo.ch 0 Demo.s0).
  - done.
  - intros f. split; intros s c Hc; exists (s.1, s.2 ++ [f]), c; by split_and!.
  - done.
Defined.

Lemma dePendingFunctors_runs_witness :
  let s := (set_pending Demo.e0 [FnUser 0; FnUser 1], []) : Demo.S in
  ∃ s', dePendingFunctors Demo.call holds_nothing s = Ok (tt, s') ∧
    s'.2 = [FnUser 0; FnUser 1] ∧ pendingFunctors_ s'.1 = [FnUser 2; FnUser 3] ∧
    callingPendingFunctors s'.1 = false.
Proof.
  destruct (dePendingFunctors_runs (S:=Demo.S) snd Demo.call holds_nothing Demo.more
              (set_pending Demo.e0 [FnUser 0; FnUser 1], [])) as (s' & E & R & P & C).
  - done.
  - intros f s Hc. unfold Demo.call.
    destruct (Demo.queue_all (Demo.more f) (s.1, s.2 ++ [f])) as (s' & E & R & C & P).
    exists s'. split; [by mstep_by reflexivity|]. simpl in *. rewrite C. done.
  - done.
  - exists s'. split; [exact E|]. split; [exact R|]. split; [|exact C].
    etrans; [exact P|]. vm_compute. reflexivity.
Defined.

Lemma functors_fifo_witness :
  let evs := [Queue 8 (FnUser 0); Queue 7 (FnUser 1); Take; Call; Queue 9 (FnUser 2);
              Call; Queue 7 (FnUser 3); Finish; Take] in
  ∃ m, mexec_all Demo.ew evs (mkMachine Demo.e0 None []) = Some m ∧
    ledger m = [FnUser 0; FnUser 1; FnUser 2; FnUser 3] ∧ calling_ok m.
Proof.
  intros evs. eexists. split; [vm_compute; reflexivity|].
  apply (functors_fifo Demo.ew evs Demo.e0); vm_compute; reflexivity.
Defined.

Lemma no_read_events_witness :
  for_each (chan_exec 7) Demo.ops Demo.e0 = Ok (tt, Demo.e1) ∧
  ∃ t p, Poller.poll (Some (λ _, 0x3f)) [] (poller_ Demo.e1) = Ok ((t, [0; 1; 5]%nat), p) ∧
    ∀ c ch, c ∈ [0; 1; 5]%nat → Poller.chans p !! c = Some ch → read_due ch = [].
Proof.
  assert (for_each (chan_exec 7) Demo.ops Demo.e0 = Ok (tt, Demo.e1)) as E1
    by (vm_compute; reflexivity).
  assert (EventLoop_new 0 7 3 4 (λ n, 1000 + Z.of_nat n) = Ok Demo.e0) as E0
    by (vm_compute; reflexivity).
  split; [exact E1|].
  destruct (Poller.poll (Some (λ _, 0x3f)) [] (poller_ Demo.e1)) as [[[t active] p]|f] eqn:E.
  2: { exfalso. revert E. vm_compute. discriminate. }
  assert (active = [0; 1; 5]%nat) as -> by (revert E; vm_compute; by intros [= _ <- _]).
  exists t, p. split; [done|]. exact (no_read_events _ _ _ _ _ _ _ _ _ _ _ _ E0 E1 E).
Defined.

Lemma wakeup_never_signals_witness :
  let fs := [ForeignQueue 8 (FnUser 0); ForeignQuit 9; ForeignQueue 7 (FnUser 1)] in
  ∃ e', for_each (foreign_step Demo.ew) fs Demo.e0 = Ok (tt, e') ∧ eventfd_ e' = 0 ∧
    pendingFunctors_ e' = [FnUser 0; FnUser 1].
Proof.
  intros fs. apply (wakeup_never_signals Demo.ew fs Demo.e0).
  intros n v c Hn. unfold Demo.ew. by rewrite (proj2 (Z.ltb_lt n 8) Hn).
Defined.

Lemma early_quit_lost_witness :
  (zoom (quit Demo.ew 8) ;;
   loop Demo.ew 7 Demo.call Demo.call_read holds_nothing [([ForeignQuit 8], None)]) Demo.s0 =
  loop Demo.ew 7 Demo.call Demo.call_read holds_nothing [([ForeignQuit 8], None)] Demo.s0.
Proof.
  apply early_quit_lost.
  intros n v c Hn. unfold Demo.ew. by rewrite (proj2 (Z.ltb_lt n 8) Hn).
Defined.

(** The loop ends after the iteration in which [quit] was called, having run
    the functors queued meanwhile. *)
Example loop_demo :
  (match loop Demo.ew 7 Demo.call Demo.call_read holds_nothing
           [([ForeignQueue 8 (FnUser 0)], None); ([ForeignQuit 8; ForeignQueue 8 (FnUser 4)], None)]
           Demo.s0 with
   | Ok (b, s) => Some (b, s.2, looping_ s.1)
   | Err _ => None
   end) = Some (true, [FnUser 0; FnUser 4], false).
Proof. vm_compute. reflexivity. Qed.
