(* ===== verification/Sockets.v ===== *)
(** * Sockets: addresses, socket calls and the kernel's answers

    Models src/muduo/SocketsOps.h, src/muduo/SocketsOps.cpp,
    src/muduo/net/Socket.h, Socket.cpp, InetAddress.h and InetAddress.cpp, on a
    little-endian host.  The kernel is an oracle: the answer to the [n]-th call
    is [answer n], [-errno] for a failure as Linux reports it, and [trace]
    records every call with its result, so that what a descriptor was sent is
    read off the trace.  [inet_ntop] and [inet_pton] are a parameter with the
    laws of [InetLaws]; [Dotted] is a concrete instance. *)

From Stdlib Require Import String.
From S2P Require Import Prelude Printf.

(** ** Byte order *)

(** The bytes of an unsigned number, least significant first. *)
Fixpoint le_bytes (n : nat) (z : Z) : list Z :=
  match n with
  | O => []
  | S n' => Z.land z 255 :: le_bytes n' (Z.shiftr z 8)
  end.

Fixpoint of_le_bytes (l : list Z) : Z :=
  match l with [] => 0 | b :: l' => Z.lor b (Z.shiftl (of_le_bytes l') 8) end.

Definition byte_swap (n : nat) (z : Z) : Z := of_le_bytes (rev (le_bytes n z)).

Definition hostToNetwork64 (z : Z) : Z := byte_swap 8 z.
Definition hostToNetwork32 (z : Z) : Z := byte_swap 4 z.
Definition hostToNetwork16 (z : Z) : Z := byte_swap 2 z.
Definition networkToHost64 (z : Z) : Z := byte_swap 8 z.
Definition networkToHost32 (z : Z) : Z := byte_swap 4 z.
Definition networkToHost16 (z : Z) : Z := byte_swap 2 z.

(** ** InetAddress *)

Record sockaddr_in : Type := mkSockaddr {
  sin_family : Z;
  sin_port : Z;   (* in network byte order *)
  s_addr : Z;     (* in network byte order *)
}.

#[export] Instance sockaddr_in_eq_dec : EqDecision sockaddr_in.
Proof. solve_decision. Defined.

Abbreviation InetAddress := sockaddr_in.

Definition AF_INET : Z := 2.
Definition kInaddrAny : Z := 0.
Definition zero_addr : sockaddr_in := mkSockaddr 0 0 0.

(** <arpa/inet.h> *)
Record inet : Type := mkInet {
  inet_ntop : Z → option bytes;
  inet_pton : bytes → option Z;
}.

(** [INET_ADDRSTRLEN] is 16, with the terminator. *)
Record InetLaws (i : inet) : Prop := mkInetLaws {
  ntop_text a : 0 ≤ a < 2 ^ 32 → ∃ h, inet_ntop i a = Some h ∧ zlen h ≤ 15;
  ntop_no_colon a h : inet_ntop i a = Some h → Byte.x3a ∉ h;
  pton_ntop a h : inet_ntop i a = Some h → inet_pton i h = Some a;
}.

Section addresses.
Context (i : inet).

(** [InetAddress::InetAddress(uint16_t)] *)
Definition InetAddress_port (port : Z) : InetAddress :=
  mkSockaddr AF_INET (hostToNetwork16 port) (hostToNetwork32 kInaddrAny).

(** [sockets::fromHostPort]: a text that is no address leaves [sin_addr]. *)
Definition fromHostPort (ip : bytes) (port : Z) (addr : sockaddr_in) : sockaddr_in :=
  mkSockaddr AF_INET (hostToNetwork16 port) (default (s_addr addr) (inet_pton i ip)).

(** [InetAddress::InetAddress(const std::string&, uint16_t)] *)
Definition InetAddress_host (ip : bytes) (port : Z) : InetAddress :=
  fromHostPort ip port zero_addr.

Definition host_text (addr : sockaddr_in) : bytes :=
  default (str "INVALID") (inet_ntop i (s_addr addr)).

(** [sockets::toHostPort] *)
Definition toHostPort_buf (size : Z) (addr : sockaddr_in) : bytes :=
  snprintf_text size (host_text addr ++ (Byte.x3a :: dec (networkToHost16 (sin_port addr)))).

(** [InetAddress::toHostPort] *)
Definition toHostPort (addr : InetAddress) : bytes := toHostPort_buf 32 addr.
End addresses.

(** ** The kernel *)

Inductive syscall : Type :=
  | SysSocket
  | SysConnect (fd : Z) (addr : sockaddr_in)
  | SysBind (fd : Z) (addr : sockaddr_in)
  | SysListen (fd : Z)
  | SysAccept (fd : Z)
  | SysClose (fd : Z)
  | SysShutdownWrite (fd : Z)
  | SysReuseAddr (fd : Z) (optval : Z)
  | SysTcpNoDelay (fd : Z) (optval : Z)
  | SysSocketError (fd : Z)
  | SysGetsockname (fd : Z)
  | SysGetpeername (fd : Z)
  | SysWrite (fd : Z) (data : bytes)
  | SysReadv (fd : Z)
  | SysFcntl (fd cmd arg : Z).

#[export] Instance syscall_eq_dec : EqDecision syscall.
Proof. solve_decision. Defined.

Record Kernel : Type := mkKernel {
  answer : nat → Z;
  answer_data : nat → bytes;
  answer_addr : nat → sockaddr_in;
  trace : list (syscall * Z);
}.

Definition calls (k : Kernel) : nat := length (trace k).

Definition log_call (sc : syscall) (r : Z) : M Kernel unit :=
  modify (λ k, mkKernel (answer k) (answer_data k) (answer_addr k) (trace k ++ [(sc, r)])).

(** A call with an integer result. *)
Definition sys (sc : syscall) : M Kernel Z :=
  k ← get; let r := answer k (calls k) in log_call sc r ;; mret r.

(** write(2): takes a prefix of the data, or fails. *)
Definition sys_write (fd : Z) (data : bytes) : M Kernel Z :=
  k ← get;
  let r := Z.min (answer k (calls k)) (zlen data) in
  log_call (SysWrite fd data) r ;; mret r.

(** readv(2) on areas of [room] bytes. *)
Definition sys_readv (fd room : Z) : M Kernel (Z + bytes) :=
  k ← get;
  let r := answer k (calls k) in
  let data := take (Z.to_nat room) (answer_data k (calls k)) in
  log_call (SysReadv fd) (if r <? 0 then r else zlen data) ;;
  mret (if r <? 0 then inl (- r) else inr data).

Definition sys_addr (sc : syscall) : M Kernel sockaddr_in :=
  k ← get;
  let r := answer k (calls k) in
  log_call sc r ;;
  mret (if r <? 0 then zero_addr else answer_addr k (calls k)).

(** The bytes a descriptor has taken, in order. *)
Definition sent_of (fd : Z) (e : syscall * Z) : bytes :=
  match e with
  | (SysWrite fd' data, n) => if fd' =? fd then take (Z.to_nat n) data else []
  | _ => []
  end.

Definition sent (fd : Z) (k : Kernel) : bytes := concat (sent_of fd <$> trace k).

(** ** SocketsOps and Socket *)

(** fcntl(2): the commands and flags of Linux. *)
Definition F_GETFD : Z := 1.
Definition F_SETFD : Z := 2.
Definition F_GETFL : Z := 3.
Definition F_SETFL : Z := 4.
Definition O_NONBLOCK : Z := 0x800.
Definition FD_CLOEXEC : Z := 1.

(** Called where the kernel has no [SOCK_NONBLOCK] and [SOCK_CLOEXEC] to give,
    under [VALGRIND]; its results are not looked at. *)
Definition setNonBlockAndCloseOnExec (sockfd : Z) : M Kernel unit :=
  flags ← sys (SysFcntl sockfd F_GETFL 0);
  sys (SysFcntl sockfd F_SETFL (Z.lor flags O_NONBLOCK)) ;;
  flags ← sys (SysFcntl sockfd F_GETFD 0);
  sys (SysFcntl sockfd F_SETFD (Z.lor flags FD_CLOEXEC)) ;;
  mret ().

Definition createNonblockingOrDie : M Kernel Z := sys SysSocket.

(** The result is the saved [errno], 0 for success. *)
Definition connect (sockfd : Z) (addr : sockaddr_in) : M Kernel Z :=
  r ← sys (SysConnect sockfd addr); mret (if r =? 0 then 0 else Z.abs r).

Definition bindOrDie (sockfd : Z) (addr : sockaddr_in) : M Kernel unit :=
  sys (SysBind sockfd addr) ;; mret ().
Definition listenOrDie (sockfd : Z) : M Kernel unit := sys (SysListen sockfd) ;; mret ().

(** The descriptor and the peer's address, or [-errno]. *)
Definition accept (sockfd : Z) : M Kernel (Z * sockaddr_in) :=
  k ← get;
  r ← sys (SysAccept sockfd);
  mret (r, answer_addr k (calls k)).

Definition close (sockfd : Z) : M Kernel unit := sys (SysClose sockfd) ;; mret ().
Definition shutdownWrite (sockfd : Z) : M Kernel unit := sys (SysShutdownWrite sockfd) ;; mret ().

Definition getLocalAddr (sockfd : Z) : M Kernel sockaddr_in := sys_addr (SysGetsockname sockfd).
Definition getPeerAddr (sockfd : Z) : M Kernel sockaddr_in := sys_addr (SysGetpeername sockfd).

(** [SO_ERROR], or the [errno] of the failed [getsockopt]. *)
Definition getSocketError (sockfd : Z) : M Kernel Z :=
  r ← sys (SysSocketError sockfd); mret (if r <? 0 then - r else r).

Definition isSelfConnect (sockfd : Z) : M Kernel bool :=
  localaddr ← getLocalAddr sockfd;
  peeraddr ← getPeerAddr sockfd;
  mret ((sin_port localaddr =? sin_port peeraddr) && (s_addr localaddr =? s_addr peeraddr)).

(** [Socket]: [peeraddr] is changed only when a connection was accepted. *)
Definition Socket_accept (sockfd : Z) (peeraddr : InetAddress) : M Kernel (Z * InetAddress) :=
  '(connfd, addr) ← accept sockfd;
  mret (connfd, if 0 <=? connfd then addr else peeraddr).

Definition setReuseAddr (sockfd : Z) (on : bool) : M Kernel unit :=
  sys (SysReuseAddr sockfd (if on then 1 else 0)) ;; mret ().
Definition setTcpNoDelay (sockfd : Z) (on : bool) : M Kernel unit :=
  sys (SysTcpNoDelay sockfd (if on then 1 else 0)) ;; mret ().

(** ** Byte order: the conversions are their own inverses *)

Lemma lor_byte b x : 0 ≤ b < 256 → Z.lor b (Z.shiftl x 8) = b + 256 * x.
Proof.
  intros Hb. assert (Z.land b (Z.shiftl x 8) = 0) as Hz.
  { apply Z.bits_inj'. intros n Hn. rewrite Z.land_spec, Z.bits_0.
    destruct (Z.ltb_spec n 8).
    - by rewrite (Z.shiftl_spec_low x 8 n), andb_false_r.
    - rewrite (proj2 (Z.testbit_false b n ltac:(lia))); [done|]. rewrite Z.div_small; [done|].
      split; [lia|]. pose proof (Z.pow_le_mono_r 2 8 n). lia. }
  rewrite <- Z.lxor_lor, <- Z.add_nocarry_lxor by done.
  rewrite Z.shiftl_mul_pow2 by lia. lia.
Qed.

Lemma le_bytes_range n z : Forall (λ b, 0 ≤ b < 256) (le_bytes n z).
Proof.
  revert z. induction n as [|n IH]; intros z; [constructor|]. constructor; [|apply IH].
  change 255 with (Z.ones 8). rewrite Z.land_ones by lia. by apply Z.mod_pos_bound.
Qed.

Lemma length_le_bytes n z : length (le_bytes n z) = n.
Proof. revert z. induction n as [|n IH]; intros z; simpl; auto. Qed.

Lemma of_le_le n z : 0 ≤ z < 2 ^ (8 * Z.of_nat n) → of_le_bytes (le_bytes n z) = z.
Proof.
  revert z. induction n as [|n IH]; intros z Hz; [simpl in *; lia|].
  pose proof (le_bytes_range (S n) z) as [Hb _]%Forall_cons. cbn [le_bytes of_le_bytes] in *.
  rewrite lor_byte by done. change 255 with (Z.ones 8).
  rewrite Z.land_ones, Z.shiftr_div_pow2 by lia. rewrite IH.
  - pose proof (Z.div_mod z (2 ^ 8)). lia.
  - replace (8 * Z.of_nat (S n)) with (8 * Z.of_nat n + 8) in Hz by lia.
    rewrite Z.pow_add_r in Hz by lia. split; [apply Z.div_pos; lia|].
    apply Z.div_lt_upper_bound; lia.
Qed.

Lemma le_of_le l : Forall (λ b, 0 ≤ b < 256) l → le_bytes (length l) (of_le_bytes l) = l.
Proof.
  induction 1 as [|b l Hb Hl IH]; [done|]. cbn [length le_bytes of_le_bytes].
  rewrite lor_byte by done. change 255 with (Z.ones 8).
  rewrite Z.land_ones, Z.shiftr_div_pow2 by lia. change (2 ^ 8) with 256.
  replace (b + 256 * of_le_bytes l) with (b + of_le_bytes l * 256) by lia.
  rewrite Z.mod_add, Z.div_add, Z.mod_small, Z.div_small by lia. by rewrite Z.add_0_l, IH.
Qed.

Lemma byte_swap_involutive n z :
  0 ≤ z < 2 ^ (8 * Z.of_nat n) → byte_swap n (byte_swap n z) = z.
Proof.
  intros Hz. unfold byte_swap.
  assert (Forall (λ b, 0 ≤ b < 256) (rev (le_bytes n z))) as Hr.
  { apply Forall_rev, le_bytes_range. }
  pose proof (le_of_le _ Hr) as E. rewrite length_rev, length_le_bytes in E.
  by rewrite E, rev_involutive, of_le_le.
Qed.

Lemma byte_swap_inj n x y :
  0 ≤ x < 2 ^ (8 * Z.of_nat n) → 0 ≤ y < 2 ^ (8 * Z.of_nat n) →
  byte_swap n x = byte_swap n y → x = y.
Proof. intros Hx Hy E. by rewrite <- (byte_swap_involutive n x), <- (byte_swap_involutive n y), E. Qed.

Lemma of_le_range l : Forall (λ b, 0 ≤ b < 256) l → 0 ≤ of_le_bytes l < 2 ^ (8 * Z.of_nat (length l)).
Proof.
  induction 1 as [|b l Hb Hl IH]; [simpl; lia|]. cbn [length of_le_bytes].
  rewrite lor_byte by done. replace (8 * Z.of_nat (S (length l))) with (8 * Z.of_nat (length l) + 8) by lia.
  rewrite Z.pow_add_r by lia. lia.
Qed.

Lemma byte_swap_range n z : 0 ≤ byte_swap n z < 2 ^ (8 * Z.of_nat n).
Proof.
  unfold byte_swap. pose proof (of_le_range (rev (le_bytes n z))) as H.
  rewrite length_rev, length_le_bytes in H. apply H, Forall_rev, le_bytes_range.
Qed.

(** ** The text of an address *)

Lemma dec_no_colon z : 0 ≤ z < 10 ^ 20 → Byte.x3a ∉ dec z.
Proof.
  intros Hz Hc. unfold dec in Hc. rewrite (proj2 (Z.ltb_ge z 0)) in Hc by lia.
  destruct (dec_u_20 z Hz) as (_ & Hd & _). rewrite Forall_forall in Hd.
  destruct (Hd _ Hc) as [_ H]. vm_compute in H. congruence.
Qed.

Lemma zlen_dec_lt z k : 0 ≤ z < 10 ^ k → 0 < k ≤ 20 → zlen (dec z) ≤ k.
Proof.
  intros Hz Hk. unfold dec. rewrite (proj2 (Z.ltb_ge z 0)) by lia.
  assert (zlen (dec0 k z) = k) as E by (apply zlen_dec0; lia). unfold dec0 in E.
  rewrite Z.abs_eq, (proj2 (Z.ltb_ge z 0)) in E by lia. rewrite !zlen_app, zlen_nil in E.
  pose proof (zlen_nonneg (replicate (Z.to_nat (k - 0 - zlen (dec_u 20 z))) (digit_byte 0))). lia.
Qed.

Lemma split_at_colon a b c d :
  Byte.x3a ∉ a → Byte.x3a ∉ c → a ++ (Byte.x3a :: b) = c ++ (Byte.x3a :: d) → a = c ∧ b = d.
Proof.
  revert c. induction a as [|x a IH]; intros [|y c] Ha Hc E; simplify_eq/=; [done| | |].
  - destruct Hc. left.
  - destruct Ha. left.
  - apply not_elem_of_cons in Ha as [_ Ha]. apply not_elem_of_cons in Hc as [_ Hc].
    destruct (IH c Ha Hc) as [-> ->]; done.
Qed.

Definition wf_addr (a : sockaddr_in) : Prop :=
  sin_family a = AF_INET ∧ 0 ≤ sin_port a < 2 ^ 16 ∧ 0 ≤ s_addr a < 2 ^ 32.

Section text.
Context (i : inet) (Hi : InetLaws i).

(** The 32 bytes of the buffer are enough. *)
Lemma toHostPort_eq a h :
  wf_addr a → inet_ntop i (s_addr a) = Some h →
  toHostPort i a = h ++ (Byte.x3a :: dec (networkToHost16 (sin_port a))) ∧
  (Byte.x3a ∉ h) ∧ 0 ≤ networkToHost16 (sin_port a) < 2 ^ 16.
Proof using Hi.
  intros (_ & _ & Ha) Hh. pose proof (byte_swap_range 2 (sin_port a)) as Hp.
  fold (networkToHost16 (sin_port a)) in Hp. simpl in Hp.
  split; [|split; [by eapply ntop_no_colon|done]].
  unfold toHostPort, toHostPort_buf, host_text, snprintf_text. rewrite Hh. simpl.
  apply take_ge. destruct (ntop_text i Hi (s_addr a) Ha) as (h' & E' & Hl).
  assert (h' = h) as -> by congruence.
  pose proof (zlen_dec_lt (networkToHost16 (sin_port a)) 5).
  rewrite length_app. simpl. unfold zlen in *. lia.
Qed.

(** The text determines the address. *)
Lemma toHostPort_inj a b : wf_addr a → wf_addr b → toHostPort i a = toHostPort i b → a = b.
Proof using Hi.
  intros Ha Hb E. pose proof Ha as (Hfa & Hpa & Hsa). pose proof Hb as (Hfb & Hpb & Hsb).
  destruct (ntop_text i Hi _ Hsa) as (h & Eh & _). destruct (ntop_text i Hi _ Hsb) as (h' & Eh' & _).
  destruct (toHostPort_eq a h Ha Eh) as (Ea & Hc & Hr).
  destruct (toHostPort_eq b h' Hb Eh') as (Eb & Hc' & Hr').
  rewrite Ea, Eb in E. apply split_at_colon in E as [<- E]; [|done..].
  apply dec_inj in E; [|lia..]. apply byte_swap_inj in E; [|simpl; lia..].
  apply (pton_ntop i Hi) in Eh. apply (pton_ntop i Hi) in Eh'. assert (s_addr a = s_addr b) by congruence.
  destruct a, b; simpl in *. congruence.
Qed.
End text.

(** ** Properties *)

(** C40: the host and port an [InetAddress] is built from are what
    [toHostPort] prints, without truncation in its 32 bytes; different
    addresses print differently; and a host text that is not a dotted address
    (a host name) silently gives the wildcard address 0.0.0.0. *)
Theorem toHostPort_roundtrip i ip a port :
  InetLaws i → inet_ntop i a = Some ip → 0 ≤ a < 2 ^ 32 → 0 ≤ port < 2 ^ 16 →
  toHostPort i (InetAddress_host i ip port) = ip ++ (Byte.x3a :: dec port) ∧
  (∀ b, wf_addr b → toHostPort i b = toHostPort i (InetAddress_host i ip port) →
     b = InetAddress_host i ip port) ∧
  (∀ name, inet_pton i name = None → s_addr (InetAddress_host i name port) = kInaddrAny).
Proof.
  intros Hi Hip Ha Hp.
  assert (InetAddress_host i ip port = mkSockaddr AF_INET (hostToNetwork16 port) a) as E.
  { unfold InetAddress_host, fromHostPort. by rewrite (pton_ntop i Hi a ip Hip). }
  assert (wf_addr (mkSockaddr AF_INET (hostToNetwork16 port) a)) as Hwf.
  { split; [done|]. split; [|done]. apply (byte_swap_range 2). }
  rewrite E. split; [|split].
  - destruct (toHostPort_eq i Hi _ ip Hwf Hip) as (-> & _). do 2 f_equal. simpl.
    by rewrite (byte_swap_involutive 2).
  - intros b Hb Eb. by eapply toHostPort_inj.
  - intros name Hn. unfold InetAddress_host, fromHostPort. by rewrite Hn.
Qed.

(** ** Dotted decimal notation *)

Module Dotted.
Definition dot : byte := Byte.x2e.

Fixpoint join (l : list bytes) : bytes :=
  match l with [] => [] | [x] => x | x :: l' => x ++ (dot :: join l') end.

Fixpoint split_ (l : bytes) : list bytes :=
  match l with
  | [] => [[]]
  | c :: l' =>
      if decide (c = dot) then [] :: split_ l'
      else match split_ l' with [] => [[c]] | p :: ps => (c :: p) :: ps end
  end.

Definition octet (p : bytes) : bool :=
  (0 <=? parse_decimal p) && (parse_decimal p <? 256) && bool_decide (dec (parse_decimal p) = p).

Definition ntop (a : Z) : option bytes := Some (join (dec <$> le_bytes 4 a)).

Definition pton (h : bytes) : option Z :=
  let ps := split_ h in
  if (length ps =? 4)%nat && forallb octet ps then Some (of_le_bytes (parse_decimal <$> ps)) else None.

(** Addresses outside of 32 bits do not exist: [ntop] has no text for them. *)
Definition libc : inet :=
  mkInet (λ a, if (0 <=? a) && (a <? 2 ^ 32) then ntop a else None) pton.

Lemma split_dot x l : dot ∉ x → split_ (x ++ (dot :: l)) = x :: split_ l.
Proof.
  induction x as [|c x IH]; intros Hx; [done|]. apply not_elem_of_cons in Hx as [Hc Hx].
  cbn [app split_]. by rewrite decide_False, (IH Hx) by done.
Qed.

Lemma split_last x : dot ∉ x → split_ x = [x].
Proof.
  induction x as [|c x IH]; intros Hx; [done|]. apply not_elem_of_cons in Hx as [Hc Hx].
  cbn [split_]. by rewrite decide_False, (IH Hx) by done.
Qed.

Lemma dec_octet z : 0 ≤ z < 256 → zlen (dec z) ≤ 3 ∧ (dot ∉ dec z) ∧ (Byte.x3a ∉ dec z) ∧ octet (dec z) = true.
Proof.
  intros Hz. split; [apply zlen_dec_lt; lia|].
  assert (∀ c, is_digit c → c ∉ [dot]) as Hd.
  { intros c [Hc _] ->%list_elem_of_singleton. vm_compute in Hc. congruence. }
  split; [|split; [apply dec_no_colon; lia|]].
  - intros Hin. unfold dec in Hin. rewrite (proj2 (Z.ltb_ge z 0)) in Hin by lia.
    destruct (dec_u_20 z) as (_ & Hf & _); [lia|]. rewrite Forall_forall in Hf.
    apply (Hd dot (Hf _ Hin)). left.
  - unfold octet. rewrite parse_dec by lia. apply andb_true_iff. split; [lia|].
    by apply bool_decide_eq_true_2.
Qed.

Lemma octet_dec z : 0 ≤ z < 256 → octet (dec z) = true.
Proof. apply dec_octet. Qed.

Lemma laws : InetLaws libc.
Proof.
  assert (∀ a h, inet_ntop libc a = Some h → ∃ b0 b1 b2 b3, 0 ≤ a < 2 ^ 32 ∧
            le_bytes 4 a = [b0; b1; b2; b3] ∧ Forall (λ b, 0 ≤ b < 256) [b0; b1; b2; b3] ∧
            h = join [dec b0; dec b1; dec b2; dec b3]) as Hsome.
  { intros a h. simpl inet_ntop. destruct (_ && _) eqn:E; [|done]. intros [= <-].
    apply andb_true_iff in E as [?%Z.leb_le ?%Z.ltb_lt].
    pose proof (le_bytes_range 4 a). do 4 eexists. split; [done|]. split; [done|]. by split. }
  assert (∀ b, 0 ≤ b < 256 → zlen (dec b) ≤ 3) as Hlen by (intros; by apply dec_octet).
  split.
  - intros a Ha. exists (join (dec <$> le_bytes 4 a)). split.
    { simpl. rewrite (proj2 (Z.leb_le 0 a)), (proj2 (Z.ltb_lt a (2 ^ 32))) by lia. done. }
    pose proof (le_bytes_range 4 a) as Hr. simpl le_bytes in *.
    rewrite !Forall_cons in Hr. destruct Hr as (H0 & H1 & H2 & H3 & _).
    apply Hlen in H0, H1, H2, H3. simpl. repeat first [rewrite zlen_app|rewrite zlen_cons]. lia.
  - intros a h (b0 & b1 & b2 & b3 & _ & _ & Hr & ->)%Hsome.
    rewrite !Forall_cons in Hr. destruct Hr as (H0 & H1 & H2 & H3 & _).
    apply dec_octet in H0 as (_ & _ & H0 & _), H1 as (_ & _ & H1 & _), H2 as (_ & _ & H2 & _),
      H3 as (_ & _ & H3 & _).
    simpl. repeat first [rewrite not_elem_of_app|rewrite not_elem_of_cons]. done.
  - intros a h (b0 & b1 & b2 & b3 & Ha & Hl & Hr & ->)%Hsome.
    pose proof Hr as Hr'. rewrite !Forall_cons in Hr. destruct Hr as (H0 & H1 & H2 & H3 & _).
    change (inet_pton libc) with pton. unfold pton.
    assert (split_ (join [dec b0; dec b1; dec b2; dec b3]) = [dec b0; dec b1; dec b2; dec b3]) as ->.
    { cbn [join]. rewrite !split_dot, split_last by (by apply dec_octet). done. }
    rewrite (proj2 (andb_true_iff _ _)).
    2: { split; [done|]. cbn [forallb].
         by rewrite (octet_dec b0), (octet_dec b1), (octet_dec b2), (octet_dec b3) by done. }
    simpl fmap. rewrite !parse_dec by lia. rewrite <- Hl. f_equal. by apply of_le_le.
Qed.
End Dotted.

Lemma toHostPort_roundtrip_witness :
  let a := InetAddress_host Dotted.libc (str "127.0.0.1") 8080 in
  toHostPort Dotted.libc a = str "127.0.0.1:8080" ∧
  (∀ b, wf_addr b → toHostPort Dotted.libc b = toHostPort Dotted.libc a → b = a) ∧
  s_addr (InetAddress_host Dotted.libc (str "localhost") 8080) = kInaddrAny.
Proof.
  assert (inet_ntop Dotted.libc 16777343 = Some (str "127.0.0.1")) as E by (vm_compute; reflexivity).
  destruct (toHostPort_roundtrip Dotted.libc (str "127.0.0.1") 16777343 8080 Dotted.laws E)
    as (H1 & H2 & H3); [lia..|].
  split; [|split; [done|apply H3; vm_compute; reflexivity]].
  rewrite H1. vm_compute. reflexivity.
Defined.
