(* ===== verification/TcpConnection.v ===== *)
(** * TcpConnection: one established connection

    Models src/muduo/net/TcpConnection.h and src/muduo/net/TcpConnection.cpp on
    a loop, its poller and the kernel.  [Net X] is the state they share, with
    [X] the state of the server or client above; connections live in a heap, so
    that a call through a pointer to a destroyed one is the fault [DanglingPtr].

    Client callbacks are recorded in [net_events].  They are the last thing
    every handler but [connectDestroyed] does (there the state is already
    [kDisconnected], which [send] and [shutdown] ignore), so what a client does
    in a callback is a step of its own, taken right after the handler. *)

From S2P Require Import Prelude Callbacks Channel Timestamp.
From S2P Require Poller Buffer.
From S2P Require Import EventLoop Sockets.
Import Buffer (Buffer).

Inductive StateE : Set := kConnecting | kConnected | kDisconnecting | kDisconnected.

#[export] Instance StateE_eq_dec : EqDecision StateE.
Proof. solve_decision. Defined.

Record TcpConnection : Type := mkTcpConnection {
  getLoop : nat;   (* loop_ *)
  name_ : bytes;
  state_ : StateE;
  socket_ : Z;
  channel_ : chan_id;
  localAddr_ : InetAddress;
  peerAddr_ : InetAddress;
  connectionCallback_ : option user_fn;
  messageCallback_ : option user_fn;
  writeCompleteCallback_ : option user_fn;
  closeCallback_ : option close_callback;
  inputBuffer_ : Buffer;
  outputBuffer_ : Buffer;
}.

Section setters.
Context (k : TcpConnection).
Definition setState (s : StateE) : TcpConnection :=
  mkTcpConnection (getLoop k) (name_ k) s (socket_ k) (channel_ k) (localAddr_ k) (peerAddr_ k)
    (connectionCallback_ k) (messageCallback_ k) (writeCompleteCallback_ k) (closeCallback_ k)
    (inputBuffer_ k) (outputBuffer_ k).
Definition setConnectionCallback (cb : option user_fn) : TcpConnection :=
  mkTcpConnection (getLoop k) (name_ k) (state_ k) (socket_ k) (channel_ k) (localAddr_ k) (peerAddr_ k)
    cb (messageCallback_ k) (writeCompleteCallback_ k) (closeCallback_ k)
    (inputBuffer_ k) (outputBuffer_ k).
Definition setMessageCallback (cb : option user_fn) : TcpConnection :=
  mkTcpConnection (getLoop k) (name_ k) (state_ k) (socket_ k) (channel_ k) (localAddr_ k) (peerAddr_ k)
    (connectionCallback_ k) cb (writeCompleteCallback_ k) (closeCallback_ k)
    (inputBuffer_ k) (outputBuffer_ k).
Definition setWriteCompleteCallback (cb : option user_fn) : TcpConnection :=
  mkTcpConnection (getLoop k) (name_ k) (state_ k) (socket_ k) (channel_ k) (localAddr_ k) (peerAddr_ k)
    (connectionCallback_ k) (messageCallback_ k) cb (closeCallback_ k)
    (inputBuffer_ k) (outputBuffer_ k).
Definition setCloseCallback_ (cb : close_callback) : TcpConnection :=
  mkTcpConnection (getLoop k) (name_ k) (state_ k) (socket_ k) (channel_ k) (localAddr_ k) (peerAddr_ k)
    (connectionCallback_ k) (messageCallback_ k) (writeCompleteCallback_ k) (Some cb)
    (inputBuffer_ k) (outputBuffer_ k).
Definition set_inputBuffer (b : Buffer) : TcpConnection :=
  mkTcpConnection (getLoop k) (name_ k) (state_ k) (socket_ k) (channel_ k) (localAddr_ k) (peerAddr_ k)
    (connectionCallback_ k) (messageCallback_ k) (writeCompleteCallback_ k) (closeCallback_ k)
    b (outputBuffer_ k).
Definition set_outputBuffer (b : Buffer) : TcpConnection :=
  mkTcpConnection (getLoop k) (name_ k) (state_ k) (socket_ k) (channel_ k) (localAddr_ k) (peerAddr_ k)
    (connectionCallback_ k) (messageCallback_ k) (writeCompleteCallback_ k) (closeCallback_ k)
    (inputBuffer_ k) b.
End setters.

Definition connected (k : TcpConnection) : bool := bool_decide (state_ k = kConnected).

(** The client's callbacks, as they are called. *)
Inductive client_event : Set :=
  | OnConnection (cb : user_fn) (conn : conn_id)
  | OnMessage (cb : user_fn) (conn : conn_id) (receiveTime : Timestamp)
  | OnWriteComplete (cb : user_fn) (conn : conn_id)
  | OnFunctor (cb : user_fn).

Record Net (X : Type) : Type := mkNet {
  net_loop : EventLoop;
  net_kernel : Kernel;
  net_conns : gmap conn_id TcpConnection;
  net_events : list client_event;
  net_ext : X;
}.
Arguments mkNet {X}.
Arguments net_loop {X}.
Arguments net_kernel {X}.
Arguments net_conns {X}.
Arguments net_events {X}.
Arguments net_ext {X}.

#[export] Instance net_loop_lens {X} : Lens (Net X) EventLoop :=
  {| lget := net_loop;
     lset := λ e s, mkNet e (net_kernel s) (net_conns s) (net_events s) (net_ext s) |}.
#[export] Instance net_kernel_lens {X} : Lens (Net X) Kernel :=
  {| lget := net_kernel;
     lset := λ k s, mkNet (net_loop s) k (net_conns s) (net_events s) (net_ext s) |}.
#[export] Instance net_loop_laws {X} : LensLaws (Net X) EventLoop.
Proof. split; [done| |done]. by intros []. Qed.
#[export] Instance net_kernel_laws {X} : LensLaws (Net X) Kernel.
Proof. split; [done| |done]. by intros []. Qed.

(** The functors that own a [shared_ptr] to the connection; [sendInLoop] and
    [shutdownInLoop] are bound to a raw pointer. *)
Definition held (f : closure) : option conn_id :=
  match f with
  | FnWriteCompleteCallback _ c | FnTcpConnection_connectEstablished c
  | FnTcpConnection_connectDestroyed c | FnTcpConnection_setCloseCallback c _
  | FnTcpServer_removeConnectionInLoop c => Some c
  | _ => None
  end.

Definition holds (c : conn_id) (f : closure) : bool :=
  match held f with Some c' => (c' =? c)%nat | None => false end.

(** The destructor of a functor in a vector: its [shared_ptr] is released,
    unless another functor there has one to the same connection. *)
Definition end_functor {X} (release : conn_id → M (Net X) unit) (others : list closure)
    (f : closure) : M (Net X) unit :=
  match held f with
  | Some c => if existsb (holds c) others then mret () else release c
  | None => mret ()
  end.

(** Functors on one connection: the last one ends it. *)
Lemma destroy_all_shared {X} (release : conn_id → M (Net X) unit) c l f s s' :
  held f = Some c → Forall (λ g, ∀ d, held g = Some d → d = c) l → release c s = Ok (tt, s') →
  destroy_all (end_functor release) (l ++ [f]) s = Ok (tt, s').
Proof.
  intros Hf Hl E. induction Hl as [|g l Hg _ IH]; cbn [destroy_all app].
  - unfold end_functor. rewrite Hf. simpl. by mstep_by (exact E).
  - mstep_by (unfold end_functor; destruct (held g) as [d|]; [|done]; rewrite (Hg d eq_refl);
      rewrite existsb_app; simpl; unfold holds at 2; rewrite Hf, Nat.eqb_refl, !orb_true_r; reflexivity).
    exact IH.
Qed.

(** A dead connection is released for nothing. *)
Lemma end_functor_noop {X} (release : conn_id → M (Net X) unit) l f s :
  (∀ c, release c s = Ok (tt, s)) → end_functor release l f s = Ok (tt, s).
Proof. intros H. unfold end_functor. destruct (held f) as [c|]; [|done]. by destruct (existsb _ l). Qed.

Section operations.
Context {X : Type} (eventfd_write : eventfd_model) (tid : Z).
(** The effect of a [CloseCallback], bound by the server or the client. *)
Context (call_close : close_callback → conn_id → M (Net X) unit).

Abbreviation NM := (M (Net X)).

(** ** Access to the objects *)

Definition conn (c : conn_id) : NM TcpConnection :=
  s ← get; deref DanglingPtr (net_conns s !! c).

Definition set_conn (c : conn_id) (k : TcpConnection) : NM unit :=
  modify (λ s, mkNet (net_loop s) (net_kernel s) (<[c := k]> (net_conns s)) (net_events s) (net_ext s)).

Definition record (ev : client_event) : NM unit :=
  modify (λ s, mkNet (net_loop s) (net_kernel s) (net_conns s) (net_events s ++ [ev]) (net_ext s)).

(** The connection's channel. *)
Definition conn_channel (c : conn_id) : NM channel :=
  k ← conn c; on_poller (Poller.chan (channel_ k)).

Definition on_output {A} (c : conn_id) (m : M Buffer A) : NM A :=
  k ← conn c;
  '(a, b) ← lift (m (outputBuffer_ k));
  set_conn c (set_outputBuffer k b) ;;
  mret a.

Definition on_input {A} (c : conn_id) (m : M Buffer A) : NM A :=
  k ← conn c;
  '(a, b) ← lift (m (inputBuffer_ k));
  set_conn c (set_inputBuffer k b) ;;
  mret a.

(** Calling a [std::function] that may be empty. *)
Definition call_user (cb : option user_fn) (ev : user_fn → client_event) : NM unit :=
  u ← deref BadFunctionCall cb; record (ev u).

Definition queue_write_complete (c : conn_id) : NM unit :=
  k ← conn c;
  match writeCompleteCallback_ k with
  | Some u => zoom (queueInLoop eventfd_write tid (FnWriteCompleteCallback u c))
  | None => mret ()
  end.

(** ** Operations *)

(** The channel of a new connection, with its callbacks. *)
Definition conn_new_channel (c : conn_id) (loop : nat) (sockfd : Z) : channel :=
  setErrorCallback
    (setCloseCallback
      (setWriteCallback
        (setWReadCallback (Channel_new loop sockfd) (FnTcpConnection_handleRead c))
        (FnTcpConnection_handleWrite c))
      (FnTcpConnection_handleClose c))
    (FnTcpConnection_handleError c).

(** [TcpConnection::TcpConnection], at address [c], with its channel at [ch]. *)
Definition TcpConnection_new (loop : nat) (c : conn_id) (ch : chan_id) (nameArg : bytes) (sockfd : Z)
    (localAddr peerAddr : InetAddress) : NM unit :=
  s ← get;
  if decide (is_Some (net_conns s !! c) ∨ is_Some (Poller.chans (poller_ (net_loop s)) !! ch))
  then fail BadAlloc else
  on_poller (modify (Poller.set_chan ch (conn_new_channel c loop sockfd))) ;;
  set_conn c (mkTcpConnection loop nameArg kConnecting sockfd ch localAddr peerAddr
                None None None None Buffer.Buffer_new Buffer.Buffer_new).

(** The end of the last [shared_ptr]: [channel_] and [socket_] go with it. *)
Definition TcpConnection_delete (c : conn_id) : NM unit :=
  k ← conn c;
  on_poller (Poller.Channel_delete (channel_ k)) ;;
  zoom (close (socket_ k)) ;;
  modify (λ s, mkNet (net_loop s) (net_kernel s) (delete c (net_conns s)) (net_events s) (net_ext s)).

Definition sendInLoop (c : conn_id) (message : bytes) : NM unit :=
  zoom (assertInLoopThread tid) ;;
  k ← conn c;
  ch ← conn_channel c;
  nwrote ←
    (if negb (isWriting ch) && (Buffer.readableBytes (outputBuffer_ k) =? 0) then
       n ← zoom (sys_write (fd_ ch) message);
       if 0 <=? n then
         (if n <? zlen message then mret () else queue_write_complete c) ;;
         mret n
       else mret 0
     else mret 0);
  assert_ (0 <=? nwrote) ;;
  if nwrote <? zlen message then
    on_output c (Buffer.append (drop (Z.to_nat nwrote) message)) ;;
    ch ← conn_channel c;
    if negb (isWriting ch) then zoom (change_mask tid EnableWriting (channel_ k)) else mret ()
  else mret ().

Definition shutdownInLoop (c : conn_id) : NM unit :=
  zoom (assertInLoopThread tid) ;;
  k ← conn c;
  ch ← conn_channel c;
  if negb (isWriting ch) then zoom (shutdownWrite (socket_ k)) else mret ().

(** The function values this class passes to [runInLoop]. *)
Definition call_bound (f : closure) : NM unit :=
  match f with
  | FnTcpConnection_sendInLoop c message => sendInLoop c message
  | FnTcpConnection_shutdownInLoop c => shutdownInLoop c
  | _ => fail BadFunctionCall
  end.

Definition send (c : conn_id) (message : bytes) : NM unit :=
  k ← conn c;
  if decide (state_ k = kConnected) then
    e ← zoom get;
    if isInLoopThread tid e then sendInLoop c message
    else runInLoop eventfd_write tid call_bound (FnTcpConnection_sendInLoop c message)
  else mret ().

Definition shutdown (c : conn_id) : NM unit :=
  k ← conn c;
  if decide (state_ k = kConnected) then
    set_conn c (setState k kDisconnecting) ;;
    runInLoop eventfd_write tid call_bound (FnTcpConnection_shutdownInLoop c)
  else mret ().

Definition conn_setTcpNoDelay (c : conn_id) (on : bool) : NM unit :=
  k ← conn c; zoom (setTcpNoDelay (socket_ k) on).

Definition connectEstablished (c : conn_id) : NM unit :=
  zoom (assertInLoopThread tid) ;;
  k ← conn c;
  assert_ (bool_decide (state_ k = kConnecting)) ;;
  set_conn c (setState k kConnected) ;;
  zoom (change_mask tid EnableReading (channel_ k)) ;;
  call_user (connectionCallback_ k) (λ u, OnConnection u c).

Definition connectDestroyed (c : conn_id) : NM unit :=
  zoom (assertInLoopThread tid) ;;
  k ← conn c;
  assert_ (bool_decide (state_ k = kConnected) || bool_decide (state_ k = kDisconnecting)) ;;
  set_conn c (setState k kDisconnected) ;;
  zoom (change_mask tid DisableAll (channel_ k)) ;;
  call_user (connectionCallback_ k) (λ u, OnConnection u c) ;;
  zoom (removeChannel tid (channel_ k)).

Definition handleClose (c : conn_id) : NM unit :=
  zoom (assertInLoopThread tid) ;;
  k ← conn c;
  assert_ (bool_decide (state_ k = kConnected) || bool_decide (state_ k = kDisconnecting)) ;;
  zoom (change_mask tid DisableAll (channel_ k)) ;;
  cb ← deref BadFunctionCall (closeCallback_ k);
  call_close cb c.

(** Logs the pending error of the socket. *)
Definition handleError (c : conn_id) : NM unit :=
  ch ← conn_channel c; zoom (getSocketError (fd_ ch)) ;; mret ().

Definition handleRead (c : conn_id) (receiveTime : Timestamp) : NM unit :=
  k ← conn c;
  ch ← conn_channel c;
  r ← zoom (sys_readv (fd_ ch) (Buffer.writableBytes (inputBuffer_ k) + Buffer.extrabuf_size));
  '(n, _) ← on_input c (Buffer.readfd (match r with
                                      | inl errno => Buffer.ReadvFail errno
                                      | inr data => Buffer.ReadvOk data
                                      end));
  if 0 <? n then call_user (messageCallback_ k) (λ u, OnMessage u c receiveTime)
  else if n =? 0 then handleClose c
  else handleError c.

Definition handleWrite (c : conn_id) : NM unit :=
  zoom (assertInLoopThread tid) ;;
  k ← conn c;
  ch ← conn_channel c;
  if isWriting ch then
    data ← lift (mem_read (Buffer.peek (outputBuffer_ k)) (Buffer.readableBytes (outputBuffer_ k))
                   (Buffer.buffer_ (outputBuffer_ k)));
    n ← zoom (sys_write (fd_ ch) data);
    if 0 <? n then
      on_output c (Buffer.retrieve n) ;;
      k ← conn c;
      if Buffer.readableBytes (outputBuffer_ k) =? 0 then
        zoom (change_mask tid DisableWriting (channel_ k)) ;;
        queue_write_complete c ;;
        if decide (state_ k = kDisconnecting) then shutdownInLoop c else mret ()
      else mret ()
    else mret ()
  else mret ().
End operations.

(** ** Invariant of an established connection *)

(** The callbacks of [conn_new_channel]. *)
Definition handlers_of (c : conn_id) (ch : channel) : Prop :=
  readCallback_ ch = Some (FnTcpConnection_handleRead c) ∧
  writeCallback_ ch = Some (FnTcpConnection_handleWrite c) ∧
  Channel.closeCallback_ ch = Some (FnTcpConnection_handleClose c) ∧
  errorCallback_ ch = Some (FnTcpConnection_handleError c).

Record est (c : conn_id) (e : EventLoop) (cs : gmap conn_id TcpConnection)
    (k : TcpConnection) (ch : channel) (i : nat) (p : Poller.pollfd) : Prop := mkEst {
  est_conn : cs !! c = Some k;
  est_reg : Poller.registered (poller_ e) (channel_ k) ch i p;
  est_poller : Poller.inv (poller_ e);
  est_loop : loop_ ch = this_ e;
  est_getLoop : getLoop k = this_ e;
  est_fd : fd_ ch = socket_ k;
  est_mask : no_reads (events_ ch);
  est_handlers : handlers_of c ch;
  est_in : Buffer.inv (inputBuffer_ k);
  est_out : Buffer.inv (outputBuffer_ k);
  est_cbs : is_Some (connectionCallback_ k) ∧ is_Some (messageCallback_ k) ∧
            is_Some (closeCallback_ k);
  est_state : state_ k = kConnected ∨ state_ k = kDisconnecting;
}.

(** Two connections have two channels. *)
Lemma est_channel_ne c d e cs k ch i p kd chd j q :
  est c e cs k ch i p → est d e cs kd chd j q → d ≠ c → channel_ kd ≠ channel_ k.
Proof.
  intros [] [] Hne E. destruct est_reg0 as (H1 & _), est_reg1 as (H2 & _), est_handlers0 as (H3 & _),
    est_handlers1 as (H4 & _). congruence.
Qed.

(** What work on connection [c] leaves alone: the other connections, and which
    descriptors are watched. *)
Record frame {X} (c : conn_id) (s s' : Net X) : Prop := mkFrame {
  fr_slots : zlen (Poller.pollfds_ (poller_ (net_loop s'))) = zlen (Poller.pollfds_ (poller_ (net_loop s)));
  fr_channels : Poller.channels_ (poller_ (net_loop s')) = Poller.channels_ (poller_ (net_loop s));
  fr_this : this_ (net_loop s') = this_ (net_loop s);
  fr_others d kd chd j q : d ≠ c →
    est d (net_loop s) (net_conns s) kd chd j q → est d (net_loop s') (net_conns s') kd chd j q;
}.

(** What stays the same about a connection. *)
Definition fixed (k k' : TcpConnection) : Prop :=
  socket_ k' = socket_ k ∧ channel_ k' = channel_ k ∧ name_ k' = name_ k ∧
  getLoop k' = getLoop k ∧
  connectionCallback_ k' = connectionCallback_ k ∧ messageCallback_ k' = messageCallback_ k ∧
  closeCallback_ k' = closeCallback_ k.

Lemma fixed_trans a b d : fixed a b → fixed b d → fixed a d.
Proof. unfold fixed. intuition congruence. Qed.

(** [SHUT_WR] was issued for a descriptor. *)
Definition shut (fd : Z) (k : Kernel) : Prop := SysShutdownWrite fd ∈ (trace k).*1.

(** The kernel after one more call. *)
Definition logged (k : Kernel) (sc : syscall) (r : Z) : Kernel :=
  mkKernel (answer k) (answer_data k) (answer_addr k) (trace k ++ [(sc, r)]).

Lemma sent_logged fd k sc r : sent fd (logged k sc r) = sent fd k ++ sent_of fd (sc, r).
Proof. unfold sent. simpl. rewrite fmap_app, concat_app. simpl. by rewrite app_nil_r. Qed.

Lemma shut_logged fd k sc r : shut fd (logged k sc r) ↔ shut fd k ∨ sc = SysShutdownWrite fd.
Proof.
  unfold shut. simpl. rewrite fmap_app, elem_of_app. simpl. rewrite list_elem_of_singleton.
  naive_solver.
Qed.

#[export] Instance shut_dec fd k : Decision (shut fd k).
Proof. unfold shut. apply _. Defined.

Lemma shut_other fd k sc r : sc ≠ SysShutdownWrite fd → shut fd (logged k sc r) ↔ shut fd k.
Proof. rewrite shut_logged. naive_solver. Qed.

Section primitives.
Context {X : Type} (ew : eventfd_model) (tid : Z).
Implicit Types s : Net X.

Definition upd_conn (c : conn_id) (k : TcpConnection) (s : Net X) : Net X :=
  mkNet (net_loop s) (net_kernel s) (<[c := k]> (net_conns s)) (net_events s) (net_ext s).

Lemma conn_ok c s k : net_conns s !! c = Some k → conn c s = Ok (k, s).
Proof. intros H. unfold conn. mstep. by rewrite H. Qed.

Lemma conn_channel_at c s k ch :
  net_conns s !! c = Some k → Poller.chans (poller_ (net_loop s)) !! channel_ k = Some ch →
  conn_channel c s = Ok (ch, s).
Proof. intros Hk Hch. unfold conn_channel. mstep_by (by apply conn_ok). by apply on_poller_chan. Qed.

Lemma conn_channel_ok c s k ch i p :
  est c (net_loop s) (net_conns s) k ch i p → conn_channel c s = Ok (ch, s).
Proof. intros []. apply (conn_channel_at c s k); [done|apply est_reg0]. Qed.

Lemma on_output_ok {A} c s k (m : M Buffer A) a b :
  net_conns s !! c = Some k → m (outputBuffer_ k) = Ok (a, b) →
  on_output c m s = Ok (a, upd_conn c (set_outputBuffer k b) s).
Proof. intros H E. unfold on_output. mstep_by (by apply conn_ok). by rewrite bind_unfold, E. Qed.

Lemma on_input_ok {A} c s k (m : M Buffer A) a b :
  net_conns s !! c = Some k → m (inputBuffer_ k) = Ok (a, b) →
  on_input c m s = Ok (a, upd_conn c (set_inputBuffer k b) s).
Proof. intros H E. unfold on_input. mstep_by (by apply conn_ok). by rewrite bind_unfold, E. Qed.

Lemma loop_check_ok s : zoom (S:=Net X) (assertInLoopThread tid) s = Ok (tt, s).
Proof. rewrite (zoom_ok _ _ _ _ (assertInLoopThread_noop tid _)). by rewrite lset_lget. Qed.

Lemma loop_get_ok s : zoom (S:=Net X) get s = Ok (net_loop s, s).
Proof. by destruct s. Qed.

Lemma queue_write_complete_ok c s k :
  net_conns s !! c = Some k →
  ∃ e, queue_write_complete ew tid c s = Ok (tt, lset e s) ∧ same_loop (net_loop s) e.
Proof.
  intros Hc. unfold queue_write_complete. mstep_by (by apply conn_ok).
  destruct (writeCompleteCallback_ k) as [u|].
  - destruct (queueInLoop_frame ew tid (FnWriteCompleteCallback u c) (lget s)) as (e & E & Hf & _).
    exists e. split; [|done]. by rewrite (zoom_ok _ _ _ _ E).
  - exists (net_loop s). split; [by destruct s|done].
Qed.

(** ** How the invariant is kept *)

Lemma est_same_loop c e e' cs k ch i p :
  same_loop e e' → est c e cs k ch i p → est c e' cs k ch i p.
Proof. intros (Hp & Ht & _) []. split; rewrite ?Hp, ?Ht; done. Qed.

Lemma est_output c e cs k ch i p b :
  est c e cs k ch i p → Buffer.inv b →
  est c e (<[c := set_outputBuffer k b]> cs) (set_outputBuffer k b) ch i p.
Proof. intros [] Hb. split; simpl; try done. apply lookup_insert_eq. Qed.

Lemma est_input c e cs k ch i p b :
  est c e cs k ch i p → Buffer.inv b →
  est c e (<[c := set_inputBuffer k b]> cs) (set_inputBuffer k b) ch i p.
Proof. intros [] Hb. split; simpl; try done. apply lookup_insert_eq. Qed.

Lemma est_disconnecting c e cs k ch i p :
  est c e cs k ch i p →
  est c e (<[c := setState k kDisconnecting]> cs) (setState k kDisconnecting) ch i p.
Proof. intros []. split; simpl; try done; [apply lookup_insert_eq|by right]. Qed.

Lemma isWriting_none ch : events_ ch = kNoneEvent → isWriting ch = false.
Proof. unfold isWriting. by intros ->. Qed.

Lemma frame_same c s s' : net_loop s' = net_loop s → net_conns s' = net_conns s → frame c s s'.
Proof. intros El Ec. split; rewrite ?El, ?Ec; done. Qed.

Lemma frame_trans c s1 s2 s3 : frame c s1 s2 → frame c s2 s3 → frame c s1 s3.
Proof. intros [] []. split; try congruence. auto. Qed.

Lemma frame_upd_conn c s s' k :
  net_loop s' = net_loop s → net_conns s' = <[c := k]> (net_conns s) → frame c s s'.
Proof.
  intros El Ec. split; rewrite ?El, ?Ec; try done.
  intros d kd chd j q Hd []. split; try done. by rewrite lookup_insert_ne.
Qed.

Lemma frame_same_loop c s s' :
  same_loop (net_loop s) (net_loop s') → net_conns s' = net_conns s → frame c s s'.
Proof.
  intros Hl Ec. pose proof Hl as (Hp & Ht & _). split; rewrite ?Hp, ?Ht, ?Ec; try done.
  intros d kd chd j q _. by apply est_same_loop.
Qed.

(** Changing the mask; a slot that was switched off stays so. *)
Lemma est_change_mask o c s k ch i p :
  est c (net_loop s) (net_conns s) k ch i p →
  let ch' := set_events ch (mask_update o (events_ ch)) in
  ∃ e p', zoom (change_mask tid o (channel_ k)) s = Ok (tt, lset e s) ∧
    est c e (net_conns s) k ch' i p' ∧ threadId_ e = threadId_ (net_loop s) ∧ frame c s (lset e s) ∧
    e = set_poller (net_loop s) (poller_ e) ∧
    (Poller.fd p < 0 ∨ events_ ch' = kNoneEvent → Poller.fd p' < 0).
Proof.
  intros He ch'. pose proof He as [].
  destruct (change_mask_registered tid o (channel_ k) (net_loop s) ch i p)
    as (q & E & Hq & Hr & Hz & Hm & Ho & _); [done..|].
  exists (set_poller (net_loop s) q), (Poller.updated_pollfd ch' p). split; [by apply zoom_ok|].
  split; [|split; [done|split; [|split; [done|]]]].
  - split; try done. by apply mask_update_reachable.
  - split; try done. intros d kd chd j pd Hd Hed. pose proof (est_channel_ne _ _ _ _ _ _ _ _ _ _ _ _ He Hed Hd).
    destruct Hed. split; try done. by apply Ho.
  - unfold Poller.updated_pollfd. destruct (isNoneEvent ch') eqn:Hn; simpl.
    + destruct est_reg0 as (_ & _ & _ & _ & _ & Hf). lia.
    + intros [H|H]; [done|]. apply (isNoneEvent_iff ch') in H. congruence.
Qed.
End primitives.

#[export] Hint Extern 0 (frame _ _ _) =>
  first [apply frame_same; reflexivity | eapply frame_upd_conn; reflexivity] : core.

(** ** What one handler does to the byte stream *)

(** The stream of a connection: what the socket took, then what is buffered. *)
Definition stream (k : TcpConnection) (n : Kernel) : bytes :=
  sent (socket_ k) n ++ Buffer.content (outputBuffer_ k).

(** The calls of connection callbacks so far. *)
Definition is_connection (ev : client_event) : bool :=
  match ev with OnConnection _ _ => true | _ => false end.
Definition announced {X} (s : Net X) : list client_event := filter is_connection (net_events s).

(** From [(s, k, ch, p)] to [(s', k', ch', p')]: [msg] joins the stream and at
    most [cost] bytes the buffers. *)
Record progress {X} (c : conn_id) (i : nat) (msg : bytes) (cost : Z)
    (s : Net X) (k : TcpConnection) (p : Poller.pollfd)
    (s' : Net X) (k' : TcpConnection) (ch' : channel) (p' : Poller.pollfd) : Prop := mkProgress {
  pr_est : est c (net_loop s') (net_conns s') k' ch' i p';
  pr_fixed : fixed k k';
  pr_stream : stream k' (net_kernel s') = stream k (net_kernel s) ++ msg;
  pr_off : Poller.fd p < 0 → Poller.fd p' < 0;
  pr_cost : Buffer.writeIndex (inputBuffer_ k') + Buffer.writeIndex (outputBuffer_ k') ≤
            Buffer.writeIndex (inputBuffer_ k) + Buffer.writeIndex (outputBuffer_ k) + cost;
  pr_data : answer_data (net_kernel s') = answer_data (net_kernel s);
  pr_tid : threadId_ (net_loop s') = threadId_ (net_loop s);
  pr_announced : announced s' = announced s;
  pr_frame : frame c s s';
}.

Lemma progress_trans {X} c i m1 m2 n1 n2 (s s1 s2 : Net X) k k1 k2 p ch1 p1 ch2 p2 :
  progress c i m1 n1 s k p s1 k1 ch1 p1 → progress c i m2 n2 s1 k1 p1 s2 k2 ch2 p2 →
  progress c i (m1 ++ m2) (n1 + n2) s k p s2 k2 ch2 p2.
Proof.
  intros [] []. split; try done; try congruence; try lia.
  - by eapply fixed_trans.
  - by rewrite pr_stream1, pr_stream0, app_assoc.
  - by eapply frame_trans.
Qed.

(** Before or after steps that add nothing. *)
Lemma progress_then {X} c i m n (s s1 s2 : Net X) k k1 k2 p ch1 p1 ch2 p2 :
  progress c i m n s k p s1 k1 ch1 p1 → progress c i [] 0 s1 k1 p1 s2 k2 ch2 p2 →
  progress c i m n s k p s2 k2 ch2 p2.
Proof.
  intros P1 P2. pose proof (progress_trans _ _ _ _ _ _ _ _ _ _ _ _ _ _ _ _ _ P1 P2) as P.
  by rewrite app_nil_r, Z.add_0_r in P.
Qed.

Lemma progress_after {X} c i m n (s s1 s2 : Net X) k k1 k2 p ch1 p1 ch2 p2 :
  progress c i [] 0 s k p s1 k1 ch1 p1 → progress c i m n s1 k1 p1 s2 k2 ch2 p2 →
  progress c i m n s k p s2 k2 ch2 p2.
Proof. apply progress_trans. Qed.

Lemma zlen_nil_inv {A} (l : list A) : zlen l ≤ 0 → l = [].
Proof. intros. apply zlen_zero_inv. pose proof (zlen_nonneg l). lia. Qed.

(** Bytes written at once overtake nothing. *)
Lemma reorder (done_ out message : bytes) n :
  0 ≤ n → (0 < n → out = []) →
  ((done_ ++ take (Z.to_nat n) message) ++ out) ++ drop (Z.to_nat n) message = (done_ ++ out) ++ message.
Proof.
  intros Hn Ho. destruct (decide (n = 0)) as [->|].
  - by rewrite app_nil_r.
  - rewrite Ho, !app_nil_r by lia. by rewrite <- app_assoc, take_drop.
Qed.

Section handlers.
Context {X : Type} (ew : eventfd_model) (tid : Z).
Context (call_close : close_callback → conn_id → M (Net X) unit).
Implicit Types s : Net X.

(** The two halves of [sendInLoop]: write at once, then buffer the rest. *)
Lemma send_rest c s k ch i p rest :
  est c (net_loop s) (net_conns s) k ch i p → rest ≠ [] →
  Buffer.writeIndex (outputBuffer_ k) + zlen rest ≤ PTRDIFF_MAX →
  ∃ s' k' ch' p',
    (on_output c (Buffer.append rest) ;;
     ch ← conn_channel c;
     if negb (isWriting ch) then zoom (change_mask tid EnableWriting (channel_ k)) else mret ()) s =
      Ok (tt, s') ∧
    progress c i rest (zlen rest) s k p s' k' ch' p' ∧ state_ k' = state_ k ∧
    net_kernel s' = net_kernel s ∧ isWriting ch' = true.
Proof.
  intros He Hne Hsz. pose proof He as [].
  destruct (Buffer.append_spec _ rest est_out0 Hsz) as (b & Eb & Hb & Hcb & Hwb).
  set (k1 := set_outputBuffer k b). set (s1 := upd_conn c k1 s).
  assert (est c (net_loop s1) (net_conns s1) k1 ch i p) as He1 by by apply est_output.
  mstep_by (by apply on_output_ok). fold k1. fold s1. mstep_by (by eapply conn_channel_ok).
  destruct (isWriting ch) eqn:Hwr; simpl.
  - exists s1, k1, ch, p. split; [done|]. split; [|done]. split; try done.
    + unfold stream, k1; simpl. by rewrite Hcb, app_assoc.
    + unfold k1; simpl. lia.
  - destruct (est_change_mask tid EnableWriting c s1 k1 ch i p He1) as (e & p' & E & He' & Ht & Hfr & _ & Hoff).
    eexists _, k1, _, p'. split; [exact E|]. split; [|split; [done|split; [done|]]].
    + split; try done.
      * unfold stream, k1; simpl. by rewrite Hcb, app_assoc.
      * auto.
      * unfold k1; simpl. lia.
      * by eapply frame_trans, Hfr.
    + unfold isWriting; simpl. by destruct est_mask0 as [-> | ->].
Qed.
Lemma est_kernel c s k ch i p n :
  est c (net_loop s) (net_conns s) k ch i p →
  est c (net_loop (lset n s)) (net_conns (lset (C:=Kernel) n s)) k ch i p.
Proof. done. Qed.

Lemma readable_zero k : Buffer.inv (outputBuffer_ k) →
  (Buffer.readableBytes (outputBuffer_ k) =? 0) = bool_decide (Buffer.content (outputBuffer_ k) = []).
Proof.
  intros Hb. rewrite <- Buffer.content_readable by done.
  destruct (Buffer.content (outputBuffer_ k)); [done|]. rewrite zlen_cons.
  rewrite bool_decide_eq_false_2 by done. pose proof (zlen_nonneg l). lia.
Qed.

(** The direct write of [sendInLoop]. *)
Definition write_now (c : conn_id) (k : TcpConnection) (ch : channel) (message : bytes) :
    M (Net X) Z :=
  if negb (isWriting ch) && (Buffer.readableBytes (outputBuffer_ k) =? 0) then
    n ← zoom (sys_write (fd_ ch) message);
    if 0 <=? n then
      (if n <? zlen message then mret () else queue_write_complete ew tid c) ;;
      mret n
    else mret 0
  else mret 0.

Lemma write_now_spec c s k ch i p message :
  est c (net_loop s) (net_conns s) k ch i p →
  ∃ n s', write_now c k ch message s = Ok (n, s') ∧ 0 ≤ n ≤ zlen message ∧
    est c (net_loop s') (net_conns s') k ch i p ∧ net_conns s' = net_conns s ∧
    sent (socket_ k) (net_kernel s') =
      sent (socket_ k) (net_kernel s) ++ take (Z.to_nat n) message ∧
    answer_data (net_kernel s') = answer_data (net_kernel s) ∧
    threadId_ (net_loop s') = threadId_ (net_loop s) ∧ announced s' = announced s ∧
    (∀ fd, shut fd (net_kernel s') ↔ shut fd (net_kernel s)) ∧
    (0 < n → Buffer.content (outputBuffer_ k) = []) ∧ frame c s s'.
Proof.
  intros He. pose proof He as []. unfold write_now. rewrite readable_zero by done.
  pose proof (zlen_nonneg message) as Hz.
  destruct (negb (isWriting ch) && bool_decide (Buffer.content (outputBuffer_ k) = [])) eqn:Hc.
  2: { exists 0, s. rewrite app_nil_r. split_and!; done || lia. }
  apply andb_true_iff in Hc as [_ Hc%bool_decide_eq_true].
  set (n := Z.min (answer (net_kernel s) (calls (net_kernel s))) (zlen message)).
  set (k1 := logged (net_kernel s) (SysWrite (fd_ ch) message) n).
  assert (zoom (S:=Net X) (sys_write (fd_ ch) message) s = Ok (n, lset k1 s)) as E by done.
  assert (∀ m, m = Z.max 0 n → sent (socket_ k) k1 = sent (socket_ k) (net_kernel s) ++ take (Z.to_nat m) message)
    as Hsent.
  { intros m ->. unfold k1. rewrite sent_logged. simpl. rewrite est_fd0, Z.eqb_refl.
    by assert (Z.to_nat n = Z.to_nat (Z.max 0 n)) as -> by lia. }
  assert (∀ fd, shut fd k1 ↔ shut fd (net_kernel s)) as Hshut.
  { intros fd. by apply shut_other. }
  mstep_by (exact E). destruct (Z.leb_spec 0 n).
  - destruct (Z.ltb_spec n (zlen message)).
    + mstep. exists n, (lset k1 s). split_and!; try done; [lia|]. apply Hsent. lia.
    + destruct (queue_write_complete_ok ew tid c (lset k1 s) k) as (e & Eq & Hl); [done|].
      mstep_by (exact Eq). exists n, (lset e (lset k1 s)). split; [done|]. split; [lia|].
      split; [by eapply est_same_loop|]. split_and!; try done; [apply Hsent; lia|by destruct Hl as (_ & _ & Hl)|].
      by apply frame_same_loop.
  - exists 0, (lset k1 s). split_and!; try done; try lia. apply Hsent. lia.
Qed.

Lemma sendInLoop_spec c s k ch i p message :
  est c (net_loop s) (net_conns s) k ch i p →
  Buffer.writeIndex (outputBuffer_ k) + zlen message ≤ PTRDIFF_MAX →
  ∃ s' k' ch' p', sendInLoop ew tid c message s = Ok (tt, s') ∧
    progress c i message (zlen message) s k p s' k' ch' p' ∧ state_ k' = state_ k ∧
    (∀ fd, shut fd (net_kernel s') ↔ shut fd (net_kernel s)) ∧
    (isWriting ch' = false →
       isWriting ch = false ∧ Buffer.content (outputBuffer_ k') = Buffer.content (outputBuffer_ k) ∧
       (message = [] ∨ Buffer.content (outputBuffer_ k) = [])).
Proof.
  intros He Hsz. pose proof He as [].
  destruct (write_now_spec c s k ch i p message He)
    as (n & s1 & E1 & Hn & He1 & Hcs & Hs1 & Hd1 & Ht1 & Han1 & Hsh1 & Hpos & Hfr1).
  unfold sendInLoop. mstep_by (apply loop_check_ok). mstep_by (by apply conn_ok).
  mstep_by (by eapply conn_channel_ok). fold (write_now c k ch message). mstep_by (exact E1).
  unfold assert_. rewrite (proj2 (Z.leb_le 0 n)) by lia. mstep.
  set (rest := drop (Z.to_nat n) message).
  assert (message = take (Z.to_nat n) message ++ rest) as Hm by (symmetry; apply take_drop).
  destruct (Z.ltb_spec n (zlen message)).
  - assert (zlen rest = zlen message - n) as Hr.
    { unfold rest, zlen in *. rewrite length_drop. lia. }
    assert (rest ≠ []) as Hrn by (intros Hnil; rewrite Hnil, zlen_nil in Hr; lia).
    destruct (send_rest c s1 k ch i p rest He1 Hrn) as (s2 & k2 & ch2 & p2 & E2 & [] & Hst & Hk & Hwr); [lia|].
    exists s2, k2, ch2, p2. split; [exact E2|]. split; [|split; [done|split]].
    + split; try done; try congruence; try lia.
      * rewrite pr_stream0. unfold stream. rewrite Hs1. apply reorder; [lia|done].
      * by eapply frame_trans.
    + by rewrite Hk.
    + congruence.
  - assert (rest = []) as Hrn.
    { apply zlen_nil_inv. unfold rest, zlen in *. rewrite length_drop. lia. }
    exists s1, k, ch, p. split; [done|]. split; [|split; [done|split; [done|]]].
    + split; try done; try lia. unfold stream. rewrite Hs1.
      rewrite <- (reorder (sent (socket_ k) (net_kernel s)) _ message n) by (done || lia).
      fold rest. by rewrite Hrn, app_nil_r.
    + intros Hw. split; [done|]. split; [done|].
      destruct (decide (n = 0)) as [->|]; [left; by rewrite Hm, Hrn|right; apply Hpos; lia].
Qed.
(** A call that is logged and nothing more. *)
Lemma progress_logged c s k ch i p sc r :
  est c (net_loop s) (net_conns s) k ch i p → sent_of (socket_ k) (sc, r) = [] →
  progress c i [] 0 s k p (lset (logged (net_kernel s) sc r) s) k ch p.
Proof.
  intros He Hs. split; try done; try lia. unfold stream. simpl.
  by rewrite sent_logged, Hs, !app_nil_r.
Qed.

Lemma progress_refl c s k ch i p :
  est c (net_loop s) (net_conns s) k ch i p → progress c i [] 0 s k p s k ch p.
Proof. intros He. split; try done; try lia. by rewrite app_nil_r. Qed.

Lemma shutdownInLoop_spec c s k ch i p :
  est c (net_loop s) (net_conns s) k ch i p →
  ∃ s', shutdownInLoop tid c s = Ok (tt, s') ∧ progress c i [] 0 s k p s' k ch p ∧
    (∀ fd, shut fd (net_kernel s') ↔
       shut fd (net_kernel s) ∨ (fd = socket_ k ∧ isWriting ch = false)).
Proof.
  intros He. pose proof He as []. unfold shutdownInLoop. mstep_by (apply loop_check_ok).
  mstep_by (by apply conn_ok). mstep_by (by eapply conn_channel_ok).
  destruct (isWriting ch); simpl.
  - exists s. split; [done|]. split; [by apply progress_refl|]. naive_solver.
  - eexists. split; [reflexivity|]. split; [by apply (progress_logged c s k ch i p (SysShutdownWrite (socket_ k)))|].
    intros fd. etrans; [apply (shut_logged fd (net_kernel s))|]. naive_solver.
Qed.

Lemma shutdown_spec c s k ch i p :
  est c (net_loop s) (net_conns s) k ch i p → threadId_ (net_loop s) = tid →
  ∃ s' k', shutdown ew tid c s = Ok (tt, s') ∧ progress c i [] 0 s k p s' k' ch p ∧
    state_ k' = kDisconnecting ∧ Buffer.content (outputBuffer_ k') = Buffer.content (outputBuffer_ k) ∧
    (∀ fd, shut fd (net_kernel s') ↔
       shut fd (net_kernel s) ∨ (fd = socket_ k ∧ state_ k = kConnected ∧ isWriting ch = false)).
Proof.
  intros He Ht. pose proof He as []. unfold shutdown. mstep_by (by apply conn_ok).
  destruct (decide (state_ k = kConnected)) as [Hst|Hst].
  - set (k1 := setState k kDisconnecting). set (s1 := upd_conn c k1 s).
    assert (est c (net_loop s1) (net_conns s1) k1 ch i p) as He1 by by apply est_disconnecting.
    destruct (shutdownInLoop_spec c s1 k1 ch i p He1) as (s2 & E2 & [] & Hsh).
    exists s2, k1. split; [|split; [split; try done; by eapply frame_trans, pr_frame0|split; [done|split; [done|]]]].
    + erewrite bind_step by done. fold s1. unfold runInLoop. mstep_by reflexivity.
      unfold isInLoopThread. simpl. rewrite Ht, Z.eqb_refl. exact E2.
    + intros fd. simpl in *. rewrite Hsh. naive_solver.
  - exists s, k. split; [done|]. split; [by apply progress_refl|]. naive_solver.
Qed.

Lemma handleError_spec c s k ch i p :
  est c (net_loop s) (net_conns s) k ch i p →
  ∃ s', handleError c s = Ok (tt, s') ∧ progress c i [] 0 s k p s' k ch p ∧
    (∀ fd, shut fd (net_kernel s') ↔ shut fd (net_kernel s)).
Proof.
  intros He. unfold handleError. mstep_by (by eapply conn_channel_ok). eexists. split; [reflexivity|].
  split; [by apply (progress_logged c s k ch i p (SysSocketError (fd_ ch)))|].
  intros fd. by apply shut_other.
Qed.

(** The close callback only queues work and edits the owner's own state. *)
Definition detached_close : Prop :=
  ∀ cb c s, ∃ s', call_close cb c s = Ok (tt, s') ∧ same_loop (net_loop s) (net_loop s') ∧
    net_conns s' = net_conns s ∧ net_kernel s' = net_kernel s ∧ net_events s' = net_events s.

(** [handleClose] on an established connection: everything is disabled, then the
    close callback runs. *)
Lemma handleClose_eq c s k ch i p cb :
  est c (net_loop s) (net_conns s) k ch i p → closeCallback_ k = Some cb →
  ∃ q p', let s1 := lset (set_poller (net_loop s) q) s in
    let ch1 := set_events ch (mask_update DisableAll (events_ ch)) in
    handleClose tid call_close c s = call_close cb c s1 ∧
    est c (net_loop s1) (net_conns s1) k ch1 i p' ∧ frame c s s1 ∧ Poller.fd p' < 0.
Proof.
  intros He Hcb. pose proof He as [].
  destruct (est_change_mask tid DisableAll c s k ch i p He) as (e & p' & E & He' & _ & Hfr & Hee & Hoff).
  set (q := poller_ e) in Hee. clearbody q. subst e. exists q, p'. cbv zeta.
  split; [|split; [done|split; [done|by apply Hoff; right]]].
  unfold handleClose. mstep_by (apply loop_check_ok). mstep_by (by apply conn_ok).
  mstep_by (unfold assert_; destruct est_state0 as [-> | ->]; reflexivity).
  mstep_by (exact E). by rewrite Hcb.
Qed.

Lemma handleClose_spec c s k ch i p :
  detached_close → est c (net_loop s) (net_conns s) k ch i p →
  ∃ s' ch' p', handleClose tid call_close c s = Ok (tt, s') ∧
    progress c i [] 0 s k p s' k ch' p' ∧ isWriting ch' = false ∧ Poller.fd p' < 0 ∧
    net_kernel s' = net_kernel s.
Proof.
  intros Hclose He. destruct (est_cbs _ _ _ _ _ _ _ He) as (_ & _ & [cb Hcb]).
  destruct (handleClose_eq c s k ch i p cb He Hcb) as (q & p' & E & He1 & Hfr & Hoff).
  set (s1 := lset (set_poller (net_loop s) q) s) in *.
  destruct (Hclose cb c s1) as (s2 & E2 & Hl & Hcs & Hk & Hev).
  exists s2, (set_events ch (mask_update DisableAll (events_ ch))), p'.
  split; [by rewrite E|]. split; [|done].
  pose proof (est_same_loop _ _ _ _ _ _ _ _ Hl He1) as He2. rewrite <- Hcs in He2.
  assert (frame c s s2) as Hfr2 by (by eapply frame_trans, (frame_same_loop c s1)).
  destruct Hl as (_ & _ & Htid). split; try done; try lia.
  - rewrite Hk. by rewrite app_nil_r.
  - by rewrite Hk.
  - unfold announced. by rewrite Hev.
Qed.
Lemma handleRead_spec c s k ch i p t B :
  detached_close → est c (net_loop s) (net_conns s) k ch i p →
  (∀ n, zlen (answer_data (net_kernel s) n) ≤ B) →
  Buffer.writeIndex (inputBuffer_ k) + B ≤ PTRDIFF_MAX →
  ∃ s' k' ch' p', handleRead tid call_close c t s = Ok (tt, s') ∧
    progress c i [] B s k p s' k' ch' p' ∧ state_ k' = state_ k ∧
    (∀ fd, shut fd (net_kernel s') ↔ shut fd (net_kernel s)).
Proof.
  intros Hclose He HB Hsz. pose proof He as [].
  assert (0 ≤ B) as HB0 by (pose proof (HB 0%nat); pose proof (zlen_nonneg (answer_data (net_kernel s) 0)); lia).
  unfold handleRead. mstep_by (by apply conn_ok). mstep_by (by eapply conn_channel_ok).
  set (room := Buffer.writableBytes (inputBuffer_ k) + Buffer.extrabuf_size).
  set (r := answer (net_kernel s) (calls (net_kernel s))).
  set (data := take (Z.to_nat room) (answer_data (net_kernel s) (calls (net_kernel s)))).
  set (k1 := logged (net_kernel s) (SysReadv (fd_ ch)) (if r <? 0 then r else zlen data)).
  set (s1 := lset k1 s).
  assert (zoom (S:=Net X) (sys_readv (fd_ ch) room) s =
          Ok (if r <? 0 then inl (- r) else inr data, s1)) as E1 by done.
  assert (progress c i [] 0 s k p s1 k ch p) as P1 by by apply progress_logged.
  assert (∀ fd, shut fd (net_kernel s1) ↔ shut fd (net_kernel s)) as Hsh1.
  { intros fd. by apply shut_other. }
  mstep_by (exact E1). destruct (r <? 0).
  - (* error *)
    mstep_by (eapply on_input_ok; [exact est_conn0|apply (Buffer.readfd_fail (inputBuffer_ k) (- r))]).
    set (k2 := set_inputBuffer k (inputBuffer_ k)). set (s2 := upd_conn c k2 s1).
    assert (est c (net_loop s2) (net_conns s2) k2 ch i p) as He2 by by apply est_input.
    destruct (handleError_spec c s2 k2 ch i p He2) as (s3 & E3 & P3 & Hsh3).
    exists s3, k2, ch, p. split; [exact E3|]. split; [|split; [done|]].
    + eapply progress_then; [|exact P3]. eapply progress_after; [exact P1|].
      split; try done; simpl; try lia. by rewrite app_nil_r.
    + intros fd. by rewrite Hsh3.
  - assert (zlen data ≤ room ∧ zlen data ≤ B) as [Hd1 Hd2].
    { pose proof (HB (calls (net_kernel s))). unfold data, zlen in *. rewrite length_take.
      assert (0 ≤ room); [|lia]. unfold room. rewrite Buffer.writable_inv by done.
      unfold Buffer.inv, Buffer.extrabuf_size in *. lia. }
    destruct (Buffer.readfd_ok (inputBuffer_ k) data est_in0) as (b & Eb & Hb & Hcb & Hwb); [lia|done|].
    mstep_by (by eapply on_input_ok).
    set (k2 := set_inputBuffer k b). set (s2 := upd_conn c k2 s1).
    assert (est c (net_loop s2) (net_conns s2) k2 ch i p) as He2 by by apply est_input.
    assert (progress c i [] B s1 k p s2 k2 ch p) as P2.
    { split; try done; simpl; try lia. by rewrite app_nil_r. }
    pose proof (progress_after _ _ _ _ _ _ _ _ _ _ _ _ _ _ _ P1 P2) as P.
    destruct (0 <? zlen data); [|destruct (Z.eqb_spec (zlen data) 0); [|pose proof (zlen_nonneg data)]].
    + destruct est_cbs0 as (_ & [u Hu] & _). unfold call_user. rewrite Hu. mstep.
      exists (lset (net_loop s2) (mkNet (net_loop s2) (net_kernel s2) (net_conns s2)
                (net_events s2 ++ [OnMessage u c t]) (net_ext s2))), k2, ch, p.
      split; [done|]. split; [|done]. destruct P. split; try done. unfold announced in *. simpl. rewrite filter_app. by rewrite app_nil_r.
    + destruct (handleClose_spec c s2 k2 ch i p Hclose He2) as (s3 & ch3 & p3 & E3 & P3 & _ & _ & Hk3).
      exists s3, k2, ch3, p3. split; [exact E3|]. split; [|split; [done|]].
      * by eapply progress_then.
      * by rewrite Hk3.
    + destruct (handleError_spec c s2 k2 ch i p He2) as (s3 & E3 & P3 & Hsh3).
      exists s3, k2, ch, p. split; [exact E3|]. split; [|split; [done|]].
      * by eapply progress_then.
      * intros fd. by rewrite Hsh3.
Qed.
(** The end of [handleWrite], when the buffer has been emptied. *)
Definition drained (c : conn_id) (k : TcpConnection) : M (Net X) unit :=
  zoom (change_mask tid DisableWriting (channel_ k)) ;;
  queue_write_complete ew tid c ;;
  if decide (state_ k = kDisconnecting) then shutdownInLoop tid c else mret ().

Lemma drained_spec c s k ch i p :
  est c (net_loop s) (net_conns s) k ch i p →
  ∃ s' ch' p', drained c k s = Ok (tt, s') ∧ progress c i [] 0 s k p s' k ch' p' ∧
    isWriting ch' = false ∧ Poller.fd p' < 0 ∧
    (∀ fd, shut fd (net_kernel s') ↔
       shut fd (net_kernel s) ∨ (fd = socket_ k ∧ state_ k = kDisconnecting)).
Proof.
  intros He. pose proof He as [].
  set (ch1 := set_events ch (mask_update DisableWriting (events_ ch))).
  assert (events_ ch1 = kNoneEvent) as Hnone by (simpl; by destruct est_mask0 as [-> | ->]).
  destruct (est_change_mask tid DisableWriting c s k ch i p He) as (e & p' & E & He1 & Ht & Hfr & _ & Hoff).
  fold ch1 in He1. set (s1 := lset e s).
  destruct (queue_write_complete_ok ew tid c s1 k est_conn0) as (e2 & E2 & Hl).
  set (s2 := lset e2 s1).
  assert (frame c s s2) as Hfr2 by (by eapply frame_trans, (frame_same_loop c s1)).
  assert (progress c i [] 0 s k p s2 k ch1 p') as P2.
  { split; try done; try lia.
    - by eapply est_same_loop.
    - by rewrite app_nil_r.
    - destruct Hl as (_ & _ & Hl). simpl. rewrite Hl. done. }
  unfold drained. mstep_by (exact E). fold s1. mstep_by (exact E2). fold s2.
  destruct (decide (state_ k = kDisconnecting)) as [Hd|Hd].
  - destruct (shutdownInLoop_spec c s2 k ch1 i p' (pr_est _ _ _ _ _ _ _ _ _ _ _ P2))
      as (s3 & E3 & P3 & Hsh3).
    exists s3, ch1, p'. split; [exact E3|]. split; [by eapply progress_then|].
    split; [by apply isWriting_none|]. split; [by apply Hoff; right|].
    intros fd. rewrite Hsh3, (isWriting_none ch1 Hnone). simpl. naive_solver.
  - exists s2, ch1, p'. split; [done|]. split; [done|].
    split; [by apply isWriting_none|]. split; [by apply Hoff; right|]. simpl. naive_solver.
Qed.

Lemma handleWrite_spec c s k ch i p :
  est c (net_loop s) (net_conns s) k ch i p →
  ∃ s' k' ch' p', handleWrite ew tid c s = Ok (tt, s') ∧
    progress c i [] 0 s k p s' k' ch' p' ∧ state_ k' = state_ k ∧
    (isWriting ch = false → s' = s ∧ k' = k ∧ ch' = ch) ∧
    (isWriting ch = true → isWriting ch' = false →
       Buffer.content (outputBuffer_ k') = [] ∧ Poller.fd p' < 0) ∧
    (isWriting ch = true →
       0 < zlen (Buffer.content (outputBuffer_ k)) ≤ answer (net_kernel s) (calls (net_kernel s)) →
       isWriting ch' = false) ∧
    (∀ fd, shut fd (net_kernel s') → shut fd (net_kernel s) ∨
       (fd = socket_ k ∧ isWriting ch = true ∧ isWriting ch' = false ∧ state_ k = kDisconnecting)).
Proof.
  intros He. pose proof He as []. unfold handleWrite. mstep_by (apply loop_check_ok).
  mstep_by (by apply conn_ok). mstep_by (by eapply conn_channel_ok).
  destruct (isWriting ch) eqn:Hwr.
  2: { exists s, k, ch, p. split_and!; try done; [by apply progress_refl|naive_solver]. }
  rewrite Buffer.mem_read_content by done. mstep.
  set (out := Buffer.content (outputBuffer_ k)) in *.
  set (n := Z.min (answer (net_kernel s) (calls (net_kernel s))) (zlen out)).
  set (k1 := logged (net_kernel s) (SysWrite (fd_ ch) out) n). set (s1 := lset k1 s).
  assert (zoom (S:=Net X) (sys_write (fd_ ch) out) s = Ok (n, s1)) as E1 by done.
  mstep_by (exact E1).
  destruct (Z.ltb_spec 0 n) as [Hn|Hn].
  2: { exists s1, k, ch, p. split; [done|]. split; [|split; [done|split; [done|split; [congruence|]]]].
       - apply (progress_logged c s k ch i p (SysWrite (fd_ ch) out)); [done|].
         unfold sent_of. assert (Z.to_nat n = 0%nat) as -> by lia. by destruct (_ =? _).
       - split; [intros _ Ha; unfold n in Hn; lia|]. intros fd Hs. left. by apply (shut_other fd) in Hs. }
  assert (n ≤ zlen out) as Hn' by (unfold n; lia).
  destruct (Buffer.retrieve_spec (outputBuffer_ k) n est_out0) as (b & Eb & Hb & Hcb & _ & Hwb).
  { fold out. lia. }
  mstep_by (by eapply on_output_ok). fold out in Hcb.
  set (k2 := set_outputBuffer k b). set (s2 := upd_conn c k2 s1).
  mstep_by (by apply conn_ok; simpl; apply lookup_insert_eq).
  pose proof (readable_zero k2 Hb) as Hz. simpl in Hz. rewrite Hz.
  assert (est c (net_loop s2) (net_conns s2) k2 ch i p) as He2 by by apply est_output.
  assert (progress c i [] 0 s k p s2 k2 ch p) as P2.
  { split; try done; simpl; try lia. unfold stream, s2, s1, k1. simpl.
    rewrite sent_logged, Hcb. simpl. rewrite est_fd0, Z.eqb_refl, app_nil_r, <- app_assoc.
    by rewrite take_drop. }
  assert (∀ fd, shut fd (net_kernel s2) → shut fd (net_kernel s)) as Hsh2.
  { intros fd Hs. by apply (shut_other fd) in Hs. }
  case_bool_decide as Hnil.
  - destruct (drained_spec c s2 k2 ch i p He2) as (s3 & ch3 & p3 & E3 & P3 & Hw3 & Hp3 & Hsh3).
    exists s3, k2, ch3, p3. split; [exact E3|]. split; [by eapply progress_then|].
    split; [done|]. split; [done|]. split; [done|]. split; [done|].
    intros fd Hs. apply Hsh3 in Hs as [Hs|[-> Hd]]; [by left; apply Hsh2|by right].
  - exists s2, k2, ch, p. split; [done|]. split; [done|]. split; [done|]. split; [done|].
    split; [congruence|]. split; [|intros fd Hs; left; by apply Hsh2].
    intros _ Ha. destruct Hnil. rewrite Hcb. apply drop_ge. unfold n, zlen in *. lia.
Qed.
End handlers.

(** ** What the handlers of a connection never touch: the state above *)

Section above.
Context {X : Type}.

Definition keeps_ext {A} (m : M (Net X) A) : Prop :=
  ∀ s a s', m s = Ok (a, s') → net_ext s' = net_ext s.

Lemma ke_bind {A B} (m : M (Net X) A) (k : A → M (Net X) B) :
  keeps_ext m → (∀ a, keeps_ext (k a)) → keeps_ext (m ≫= k).
Proof. intros Hm Hk s b s' (a & s1 & E1 & E2)%bind_Ok. by rewrite (Hk _ _ _ _ E2), (Hm _ _ _ E1). Qed.

Lemma ke_lift {A} (r : res A) : keeps_ext (lift r).
Proof. intros s a s' E. by minv E. Qed.
Lemma ke_ret {A} (a : A) : keeps_ext (mret a).
Proof. intros s b s' E. by minv E. Qed.
Lemma ke_fail {A} f : keeps_ext (A:=A) (fail f).
Proof. done. Qed.
Lemma ke_assert b : keeps_ext (assert_ b).
Proof. intros s a s' E. by minv E. Qed.
Lemma ke_deref {A} f (o : option A) : keeps_ext (deref f o).
Proof. destruct o; [apply ke_ret|done]. Qed.
Lemma ke_loop {A} (m : M EventLoop A) : keeps_ext (zoom m).
Proof. intros s a s'. unfold zoom. destruct (m _) as [[b e]|]; [|done]. by intros [= <- <-]. Qed.
Lemma ke_kernel {A} (m : M Kernel A) : keeps_ext (zoom m).
Proof. intros s a s'. unfold zoom. destruct (m _) as [[b e]|]; [|done]. by intros [= <- <-]. Qed.
Lemma ke_on_poller {A} (m : M Poller.Poller A) : keeps_ext (on_poller m).
Proof. apply ke_loop. Qed.
Lemma ke_conn c : keeps_ext (conn c).
Proof. intros s k s' E. unfold conn in E. by minv E. Qed.
Lemma ke_set_conn c k : keeps_ext (set_conn c k).
Proof. intros s a s' E. unfold set_conn in E. by minv E. Qed.
Lemma ke_record ev : keeps_ext (record ev).
Proof. intros s a s' E. unfold record in E. by minv E. Qed.
End above.

Create HintDb ext.
#[export] Hint Resolve @ke_lift @ke_ret @ke_fail @ke_assert @ke_deref @ke_loop @ke_kernel @ke_on_poller
  @ke_conn @ke_set_conn @ke_record : ext.

(** [keep_ext]: the command is made of steps that keep the state above. *)
Ltac keep_ext :=
  repeat match goal with
  | |- keeps_ext (mbind _ _) => apply ke_bind; [|intros ?]
  | |- keeps_ext (if ?b then _ else _) => destruct b
  | |- keeps_ext (match ?o with _ => _ end) => destruct o
  | |- keeps_ext _ => solve [auto with ext]
  end.

Section above_handlers.
Context {X : Type} (ew : eventfd_model) (tid : Z) (c : conn_id).

Lemma ke_on_output {A} (m : M Buffer A) : keeps_ext (X:=X) (on_output c m).
Proof. unfold on_output. keep_ext. Qed.
Lemma ke_conn_channel : keeps_ext (X:=X) (conn_channel c).
Proof. unfold conn_channel. keep_ext. Qed.
Lemma ke_queue_write_complete : keeps_ext (X:=X) (queue_write_complete ew tid c).
Proof. unfold queue_write_complete. keep_ext. Qed.
#[local] Hint Resolve @ke_on_output @ke_conn_channel @ke_queue_write_complete : ext.

Lemma ke_sendInLoop m : keeps_ext (X:=X) (sendInLoop ew tid c m).
Proof. unfold sendInLoop. keep_ext. Qed.
Lemma ke_shutdownInLoop : keeps_ext (X:=X) (shutdownInLoop tid c).
Proof. unfold shutdownInLoop. keep_ext. Qed.
#[local] Hint Resolve @ke_sendInLoop @ke_shutdownInLoop : ext.

Lemma ke_send m : keeps_ext (X:=X) (send ew tid c m).
Proof. unfold send, runInLoop, call_bound. keep_ext. Qed.
Lemma ke_shutdown : keeps_ext (X:=X) (shutdown ew tid c).
Proof. unfold shutdown, runInLoop, call_bound. keep_ext. Qed.
Lemma ke_handleError : keeps_ext (X:=X) (handleError c).
Proof. unfold handleError. keep_ext. Qed.
Lemma ke_handleWrite : keeps_ext (X:=X) (handleWrite ew tid c).
Proof. unfold handleWrite. keep_ext. Qed.
End above_handlers.

(** ** Sequences of events on an established connection *)

Inductive cevent : Type :=
  | EvSend (message : bytes)      (* the client calls [send] in the loop's thread *)
  | EvShutdown                    (* the client calls [shutdown] *)
  | EvWritable                    (* the channel's callbacks *)
  | EvReadable (t : Timestamp)
  | EvHup
  | EvError.

(** The messages [send] takes: those before the first [shutdown]. *)
Fixpoint accepted (open : bool) (evs : list cevent) : bytes :=
  match evs with
  | [] => []
  | EvSend m :: evs' => (if open then m else []) ++ accepted open evs'
  | EvShutdown :: evs' => accepted false evs'
  | _ :: evs' => accepted open evs'
  end.

(** The bytes an event may add to the buffers, if a read delivers at most [B]. *)
Definition event_cost (B : Z) (ev : cevent) : Z :=
  match ev with EvSend m => zlen m | EvReadable _ => B | _ => 0 end.
Definition events_cost (B : Z) (evs : list cevent) : Z :=
  foldr (λ ev acc, event_cost B ev + acc) 0 evs.

Definition open_after (open : bool) (ev : cevent) : bool :=
  match ev with EvShutdown => false | _ => open end.

Section sequences.
Context {X : Type} (ew : eventfd_model) (tid : Z).
Context (call_close : close_callback → conn_id → M (Net X) unit) (c : conn_id).
Implicit Types s : Net X.

Definition cexec (ev : cevent) : M (Net X) unit :=
  match ev with
  | EvSend m => send ew tid c m
  | EvShutdown => shutdown ew tid c
  | EvWritable => handleWrite ew tid c
  | EvReadable t => handleRead tid call_close c t
  | EvHup => handleClose tid call_close c
  | EvError => handleError c
  end.

Definition room (k : TcpConnection) : Z :=
  PTRDIFF_MAX - Buffer.writeIndex (inputBuffer_ k) - Buffer.writeIndex (outputBuffer_ k).

(** Events that are not the peer closing the connection. *)
Definition peaceful (ev : cevent) : bool :=
  match ev with EvReadable _ | EvHup => false | _ => true end.

(** While the peer is there: what is not watched for writing is empty (or is
    what was in the buffer at first, [z], before any message [acc]), and
    [SHUT_WR] was not issued before this was so and [shutdown] was called. *)
Definition flush_ok (z acc : bytes) (s : Net X) (k : TcpConnection) (ch : channel) : Prop :=
  (isWriting ch = false →
     Buffer.content (outputBuffer_ k) = [] ∨ (Buffer.content (outputBuffer_ k) = z ∧ acc = [])) ∧
  (shut (socket_ k) (net_kernel s) → isWriting ch = false ∧ connected k = false).

Definition step_outcome (B : Z) (ev : cevent) s k ch i p s' k' ch' p' : Prop :=
  progress c i (accepted (connected k) [ev]) (event_cost B ev) s k p s' k' ch' p' ∧
  connected k' = open_after (connected k) ev ∧
  (peaceful ev = true → ∀ z acc, flush_ok z acc s k ch →
     flush_ok z (acc ++ accepted (connected k) [ev]) s' k' ch').

Lemma connected_spec k : connected k = bool_decide (state_ k = kConnected).
Proof. done. Qed.

Lemma send_outcome B s k ch i p message :
  est c (net_loop s) (net_conns s) k ch i p → threadId_ (net_loop s) = tid →
  zlen message ≤ room k →
  ∃ s' k' ch' p', send ew tid c message s = Ok (tt, s') ∧
    step_outcome B (EvSend message) s k ch i p s' k' ch' p'.
Proof.
  intros He Ht Hsz. pose proof He as []. unfold send. mstep_by (by apply conn_ok).
  unfold step_outcome. simpl. rewrite !connected_spec, app_nil_r.
  destruct (decide (state_ k = kConnected)) as [Hst|Hst].
  - rewrite bool_decide_eq_true_2 by done.
    mstep_by (apply loop_get_ok). unfold isInLoopThread. rewrite Ht, Z.eqb_refl.
    destruct (sendInLoop_spec ew tid c s k ch i p message He)
      as (s' & k' & ch' & p' & E & P & Hk & Hsh & Hw).
    { unfold room, Buffer.inv in *. lia. }
    exists s', k', ch', p'. split; [exact E|]. split; [exact P|].
    split; [rewrite connected_spec, Hk; by apply bool_decide_eq_true_2|].
    intros _ z acc [Hf Hns]. split.
    + intros Hw'. destruct (Hw Hw') as (Hw0 & Hc & Hor). rewrite Hc.
      destruct Hor as [->|Hc0]; [rewrite app_nil_r; auto|by left].
    + destruct P as [? Hfix]. destruct Hfix as (-> & _). rewrite Hsh. intros Hs'.
      apply Hns in Hs' as [_ Hs']. rewrite connected_spec, bool_decide_eq_true_2 in Hs'; done.
  - rewrite bool_decide_eq_false_2 by done.
    exists s, k, ch, p. split; [done|]. pose proof (zlen_nonneg message).
    split; [|split; [by apply bool_decide_eq_false_2|intros _ z acc; by rewrite app_nil_r]].
    destruct (progress_refl c s k ch i p He). split; done || lia.
Qed.

Lemma shutdown_outcome B s k ch i p :
  est c (net_loop s) (net_conns s) k ch i p → threadId_ (net_loop s) = tid →
  ∃ s' k' ch' p', shutdown ew tid c s = Ok (tt, s') ∧
    step_outcome B EvShutdown s k ch i p s' k' ch' p'.
Proof.
  intros He Ht. destruct (shutdown_spec ew tid c s k ch i p He Ht) as (s' & k' & E & P & Hk & Hc & Hsh).
  exists s', k', ch, p. split; [done|]. split; [exact P|]. split.
  - rewrite connected_spec, Hk. done.
  - intros _ z acc [Hf Hns]. simpl. rewrite app_nil_r. destruct P as [? Hfix _ _ _ _ _].
    destruct Hfix as (Hso & _). split; [by rewrite Hc|]. rewrite Hso, Hsh.
    intros [Hs|(_ & _ & Hw)]; (split; [|by rewrite connected_spec, Hk]); [by apply Hns|done].
Qed.

Lemma writable_outcome B s k ch i p :
  est c (net_loop s) (net_conns s) k ch i p →
  ∃ s' k' ch' p', handleWrite ew tid c s = Ok (tt, s') ∧
    step_outcome B EvWritable s k ch i p s' k' ch' p'.
Proof.
  intros He. destruct (handleWrite_spec ew tid c s k ch i p He)
    as (s' & k' & ch' & p' & E & P & Hk & Hidle & Hdr & _ & Hsh).
  exists s', k', ch', p'. split; [done|]. split; [exact P|]. split.
  - by rewrite !connected_spec, Hk.
  - intros _ z acc [Hf Hns]. simpl. rewrite app_nil_r. destruct P as [? Hfix _ _ _ _ _].
    destruct Hfix as (Hso & _). destruct (isWriting ch) eqn:Hw.
    + split; [intros Hw'; left; by apply Hdr|]. rewrite Hso. intros [Hs|(_ & _ & Hw' & Hd)]%Hsh.
      * by destruct (Hns Hs).
      * split; [done|]. rewrite connected_spec, Hk, Hd. done.
    + destruct (Hidle eq_refl) as (-> & -> & ->). unfold flush_ok. by rewrite Hw.
Qed.

Lemma quiet_outcome B ev s s' k ch i p ch' p' :
  accepted (connected k) [ev] = [] → 0 ≤ event_cost B ev → open_after (connected k) ev = connected k →
  progress c i [] (event_cost B ev) s k p s' k ch' p' →
  (peaceful ev = true → ch' = ch ∧ ∀ fd, shut fd (net_kernel s') ↔ shut fd (net_kernel s)) →
  step_outcome B ev s k ch i p s' k ch' p'.
Proof.
  intros Ha Hc Ho P Hq. split; [by rewrite Ha|]. split; [done|]. intros Hp z acc [Hf Hns].
  destruct (Hq Hp) as [-> Hsh]. rewrite Ha, app_nil_r. split; [done|]. by rewrite Hsh.
Qed.

Lemma cexec_outcome B ev s k ch i p :
  detached_close call_close →
  est c (net_loop s) (net_conns s) k ch i p → threadId_ (net_loop s) = tid →
  (∀ n, zlen (answer_data (net_kernel s) n) ≤ B) → event_cost B ev ≤ room k →
  ∃ s' k' ch' p', cexec ev s = Ok (tt, s') ∧ step_outcome B ev s k ch i p s' k' ch' p'.
Proof.
  intros Hcl He Ht HB Hsz. destruct ev as [m| | |t| |]; simpl in Hsz.
  - by apply send_outcome.
  - by apply shutdown_outcome.
  - by apply writable_outcome.
  - destruct (handleRead_spec tid call_close c s k ch i p t B Hcl He HB)
      as (s' & k' & ch' & p' & E & P & Hk & Hsh).
    { unfold room in Hsz. destruct (est_out _ _ _ _ _ _ _ He). lia. }
    exists s', k', ch', p'. split; [done|]. split; [exact P|]. split; [|done].
    by rewrite !connected_spec, Hk.
  - destruct (handleClose_spec tid call_close c s k ch i p Hcl He) as (s' & ch' & p' & E & P & _).
    exists s', k, ch', p'. split; [done|]. by apply quiet_outcome.
  - destruct (handleError_spec c s k ch i p He) as (s' & E & P & Hsh).
    exists s', k, ch, p. split; [done|]. by apply quiet_outcome.
Qed.
End sequences.

(** ** The ends of a connection's life *)

(** The setters the server and the client call on a new connection. *)
Definition set_callbacks {X} (c : conn_id) (connection message writeComplete : option user_fn)
    (close : close_callback) : M (Net X) unit :=
  k ← conn c;
  set_conn c (setCloseCallback_ (setWriteCompleteCallback (setMessageCallback
    (setConnectionCallback k connection) message) writeComplete) close).

(** Room for one more channel and connection. *)
Record fresh {X} (s : Net X) (c : conn_id) (chid : chan_id) (fd : Z) : Prop := mkFresh {
  fresh_conn : net_conns s !! c = None;
  fresh_chan : Poller.chans (poller_ (net_loop s)) !! chid = None;
  fresh_fd : Poller.channels_ (poller_ (net_loop s)) !! fd = None;
  fresh_range : 0 ≤ fd;
  fresh_slots : zlen (Poller.pollfds_ (poller_ (net_loop s))) + 1 < 2 ^ 31;
}.

(** A connection as its constructor leaves it. *)
Definition conn_made (loop : nat) (name : bytes) (fd : Z) (chid : chan_id) (la pa : InetAddress) :
    TcpConnection :=
  mkTcpConnection loop name kConnecting fd chid la pa None None None None
    Buffer.Buffer_new Buffer.Buffer_new.

(** A connection that is constructed and has its callbacks, but is not yet
    established. *)
Record created (c : conn_id) (e : EventLoop) (cs : gmap conn_id TcpConnection) (k : TcpConnection) :
    Prop := mkCreated {
  cr_conn : cs !! c = Some k;
  cr_state : state_ k = kConnecting;
  cr_chan : Poller.chans (poller_ e) !! channel_ k = Some (conn_new_channel c (this_ e) (socket_ k));
  cr_getLoop : getLoop k = this_ e;
  cr_free : Poller.channels_ (poller_ e) !! socket_ k = None;
  cr_fd : 0 ≤ socket_ k;
  cr_slots : zlen (Poller.pollfds_ (poller_ e)) + 1 < 2 ^ 31;
  cr_in : Buffer.inv (inputBuffer_ k);
  cr_out : Buffer.inv (outputBuffer_ k);
  cr_cbs : is_Some (connectionCallback_ k) ∧ is_Some (messageCallback_ k) ∧ is_Some (closeCallback_ k);
}.

Section ends.
Context {X : Type} (ew : eventfd_model) (tid : Z) (c : conn_id).
Implicit Types s : Net X.

Lemma Buffer_new_inv : Buffer.inv Buffer.Buffer_new ∧ Buffer.writeIndex Buffer.Buffer_new = 1024.
Proof. split; [decide_closed|done]. Qed.

Definition put_chan (chid : chan_id) (ch : channel) (s : Net X) : Net X :=
  lset (set_poller (net_loop s) (Poller.set_chan chid ch (poller_ (net_loop s)))) s.

Lemma set_handling_ok s chid ch b :
  Poller.chans (poller_ (net_loop s)) !! chid = Some ch →
  set_handling chid b s = Ok (tt, put_chan chid (set_eventHandling ch b) s).
Proof.
  intros Hc. unfold set_handling, on_poller.
  etrans; [apply zoom_ok, zoom_ok, (Poller.upd_chan_eq _ _ ch), Hc|reflexivity].
Qed.

Lemma chan_ok s chid ch :
  Poller.chans (poller_ (net_loop s)) !! chid = Some ch →
  on_poller (S:=Net X) (Poller.chan chid) s = Ok (ch, s).
Proof. intros Hc. by apply on_poller_chan. Qed.

(** A callback that the events do not ask for. *)
Lemma fire_none call wants cb chid s ch :
  Poller.chans (poller_ (net_loop s)) !! chid = Some ch → wants (revents_ ch) = false →
  fire (S:=Net X) call wants cb chid s = Ok (tt, s).
Proof. intros Hc Hw. unfold fire. mstep_by (by apply chan_ok). by rewrite Hw. Qed.

Lemma fire_one (call : closure → M (Net X) unit) wants cb chid s ch f :
  Poller.chans (poller_ (net_loop s)) !! chid = Some ch → wants (revents_ ch) = true → cb ch = Some f →
  fire call wants cb chid s = call f s.
Proof. intros Hc Hw Hf. unfold fire. mstep_by (by apply chan_ok). by rewrite Hw, Hf. Qed.

(** The destructor, once [handleEvent] is over. *)
Lemma TcpConnection_delete_ok s k ch :
  net_conns s !! c = Some k → Poller.chans (poller_ (net_loop s)) !! channel_ k = Some ch →
  eventHandling_ ch = false →
  let p := poller_ (net_loop s) in
  TcpConnection_delete c s =
    Ok (tt, mkNet (set_poller (net_loop s)
                     (Poller.mkPoller (Poller.pollfds_ p) (Poller.channels_ p)
                        (delete (channel_ k) (Poller.chans p))))
              (logged (net_kernel s) (SysClose (socket_ k)) (answer (net_kernel s) (calls (net_kernel s))))
              (delete c (net_conns s)) (net_events s) (net_ext s)).
Proof.
  intros Hk Hc Hh p. unfold TcpConnection_delete. mstep_by (by apply conn_ok).
  mstep_by (unfold on_poller; by apply zoom_ok, zoom_ok, (Poller.Channel_delete_ok _ _ ch)). done.
Qed.

(** The destructor while [handleEvent] is on the stack. *)
Lemma TcpConnection_delete_handling s k ch :
  net_conns s !! c = Some k → Poller.chans (poller_ (net_loop s)) !! channel_ k = Some ch →
  eventHandling_ ch = true → TcpConnection_delete c s = Err AssertFailed.
Proof.
  intros Hk Hc Hh. unfold TcpConnection_delete. mstep_by (by apply conn_ok). apply bind_err.
  unfold on_poller, zoom. simpl. by rewrite (Poller.Channel_delete_handling _ _ ch).
Qed.

Lemma est_put_chan d e cs k ch i p chid ch' :
  Poller.chans (poller_ e) !! chid = None → est d e cs k ch i p →
  est d (set_poller e (Poller.set_chan chid ch' (poller_ e))) cs k ch i p.
Proof.
  intros Hn []. split; try done; [by apply Poller.registered_set_chan_new|by apply Poller.inv_set_chan_new].
Qed.

Lemma est_set_conn_ne d d' e cs k k' ch i p :
  d' ≠ d → est d e cs k ch i p → est d e (<[d' := k']> cs) k ch i p.
Proof. intros Hne []. split; try done. by rewrite lookup_insert_ne. Qed.

Lemma est_set_handling d s k ch i p b :
  est d (net_loop s) (net_conns s) k ch i p →
  let s' := put_chan (channel_ k) (set_eventHandling ch b) s in
  est d (net_loop s') (net_conns s') k (set_eventHandling ch b) i p.
Proof.
  intros [] s'. pose proof est_reg0 as (Hch & _). split; try done.
  - pose proof (Poller.registered_set_chan _ _ ch (set_eventHandling ch b) _ _ _ _ Hch eq_refl eq_refl est_reg0) as H.
    by rewrite decide_True in H.
  - by apply (Poller.inv_set_chan _ _ ch).
Qed.

Lemma TcpConnection_new_ok s loop chid name fd la pa :
  net_conns s !! c = None → Poller.chans (poller_ (net_loop s)) !! chid = None →
  TcpConnection_new loop c chid name fd la pa s =
    Ok (tt, upd_conn c (conn_made loop name fd chid la pa) (put_chan chid (conn_new_channel c loop fd) s)).
Proof.
  intros Hc Hch. unfold TcpConnection_new. mstep. rewrite decide_False; [done|].
  rewrite Hc, Hch. intros [[? [=]]|[? [=]]].
Qed.

Definition with_callbacks (u m w : option user_fn) (cl : close_callback) (k : TcpConnection) : TcpConnection :=
  setCloseCallback_ (setWriteCompleteCallback (setMessageCallback (setConnectionCallback k u) m) w) cl.

Lemma set_callbacks_ok s k u m w cl :
  net_conns s !! c = Some k →
  set_callbacks c u m w cl s = Ok (tt, upd_conn c (with_callbacks u m w cl k) s).
Proof. intros Hk. unfold set_callbacks. by mstep_by (by apply conn_ok). Qed.

(** [connectEstablished]: the channel gets its slot, the client its call. *)
Lemma connectEstablished_created s k u :
  Poller.inv (poller_ (net_loop s)) → created c (net_loop s) (net_conns s) k →
  connectionCallback_ k = Some u →
  ∃ q ch i p, let s' := mkNet (set_poller (net_loop s) q) (net_kernel s)
                          (<[c := setState k kConnected]> (net_conns s))
                          (net_events s ++ [OnConnection u c]) (net_ext s) in
    connectEstablished tid c s = Ok (tt, s') ∧
    est c (net_loop s') (net_conns s') (setState k kConnected) ch i p ∧
    zlen (Poller.pollfds_ q) = zlen (Poller.pollfds_ (poller_ (net_loop s))) + 1 ∧
    Poller.channels_ q = <[socket_ k := channel_ k]> (Poller.channels_ (poller_ (net_loop s))) ∧
    (∀ d kd chd j pd, d ≠ c → est d (net_loop s) (net_conns s) kd chd j pd →
       est d (net_loop s') (net_conns s') kd chd j pd).
Proof.
  intros Hi [] Hu. set (ch0 := conn_new_channel c (this_ (net_loop s)) (socket_ k)) in *.
  destruct (change_mask_new tid EnableReading (channel_ k) (net_loop s) ch0)
    as (q & i & p & E & Hq & Hr & _ & Hz & Hm & Ho & _); [done..|].
  exists q, (set_index (set_events ch0 (mask_update EnableReading (events_ ch0))) (Z.of_nat i)), i, p.
  cbv zeta. split; [|split; [|split; [done|split; [done|]]]].
  - unfold connectEstablished. mstep_by (apply loop_check_ok). mstep_by (by apply conn_ok).
    rewrite cr_state0. erewrite bind_step by done. erewrite bind_step by done.
    mstep_by (by apply (zoom_ok (S:=Net X) (C:=EventLoop))). rewrite Hu. reflexivity.
  - split; try done; [apply lookup_insert_eq|by left|by left].
  - intros d kd chd j pd Hd []. split; try done; [|by apply Ho]. simpl. by rewrite lookup_insert_ne.
Qed.

(** [TcpConnection::TcpConnection], the setters and [connectEstablished]. *)
Lemma connectEstablished_spec s chid name fd la pa u m w cl :
  Poller.inv (poller_ (net_loop s)) → fresh s c chid fd →
  ∃ s' k ch i p,
    (TcpConnection_new (this_ (net_loop s)) c chid name fd la pa ;; set_callbacks c (Some u) (Some m) w cl ;;
     connectEstablished tid c) s = Ok (tt, s') ∧
    est c (net_loop s') (net_conns s') k ch i p ∧ socket_ k = fd ∧ channel_ k = chid ∧
    connectionCallback_ k = Some u ∧ connected k = true ∧
    Buffer.content (outputBuffer_ k) = replicate 1016 x00 ∧
    room k = PTRDIFF_MAX - 2048 ∧ threadId_ (net_loop s') = threadId_ (net_loop s) ∧
    net_kernel s' = net_kernel s ∧ announced s' = announced s ++ [OnConnection u c].
Proof.
  intros Hi [Hc Hch Hfd Hr Hn]. destruct Buffer_new_inv as [Hb Hbw].
  mstep_by (by apply TcpConnection_new_ok).
  mstep_by (apply set_callbacks_ok, lookup_insert_eq).
  set (k1 := with_callbacks _ _ _ _ _). set (s2 := upd_conn c k1 _).
  destruct (connectEstablished_created s2 k1 u) as (q & ch & i & p & E & He & _).
  - by apply Poller.inv_set_chan_new.
  - split; try done; try apply lookup_insert_eq.
  - done.
  - do 2 eexists. exists ch, i, p. split; [exact E|]. split; [exact He|].
    split_and!; try done. unfold announced. simpl. by rewrite filter_app.
Qed.

(** [connectDestroyed] on an established connection, and the deletion that may
    follow. *)
Lemma connectDestroyed_spec s k ch i p u :
  est c (net_loop s) (net_conns s) k ch i p → connectionCallback_ k = Some u →
  ∃ q ch', let s' := mkNet (set_poller (net_loop s) q) (net_kernel s)
                       (<[c := setState k kDisconnected]> (net_conns s))
                       (net_events s ++ [OnConnection u c]) (net_ext s) in
    connectDestroyed tid c s = Ok (tt, s') ∧
    Poller.inv q ∧
    Poller.channels_ q = delete (socket_ k) (Poller.channels_ (poller_ (net_loop s))) ∧
    zlen (Poller.pollfds_ q) = zlen (Poller.pollfds_ (poller_ (net_loop s))) - 1 ∧
    Poller.chans q !! channel_ k = Some ch' ∧ events_ ch' = kNoneEvent ∧
    fd_ ch' = socket_ k ∧ eventHandling_ ch' = eventHandling_ ch ∧
    index_ ch' = index_ ch ∧ loop_ ch' = loop_ ch ∧
    (∀ d kd chd j pd, d ≠ c → est d (net_loop s) (net_conns s) kd chd j pd →
       ∃ j', est d (net_loop s') (net_conns s') kd (set_index chd (Z.of_nat j')) j' pd).
Proof.
  intros He Hu. pose proof He as []. unfold connectDestroyed.
  assert (bool_decide (state_ k = kConnected) || bool_decide (state_ k = kDisconnecting) = true) as Hst.
  { by destruct est_state0 as [-> | ->]. }
  set (k1 := setState k kDisconnected). set (s1 := upd_conn c k1 s).
  destruct (change_mask_registered tid DisableAll (channel_ k) (net_loop s) ch i p)
    as (q & E & Hq & Hr & Hz & Hm & Ho & _); [done..|].
  set (ch1 := set_events ch (mask_update DisableAll (events_ ch))) in *.
  set (s2 := lset (set_poller (net_loop s) q) s1).
  destruct (Poller.removeChannel_spec q (channel_ k) ch1 i _ Hq Hr)
    as (q' & E' & Hq' & Hm' & Hc' & Hz' & Ho'); [done..|].
  exists q', ch1. cbv zeta.
  split; [|split; [done|split; [|split; [lia|split; [done|split; [done|split; [done|split; [done|split; [done|split; [done|]]]]]]]]]].
  - mstep_by (apply loop_check_ok). mstep_by (by apply conn_ok).
    erewrite bind_step by (unfold assert_; by rewrite Hst). erewrite bind_step by done. fold s1.
    mstep_by (by apply (zoom_ok (S:=Net X) (C:=EventLoop))). fold s2.
    rewrite Hu. erewrite bind_step by done.
    etrans; [apply (zoom_ok (S:=Net X) (C:=EventLoop))|reflexivity].
    exact (removeChannel_ok _ _ (set_poller (net_loop s) q) ch1 q' (proj1 Hr) est_loop0 E').
  - rewrite Hm', Hm. simpl. by rewrite est_fd0.
  - intros d kd chd j pd Hd Hed. pose proof (est_channel_ne _ _ _ _ _ _ _ _ _ _ _ _ He Hed Hd) as Hne.
    destruct Hed. destruct (Ho' (channel_ kd) chd j pd Hne (Ho _ _ _ _ Hne est_reg1)) as (j' & Hj).
    exists j'. split; try done. simpl. by rewrite lookup_insert_ne.
Qed.
End ends.

(** ** Properties *)

Section properties.
Context {X : Type} (ew : eventfd_model) (tid : Z).
Context (call_close : close_callback → conn_id → M (Net X) unit) (c : conn_id).
Context (Hclose : detached_close call_close).
Implicit Types s : Net X.

Lemma cexecs_outcome B evs s k ch i p :
  est c (net_loop s) (net_conns s) k ch i p → threadId_ (net_loop s) = tid →
  (∀ n, zlen (answer_data (net_kernel s) n) ≤ B) → events_cost B evs ≤ room k →
  ∃ s' k' ch' p', for_each (cexec ew tid call_close c) evs s = Ok (tt, s') ∧
    progress c i (accepted (connected k) evs) (events_cost B evs) s k p s' k' ch' p' ∧
    (forallb peaceful evs = true → ∀ z acc, flush_ok z acc s k ch →
       flush_ok z (acc ++ accepted (connected k) evs) s' k' ch').
Proof using Hclose.
  revert s k ch p. induction evs as [|ev evs IH]; intros s k ch p He Ht HB Hsz; cbn [for_each].
  - exists s, k, ch, p. split; [done|]. split; [by apply progress_refl|]. simpl.
    intros _ z acc. by rewrite app_nil_r.
  - simpl in Hsz.
    assert (0 ≤ B) as HB0 by (pose proof (HB 0%nat); pose proof (zlen_nonneg (answer_data (net_kernel s) 0)); lia).
    assert (∀ ev, 0 ≤ event_cost B ev) as Hcost by (intros []; simpl; try apply zlen_nonneg; lia).
    assert (0 ≤ events_cost B evs) as Hcosts.
    { clear -Hcost. induction evs as [|e evs IH]; simpl; [lia|]. specialize (Hcost e). lia. }
    destruct (cexec_outcome ew tid call_close c B ev s k ch i p Hclose He Ht HB ltac:(lia))
      as (s1 & k1 & ch1 & p1 & E1 & P1 & Ho1 & Hf1).
    destruct (IH s1 k1 ch1 p1) as (s2 & k2 & ch2 & p2 & E2 & P2 & Hf2).
    { by destruct P1. } { destruct P1. congruence. } { destruct P1 as [_ _ _ _ _ -> _]. done. }
    { destruct P1. unfold room in *. lia. }
    exists s2, k2, ch2, p2. split; [by mstep_by (exact E1)|].
    assert (accepted (connected k) (ev :: evs) =
            accepted (connected k) [ev] ++ accepted (connected k1) evs) as Ha.
    { rewrite Ho1. destruct ev; simpl; rewrite ?app_nil_r; done. }
    rewrite Ha. split; [by eapply progress_trans|].
    intros [Hp Hps]%andb_true_iff z acc Hf. rewrite app_assoc. auto.
Qed.



(** The second backlog of a connection is never sent: once [handleWrite]
    has emptied the output buffer, the channel's slot in the poller stays
    switched off whatever [sendInLoop] enables later, so that no poll ever
    reports the connection again and what is buffered stays buffered. *)
Theorem second_backlog_stalls B evs s k ch i p :
  est c (net_loop s) (net_conns s) k ch i p → threadId_ (net_loop s) = tid →
  (∀ n, zlen (answer_data (net_kernel s) n) ≤ B) → events_cost B evs ≤ room k →
  isWriting ch = true →
  0 < zlen (Buffer.content (outputBuffer_ k)) ≤ answer (net_kernel s) (calls (net_kernel s)) →
  ∃ s', (handleWrite ew tid c ;; for_each (cexec ew tid call_close c) evs) s = Ok (tt, s') ∧
    ∀ ready t active q,
      Poller.poll ready [] (poller_ (net_loop s')) = Ok ((t, active), q) → channel_ k ∉ active.
Proof using Hclose.
  intros He Ht HB Hsz Hw Hall.
  destruct (handleWrite_spec ew tid c s k ch i p He)
    as (s1 & k1 & ch1 & p1 & E1 & P1 & _ & _ & Hdr & Hend & _).
  destruct (Hdr Hw (Hend Hw Hall)) as [_ Hoff]. pose proof P1 as [He1 Hfix1 _ _ Hc1 Hd1 Ht1].
  destruct (cexecs_outcome B evs s1 k1 ch1 i p1) as (s2 & k2 & ch2 & p2 & E2 & [He2 Hfix2 _ Hoff2] & _).
  { done. } { by rewrite Ht1. } { by rewrite Hd1. } { unfold room in *. lia. }
  exists s2. split; [by mstep_by (exact E1)|]. intros ready t active q.
  destruct Hfix1 as (_ & Hch1 & _), Hfix2 as (_ & Hch2 & _). rewrite <- Hch1, <- Hch2.
  eapply Poller.poll_off; [by destruct He2..|by apply Hoff2].
Qed.

(** A connection that was destroyed can still be reached by a [sendInLoop] that
    another thread had queued: its state is not looked at again.  Whatever it
    cannot write at once it appends to the output buffer, and then asks the
    poller to watch a descriptor that is no longer there. *)
Theorem late_send_asserts s k ch i p u message :
  est c (net_loop s) (net_conns s) k ch i p → connectionCallback_ k = Some u →
  message ≠ [] → Buffer.writeIndex (outputBuffer_ k) + zlen message ≤ PTRDIFF_MAX →
  Buffer.content (outputBuffer_ k) ≠ [] ∨ answer (net_kernel s) (calls (net_kernel s)) < zlen message →
  (connectDestroyed tid c ;; sendInLoop ew tid c message) s = Err AssertFailed.
Proof using Type.
  intros He Hu Hne Hsz Hleft. pose proof He as [].
  destruct (connectDestroyed_spec tid c s k ch i p u He Hu)
    as (q & ch' & E & _ & Hm & _ & Hc & Hev & Hfd & _ & Hix & Hl & _). mstep_by (exact E).
  set (s1 := mkNet _ _ _ _ _) in *. set (k1 := setState k kDisconnected) in *.
  assert (net_conns s1 !! c = Some k1) as Hk1 by apply lookup_insert_eq.
  assert (isWriting ch' = false) as Hw by (unfold isWriting; by rewrite Hev).
  assert (∃ n s2, write_now (X:=X) ew tid c k1 ch' message s1 = Ok (n, s2) ∧ 0 ≤ n < zlen message ∧
    net_loop s2 = net_loop s1 ∧ net_conns s2 = net_conns s1) as (n & s2 & E2 & Hn & Hl2 & Hc2).
  { unfold write_now. rewrite Hw, readable_zero by done. simpl.
    assert (0 < zlen message) by (destruct message; [done|rewrite zlen_cons; pose proof (zlen_nonneg message); lia]).
    case_bool_decide as Hct; [|by exists 0, s1; split_and!; done || lia].
    destruct Hleft as [|Hlt]; [done|]. set (n := Z.min (answer (net_kernel s) (calls (net_kernel s))) (zlen message)).
    set (s2 := lset (logged (net_kernel s) (SysWrite (fd_ ch') message) n) s1 : Net X).
    assert (zoom (S:=Net X) (sys_write (fd_ ch') message) s1 = Ok (n, s2)) as E1 by done.
    mstep_by (exact E1). destruct (Z.leb_spec 0 n).
    - rewrite (proj2 (Z.ltb_lt _ _)) by lia. exists n, s2. split_and!; done || lia.
    - exists 0, s2. split_and!; done || lia. }
  unfold sendInLoop. mstep_by (apply loop_check_ok). mstep_by (by apply conn_ok).
  mstep_by (by apply (conn_channel_at c s1 k1)). fold (write_now (X:=X) ew tid c k1 ch' message). mstep_by (exact E2).
  unfold assert_. rewrite (proj2 (Z.leb_le 0 n)), (proj2 (Z.ltb_lt n _)) by lia. mstep.
  set (rest := drop (Z.to_nat n) message).
  destruct (Buffer.append_spec (outputBuffer_ k) rest est_out0) as (b & Eb & _).
  { unfold rest, zlen in *. rewrite length_drop. lia. }
  assert (net_conns s2 !! c = Some k1) as Hk2 by by rewrite Hc2.
  mstep_by (by apply on_output_ok). set (s3 := upd_conn c (set_outputBuffer k1 b) s2).
  mstep_by (apply (conn_channel_at c s3 (set_outputBuffer k1 b) ch'); [apply lookup_insert_eq|]; simpl; by rewrite Hl2).
  rewrite Hw. simpl. unfold zoom at 1. simpl. rewrite Hl2.
  rewrite (change_mask_removed tid EnableWriting (channel_ k) _ ch'); [done|exact Hc| | |simpl; congruence].
  - rewrite Hix. destruct est_reg0 as (_ & _ & -> & _). lia.
  - simpl. rewrite Hm, Hfd. apply lookup_delete_eq.
Qed.
End properties.

(** ** Concrete executions *)

Module Demo.
Definition ew : eventfd_model := EventLoop.Demo.ew.
Definition call_close (cb : close_callback) (c : conn_id) : M (Net unit) unit := mret ().
Definition s0 : Net unit :=
  mkNet (set_poller EventLoop.Demo.e0 Poller.Poller_new)
    (mkKernel (λ n, 5000) (λ _, str "abc") (λ _, zero_addr) []) ∅ [] tt.

Definition open : M (Net unit) unit :=
  TcpConnection_new 0 1 9 (str "demo") 12 zero_addr zero_addr ;;
  set_callbacks 1 (Some 1%N) (Some 2%N) None CloseTcpServer_removeConnection ;;
  connectEstablished 7 1.

Definition after (m : M (Net unit) unit) (s : Net unit) : Net unit :=
  match m s with Ok (_, s') => s' | Err _ => s end.

Definition run (evs : list cevent) : M (Net unit) unit := for_each (cexec ew 7 call_close 1) evs.

(** Established; with a message waiting; and with everything written. *)
Definition s1 : Net unit := after open s0.
Definition s2 : Net unit := after (run [EvSend (str "hello")]) s1.
Definition s3 : Net unit := after (run [EvSend (str "hello"); EvWritable]) s1.

Definition out_of (s : Net unit) : option bytes :=
  (λ k, Buffer.content (outputBuffer_ k)) <$> net_conns s !! 1%nat.

Lemma close_ok : detached_close call_close.
Proof. intros cb c s. by exists s. Qed.

Lemma poller_ok : Poller.inv (poller_ (net_loop s0)).
Proof. split; simpl; done. Qed.

Lemma fresh_ok : fresh s0 1 9 12.
Proof. by split. Qed.

Lemma est_s1 : ∃ k ch i p, est 1 (net_loop s1) (net_conns s1) k ch i p ∧
  room k = PTRDIFF_MAX - 2048 ∧ socket_ k = 12 ∧ channel_ k = 9%nat ∧ connected k = true.
Proof.
  destruct (connectEstablished_spec 7 1 s0 9 (str "demo") 12 zero_addr zero_addr 1%N 2%N None
    CloseTcpServer_removeConnection poller_ok fresh_ok) as (s & k & ch & i & p & E & He & Hs & Hc & _ & Hop & _ & Hr & _).
  assert (this_ (net_loop s0) = 0%nat) as E0 by (vm_compute; reflexivity). rewrite E0 in E.
  assert (s1 = s) as -> by (unfold s1, after, open; by rewrite E).
  exists k, ch, i, p. by split_and!.
Qed.

(** After any events the invariant holds again. *)
Lemma est_run evs : events_cost 10 evs ≤ 100 →
  run evs s1 = Ok (tt, after (run evs) s1) ∧
  ∃ k ch i p, est 1 (net_loop (after (run evs) s1)) (net_conns (after (run evs) s1)) k ch i p ∧
    socket_ k = 12 ∧ channel_ k = 9%nat ∧ PTRDIFF_MAX - 2148 ≤ room k.
Proof.
  intros Hsz. destruct est_s1 as (k & ch & i & p & He & Hr & Hs & Hc & _).
  destruct (cexecs_outcome ew 7 call_close 1 close_ok 10 evs s1 k ch i p He)
    as (s & k' & ch' & p' & E & P & _); [done|done|rewrite Hr; unfold PTRDIFF_MAX; lia|].
  unfold after, run. rewrite E. split; [done|]. exists k', ch', i, p'.
  destruct P as [He' (Hs' & Hc' & _) _ _ Hcost _ _ _]. split_and!; try done; try congruence.
  unfold room in *. lia.
Qed.
End Demo.



Lemma second_backlog_stalls_witness :
  ∃ s', (handleWrite Demo.ew 7 1 ;;
         for_each (cexec Demo.ew 7 Demo.call_close 1) [EvSend (str "again")]) Demo.s2 = Ok (tt, s') ∧
    ∀ ready t active q,
      Poller.poll ready [] (poller_ (net_loop s')) = Ok ((t, active), q) → 9%nat ∉ active.
Proof.
  destruct (Demo.est_run [EvSend (str "hello")]) as (_ & k & ch & i & p & He & Hs & Hc & Hr);
    [vm_compute; discriminate|].
  fold Demo.s2 in He. rewrite <- Hc.
  apply (second_backlog_stalls Demo.ew 7 Demo.call_close 1 Demo.close_ok 10 [EvSend (str "again")]
           Demo.s2 k ch i p He).
  - vm_compute. reflexivity.
  - intros n. vm_compute. discriminate.
  - etrans; [|exact Hr]. vm_compute. discriminate.
  - assert (isWriting <$> Poller.chans (poller_ (net_loop Demo.s2)) !! 9%nat = Some true) as E
      by (vm_compute; reflexivity).
    destruct (est_reg _ _ _ _ _ _ _ He) as (Hch & _). rewrite <- Hc, Hch in E. by injection E.
  - assert (zlen <$> Demo.out_of Demo.s2 = Some 1021) as E by (vm_compute; reflexivity).
    unfold Demo.out_of in E. rewrite (est_conn _ _ _ _ _ _ _ He) in E. injection E as ->.
    assert (answer (net_kernel Demo.s2) (calls (net_kernel Demo.s2)) = 5000) as -> by (vm_compute; reflexivity).
    lia.
Defined.


(** A connection whose last event was a read cannot be deleted: [handleEvent]
    returned early, so the destructor of its channel fails its assertion. *)
Example delete_after_read :
  let call := λ f, match f with
                   | FnTcpConnection_handleRead c => handleRead 7 Demo.call_close c 0
                   | _ => mret ()
                   end in
  let read_event := on_poller (Poller.upd_chan 9 (λ ch, set_revents ch POLLIN)) ;;
                    handleEvent call (λ _, call) 9 0 in
  (connectDestroyed 7 1 ;; TcpConnection_delete 1) Demo.s1 ≠ Err AssertFailed ∧
  (read_event ;; connectDestroyed 7 1 ;; TcpConnection_delete 1) Demo.s1 = Err AssertFailed.
Proof. split; [vm_compute; discriminate|vm_compute; reflexivity]. Qed.

(** The first message of a connection: the 1016 bytes of the new buffer wait. *)
Lemma late_send_asserts_witness :
  ∃ k, net_conns Demo.s1 !! 1%nat = Some k ∧
    (connectDestroyed 7 1 ;; sendInLoop Demo.ew 7 1 (str "late")) Demo.s1 = Err AssertFailed.
Proof.
  destruct Demo.est_s1 as (k & ch & i & p & He & Hr & _). pose proof (est_conn _ _ _ _ _ _ _ He) as Hk.
  assert ((λ k, (connectionCallback_ k, Buffer.writeIndex (outputBuffer_ k),
                 bool_decide (Buffer.content (outputBuffer_ k) = []))) <$> net_conns Demo.s1 !! 1%nat =
          Some (Some 1%N, 1024, false)) as Hv by (vm_compute; reflexivity).
  rewrite Hk in Hv. injection Hv as Hu Hw Hb. exists k. split; [exact Hk|].
  apply (late_send_asserts Demo.ew 7 1 Demo.s1 k ch i p 1%N); [exact He|exact Hu|discriminate| |].
  - rewrite Hw. vm_compute. discriminate.
  - left. by apply bool_decide_eq_false in Hb.
Defined.

(** A [send] of another thread that is queued when the connection goes away
    runs on a dangling pointer: the functor binds a raw [this]. *)
Example queued_send_dangles :
  (send Demo.ew 8 1 (str "late") ;; connectDestroyed 7 1 ;; TcpConnection_delete 1 ;;
   dePendingFunctors (call_bound Demo.ew 7) holds_nothing) Demo.s1 = Err DanglingPtr.
Proof. vm_compute. reflexivity. Qed.
