(* ===== verification/EventLoopThreadPool.v ===== *)
(** * EventLoopThreadPool: the loops that serve connections

    Models src/muduo/EventLoopThreadPool.h and src/muduo/EventLoopThreadPool.cpp.
    Loops and threads are named by numbers; a [unique_ptr] is an option.  An
    overrun of the vector of loops is the fault [OutOfBounds], a call through
    the moved-from pointer of [start] the fault [NullDeref]. *)

From S2P Require Import Prelude.

Record EventLoopThreadPool : Type := mkPool {
  baseLoop_ : nat;
  started_ : bool;
  numThreads_ : Z;
  next_ : Z;
  threads_ : list (option nat);   (* vector<unique_ptr<EventLoopThread>> *)
  loops_ : list nat;
}.

Definition EventLoopThreadPool_new (baseLoop : nat) : EventLoopThreadPool :=
  mkPool baseLoop false 0 0 [] [].

(** The body is empty. *)
Definition setThreadNum (numThreads : Z) : M EventLoopThreadPool unit := mret ().

(** One iteration of the loop of [start]: [t] is moved from before
    [t->startLoop()] is called. *)
Definition start_one (i : nat) : M EventLoopThreadPool unit :=
  modify (λ p, mkPool (baseLoop_ p) (started_ p) (numThreads_ p) (next_ p)
                 (threads_ p ++ [Some i]) (loops_ p)) ;;
  let t : option nat := None in
  l ← deref NullDeref t;
  modify (λ p, mkPool (baseLoop_ p) (started_ p) (numThreads_ p) (next_ p)
                 (threads_ p) (loops_ p ++ [l])).

Definition start : M EventLoopThreadPool unit :=
  p ← get;
  assert_ (negb (started_ p)) ;;
  put (mkPool (baseLoop_ p) true (numThreads_ p) (next_ p) (threads_ p) (loops_ p)) ;;
  for_each start_one (seq 0 (Z.to_nat (numThreads_ p))).

Definition getNextLoop : M EventLoopThreadPool nat :=
  p ← get;
  match loops_ p with
  | [] => mret (baseLoop_ p)
  | _ =>
      loop ← (if 0 <=? next_ p then deref OutOfBounds (loops_ p !! Z.to_nat (next_ p))
              else fail OutOfBounds);
      let next := next_ p + 1 in
      let next := if zlen (loops_ p) <=? next then 0 else next in
      put (mkPool (baseLoop_ p) (started_ p) (numThreads_ p) next (threads_ p) (loops_ p)) ;;
      mret loop
  end.

(** ** Properties *)

Definition inv (p : EventLoopThreadPool) : Prop :=
  0 ≤ next_ p ∧ (loops_ p ≠ [] → next_ p < zlen (loops_ p)).

Fixpoint take_loops (n : nat) : M EventLoopThreadPool (list nat) :=
  match n with
  | O => mret []
  | S n' => l ← getNextLoop; ls ← take_loops n'; mret (l :: ls)
  end.

Lemma getNextLoop_spec p :
  inv p → loops_ p ≠ [] →
  ∃ l p', getNextLoop p = Ok (l, p') ∧ loops_ p !! Z.to_nat (next_ p) = Some l ∧ inv p' ∧
    loops_ p' = loops_ p ∧ next_ p' = (next_ p + 1) mod zlen (loops_ p).
Proof.
  intros [H0 Hlt] Hne. specialize (Hlt Hne).
  destruct (lookup_lt_is_Some_2 (loops_ p) (Z.to_nat (next_ p))) as [l Hl]; [unfold zlen in *; lia|].
  unfold getNextLoop. mstep. destruct (loops_ p) as [|x ls] eqn:E; [done|]. rewrite <- E in *.
  rewrite (proj2 (Z.leb_le 0 (next_ p))) by done. rewrite Hl. mstep. mstep.
  do 2 eexists. split; [done|]. split; [done|]. unfold inv. simpl.
  destruct (Z.leb_spec (zlen (loops_ p)) (next_ p + 1)).
  - replace (next_ p + 1) with (zlen (loops_ p)) by lia. rewrite Z_mod_same_full.
    split; [|done]. split; [lia|]. intros _. lia.
  - rewrite Z.mod_small by lia. split; [|done]. split; [lia|]. lia.
Qed.

(** [getNextLoop] hands out the loops round-robin: the [k]-th of any number
    of calls returns the loop [k] places after the current one, cyclically, so
    connections are spread evenly over the threads; without threads it is
    always the base loop. *)
Theorem getNextLoop_round_robin n p :
  inv p →
  ∃ ls p', take_loops n p = Ok (ls, p') ∧ inv p' ∧ length ls = n ∧
    ∀ k, (k < n)%nat →
      ls !! k = if decide (loops_ p = []) then Some (baseLoop_ p)
                else loops_ p !! Z.to_nat ((next_ p + Z.of_nat k) mod zlen (loops_ p)).
Proof.
  revert p. induction n as [|n IH]; intros p Hp.
  - exists [], p. split_and!; try done. lia.
  - destruct (decide (loops_ p = [])) as [Hnil|Hne].
    + destruct (IH p Hp) as (ls & p' & E & Hp' & Hl & Hk).
      exists (baseLoop_ p :: ls), p'. split_and!; [|done|simpl; lia|].
      * cbn [take_loops]. mstep_by (unfold getNextLoop; mstep; by rewrite Hnil). by mstep_by (exact E).
      * intros [|k] Hlt; [done|]. simpl. rewrite Hk, decide_True by (done || lia). done.
    + destruct (getNextLoop_spec p Hp Hne) as (l & p1 & E1 & Hl1 & Hp1 & El & En).
      destruct (IH p1 Hp1) as (ls & p' & E & Hp' & Hl & Hk).
      exists (l :: ls), p'. split_and!; [|done|simpl; lia|].
      * cbn [take_loops]. mstep_by (exact E1). by mstep_by (exact E).
      * destruct Hp as [H0 Hlt0]. specialize (Hlt0 Hne). intros [|k] Hlt; simpl.
        -- rewrite Z.add_0_r, Z.mod_small by lia. done.
        -- rewrite Hk, El, En, decide_False by (rewrite ?El; done || lia).
           do 2 f_equal. rewrite Zplus_mod_idemp_l. f_equal. lia.
Qed.

Lemma getNextLoop_round_robin_witness :
  let p := mkPool 9 true 3 1 [] [4; 5; 6]%nat in
  ∃ ls p', take_loops 4 p = Ok (ls, p') ∧ inv p' ∧ length ls = 4%nat ∧
    ∀ k, (k < 4)%nat → ls !! k = [4; 5; 6]%nat !! Z.to_nat ((1 + Z.of_nat k) mod 3).
Proof.
  apply (getNextLoop_round_robin 4 (mkPool 9 true 3 1 [] [4; 5; 6]%nat)).
  split; simpl; [lia|]. intros _. vm_compute. done.
Defined.

(** [setThreadNum] has no effect, and a pool with threads could not start:
    the moved-from [unique_ptr] is null. *)
Example pool_never_starts_threads :
  (setThreadNum 4 ;; start) (EventLoopThreadPool_new 0) =
    Ok (tt, mkPool 0 true 0 0 [] []) ∧
  start (mkPool 0 false 4 0 [] []) = Err NullDeref.
Proof. split; vm_compute; reflexivity. Qed.
