(* ===== verification/Acceptor.v ===== *)
(** * Acceptor: the listening socket

    Models src/muduo/net/Acceptor.h and src/muduo/net/Acceptor.cpp over any
    [Net X] whose upper state [X] contains the acceptor. *)

From S2P Require Import Prelude Callbacks Channel.
From S2P Require Poller.
From S2P Require Import EventLoop Sockets TcpConnection.

(** The values the library passes to [setNewConnectionCallback]. *)
Inductive new_connection_callback : Set :=
  | NewTcpServer_newConnection
  | NewTcpClient_newConnection.

Record Acceptor : Type := mkAcceptor {
  acceptSocket_ : Z;
  acceptChannel_ : chan_id;
  newConnectionCallback_ : option new_connection_callback;
  listening_ : bool;
}.

#[export] Instance net_ext_lens {X} : Lens (Net X) X :=
  {| lget := net_ext;
     lset := λ x s, mkNet (net_loop s) (net_kernel s) (net_conns s) (net_events s) x |}.

#[export] Instance net_ext_laws {X} : LensLaws (Net X) X.
Proof. split; [done| |done]. by intros []. Qed.

(** [Acceptor::Acceptor], with its channel at address [chid]. *)
Definition Acceptor_new {X} (chid : chan_id) (listenAddr : InetAddress) : M (Net X) Acceptor :=
  fd ← zoom createNonblockingOrDie;
  s ← get;
  if decide (is_Some (Poller.chans (poller_ (net_loop s)) !! chid)) then fail BadAlloc else
  zoom (setReuseAddr fd true) ;;
  zoom (bindOrDie fd listenAddr) ;;
  on_poller (modify (Poller.set_chan chid
    (setWReadCallback (Channel_new (this_ (net_loop s)) fd) FnAcceptor_handleRead))) ;;
  mret (mkAcceptor fd chid None false).

(** The body of [setNewConnectionCallback] is empty. *)
Definition setNewConnectionCallback (cb : new_connection_callback) (a : Acceptor) : Acceptor := a.

Section operations.
Context {X : Type} `{Lens X Acceptor} (tid : Z).
Context (call_new : new_connection_callback → Z → InetAddress → M (Net X) unit).

Definition acceptor : M (Net X) Acceptor := zoom (zoom (S:=X) get).

Definition listen : M (Net X) unit :=
  zoom (assertInLoopThread tid) ;;
  a ← acceptor;
  zoom (zoom (S:=X) (put (mkAcceptor (acceptSocket_ a) (acceptChannel_ a) (newConnectionCallback_ a) true))) ;;
  zoom (listenOrDie (acceptSocket_ a)) ;;
  zoom (change_mask tid EnableReading (acceptChannel_ a)).

Definition acceptor_handleRead : M (Net X) unit :=
  zoom (assertInLoopThread tid) ;;
  a ← acceptor;
  '(connfd, peerAddr) ← zoom (Socket_accept (acceptSocket_ a) (InetAddress_port 0));
  if 0 <=? connfd then
    match newConnectionCallback_ a with
    | Some cb => call_new cb connfd peerAddr
    | None => zoom (close connfd)
    end
  else mret ().
End operations.

(** ** Properties *)

(** An acceptor never hands a connection to its owner, whatever callback was
    set: [setNewConnectionCallback] stores nothing, so every descriptor
    accepted is closed at once, and nothing else of the program changes. *)
Theorem accepted_are_closed {X} `{Lens X Acceptor} tid call_new cb (s : Net X) :
  (∃ a, lget (net_ext s) = setNewConnectionCallback cb a ∧ newConnectionCallback_ a = None) →
  lset (lget (net_ext s)) (net_ext s) = net_ext s →
  ∃ s', acceptor_handleRead tid call_new s = Ok (tt, s') ∧
    net_conns s' = net_conns s ∧ net_loop s' = net_loop s ∧ net_ext s' = net_ext s ∧
    let fd := answer (net_kernel s) (calls (net_kernel s)) in
    (trace (net_kernel s')).*1 =
      (trace (net_kernel s)).*1 ++ SysAccept (acceptSocket_ (lget (net_ext s))) ::
        (if 0 <=? fd then [SysClose fd] else []).
Proof.
  intros (a & Ea & Hcb) Hid. unfold setNewConnectionCallback in Ea.
  unfold acceptor_handleRead. mstep_by (apply loop_check_ok).
  assert (acceptor s = Ok (lget (net_ext s), s)) as E1.
  { unfold acceptor, zoom. simpl. rewrite Hid. by destruct s. }
  mstep_by (exact E1).
  set (r := answer (net_kernel s) (calls (net_kernel s))).
  set (fd0 := acceptSocket_ (lget (net_ext s))).
  set (k1 := logged (net_kernel s) (SysAccept fd0) r).
  assert (∃ addr, zoom (S:=Net X) (Socket_accept fd0 (InetAddress_port 0)) s = Ok ((r, addr), lset k1 s))
    as [addr E2] by (eexists; reflexivity).
  mstep_by (exact E2). destruct (0 <=? r) eqn:Hr.
  - rewrite Ea, Hcb. eexists. split; [reflexivity|]. split_and!; try done.
    simpl. rewrite fmap_app. simpl. by rewrite fmap_app, <- app_assoc.
  - eexists. split; [reflexivity|]. split_and!; try done. simpl. by rewrite fmap_app.
Qed.

Module Demo.
#[global] Instance acceptor_id : Lens Acceptor Acceptor := lens_id.
Definition s0 : Net Acceptor :=
  mkNet (net_loop TcpConnection.Demo.s0)
    (mkKernel (λ n, 20 + Z.of_nat n) (λ _, []) (λ _, zero_addr) []) ∅ []
    (mkAcceptor 3 0 None true).
End Demo.

Lemma accepted_are_closed_witness :
  ∃ s', acceptor_handleRead 7 (λ _ _ _, fail NullDeref) Demo.s0 = Ok (tt, s') ∧
    net_conns s' = net_conns Demo.s0 ∧ net_loop s' = net_loop Demo.s0 ∧
    net_ext s' = net_ext Demo.s0 ∧
    (trace (net_kernel s')).*1 = [SysAccept 3; SysClose 20].
Proof.
  destruct (accepted_are_closed 7 (λ _ _ _, fail NullDeref) NewTcpServer_newConnection Demo.s0)
    as (s' & E & H1 & H2 & H3 & H4).
  - by exists (mkAcceptor 3 0 None true).
  - done.
  - exists s'. split; [exact E|]. split; [exact H1|]. split; [exact H2|]. split; [exact H3|].
    rewrite H4. vm_compute. reflexivity.
Defined.
