(* ===== verification/Rounds.v ===== *)
(** * Rounds: the rounds of a loop, for any program on it

    What a handler leaves alone ([kept], proved command by command), and the
    interface between [EventLoop::loop] (src/muduo/EventLoop.cpp) and a program:
    [Rounds] states what the program's handlers promise, [loop_rounds] what the
    loop then does in any number of rounds.  ServerLoop.v and Program.v are its
    clients. *)

From S2P Require Import Prelude Callbacks Channel Timestamp.
From S2P Require Poller.
From S2P Require Import EventLoop Sockets TcpConnection.

(** ** What handlers leave alone *)

(** Equal as far as [handleEvent] reads them. *)
Definition same_dispatch (a b : channel) : Prop :=
  revents_ a = revents_ b ∧ readCallback_ a = readCallback_ b ∧
  writeCallback_ a = writeCallback_ b ∧ errorCallback_ a = errorCallback_ b ∧
  Channel.closeCallback_ a = Channel.closeCallback_ b.

#[export] Instance same_dispatch_refl : Reflexive same_dispatch.
Proof. done. Qed.
#[export] Instance same_dispatch_trans : Transitive same_dispatch.
Proof. unfold same_dispatch. intros a b d. intuition congruence. Qed.

(** Functors that only call the client. *)
Definition harmless (f : closure) : Prop :=
  match f with FnUser _ | FnWriteCompleteCallback _ _ => True | _ => False end.

Lemma harmless_inv f : harmless f → (∃ u, f = FnUser u) ∨ (∃ u c, f = FnWriteCompleteCallback u c).
Proof. destruct f; try done; intros _; eauto. Qed.

(** Every channel of [p] is still there, as far as dispatching goes. *)
Definition dispatches (p p' : Poller.Poller) : Prop :=
  ∀ c ch, Poller.chans p !! c = Some ch → ∃ ch', Poller.chans p' !! c = Some ch' ∧ same_dispatch ch ch'.

#[export] Instance dispatches_refl : Reflexive dispatches.
Proof. intros p c ch Hc. by exists ch. Qed.
#[export] Instance dispatches_trans : Transitive dispatches.
Proof.
  intros p q r H1 H2 c ch Hc. destruct (H1 c ch Hc) as (ch1 & Hc1 & S1).
  destruct (H2 c ch1 Hc1) as (ch2 & Hc2 & S2). exists ch2. split; [done|]. by etrans.
Qed.

Lemma dispatches_same p p' : Poller.chans p' = Poller.chans p → dispatches p p'.
Proof. intros E c ch Hc. exists ch. by rewrite E. Qed.

Lemma dispatches_insert p p' c ch ch' :
  Poller.chans p !! c = Some ch → same_dispatch ch ch' →
  Poller.chans p' = <[c := ch']> (Poller.chans p) → dispatches p p'.
Proof.
  intros Hc Hs E d chd Hd. rewrite E. destruct (decide (d = c)) as [->|Hne].
  - assert (chd = ch) as -> by congruence. exists ch'. by rewrite lookup_insert_eq.
  - exists chd. by rewrite lookup_insert_ne.
Qed.

Lemma dispatches_updateChannel c p u p' : Poller.updateChannel c p = Ok (u, p') → dispatches p p'.
Proof.
  unfold Poller.updateChannel. intros (ch & p1 & [Hch ->]%Poller.chan_inv & E)%bind_Ok.
  minv E. destruct (index_ ch <? 0); minv E; [|by apply dispatches_same].
  eapply (dispatches_insert _ _ c ch _ Hch); [|reflexivity]. done.
Qed.

Lemma dispatches_removeChannel c p u p' : Poller.removeChannel c p = Ok (u, p') → dispatches p p'.
Proof.
  unfold Poller.removeChannel. intros (ch & p1 & [Hch ->]%Poller.chan_inv & E)%bind_Ok.
  minv E. destruct (index_ ch =? _); minv E; [by apply dispatches_same|].
  match goal with H : Poller.chan _ _ = _ |- _ => apply Poller.chan_inv in H as [He ->] end. simpl in He.
  eapply (dispatches_insert _ _ _ _ _ He); [|reflexivity]. done.
Qed.

(** [good]: the functors a handler may queue. *)
Section kept.
Context (good : closure → Prop).

Record kept (e e' : EventLoop) : Prop := mkKept {
  kp_dispatch : dispatches (poller_ e) (poller_ e');
  kp_quiet : quiet_loop e → quiet_loop e';
  kp_pending : Forall good (pendingFunctors_ e) → Forall good (pendingFunctors_ e');
  kp_quit : quit_ e' = quit_ e;
  kp_looping : looping_ e' = looping_ e;
}.

#[global] Instance kept_refl : Reflexive kept.
Proof. intros e. by split. Qed.
#[global] Instance kept_trans : Transitive kept.
Proof. intros a b d [] []. split; try by etrans. all: auto. Qed.

Definition keeps_loop {A} (m : M EventLoop A) : Prop := ∀ e a e', m e = Ok (a, e') → kept e e'.

Lemma kl_assert tid : keeps_loop (assertInLoopThread tid).
Proof. intros e a e'. rewrite assertInLoopThread_noop. by intros [= _ <-]. Qed.
Lemma kl_get : keeps_loop get.
Proof. by intros e a e' [= _ <-]. Qed.

Lemma kl_change_mask tid o c : keeps_loop (change_mask tid o c).
Proof.
  intros e u e' E.
  assert (quiet_loop e → quiet_loop e') as Hq by by apply (chan_exec_quiet tid (ChanMask o c) _ u).
  unfold change_mask in E.
  apply bind_Ok in E as (? & ? & (p & (ch & Hc & ->)%Poller.upd_chan_inv & ->)%zoom_inv & E).
  apply updateChannel_inv in E as (p' & E & ->). split; try done. simpl.
  etrans; [|exact (dispatches_updateChannel _ _ _ _ E)]. by apply (dispatches_insert _ _ c ch (set_events ch (mask_update o (events_ ch)))).
Qed.

Lemma kl_removeChannel tid c : keeps_loop (removeChannel tid c).
Proof.
  intros e u e' E.
  assert (quiet_loop e → quiet_loop e') as Hq by by apply (chan_exec_quiet tid (ChanRemove c) _ u).
  apply removeChannel_inv in E as (p & E & ->). split; try done. by eapply dispatches_removeChannel.
Qed.

Lemma kl_queueInLoop ew tid f : good f → keeps_loop (queueInLoop ew tid f).
Proof.
  intros Hf e u e' E. unfold queueInLoop in E. minv E.
  assert (kept e (set_pending e (pendingFunctors_ e ++ [f]))) as Hk.
  { split; try done. simpl. intros H. apply Forall_app. split; [done|]. by apply Forall_singleton. }
  destruct (_ || _); [|by minv E]. unfold wakeup in E. minv E. destruct (ew _ _ _); minv E; destruct Hk; by split.
Qed.

Definition keeps {X A} (m : M (Net X) A) : Prop :=
  ∀ s a s', m s = Ok (a, s') → kept (net_loop s) (net_loop s').

Section keeps.
Context {X : Type}.

Lemma kp_same {A} (m : M (Net X) A) :
  (∀ s a s', m s = Ok (a, s') → net_loop s' = net_loop s) → keeps m.
Proof. intros H s a s' E. by rewrite (H _ _ _ E). Qed.

Lemma kp_bind {A B} (m : M (Net X) A) (k : A → M (Net X) B) :
  keeps m → (∀ a, keeps (k a)) → keeps (m ≫= k).
Proof. intros Hm Hk s b s' (a & s1 & E1 & E2)%bind_Ok. etrans; [by eapply Hm|by eapply Hk]. Qed.

Lemma kp_loop {A} (m : M EventLoop A) : keeps_loop m → keeps (X:=X) (zoom m).
Proof. intros Hm s a s' (e & E & ->)%zoom_inv. by eapply Hm. Qed.

Lemma kp_lift {A} (r : res A) : keeps (X:=X) (lift r).
Proof. apply kp_same. intros s a s' E. by minv E. Qed.
Lemma kp_ret {A} (a : A) : keeps (X:=X) (mret a).
Proof. apply kp_same. intros s b s' E. by minv E. Qed.
Lemma kp_get : keeps (X:=X) get.
Proof. apply kp_same. intros s b s' E. by minv E. Qed.
Lemma kp_fail {A} f : keeps (X:=X) (A:=A) (fail f).
Proof. done. Qed.
Lemma kp_assert b : keeps (X:=X) (assert_ b).
Proof. apply kp_same. intros s a s' E. by minv E. Qed.
Lemma kp_deref {A} f (o : option A) : keeps (X:=X) (deref f o).
Proof. destruct o; [apply kp_ret|done]. Qed.
Lemma kp_kernel {A} (m : M Kernel A) : keeps (X:=X) (zoom m).
Proof. apply kp_same. intros s a s'. unfold zoom. destruct (m _) as [[b e]|]; [|done]. by intros [= <- <-]. Qed.
Lemma kp_set_conn c k : keeps (X:=X) (set_conn c k).
Proof. apply kp_same. intros s a s' E. unfold set_conn in E. by minv E. Qed.
Lemma kp_record ev : keeps (X:=X) (record ev).
Proof. apply kp_same. intros s a s' E. unfold record in E. by minv E. Qed.

Lemma kp_chan c : keeps (X:=X) (on_poller (Poller.chan c)).
Proof.
  intros s a s' (e & (p & (_ & ->)%Poller.chan_inv & ->)%zoom_inv & ->)%zoom_inv.
  simpl. by rewrite set_poller_id.
Qed.

(** Setting [eventHandling_]. *)
Lemma kp_set_handling c b : keeps (X:=X) (set_handling c b).
Proof.
  intros s a s' (e & (p & (ch & Hc & ->)%Poller.upd_chan_inv & ->)%zoom_inv & ->)%zoom_inv.
  split; try done; simpl.
  - by apply (dispatches_insert _ _ c ch (set_eventHandling ch b)).
  - intros Hq. apply quiet_set_chan; [done|]. simpl. by eapply Hq.
Qed.
End keeps.
End kept.

Create HintDb kept.
#[export] Hint Resolve kl_assert kl_get kl_change_mask kl_removeChannel @kp_loop @kp_lift @kp_ret @kp_get @kp_fail
  @kp_assert @kp_deref @kp_kernel @kp_set_conn @kp_record @kp_chan @kp_set_handling : kept.
#[export] Hint Extern 1 (keeps_loop _ (queueInLoop _ _ _)) => (apply kl_queueInLoop; first [exact I | by left | by right]) : kept.

(** [keep]: the command is made of steps that keep the dispatch of the loop. *)
Ltac keep :=
  repeat match goal with
  | |- keeps _ (mbind _ _) => apply kp_bind; [|intros ?]
  | |- keeps _ (if ?b then _ else _) => destruct b
  | |- keeps _ (match ?o with _ => _ end) => destruct o
  | |- keeps _ _ => solve [auto with kept]
  end.

(** ** Passive channels *)

(** A channel that is only told about reads: of the acceptor, the timers and
    the wake-ups. *)
Definition passive (ch : channel) : Prop :=
  errorCallback_ ch = None ∧ Channel.closeCallback_ ch = None ∧ writeCallback_ ch = None.

Section passive.
Context {X : Type} (call : closure → M (Net X) unit) (call_read : Timestamp → closure → M (Net X) unit).
Implicit Types s : Net X.

Definition chans_of s : gmap chan_id channel := Poller.chans (poller_ (net_loop s)).

Lemma fire_empty wants cb c s ch : chans_of s !! c = Some ch → cb ch = None →
  fire call wants cb c s = Ok (tt, s).
Proof.
  intros Hc Hcb. unfold fire. mstep_by (by apply chan_ok). rewrite Hcb. by destruct (wants _).
Qed.

(** What is reported for a passive channel, short of a read, changes nothing
    but its flag. *)
Lemma handleEvent_passive_eq c ch t s :
  chans_of s !! c = Some ch → passive ch → wants_read (revents_ ch) = false →
  handleEvent call call_read c t s =
    Ok (tt, put_chan c (set_eventHandling ch false) (put_chan c (set_eventHandling ch true) s)).
Proof.
  intros Hc (He & Hcl & Hw) Hrd.
  set (ch1 := set_eventHandling ch true). set (s1 := put_chan c ch1 s).
  assert (chans_of s1 !! c = Some ch1) as Hc1 by apply lookup_insert_eq.
  unfold handleEvent. mstep_by (by apply (set_handling_ok s c ch)). fold ch1. fold s1.
  mstep_by (by apply (fire_empty _ _ _ _ ch1)). mstep_by (by apply (fire_empty _ _ _ _ ch1)).
  mstep_by (by apply chan_ok). rewrite Hrd. mstep_by (by apply (fire_empty _ _ _ _ ch1)).
  by apply (set_handling_ok s1 c ch1).
Qed.
End passive.

(** ** Polls of a loop that asks for no reading *)

(** The poll succeeds; what it reports are channels of the poller, none for
    reading, and nothing but [revents_] changes. *)
Lemma quiet_poll_spec ready (p : Poller.Poller) :
  Poller.inv p → quiet p →
  ∃ act q, Poller.poll ready [] p = Ok ((0, act), q) ∧ Poller.inv q ∧ quiet q ∧ NoDup act ∧
    Poller.channels_ q = Poller.channels_ p ∧
    (∀ c ch, Poller.chans p !! c = Some ch →
       ∃ ev, Poller.chans q !! c = Some (set_revents ch ev)) ∧
    (∀ c ch i pf, Poller.registered p c ch i pf →
       ∃ ev pf', Poller.registered q c (set_revents ch ev) i pf' ∧ Poller.fd pf' = Poller.fd pf) ∧
    (∀ c, c ∈ act → (∃ fd, Poller.channels_ q !! fd = Some c) ∧ unread q c).
Proof.
  intros Hi Hq. assert (∀ ch, set_revents ch (revents_ ch) = ch) as Hid by by intros [].
  destruct ready as [r|].
  2: { exists [], p. split_and!; try done; [by constructor|..].
       - intros c ch Hc. exists (revents_ ch). by rewrite Hid.
       - intros c ch i pf Hr. exists (revents_ ch), pf. by rewrite Hid.
       - by intros c ?%not_elem_of_nil. }
  destruct (Poller.poll_fills p r) as (act & q & E & Hf); [done| |].
  { intros pf Hin. by destruct (proj2 Hq pf Hin) as [-> | ->]. }
  destruct (quiet_poll _ _ _ _ _ E Hq) as [Hqq Hun].
  destruct (Poller.poll_filled _ _ _ _ Hi Hf) as (Hiq & Hnd & Hact & _).
  pose proof Hf as (_ & Hm & _ & _ & Hch). exists act, q. split_and!; try done.
  - intros c ch Hc. destruct (Hch c ch Hc) as [(ev & _ & Ec)|[_ Ec]]; [by exists ev|].
    exists (revents_ ch). by rewrite Hid.
  - intros c ch i pf Hr. destruct (Poller.filled_registered _ _ _ _ _ _ _ _ Hf Hr) as (ch' & Hr' & [->|[ev ->]]).
    + exists (revents_ ch). rewrite Hid. by eexists.
    + by exists ev; eexists.
  - intros c Hc. rewrite Forall_forall in Hun. split; [|by apply Hun].
    destruct (proj1 (Hact c) Hc) as (ev & ch & i & pf & (_ & Hmap & _) & _).
    exists (fd_ ch). by rewrite Hm.
Qed.

(** ** What other threads may do: queue work of the client, and stop the loop *)

Definition welcome (f : foreign) : Prop :=
  match f with ForeignQueue _ cb => harmless cb | ForeignQuit _ => True end.
Definition is_quit (f : foreign) : bool := match f with ForeignQuit _ => true | _ => false end.
Definition quits (i : list foreign * option (Z → Z)) : bool := existsb is_quit i.1.

(** ** The interface *)

(** Alike but for the flags of the loop and the counter of its eventfd. *)
Definition same_work (e e' : EventLoop) : Prop :=
  poller_ e' = poller_ e ∧ this_ e' = this_ e ∧ threadId_ e' = threadId_ e ∧
  timerQueue_ e' = timerQueue_ e ∧ pendingFunctors_ e' = pendingFunctors_ e.

(** ** Functors of the client *)

Section client_functors.
Context {X : Type} (call : closure → M (Net X) unit).
Implicit Types s : Net X.

(** Functors of the client are its own affair. *)
Definition calls_client : Prop :=
  ∀ f s, harmless f → ∃ ev, is_connection ev = false ∧ call f s = record ev s.

Definition add_events (evs : list client_event) s : Net X :=
  mkNet (net_loop s) (net_kernel s) (net_conns s) (net_events s ++ evs) (net_ext s).

Lemma announced_add evs s : Forall (λ ev, is_connection ev = false) evs → announced (add_events evs s) = announced s.
Proof.
  intros H. unfold announced. simpl. rewrite filter_app. assert (filter is_connection evs = []) as ->.
  { induction H as [|ev evs Hev _ IH]; [done|]. rewrite filter_cons, decide_False; [done|]. rewrite Hev. by intros ?. }
  by rewrite app_nil_r.
Qed.

Lemma harmless_functors l s :
  calls_client → Forall harmless l →
  ∃ evs, Forall (λ ev, is_connection ev = false) evs ∧ for_each call l s = Ok (tt, add_events evs s).
Proof.
  intros Hc Hl. revert s. induction Hl as [|f l Hf _ IH]; intros s; cbn [for_each].
  - exists []. split; [by constructor|]. unfold add_events. rewrite app_nil_r. by destruct s.
  - destruct (Hc f s Hf) as (ev & Hev & E). destruct (IH (add_events [ev] s)) as (evs & Hevs & E2).
    exists (ev :: evs). split; [by constructor|]. rewrite bind_unfold, E.
    change (record ev s) with (Ok (tt, add_events [ev] s)). cbv beta iota. rewrite E2. unfold add_events. simpl.
    by rewrite <- app_assoc.
Qed.
End client_functors.

Definition same_flags {X} (s s' : Net X) : Prop :=
  quit_ (net_loop s') = quit_ (net_loop s) ∧ looping_ (net_loop s') = looping_ (net_loop s).

#[export] Instance same_flags_refl {X} : Reflexive (@same_flags X).
Proof. done. Qed.
#[export] Instance same_flags_trans {X} : Transitive (@same_flags X).
Proof. unfold same_flags. intros a b d. intuition congruence. Qed.

(** The program between the handlers of a round: its invariant [I] survives
    whatever the loop does; the channels a poll reports satisfy [R], which the
    handlers of other channels keep; and the handlers have no faults but the
    allowed ones. *)
Class Rounds {X} (call : closure → M (Net X) unit) (call_read : Timestamp → closure → M (Net X) unit)
    (destroy : list closure → closure → M (Net X) unit) (allow : fault → Prop) (I : Net X → Prop) (R : chan_id → Net X → Prop) : Prop := {
  rounds_flags s e : I s → same_work (net_loop s) e → I (lset e s);
  rounds_reported c s e : R c s → same_work (net_loop s) e → R c (lset e s);
  rounds_queue s f : I s → harmless f →
    I (lset (set_pending (net_loop s) (pendingFunctors_ (net_loop s) ++ [f])) s);
  rounds_poll ready s : I s →
    ∃ t act q, Poller.poll ready [] (poller_ (net_loop s)) = Ok ((t, act), q) ∧
      let s' := lset (set_poller (net_loop s) q) s in I s' ∧ NoDup act ∧ ∀ c, c ∈ act → R c s';
  rounds_event c t s : I s → R c s →
    match handleEvent call call_read c t s with
    | Ok (_, s') => I s' ∧ same_flags s s' ∧ ∀ x, x ≠ c → R x s → R x s'
    | Err f => allow f
    end;
  rounds_functors s : I s →
    match dePendingFunctors call destroy s with Ok (_, s') => I s' ∧ same_flags s s' | Err f => allow f end;
}.

Section rounds.
Context {X : Type} (ew : eventfd_model) (tid : Z).
Context (call : closure → M (Net X) unit) (call_read : Timestamp → closure → M (Net X) unit).
Context (destroy : list closure → closure → M (Net X) unit).
Context (allow : fault → Prop) (I : Net X → Prop) (R : chan_id → Net X → Prop).
Context `{HR : !Rounds call call_read destroy allow I R}.
Implicit Types s : Net X.

(** The reported channels, in turn. *)
Lemma active_rounds act s :
  I s → NoDup act → (∀ c, c ∈ act → R c s) →
  match for_each (λ c, e ← zoom get; handleEvent call call_read c (pollReturnTime_ e)) act s with
  | Ok (_, s') => I s' ∧ same_flags s s'
  | Err f => allow f
  end.
Proof using HR.
  revert s. induction act as [|c act IH]; intros s Hi Hnd Hact; cbn [for_each]; [done|].
  apply NoDup_cons in Hnd as [Hc Hnd]. rewrite bind_unfold, (bind_step _ _ _ _ _ (loop_get_ok s)).
  pose proof (rounds_event c (pollReturnTime_ (net_loop s)) s Hi (Hact c ltac:(left))) as He.
  destruct (handleEvent _ _ c _ s) as [[u s1]|f]; [|done]. destruct He as (Hi1 & Hf1 & Hr1).
  specialize (IH s1 Hi1 Hnd). destruct (for_each _ act s1) as [[u' s2]|f].
  - destruct IH as [Hi2 Hf2]; [|split; [done|by etrans]].
    intros x Hx. apply Hr1; [by intros ->|]. apply Hact. by right.
  - apply IH. intros x Hx. apply Hr1; [by intros ->|]. apply Hact. by right.
Qed.

Lemma iteration_rounds ready s :
  I s → match iteration call call_read destroy ready s with
        | Ok (_, s') => I s' ∧ same_flags s s'
        | Err f => allow f
        end.
Proof using HR.
  intros Hi. set (e0 := set_polled (net_loop s) (pollReturnTime_ (net_loop s)) []).
  assert (I (lset e0 s)) as Hi0 by by apply rounds_flags.
  destruct (rounds_poll ready _ Hi0) as (t & act & q & E & Hi1 & Hnd & Hact).
  set (s1 := lset (set_poller e0 q) s). set (e2 := set_polled (set_poller e0 q) t act).
  assert (I (lset e2 s)) as Hi2 by by apply (rounds_flags s1 e2).
  unfold iteration. mstep_by reflexivity. fold e0.
  mstep_by (unfold on_poller; apply zoom_ok, zoom_ok; exact E). mstep_by reflexivity.
  change (mkNet _ _ _ _ _) with (lset e2 s). rewrite bind_unfold.
  assert (∀ c, c ∈ act → R c (lset e2 s)) as Hact2.
  { intros c Hc. apply (rounds_reported c s1 e2); [by apply Hact|done]. }
  pose proof (active_rounds act (lset e2 s) Hi2 Hnd Hact2) as Ha.
  destruct (for_each _ act (lset e2 s)) as [[u s3]|f]; [|done]. destruct Ha as [Hi3 Hf3].
  pose proof (rounds_functors s3 Hi3) as Hd. destruct (dePendingFunctors call destroy s3) as [[u' s4]|f]; [|done].
  destruct Hd as [Hi4 Hf4]. split; [done|]. etrans; [exact Hf3|exact Hf4].
Qed.

Lemma foreign_rounds l s :
  I s → Forall welcome l →
  ∃ s', for_each (λ f, zoom (foreign_step ew f)) l s = Ok (tt, s') ∧ I s' ∧
    quit_ (net_loop s') = quit_ (net_loop s) || existsb is_quit l ∧ looping_ (net_loop s') = looping_ (net_loop s).
Proof using HR.
  revert s. induction l as [|f l IH]; intros s Hi Hl; cbn [for_each].
  { exists s. by rewrite orb_false_r. }
  apply Forall_cons in Hl as [Hf Hl].
  assert (∃ e, foreign_step ew f (net_loop s) = Ok (tt, e) ∧ I (lset e s) ∧
    quit_ e = quit_ (net_loop s) || is_quit f ∧ looping_ e = looping_ (net_loop s)) as (e & E & Hi1 & Hq1 & Hl1).
  { destruct f as [t cb|t]; simpl in *.
    - unfold queueInLoop. do 2 mstep. pose proof (rounds_queue s cb Hi Hf) as Hi1.
      rewrite orb_false_r. destruct (negb _ || _); [unfold wakeup; mstep; destruct (ew _ _ _)|];
        (eexists; split; [reflexivity|]); (split; [|done]); [|exact Hi1..].
      by apply (rounds_flags _ (set_eventfd (set_pending (net_loop s) (pendingFunctors_ (net_loop s) ++ [cb])) z) Hi1).
    - unfold quit. do 2 mstep. rewrite orb_true_r.
      destruct (negb _); [unfold wakeup; mstep; destruct (ew _ _ _)|];
        (eexists; split; [reflexivity|]); (split; [by apply rounds_flags|done]). }
  destruct (IH (lset e s) Hi1 Hl) as (s2 & E2 & Hi2 & Hq2 & Hl2).
  exists s2. split; [mstep_by (by apply zoom_ok); exact E2|]. split_and!; [done| |by rewrite Hl2].
  simpl in *. by rewrite Hq2, Hq1, orb_assoc.
Qed.

Lemma while_rounds inputs s :
  I s → Forall (λ i, Forall welcome i.1) inputs →
  match while_not_quit ew call call_read destroy inputs s with
  | Ok (b, s') => b = quit_ (net_loop s) || existsb quits inputs ∧ I s' ∧
      looping_ (net_loop s') = looping_ (net_loop s)
  | Err f => allow f
  end.
Proof using HR.
  revert s. induction inputs as [|[others ready] inputs IH]; intros s Hi Hin; cbn [while_not_quit];
    rewrite (bind_step _ _ _ _ _ (loop_get_ok s)).
  { destruct (quit_ (net_loop s)) eqn:Hq; (split; [by rewrite ?Hq|by split]). }
  destruct (quit_ (net_loop s)) eqn:Hq; [by split_and!|].
  apply Forall_cons in Hin as [Hw Hin].
  destruct (foreign_rounds others s Hi Hw) as (s1 & E1 & Hi1 & Hq1 & Hl1).
  rewrite (bind_step _ _ _ _ _ E1), bind_unfold. pose proof (iteration_rounds ready s1 Hi1) as Hit.
  destruct (iteration call call_read destroy ready s1) as [[u s2]|f]; [|done]. destruct Hit as (Hi2 & Hq2 & Hl2).
  specialize (IH s2 Hi2 Hin). destruct (while_not_quit _ _ _ _ _ s2) as [[b s3]|f]; [|done].
  destruct IH as (-> & Hi3 & Hl3). split_and!; [|done|congruence].
  by rewrite Hq2, Hq1, Hq.
Qed.

(** [EventLoop::loop] of such a program, for any number of rounds, whatever the
    kernel reports and other threads add: the invariant holds at the end, and
    the loop ends exactly if a thread called [quit]. *)
Lemma loop_rounds inputs s :
  I s → looping_ (net_loop s) = false → Forall (λ i, Forall welcome i.1) inputs →
  match loop ew tid call call_read destroy inputs s with
  | Ok (ended, s') => ended = existsb quits inputs ∧ I s' ∧ looping_ (net_loop s') = negb ended
  | Err f => allow f
  end.
Proof using HR.
  intros Hi Hl Hin. set (e1 := set_quit (set_looping (net_loop s) true) false).
  assert (I (lset e1 s)) as Hi1 by by apply rounds_flags.
  pose proof (while_rounds inputs (lset e1 s) Hi1 Hin) as Hw.
  unfold loop. rewrite (bind_step _ _ _ _ _ (loop_get_ok s)).
  mstep_by (unfold assert_; rewrite Hl; reflexivity). mstep_by (apply loop_check_ok).
  mstep_by reflexivity. change (mkNet _ _ _ _ _) with (lset e1 s). rewrite bind_unfold.
  destruct (while_not_quit _ _ _ _ _ (lset e1 s)) as [[b s2]|f]; [|done].
  destruct Hw as (-> & Hi2 & Hl2). simpl in *. destruct (existsb quits inputs); [|done].
  split; [done|]. split; [by apply (rounds_flags s2 (set_looping (net_loop s2) false))|done].
Qed.
End rounds.
