(* ===== verification/TcpServer.v ===== *)
(** * TcpServer: the connections of a listening server

    Models src/muduo/net/TcpServer.h and src/muduo/net/TcpServer.cpp on the
    loop of the server, with the dispatch of the function values a server's
    program creates.  What runs on another loop of the thread pool is the
    argument [queue_on].  A [TcpConnection] lives as long as a [shared_ptr]
    to it: one in [connections_], one bound in a queued functor, or one of the
    client's own ([user_holds]); [release] is the end of a temporary one. *)

From Stdlib Require Import String.
From S2P Require Import Prelude Printf Callbacks Channel Timestamp.
From S2P Require Poller TimerQueue Buffer EventLoopThreadPool.
From S2P Require Import EventLoop Sockets TcpConnection Acceptor.
Import EventLoopThreadPool (EventLoopThreadPool).

Record TcpServer : Type := mkTcpServer {
  server_loop : nat;   (* loop_ *)
  server_name : bytes;   (* name_ *)
  acceptor_ : Acceptor;
  server_connectionCallback : option user_fn;
  server_messageCallback : option user_fn;
  server_writeCompleteCallback : option user_fn;
  started_ : bool;
  nextConnId_ : Z;
  connections_ : gmap bytes conn_id;
  threadPool_ : option EventLoopThreadPool;
}.

Section setters.
Context (t : TcpServer).
Definition set_acceptor (a : Acceptor) : TcpServer :=
  mkTcpServer (server_loop t) (server_name t) a (server_connectionCallback t)
    (server_messageCallback t) (server_writeCompleteCallback t) (started_ t) (nextConnId_ t)
    (connections_ t) (threadPool_ t).
Definition set_started (b : bool) : TcpServer :=
  mkTcpServer (server_loop t) (server_name t) (acceptor_ t) (server_connectionCallback t)
    (server_messageCallback t) (server_writeCompleteCallback t) b (nextConnId_ t)
    (connections_ t) (threadPool_ t).
Definition set_nextConnId (n : Z) : TcpServer :=
  mkTcpServer (server_loop t) (server_name t) (acceptor_ t) (server_connectionCallback t)
    (server_messageCallback t) (server_writeCompleteCallback t) (started_ t) n
    (connections_ t) (threadPool_ t).
Definition set_connections (m : gmap bytes conn_id) : TcpServer :=
  mkTcpServer (server_loop t) (server_name t) (acceptor_ t) (server_connectionCallback t)
    (server_messageCallback t) (server_writeCompleteCallback t) (started_ t) (nextConnId_ t)
    m (threadPool_ t).
Definition set_threadPool (p : option EventLoopThreadPool) : TcpServer :=
  mkTcpServer (server_loop t) (server_name t) (acceptor_ t) (server_connectionCallback t)
    (server_messageCallback t) (server_writeCompleteCallback t) (started_ t) (nextConnId_ t)
    (connections_ t) p.
Definition TcpServer_setConnectionCallback (cb : user_fn) : TcpServer :=
  mkTcpServer (server_loop t) (server_name t) (acceptor_ t) (Some cb)
    (server_messageCallback t) (server_writeCompleteCallback t) (started_ t) (nextConnId_ t)
    (connections_ t) (threadPool_ t).
Definition TcpServer_setMessageCallback (cb : user_fn) : TcpServer :=
  mkTcpServer (server_loop t) (server_name t) (acceptor_ t) (server_connectionCallback t)
    (Some cb) (server_writeCompleteCallback t) (started_ t) (nextConnId_ t)
    (connections_ t) (threadPool_ t).
Definition TcpServer_setWriteCompleteCallback (cb : user_fn) : TcpServer :=
  mkTcpServer (server_loop t) (server_name t) (acceptor_ t) (server_connectionCallback t)
    (server_messageCallback t) (Some cb) (started_ t) (nextConnId_ t)
    (connections_ t) (threadPool_ t).
End setters.

#[export] Instance server_acceptor : Lens TcpServer Acceptor :=
  {| lget := acceptor_; lset := λ a t, set_acceptor t a |}.

(** [TcpServer::TcpServer]: [threadPool_] is not initialised. *)
Definition TcpServer_new {X} (i : inet) (loop : nat) (listenAddr : InetAddress) (chid : chan_id) :
    M (Net X) TcpServer :=
  a ← Acceptor_new chid listenAddr;
  mret (mkTcpServer loop (toHostPort i listenAddr)
          (Acceptor.setNewConnectionCallback NewTcpServer_newConnection a)
          None None None false 1 ∅ None).

Section operations.
Context (ew : eventfd_model) (tid : Z) (end_first : Timestamp).
(** Queueing a functor on another loop. *)
Context (queue_on : nat → closure → M (Net TcpServer) unit).
(** Addresses for new objects, and the connections the client keeps. *)
Context (alloc_conn : Net TcpServer → conn_id) (alloc_chan : Net TcpServer → chan_id).
Context (user_holds : conn_id → bool).

Abbreviation NM := (M (Net TcpServer)).

Definition server : NM TcpServer := zoom get.
Definition upd_server (f : TcpServer → TcpServer) : NM unit := zoom (modify f).

(** [threadPool_->m()] *)
Definition on_pool {A} (m : M EventLoopThreadPool A) : NM A :=
  t ← server;
  p ← deref NullDeref (threadPool_ t);
  '(a, p') ← lift (m p);
  upd_server (λ t, set_threadPool t (Some p')) ;;
  mret a.

Definition setThreadNum (numThreads : Z) : NM unit :=
  assert_ (0 <=? numThreads) ;;
  on_pool (EventLoopThreadPool.setThreadNum numThreads).

(** ** Lifetime of connections *)

Definition owned (s : Net TcpServer) (c : conn_id) : bool :=
  user_holds c || existsb (holds c) (pendingFunctors_ (net_loop s)) ||
  existsb (λ e, (e.2 =? c)%nat) (map_to_list (connections_ (net_ext s))).

Definition release (c : conn_id) : NM unit :=
  s ← get;
  if bool_decide (net_conns s !! c = None) || owned s c then mret () else TcpConnection_delete c.

(** ** Operations *)

(** The functors that call back into no one else. *)
Definition call_leaf (f : closure) : NM unit :=
  match f with
  | FnUser u => record (OnFunctor u)
  | FnTcpConnection_sendInLoop _ _ | FnTcpConnection_shutdownInLoop _ => call_bound ew tid f
  | FnTcpConnection_connectEstablished c => connectEstablished tid c
  | FnTcpConnection_connectDestroyed c => connectDestroyed tid c
  | FnWriteCompleteCallback u c => record (OnWriteComplete u c)
  | FnAcceptor_listen => listen tid
  | FnTimerQueue_addTimerInLoop p => on_timers (TimerQueue.addTimerInLoop end_first p)
  | FnTimerQueue_cancelInLoop id => on_timers (TimerQueue.cancelInLoop id)
  | _ => fail BadFunctionCall
  end.

(** [ioLoop->runInLoop(f)] *)
Definition run_on (ioLoop : nat) (f : closure) : NM unit :=
  e ← zoom get;
  if (ioLoop =? this_ e)%nat then runInLoop ew tid call_leaf f else queue_on ioLoop f.

Definition start : NM unit :=
  t ← server;
  when_ (negb (started_ t)) (upd_server (λ t, set_started t true)) ;;
  if negb (listening_ (acceptor_ t)) then runInLoop ew tid call_leaf FnAcceptor_listen else mret ().

(** The text of [snprintf(buf, sizeof buf, "#%d", nextConnId_)]. *)
Definition conn_suffix (n : Z) : bytes := snprintf_text 32 (str "#" ++ dec n).

Definition newConnection (sockfd : Z) (peerAddr : InetAddress) : NM unit :=
  zoom (assertInLoopThread tid) ;;
  t ← server;
  n ← lift (checked_i32 (nextConnId_ t + 1));
  upd_server (λ t, set_nextConnId t n) ;;
  let connName := server_name t ++ conn_suffix (nextConnId_ t) in
  localAddr ← zoom (getLocalAddr sockfd);
  ioLoop ← on_pool EventLoopThreadPool.getNextLoop;
  s ← get;
  let conn := alloc_conn s in
  TcpConnection_new ioLoop conn (alloc_chan s) connName sockfd localAddr peerAddr ;;
  upd_server (λ t, set_connections t (<[connName := conn]> (connections_ t))) ;;
  set_callbacks conn (server_connectionCallback t) (server_messageCallback t)
    (server_writeCompleteCallback t) CloseTcpServer_removeConnection ;;
  run_on ioLoop (FnTcpConnection_connectEstablished conn).

Definition removeConnectionInLoop (c : conn_id) : NM unit :=
  zoom (assertInLoopThread tid) ;;
  k ← conn c;
  t ← server;
  upd_server (λ t, set_connections t (delete (name_ k) (connections_ t))) ;;
  assert_ (bool_decide (is_Some (connections_ t !! name_ k))) ;;
  run_on (getLoop k) (FnTcpConnection_connectDestroyed c).

Definition call_server (f : closure) : NM unit :=
  match f with
  | FnTcpServer_removeConnectionInLoop c => removeConnectionInLoop c
  | _ => call_leaf f
  end.

Definition removeConnection (c : conn_id) : NM unit :=
  runInLoop ew tid call_server (FnTcpServer_removeConnectionInLoop c).

(** ** The function values of the program *)

Definition call_close (cb : close_callback) (c : conn_id) : NM unit :=
  match cb with
  | CloseTcpServer_removeConnection => removeConnection c
  | _ => fail BadFunctionCall
  end.

Definition call_new (cb : new_connection_callback) (sockfd : Z) (peerAddr : InetAddress) : NM unit :=
  match cb with
  | NewTcpServer_newConnection => newConnection sockfd peerAddr
  | _ => fail BadFunctionCall
  end.

(** A callback of a channel, or a pending functor: when the callback returns,
    the [shared_ptr]s of its temporaries are gone; what a functor holds lives
    until [dePendingFunctors] ends ([end_call]). *)
Definition call (f : closure) : NM unit :=
  match f with
  | FnTcpConnection_handleWrite c => handleWrite ew tid c
  | FnTcpConnection_handleClose c => handleClose tid call_close c ;; release c
  | FnTcpConnection_handleError c => handleError c
  | _ => call_server f
  end.

Definition end_call : list closure → closure → NM unit := end_functor release.

Definition call_read (receiveTime : Timestamp) (f : closure) : NM unit :=
  match f with
  | FnTcpConnection_handleRead c => TcpConnection.handleRead tid call_close c receiveTime ;; release c
  | FnAcceptor_handleRead => acceptor_handleRead tid call_new
  | FnEventLoop_handleRead => zoom EventLoop.handleRead
  | FnTimerQueue_handleRead =>
      @TimerQueue.handleRead end_first (Net TcpServer) timers_lens call
  | _ => call f
  end.
End operations.

(** ** Facts *)

Lemma dec_length n : 1 ≤ n < 2 ^ 31 → (length (dec n) <= 10)%nat.
Proof.
  intros H. unfold dec. rewrite (proj2 (Z.ltb_ge n 0)) by lia.
  apply (length_dec_u 20 9). change (10 ^ Z.of_nat 10) with 10000000000. lia.
Qed.

(** Connection numbers give distinct names: the suffix is never cut. *)
Lemma conn_suffix_inj n m :
  1 ≤ n < 2 ^ 31 → 1 ≤ m < 2 ^ 31 → conn_suffix n = conn_suffix m → n = m.
Proof.
  intros Hn Hm E. pose proof (dec_length n Hn). pose proof (dec_length m Hm).
  unfold conn_suffix, snprintf_text in E. rewrite !take_ge in E by (simpl; lia).
  injection E as E. apply dec_inj in E; lia.
Qed.

(** A connection of the server, in its map under its own name. *)
Definition serves (s : Net TcpServer) (budget : Z) (name : bytes) (c : conn_id) : Prop :=
  ∃ k ch i p, est c (net_loop s) (net_conns s) k ch i p ∧ name_ k = name ∧
    closeCallback_ k = Some CloseTcpServer_removeConnection ∧ budget ≤ room k.

(** A server that serves every connection on its own loop; each connection has
    room for [budget] more bytes. *)
Record serving (tid budget : Z) (s : Net TcpServer) : Prop := mkServing {
  sv_poller : Poller.inv (poller_ (net_loop s));
  sv_tid : threadId_ (net_loop s) = tid;
  sv_pool : ∃ p, threadPool_ (net_ext s) = Some p ∧ EventLoopThreadPool.loops_ p = [] ∧
              EventLoopThreadPool.baseLoop_ p = this_ (net_loop s);
  sv_cbs : is_Some (server_connectionCallback (net_ext s)) ∧ is_Some (server_messageCallback (net_ext s));
  sv_ids : 1 ≤ nextConnId_ (net_ext s) < 2 ^ 31;
  sv_conns name c : connections_ (net_ext s) !! name = Some c → serves s budget name c;
  sv_names name c : connections_ (net_ext s) !! name = Some c →
    ∃ n, 1 ≤ n < nextConnId_ (net_ext s) ∧ name = server_name (net_ext s) ++ conn_suffix n;
}.

Section server_facts.
Context (ew : eventfd_model) (tid : Z) (end_first : Timestamp).
Context (queue_on : nat → closure → M (Net TcpServer) unit).
Context (alloc_conn : Net TcpServer → conn_id) (alloc_chan : Net TcpServer → chan_id).
Context (Hconn : ∀ s, net_conns s !! alloc_conn s = None).
Context (Hchan : ∀ s, Poller.chans (poller_ (net_loop s)) !! alloc_chan s = None).
Context (user_holds : conn_id → bool).
Implicit Types s : Net TcpServer.

Abbreviation new := (newConnection ew tid end_first queue_on alloc_conn alloc_chan).
Abbreviation remove := (call_close ew tid end_first queue_on).

Definition with_ext (t : TcpServer) s : Net TcpServer :=
  mkNet (net_loop s) (net_kernel s) (net_conns s) (net_events s) t.

Lemma server_ok s : server s = Ok (net_ext s, s).
Proof. by destruct s. Qed.

Lemma upd_server_ok f s : upd_server f s = Ok (tt, with_ext (f (net_ext s)) s).
Proof. done. Qed.

Lemma getNextLoop_base s p :
  threadPool_ (net_ext s) = Some p → EventLoopThreadPool.loops_ p = [] →
  on_pool EventLoopThreadPool.getNextLoop s =
    Ok (EventLoopThreadPool.baseLoop_ p, with_ext (set_threadPool (net_ext s) (Some p)) s).
Proof.
  intros Hp Hl. unfold on_pool. mstep_by (apply server_ok). rewrite Hp. mstep.
  mstep_by (unfold EventLoopThreadPool.getNextLoop; mstep; rewrite Hl; reflexivity). done.
Qed.

(** Work that the loop's own thread gives to its own loop is done at once. *)
Lemma runInLoop_here call f s :
  threadId_ (net_loop s) = tid → runInLoop ew tid call f s = call f s.
Proof.
  intros Ht. unfold runInLoop. mstep_by (apply loop_get_ok). unfold isInLoopThread. by rewrite Ht, Z.eqb_refl.
Qed.

Lemma run_on_here f s :
  threadId_ (net_loop s) = tid →
  run_on ew tid end_first queue_on (this_ (net_loop s)) f s = call_leaf ew tid end_first f s.
Proof.
  intros Ht. unfold run_on. mstep_by (apply loop_get_ok). rewrite Nat.eqb_refl.
  by apply runInLoop_here.
Qed.

(** The next connection is added to the map under a name of its own. *)
Record accepted_as (s : Net TcpServer) (fd : Z) (name : bytes) (c : conn_id) (s' : Net TcpServer) : Prop := mkAccepted {
  ac_name : connections_ (net_ext s) !! name = None;
  ac_conns : connections_ (net_ext s') = <[name := c]> (connections_ (net_ext s));
  ac_announced : ∃ u, announced s' = announced s ++ [OnConnection u c];
  ac_slots : zlen (Poller.pollfds_ (poller_ (net_loop s'))) = zlen (Poller.pollfds_ (poller_ (net_loop s))) + 1;
  ac_channels : ∃ chid, Poller.channels_ (poller_ (net_loop s')) =
                  <[fd := chid]> (Poller.channels_ (poller_ (net_loop s)));
  ac_next : nextConnId_ (net_ext s') = nextConnId_ (net_ext s) + 1;
}.

(** Free for a new descriptor. *)
Definition can_accept (fd : Z) (s : Net TcpServer) : Prop :=
  Poller.channels_ (poller_ (net_loop s)) !! fd = None ∧ 0 ≤ fd ∧
  zlen (Poller.pollfds_ (poller_ (net_loop s))) + 1 < 2 ^ 31 ∧
  nextConnId_ (net_ext s) + 1 < 2 ^ 31.

Lemma next_name_free budget s :
  serving tid budget s →
  connections_ (net_ext s) !! (server_name (net_ext s) ++ conn_suffix (nextConnId_ (net_ext s))) = None.
Proof.
  intros [? ? ? ? Hids _ Hn]. destruct (connections_ (net_ext s) !! _) as [c|] eqn:E; [|done].
  destruct (Hn _ _ E) as (n & Hlt & En). apply app_inv_head in En.
  apply conn_suffix_inj in En; lia.
Qed.

Lemma newConnection_spec budget s fd peer :
  serving tid budget s → can_accept fd s → budget ≤ PTRDIFF_MAX - 2048 →
  ∃ s' name c, new fd peer s = Ok (tt, s') ∧ serving tid budget s' ∧ accepted_as s fd name c s'.
Proof using Hconn Hchan.
  intros Hs (Hfree & Hfd & Hslots & Hid) Hb. pose proof (next_name_free _ _ Hs) as Hname.
  pose proof Hs as [Hi Ht (p & Hp & Hl & Hbl) [[u Hu] [m Hm]] Hids Hconns Hnames].
  set (name := server_name (net_ext s) ++ conn_suffix (nextConnId_ (net_ext s))) in *.
  set (t1 := set_nextConnId (net_ext s) (nextConnId_ (net_ext s) + 1)).
  set (s1 := with_ext t1 s).
  assert (∃ addr n, zoom (S:=Net TcpServer) (getLocalAddr fd) s1 = Ok (addr, lset (C:=Kernel) n s1))
    as (la & n & Ela) by (do 2 eexists; reflexivity).
  set (s2 := with_ext (set_threadPool t1 (Some p)) (lset n s1)).
  set (c := alloc_conn s2). set (chid := alloc_chan s2).
  set (k0 := conn_made (this_ (net_loop s)) name fd chid la peer).
  set (k := with_callbacks (Some u) (Some m) (server_writeCompleteCallback (net_ext s))
              CloseTcpServer_removeConnection k0).
  set (t3 := set_connections (set_threadPool t1 (Some p)) (<[name := c]> (connections_ (net_ext s)))).
  set (s3 := upd_conn c k (with_ext t3 (upd_conn c k0
               (put_chan chid (conn_new_channel c (this_ (net_loop s)) fd) s2)))).
  assert (created c (net_loop s3) (net_conns s3) k) as Hcr.
  { destruct Buffer_new_inv. split; try done; try apply lookup_insert_eq. }
  destruct (connectEstablished_created tid c s3 k u) as (q & ch & i & pf & E & He & Hz & Hm' & Ho);
    [apply Poller.inv_set_chan_new; [done|apply (Hchan s2)]|done|done|].
  do 3 eexists. split; [|split].
  - unfold newConnection. mstep_by (apply loop_check_ok). mstep_by (apply server_ok).
    mstep_by (unfold lift; rewrite checked_i32_ok by lia; reflexivity).
    erewrite bind_step by done. fold t1. fold s1. mstep_by (exact Ela).
    mstep_by (by apply getNextLoop_base). mstep. fold s2. rewrite Hbl.
    mstep_by (apply TcpConnection_new_ok; [apply Hconn|apply Hchan]).
    erewrite bind_step by done. mstep_by (apply set_callbacks_ok, lookup_insert_eq).
    rewrite Hu, Hm. rewrite (run_on_here _ s3) by done. exact E.
  - split; [by destruct He|done|by exists p|by split; eexists|simpl; lia| |].
    + intros nm d. simpl. intros [[<- <-]|[Hne Hd]]%lookup_insert_Some.
      * exists (setState k kConnected), ch, i, pf. split; [exact He|]. done.
      * destruct (Hconns nm d Hd) as (kd & chd & j & pd & Hed & Hrest).
        exists kd, chd, j, pd. split; [|done].
        assert (d ≠ c) as Hdc.
        { intros ->. pose proof (est_conn _ _ _ _ _ _ _ Hed).
          pose proof (Hconn s2 : net_conns s !! c = None). congruence. }
        apply Ho; [done|]. do 2 (apply est_set_conn_ne; [done|]).
        apply est_put_chan; [apply (Hchan s2)|done].
    + intros nm d. simpl. intros [[<- <-]|[Hne Hd]]%lookup_insert_Some.
      * exists (nextConnId_ (net_ext s)). split; [lia|done].
      * destruct (Hnames nm d Hd) as (n' & Hn' & ->). exists n'. split; [lia|done].
  - split; try done.
    + exists u. unfold announced. simpl. by rewrite filter_app.
    + by exists chid.
Qed.

(** What is left of a server when one of its connections is gone. *)
Definition without (s : Net TcpServer) (name : bytes) : TcpServer :=
  set_connections (net_ext s) (delete name (connections_ (net_ext s))).

(** [handleClose] on a connection of the server, in the server's thread: the
    connection is erased and destroyed before it returns. *)
Lemma server_handleClose_spec s name c k ch i p :
  threadId_ (net_loop s) = tid → connections_ (net_ext s) !! name = Some c →
  est c (net_loop s) (net_conns s) k ch i p → name_ k = name →
  closeCallback_ k = Some CloseTcpServer_removeConnection →
  ∃ u q ch', let s' := mkNet (set_poller (net_loop s) q) (net_kernel s)
                         (<[c := setState k kDisconnected]> (net_conns s))
                         (net_events s ++ [OnConnection u c]) (without s name) in
    handleClose tid remove c s = Ok (tt, s') ∧ Poller.inv q ∧
    Poller.channels_ q = delete (socket_ k) (Poller.channels_ (poller_ (net_loop s))) ∧
    zlen (Poller.pollfds_ q) = zlen (Poller.pollfds_ (poller_ (net_loop s))) - 1 ∧
    Poller.chans q !! channel_ k = Some ch' ∧ eventHandling_ ch' = eventHandling_ ch ∧
    events_ ch' = kNoneEvent ∧
    (∀ d kd chd j pd, d ≠ c → est d (net_loop s) (net_conns s) kd chd j pd →
       ∃ j', est d (net_loop s') (net_conns s') kd (set_index chd (Z.of_nat j')) j' pd).
Proof.
  intros Ht Hc He Hn Hcl. pose proof He as []. destruct est_cbs as [[u Hu] _].
  destruct (TcpConnection.handleClose_eq tid remove c s k ch i p _ He Hcl)
    as (q1 & p1 & E1 & He1 & [Hz1 Hm1 _ Ho1] & _).
  set (ch1 := set_events ch (mask_update DisableAll (events_ ch))) in *.
  set (s1 := lset (set_poller (net_loop s) q1) s) in *. set (s2 := with_ext (without s name) s1).
  destruct (connectDestroyed_spec tid c s2 k ch1 i p1 u He1 Hu)
    as (q & ch' & E2 & Hq & Hm & Hz & Hch & Hnone & _ & Hev & _ & _ & Ho).
  assert (threadId_ (net_loop s2) = tid) as Ht2 by done.
  exists u, q, ch'. cbv zeta. split; [|split; [done|split; [|split; [|split; [done|split; [done|split; [done|]]]]]]].
  - rewrite E1. unfold call_close, removeConnection.
    etrans; [by apply (runInLoop_here (call_server ew tid end_first queue_on) _ s1)|].
    unfold call_server, removeConnectionInLoop. mstep_by (apply loop_check_ok).
    mstep_by (by apply conn_ok). mstep_by (apply server_ok). mstep_by (apply upd_server_ok).
    mstep_by (unfold assert_; rewrite Hn, Hc; reflexivity).
    rewrite est_getLoop. etrans; [by apply (run_on_here _ s2)|exact E2].
  - etrans; [exact Hm|]. f_equal. exact Hm1.
  - etrans; [exact Hz|]. f_equal. exact Hz1.
  - intros d kd chd j pd Hd Hed. apply (Ho d kd chd j pd Hd). by apply Ho1.
Qed.

Lemma serves_unique budget budget' s name name' c :
  serves s budget name c → serves s budget' name' c → name = name'.
Proof.
  intros (k & ? & ? & ? & He & <- & _) (k' & ? & ? & ? & He' & <- & _).
  pose proof (est_conn _ _ _ _ _ _ _ He). pose proof (est_conn _ _ _ _ _ _ _ He'). congruence.
Qed.

(** No other entry of the map refers to the same connection. *)
Lemma sole_entry budget s name c :
  serving tid budget s → connections_ (net_ext s) !! name = Some c →
  existsb (λ e, (e.2 =? c)%nat) (map_to_list (delete name (connections_ (net_ext s)))) = false.
Proof.
  intros Hs Hc. apply not_true_is_false. intros ([nm d] & Hin & Hd%Nat.eqb_eq)%existsb_exists.
  simpl in Hd. subst d. apply list_elem_of_In, elem_of_map_to_list, lookup_delete_Some in Hin as [Hne Hin].
  apply Hne. eapply serves_unique; by apply (sv_conns _ _ _ Hs).
Qed.

(** Work on one connection keeps the server's invariant. *)
Lemma serving_progress budget s s' name c k i p msg cost k' ch' p' :
  serving tid budget s → connections_ (net_ext s) !! name = Some c → name_ k = name →
  closeCallback_ k = Some CloseTcpServer_removeConnection → budget ≤ room k →
  progress c i msg cost s k p s' k' ch' p' → net_ext s' = net_ext s → 0 ≤ cost →
  serving tid (budget - cost) s'.
Proof.
  intros [Hi Ht Hp Hcb Hid Hconns Hn] Hc Hnk Hcl Hroom [] Hext Hcost.
  destruct pr_fixed as (_ & _ & Hname & _ & _ & _ & Hclose). destruct pr_frame.
  split; rewrite ?Hext, ?fr_this; try done.
  - by destruct pr_est.
  - congruence.
  - intros nm d Hd. destruct (decide (d = c)) as [->|Hne].
    + assert (nm = name) as ->.
      { eapply serves_unique; by apply Hconns. }
      exists k', ch', i, p'. split; [done|]. split_and!; [congruence..|]. unfold room in *. lia.
    + destruct (Hconns nm d Hd) as (kd & chd & j & pd & Hed & Hnd & Hcd & Hrd).
      exists kd, chd, j, pd. split; [by apply fr_others|]. split_and!; try done. lia.
Qed.

(** The end of a connection keeps it too. *)
Lemma handleClose_serving budget s name c :
  serving tid budget s → connections_ (net_ext s) !! name = Some c →
  ∃ u s', handleClose tid remove c s = Ok (tt, s') ∧ serving tid budget s' ∧
    net_ext s' = without s name ∧ announced s' = announced s ++ [OnConnection u c] ∧
    is_Some (net_conns s' !! c).
Proof.
  intros Hs Hc. pose proof (sv_conns _ _ _ Hs _ _ Hc) as Hsv.
  pose proof Hsv as (k & ch & i & p & He & Hn & Hcl & _).
  destruct (server_handleClose_spec s name c k ch i p (sv_tid _ _ _ Hs) Hc He Hn Hcl)
    as (u & q & ch' & E & Hq & _ & _ & _ & _ & _ & Ho).
  eexists u, _. split; [exact E|]. destruct Hs as [Hi Ht Hp Hcb Hid Hconns Hnames].
  split; [|split; [done|split; [|eexists; apply lookup_insert_eq]]].
  2: { unfold announced. simpl. by rewrite filter_app. }
  split; try done.
  - intros nm d. simpl. intros [Hne Hd]%lookup_delete_Some.
    pose proof (Hconns nm d Hd) as Hsd. pose proof Hsd as (kd & chd & j & pd & Hed & Hrest).
    destruct (Ho d kd chd j pd) as (j' & Hj); [|done|by eexists kd, _, j', pd].
    intros ->. apply Hne. by eapply serves_unique.
  - intros nm d. simpl. intros [_ Hd]%lookup_delete_Some. by eapply Hnames.
Qed.
End server_facts.

(** What the loop and the poller set of a channel does not matter to the server. *)
Lemma serving_put_chan tid budget (s : Net TcpServer) cid ch ch' :
  serving tid budget s → Poller.chans (poller_ (net_loop s)) !! cid = Some ch →
  fd_ ch' = fd_ ch → index_ ch' = index_ ch → loop_ ch' = loop_ ch → events_ ch' = events_ ch →
  (∀ d, handlers_of d ch → handlers_of d ch') →
  serving tid budget (put_chan cid ch' s).
Proof.
  intros [Hi Ht Hp Hcb Hid Hconns Hn] Hch Hf Hix Hlp Hev Hh.
  split; try done; [by apply (Poller.inv_set_chan _ _ ch)|].
  intros nm d Hd. destruct (Hconns nm d Hd) as (k & chd & j & pd & [] & Hrest).
  pose proof (Poller.registered_set_chan _ _ ch ch' _ _ _ _ Hch Hf Hix est_reg) as Hr.
  exists k, (if decide (channel_ k = cid) then ch' else chd), j, pd. split; [|done].
  assert (channel_ k = cid → chd = ch) as Heq by (destruct est_reg; congruence).
  split; try done; [by apply (Poller.inv_set_chan _ _ ch)|..]; case_decide; try done; rewrite Heq in * by done;
    rewrite ?Hlp, ?Hf, ?Hev; auto.
Qed.

(** A report of the poller keeps the invariant. *)
Lemma serving_set_revents tid budget (s : Net TcpServer) cid ch r :
  serving tid budget s → Poller.chans (poller_ (net_loop s)) !! cid = Some ch →
  serving tid budget (put_chan cid (set_revents ch r) s).
Proof. intros Hs Hch. by apply (serving_put_chan tid budget s cid ch). Qed.

(** ** Sequences of events of a server

    What the kernel reports and what the client calls, on any connection.  Read
    events are left out: no channel asks for them (EventLoop.no_read_events). *)

Inductive server_event : Type :=
  | Accept (sockfd : Z) (peer : InetAddress)
  | Send (c : conn_id) (message : bytes)
  | Shutdown (c : conn_id)
  | Writable (c : conn_id)
  | Hup (c : conn_id)
  | Error (c : conn_id).

Definition event_bytes (ev : server_event) : Z := match ev with Send _ m => zlen m | _ => 0 end.
Definition total_bytes (evs : list server_event) : Z := foldr (λ ev acc, event_bytes ev + acc) 0 evs.
Definition is_accept (ev : server_event) : bool := match ev with Accept _ _ => true | _ => false end.
Definition is_hup (ev : server_event) : bool := match ev with Hup _ => true | _ => false end.
Definition count (f : server_event → bool) (evs : list server_event) : nat := length (filter f evs).

(** When an event can happen. *)
Definition enabled (ev : server_event) (s : Net TcpServer) : Prop :=
  match ev with
  | Accept fd _ => can_accept fd s
  | Send c _ | Shutdown c | Writable c | Hup c | Error c =>
      ∃ name, connections_ (net_ext s) !! name = Some c
  end.

#[export] Instance can_accept_dec fd s : Decision (can_accept fd s).
Proof. unfold can_accept. apply _. Defined.

(** The connection is in the map, as [owned] tests it. *)
Definition listed (c : conn_id) (s : Net TcpServer) : bool :=
  existsb (λ e, (e.2 =? c)%nat) (map_to_list (connections_ (net_ext s))).

Definition enabled_b (ev : server_event) (s : Net TcpServer) : bool :=
  match ev with
  | Accept fd _ => bool_decide (can_accept fd s)
  | Send c _ | Shutdown c | Writable c | Hup c | Error c => listed c s
  end.

Lemma enabled_b_enabled ev s : enabled_b ev s = true → enabled ev s.
Proof.
  destruct ev; simpl; [apply bool_decide_eq_true_1| | | | |];
    intros ([nm d] & Hin & Hd%Nat.eqb_eq)%existsb_exists; simpl in Hd; subst d; exists nm;
    by apply list_elem_of_In, elem_of_map_to_list in Hin.
Qed.

Lemma count_cons f ev evs : count f (ev :: evs) = ((if f ev then 1 else 0) + count f evs)%nat.
Proof. unfold count. rewrite filter_cons. destruct (f ev); by case_decide. Qed.

Section properties.
Context (ew : eventfd_model) (tid : Z) (end_first : Timestamp).
Context (queue_on : nat → closure → M (Net TcpServer) unit).
Context (alloc_conn : Net TcpServer → conn_id) (alloc_chan : Net TcpServer → chan_id).
Context (Hconn : ∀ s, net_conns s !! alloc_conn s = None).
Context (Hchan : ∀ s, Poller.chans (poller_ (net_loop s)) !! alloc_chan s = None).
Context (user_holds : conn_id → bool).
Implicit Types s : Net TcpServer.

Abbreviation new := (newConnection ew tid end_first queue_on alloc_conn alloc_chan).
Abbreviation remove := (call_close ew tid end_first queue_on).
Abbreviation fcall := (call ew tid end_first queue_on user_holds).
Abbreviation fcall_read := (call_read ew tid end_first queue_on alloc_conn alloc_chan user_holds).

Definition server_exec (ev : server_event) : M (Net TcpServer) unit :=
  match ev with
  | Accept fd peer => new fd peer
  | Send c m => send ew tid c m
  | Shutdown c => shutdown ew tid c
  | Writable c => fcall (FnTcpConnection_handleWrite c)
  | Hup c => fcall (FnTcpConnection_handleClose c)
  | Error c => fcall (FnTcpConnection_handleError c)
  end.

(** Every event of the sequence is enabled when its turn comes. *)
Fixpoint admissible (evs : list server_event) s : Prop :=
  match evs with
  | [] => True
  | ev :: evs' => enabled ev s ∧ ∀ s', server_exec ev s = Ok (tt, s') → admissible evs' s'
  end.

Fixpoint admissible_b (evs : list server_event) s : bool :=
  match evs with
  | [] => true
  | ev :: evs' =>
      enabled_b ev s && match server_exec ev s with Ok (_, s') => admissible_b evs' s' | Err _ => false end
  end.

Lemma admissible_b_admissible evs s : admissible_b evs s = true → admissible evs s.
Proof.
  revert s. induction evs as [|ev evs IH]; intros s; [done|]. cbn [admissible_b].
  intros [Hen Hrest]%andb_true_iff. split; [by apply enabled_b_enabled|].
  intros s' E. rewrite E in Hrest. by apply IH.
Qed.

(** The accounts of one event: connections in the map, calls of the connection
    callback. *)
Definition accounts (acc hup : nat) s s' : Prop :=
  (size (connections_ (net_ext s')) + hup = size (connections_ (net_ext s)) + acc)%nat ∧
  length (announced s') = (length (announced s) + acc + hup)%nat.

(** Events that do not end the connection. *)
Lemma server_exec_quiet budget s c ev :
  serving tid budget s → enabled ev s → event_bytes ev ≤ budget →
  match ev with Send d _ | Shutdown d | Writable d | Error d => d = c | _ => False end →
  ∃ s', server_exec ev s = Ok (tt, s') ∧ serving tid (budget - event_bytes ev) s' ∧ accounts 0 0 s s'.
Proof.
  intros Hs Hen Hb Hev.
  assert (∃ name, connections_ (net_ext s) !! name = Some c) as [name Hc] by (destruct ev; naive_solver).
  destruct (sv_conns _ _ _ Hs _ _ Hc) as (k & ch & i & p & He & Hn & Hcl & Hroom).
  assert (∃ msg s' k' ch' p', server_exec ev s = Ok (tt, s') ∧ net_ext s' = net_ext s ∧
    progress c i msg (event_bytes ev) s k p s' k' ch' p') as (msg & s' & k' & ch' & p' & E & Hext & P).
  { pose proof (sv_tid _ _ _ Hs) as Ht. destruct ev as [| ? m | | | |]; simpl in Hb; try done; subst.
    - destruct (send_outcome ew tid c 0 s k ch i p m He Ht) as (s' & k' & ch' & p' & E & P & _); [lia|].
      do 5 eexists. split; [exact E|]. split; [by eapply ke_send|exact P].
    - destruct (shutdown_spec ew tid c s k ch i p He Ht) as (s' & k' & E & P & _).
      do 5 eexists. split; [exact E|]. split; [by eapply ke_shutdown|exact P].
    - destruct (handleWrite_spec ew tid c s k ch i p He) as (s' & k' & ch' & p' & E & P & _).
      do 5 eexists. split; [exact E|]. split; [by eapply ke_handleWrite|exact P].
    - destruct (handleError_spec c s k ch i p He) as (s' & E & P & _).
      do 5 eexists. split; [exact E|]. split; [by eapply ke_handleError|exact P]. }
  exists s'. split; [done|]. split.
  - eapply serving_progress; try done. destruct ev; simpl; try lia. apply zlen_nonneg.
  - destruct P. unfold accounts. rewrite Hext, pr_announced. lia.
Qed.

(** A reference the client keeps outlives the temporary one. *)
Lemma release_held s c :
  user_holds c = true → release user_holds c s = Ok (tt, s).
Proof.
  intros Hh. unfold release. mstep. unfold owned. rewrite Hh. simpl.
  by rewrite orb_true_r.
Qed.

Lemma destroy_held l s :
  (∀ c, user_holds c = true) → destroy_all (end_call user_holds) l s = Ok (tt, s).
Proof. intros Hh. apply destroy_all_noop. intros l' f. apply end_functor_noop. intros c. by apply release_held. Qed.

Lemma server_exec_spec budget s ev :
  (∀ c, user_holds c = true) →
  serving tid budget s → enabled ev s → event_bytes ev ≤ budget → budget ≤ PTRDIFF_MAX - 2048 →
  ∃ s', server_exec ev s = Ok (tt, s') ∧ serving tid (budget - event_bytes ev) s' ∧
    accounts (if is_accept ev then 1 else 0) (if is_hup ev then 1 else 0) s s'.
Proof using Hconn Hchan.
  intros Hh Hs Hen Hb HB.
  destruct ev as [fd peer|c m|c|c|c|c]; [|by apply (server_exec_quiet _ _ c)..| |by apply (server_exec_quiet _ _ c)].
  - destruct (newConnection_spec ew tid end_first queue_on alloc_conn alloc_chan Hconn Hchan
      budget s fd peer Hs Hen HB) as (s' & name & c & E & Hs' & [Hfree Hm [u Ha] _ _ _]).
    exists s'. simpl. rewrite Z.sub_0_r. split; [done|]. split; [done|].
    unfold accounts. rewrite Hm, Ha, map_size_insert_None, length_app by done. simpl. lia.
  - destruct Hen as [name Hc].
    destruct (handleClose_serving ew tid end_first queue_on budget s name c Hs Hc)
      as (u & s' & E & Hs' & Hext & Ha & _).
    exists s'. simpl. rewrite Z.sub_0_r. split; [|split; [done|]].
    + mstep_by (exact E). by apply release_held.
    + unfold accounts. rewrite Hext, Ha, length_app. simpl. rewrite map_size_delete, Hc.
      assert (size (connections_ (net_ext s)) ≠ 0%nat).
      { apply map_size_ne_0_lookup. by exists name, c. }
      simpl. lia.
Qed.

(** C7: a server whose client keeps a reference to each connection serves any
    sequence of events on any of its connections, in any order: no assertion
    fails and no dead object is reached; afterwards every connection in the map
    is still established, in the poller and under its own name; the map holds
    the connections accepted and not hung up; and the connection callback was
    called once for each accept and once for each hang-up. *)
Theorem server_serves budget s evs :
  (∀ c, user_holds c = true) → serving tid budget s → admissible evs s →
  total_bytes evs ≤ budget → budget ≤ PTRDIFF_MAX - 2048 →
  ∃ s', for_each server_exec evs s = Ok (tt, s') ∧ serving tid (budget - total_bytes evs) s' ∧
    (size (connections_ (net_ext s')) + count is_hup evs =
       size (connections_ (net_ext s)) + count is_accept evs)%nat ∧
    length (announced s') = (length (announced s) + count is_accept evs + count is_hup evs)%nat.
Proof using Hconn Hchan.
  intros Hh. revert budget s. induction evs as [|ev evs IH]; intros budget s Hs Ha Hb HB.
  - exists s. simpl. rewrite Z.sub_0_r. unfold count. simpl. split_and!; done || lia.
  - destruct Ha as [Hen Hnext]. simpl in Hb.
    assert (0 ≤ event_bytes ev) by (destruct ev; simpl; try lia; apply zlen_nonneg).
    assert (0 ≤ total_bytes evs).
    { clear. induction evs as [|[] evs IH]; simpl; try lia. pose proof (zlen_nonneg message). lia. }
    destruct (server_exec_spec budget s ev Hh Hs Hen) as (s1 & E1 & Hs1 & Hz1 & Ha1); [lia..|].
    destruct (IH _ s1 Hs1 (Hnext _ E1)) as (s2 & E2 & Hs2 & Hz2 & Ha2); [lia..|].
    exists s2. simpl. split; [by mstep_by (exact E1)|].
    rewrite !count_cons. split; [|lia].
    by replace (budget - (event_bytes ev + total_bytes evs))
      with (budget - event_bytes ev - total_bytes evs) by lia.
Qed.

(** C8: without such a reference, a hang-up kills the server: [handleEvent] of
    the connection's channel is still on the stack when [removeConnectionInLoop]
    runs [connectDestroyed] at once (in the server's own loop, [runInLoop] does
    not queue), the last [shared_ptr] goes away, and the destructor of the
    channel finds [eventHandling_] set. *)
Theorem hangup_destroys_in_handler budget s name c k ch t :
  serving tid budget s → connections_ (net_ext s) !! name = Some c → net_conns s !! c = Some k →
  Poller.chans (poller_ (net_loop s)) !! channel_ k = Some ch →
  user_holds c = false → existsb (holds c) (pendingFunctors_ (net_loop s)) = false →
  wants_error (revents_ ch) = false → wants_close (revents_ ch) = true →
  EventLoop.handleEvent fcall fcall_read (channel_ k) t s = Err AssertFailed.
Proof.
  intros Hs Hc Hk Hch Hu Hp He Hcl.
  destruct (sv_conns _ _ _ Hs _ _ Hc) as (k' & ch' & i & p & Hest & Hn & Hclose & _).
  assert (k' = k) as -> by (pose proof (est_conn _ _ _ _ _ _ _ Hest); congruence).
  assert (ch' = ch) as -> by (destruct (est_reg _ _ _ _ _ _ _ Hest) as (? & _); congruence).
  set (ch1 := set_eventHandling ch true). set (s1 := put_chan (channel_ k) ch1 s).
  assert (est c (net_loop s1) (net_conns s1) k ch1 i p) as He1 by by apply est_set_handling.
  assert (Poller.chans (poller_ (net_loop s1)) !! channel_ k = Some ch1) as Hch1 by apply lookup_insert_eq.
  destruct (server_handleClose_spec ew tid end_first queue_on s1 name c k ch1 i p (sv_tid _ _ _ Hs) Hc He1 Hn Hclose)
    as (u & q & ch2 & E & _ & _ & _ & Hq & Hh & _).
  unfold EventLoop.handleEvent. mstep_by (by apply (set_handling_ok s _ ch)).
  mstep_by (by apply (fire_none _ _ _ _ s1 ch1)). apply bind_err.
  etrans; [apply (fire_one _ _ _ _ s1 ch1 (FnTcpConnection_handleClose c) Hch1 Hcl); by destruct (est_handlers _ _ _ _ _ _ _ Hest) as (_ & _ & ? & _)|].
  unfold call. mstep_by (exact E). unfold release. mstep.
  rewrite lookup_insert_eq. simpl. unfold owned. simpl. rewrite Hu, Hp. simpl.
  rewrite (sole_entry tid budget s name c Hs Hc).
  apply (TcpConnection_delete_handling _ _ (setState k kDisconnected) ch2); [apply lookup_insert_eq|done|by rewrite Hh].
Qed.
End properties.

(** A server as constructed has no thread pool: its [newConnection] and
    [setThreadNum] are calls through a null pointer, and nothing would call
    [newConnection] anyway, since the acceptor did not keep the callback. *)
Theorem constructed_server_has_no_pool {X} ew tid end_first queue_on alloc_conn alloc_chan
    i loop addr chid (s0 s0' : Net X) t :
  TcpServer_new i loop addr chid s0 = Ok (t, s0') →
  newConnectionCallback_ (acceptor_ t) = None ∧
  ∀ s, net_ext s = t →
    (∀ sockfd peer, newConnection ew tid end_first queue_on alloc_conn alloc_chan sockfd peer s = Err NullDeref) ∧
    (∀ num, 0 ≤ num → setThreadNum num s = Err NullDeref).
Proof.
  unfold TcpServer_new, Acceptor_new. intros (a & s1 & E & [= <- <-])%bind_Ok. minv E.
  destruct (decide _); [done|]. minv E. split; [done|]. intros srv Hsrv. split.
  - intros sockfd peer. unfold newConnection. mstep_by (apply loop_check_ok). mstep_by (apply server_ok).
    rewrite Hsrv. mstep_by (unfold lift; rewrite checked_i32_ok by (simpl; lia); reflexivity).
    erewrite bind_step by done. mstep_by reflexivity.
    apply bind_err. unfold on_pool. mstep_by (apply server_ok). simpl. by rewrite Hsrv.
  - intros num Hnum. unfold setThreadNum. mstep_by (unfold assert_; by rewrite (proj2 (Z.leb_le 0 num))).
    unfold on_pool. mstep_by (apply server_ok). by rewrite Hsrv.
Qed.

(** ** Concrete executions *)

Module Demo.
Definition alloc_conn (s : Net TcpServer) : conn_id := base.fresh (dom (net_conns s) : gset nat).
Definition alloc_chan (s : Net TcpServer) : chan_id := base.fresh (dom (Poller.chans (poller_ (net_loop s))) : gset nat).
Definition queue_on (l : nat) (f : closure) : M (Net TcpServer) unit := mret ().

Definition server0 : TcpServer :=
  mkTcpServer 0 (str "1.2.3.4:80") (mkAcceptor 3 0 None true) (Some 1%N) (Some 2%N) None true 1 ∅
    (Some (EventLoopThreadPool.EventLoopThreadPool_new 0)).
Definition s0 : Net TcpServer :=
  mkNet (net_loop TcpConnection.Demo.s0) (net_kernel TcpConnection.Demo.s0) ∅ [] server0.

Lemma alloc_conn_ok s : net_conns s !! alloc_conn s = None.
Proof. apply (not_elem_of_dom (D:=gset nat)). unfold alloc_conn. apply is_fresh. Qed.
Lemma new_chan_ok s : Poller.chans (poller_ (net_loop s)) !! alloc_chan s = None.
Proof. apply (not_elem_of_dom (D:=gset nat)). unfold alloc_chan. apply is_fresh. Qed.

Definition exec (holds : conn_id → bool) : server_event → M (Net TcpServer) unit :=
  server_exec EventLoop.Demo.ew 7 0 queue_on alloc_conn alloc_chan holds.
Definition events : list server_event :=
  [Accept 12 zero_addr; Accept 13 zero_addr; Send 0 (str "hello"); Writable 0; Hup 0; Shutdown 1; Error 1].
Definition after (evs : list server_event) : Net TcpServer :=
  match for_each (exec (λ _, true)) evs s0 with Ok (_, s) => s | Err _ => s0 end.

Lemma serving_s0 budget : serving 7 budget s0.
Proof.
  split; [apply TcpConnection.Demo.poller_ok|done|by eexists|by split; eexists|simpl; lia|done|done].
Qed.

(** Two connections; the poller reports a hang-up of the first. *)
Definition s1 : Net TcpServer := after [Accept 12 zero_addr; Accept 13 zero_addr].
Definition name1 : bytes := str "1.2.3.4:80#1".
Definition k1 : TcpConnection :=
  default (conn_made 0 [] 0 0 zero_addr zero_addr) (net_conns s1 !! 0%nat).
Definition ch0 : channel :=
  default (Channel_new 0 0) (Poller.chans (poller_ (net_loop s1)) !! channel_ k1).
Definition ch1 : channel := set_revents ch0 POLLHUP.
Definition s2 : Net TcpServer := put_chan (channel_ k1) ch1 s1.

Lemma serving_s1 : serving 7 100 s1.
Proof.
  pose proof (server_exec_spec EventLoop.Demo.ew 7 0 queue_on alloc_conn alloc_chan alloc_conn_ok
    new_chan_ok (λ _, true) 100) as Hx.
  destruct (Hx s0 (Accept 12 zero_addr)) as (t1 & E1 & Hs1 & _);
    [done|apply serving_s0|apply enabled_b_enabled; vm_compute; reflexivity|simpl; lia|by vm_compute|].
  destruct (Hx t1 (Accept 13 zero_addr)) as (t2 & E2 & Hs2 & _); [done|done| |simpl; lia|by vm_compute|].
  - apply enabled_b_enabled.
    assert (t1 = after [Accept 12 zero_addr]) as ->; [|vm_compute; reflexivity].
    unfold after, exec. cbn [for_each]. by rewrite (bind_step _ _ _ _ _ E1).
  - assert (s1 = t2) as ->; [|done]. unfold s1, after, exec. cbn [for_each].
    by rewrite (bind_step _ _ _ _ _ E1), (bind_step _ _ _ _ _ E2).
Qed.

Lemma serving_s2 : serving 7 100 s2.
Proof. apply (serving_set_revents 7 100 s1 (channel_ k1) ch0 POLLHUP serving_s1). vm_compute. reflexivity. Qed.
End Demo.

Lemma server_serves_witness :
  ∃ s', for_each (Demo.exec (λ _, true)) Demo.events Demo.s0 = Ok (tt, s') ∧ serving 7 95 s' ∧
    size (connections_ (net_ext s')) = 1%nat ∧ length (announced s') = 3%nat.
Proof.
  destruct (server_serves EventLoop.Demo.ew 7 0 Demo.queue_on Demo.alloc_conn Demo.alloc_chan
    Demo.alloc_conn_ok Demo.new_chan_ok (λ _, true) 100 Demo.s0 Demo.events)
    as (s' & E & Hs & Hz & Ha).
  - done.
  - apply Demo.serving_s0.
  - apply admissible_b_admissible. vm_compute. reflexivity.
  - vm_compute. done.
  - vm_compute. done.
  - exists s'. split; [exact E|]. split; [exact Hs|].
    change (size (connections_ (net_ext s')) + 1 = 0 + 2)%nat in Hz. change (length (announced s') = 3)%nat in Ha.
    split; [lia|exact Ha].
Defined.

(** The poller reports a hang-up of connection 1, which only the map holds. *)
Lemma hangup_destroys_in_handler_witness :
  EventLoop.handleEvent
    (call EventLoop.Demo.ew 7 0 Demo.queue_on (λ _, false))
    (call_read EventLoop.Demo.ew 7 0 Demo.queue_on Demo.alloc_conn Demo.alloc_chan (λ _, false))
    (channel_ Demo.k1) 0 Demo.s2 = Err AssertFailed.
Proof.
  apply (hangup_destroys_in_handler EventLoop.Demo.ew 7 0 Demo.queue_on Demo.alloc_conn Demo.alloc_chan
    (λ _, false) 100 Demo.s2 Demo.name1 0 Demo.k1 Demo.ch1 0).
  - exact Demo.serving_s2.
  - vm_compute. reflexivity.
  - vm_compute. reflexivity.
  - vm_compute. reflexivity.
  - reflexivity.
  - vm_compute. reflexivity.
  - vm_compute. reflexivity.
  - vm_compute. reflexivity.
Defined.
