(* ===== verification/Connector.v ===== *)
(** * Connector: establishing the connection of a client

    Models src/muduo/net/Connector.h and src/muduo/net/Connector.cpp over any
    [Net X] whose upper state [X] contains the connector, on the loop, its
    poller and its timers.  The destructor of [channel_] is [delete_channel];
    the functions bound to [this] are the [FnConnector_...] closures. *)

From S2P Require Import Prelude Callbacks Channel Timestamp.
From S2P Require Poller TimerQueue.
From S2P Require Import EventLoop Sockets TcpConnection Acceptor.

Inductive States : Set := kDisconnected | kConnecting | kConnected.

#[export] Instance States_eq_dec : EqDecision States.
Proof. solve_decision. Defined.

Record Connector : Type := mkConnector {
  connector_loop : nat;   (* loop_ *)
  serverAddr_ : InetAddress;
  connect_ : bool;
  state_ : States;
  channel_ : option chan_id;
  newConnectionCallback_ : option new_connection_callback;
  retryDelayMs_ : Z;
  timerId_ : TimerId;
}.

Definition kMaxRetryDelayMs : Z := 30 * 1000.
Definition kInitRetryDelayMs : Z := 500.

Section setters.
Context (k : Connector).
Definition setConnect (b : bool) : Connector :=
  mkConnector (connector_loop k) (serverAddr_ k) b (state_ k) (channel_ k)
    (newConnectionCallback_ k) (retryDelayMs_ k) (timerId_ k).
Definition setState (s : States) : Connector :=
  mkConnector (connector_loop k) (serverAddr_ k) (connect_ k) s (channel_ k)
    (newConnectionCallback_ k) (retryDelayMs_ k) (timerId_ k).
Definition setChannel (c : option chan_id) : Connector :=
  mkConnector (connector_loop k) (serverAddr_ k) (connect_ k) (state_ k) c
    (newConnectionCallback_ k) (retryDelayMs_ k) (timerId_ k).
Definition setRetryDelay (ms : Z) : Connector :=
  mkConnector (connector_loop k) (serverAddr_ k) (connect_ k) (state_ k) (channel_ k)
    (newConnectionCallback_ k) ms (timerId_ k).
Definition setTimerId (t : TimerId) : Connector :=
  mkConnector (connector_loop k) (serverAddr_ k) (connect_ k) (state_ k) (channel_ k)
    (newConnectionCallback_ k) (retryDelayMs_ k) t.
(** The body is empty. *)
Definition setNewConnectionCallback (cb : new_connection_callback) : Connector := k.
End setters.

Definition Connector_new (loop : nat) (serverAddr : InetAddress) : Connector :=
  mkConnector loop serverAddr false kDisconnected None None kInitRetryDelayMs TimerId_default.

(** <errno.h> on Linux. *)
Definition EINTR : Z := 4.
Definition EAGAIN : Z := 11.
Definition EADDRINUSE : Z := 98.
Definition EADDRNOTAVAIL : Z := 99.
Definition ENETUNREACH : Z := 101.
Definition EISCONN : Z := 106.
Definition ECONNREFUSED : Z := 111.
Definition EINPROGRESS : Z := 115.

(** The cases of the [switch] of [connect]. *)
Definition in_progress (errno : Z) : bool := bool_decide (errno ∈ [0; EINPROGRESS; EINTR; EISCONN]).
Definition retryable (errno : Z) : bool :=
  bool_decide (errno ∈ [EAGAIN; EADDRINUSE; EADDRNOTAVAIL; ECONNREFUSED; ENETUNREACH]).

Section operations.
Context {X : Type} `{Lens X Connector} (ew : eventfd_model) (tid : Z) (end_first : Timestamp).
(** The effect of a [NewConnectionCallback], bound by the client. *)
Context (call_new : new_connection_callback → Z → M (Net X) unit).
(** Addresses for new channels and timers. *)
Context (alloc_chan : Net X → chan_id) (alloc_timer : Net X → timer_ptr).

Abbreviation NM := (M (Net X)).

Definition connector : NM Connector := zoom (zoom (S:=X) get).
Definition upd_connector (f : Connector → Connector) : NM unit := zoom (zoom (S:=X) (modify f)).

(** The functors the timers of the loop's own thread are given. *)
Definition call_timer (f : closure) : NM unit :=
  match f with
  | FnTimerQueue_addTimerInLoop p => on_timers (TimerQueue.addTimerInLoop end_first p)
  | FnTimerQueue_cancelInLoop id => on_timers (TimerQueue.cancelInLoop id)
  | _ => fail BadFunctionCall
  end.

Definition retry (sockfd : Z) : NM unit :=
  zoom (close sockfd) ;;
  upd_connector (λ k, setState k kDisconnected) ;;
  k ← connector;
  if connect_ k then
    s ← get;
    id ← runAfter ew tid call_timer (alloc_timer s) (ms_delay (retryDelayMs_ k)) FnConnector_startInLoop;
    upd_connector (λ k, setTimerId k id) ;;
    upd_connector (λ k, setRetryDelay k (Z.min (retryDelayMs_ k * 2) kMaxRetryDelayMs))
  else mret ().

(** [std::make_unique<Channel>(loop_, sockfd)] with its callbacks. *)
Definition connector_new_channel (k : Connector) (sockfd : Z) : channel :=
  setErrorCallback
    (setWriteCallback (Channel_new (connector_loop k) sockfd) FnConnector_handleWrite)
    FnConnector_handleError.

Definition connecting (sockfd : Z) : NM unit :=
  upd_connector (λ k, setState k kConnecting) ;;
  k ← connector;
  assert_ (bool_decide (channel_ k = None)) ;;
  s ← get;
  let ch := alloc_chan s in
  if decide (is_Some (Poller.chans (poller_ (net_loop s)) !! ch)) then fail BadAlloc else
  on_poller (modify (Poller.set_chan ch (connector_new_channel k sockfd))) ;;
  upd_connector (λ k, setChannel k (Some ch)) ;;
  zoom (change_mask tid EnableWriting ch).

Definition connect : NM unit :=
  sockfd ← zoom createNonblockingOrDie;
  k ← connector;
  savedErrno ← zoom (Sockets.connect sockfd (serverAddr_ k));
  if in_progress savedErrno then connecting sockfd
  else if retryable savedErrno then retry sockfd
  else zoom (close sockfd).

Definition startInLoop : NM unit :=
  zoom (assertInLoopThread tid) ;;
  k ← connector;
  assert_ (bool_decide (state_ k = kDisconnected)) ;;
  if connect_ k then connect else mret ().

(** [reset] of the [unique_ptr], with the destructor of the channel. *)
Definition delete_channel (c : chan_id) : NM unit := on_poller (Poller.Channel_delete c).

Definition resetChannel : NM unit :=
  k ← connector;
  match channel_ k with
  | Some c => upd_connector (λ k, setChannel k None) ;; delete_channel c
  | None => mret ()
  end.

(** What the functors bound to the connector do. *)
Definition call_connector (f : closure) : NM unit :=
  match f with
  | FnConnector_startInLoop => startInLoop
  | FnConnector_resetChannel => resetChannel
  | _ => call_timer f
  end.

Definition start : NM unit :=
  upd_connector (λ k, setConnect k true) ;;
  runInLoop ew tid call_connector FnConnector_startInLoop.

Definition restart : NM unit :=
  zoom (assertInLoopThread tid) ;;
  upd_connector (λ k, setState k kDisconnected) ;;
  upd_connector (λ k, setRetryDelay k kInitRetryDelayMs) ;;
  upd_connector (λ k, setConnect k true) ;;
  startInLoop.

Definition stop : NM unit :=
  upd_connector (λ k, setConnect k false) ;;
  k ← connector;
  cancel ew tid call_timer (timerId_ k).

Definition removeAndResetChannel : NM Z :=
  k ← connector;
  c ← deref NullDeref (channel_ k);
  zoom (change_mask tid DisableAll c) ;;
  zoom (removeChannel tid c) ;;
  ch ← on_poller (Poller.chan c);
  zoom (queueInLoop ew tid FnConnector_resetChannel) ;;
  mret (fd_ ch).

Definition connector_handleWrite : NM unit :=
  k ← connector;
  if decide (state_ k = kConnecting) then
    sockfd ← removeAndResetChannel;
    err ← zoom (getSocketError sockfd);
    if negb (err =? 0) then retry sockfd
    else
      upd_connector (λ k, setState k kConnected) ;;
      k ← connector;
      if connect_ k then
        cb ← deref BadFunctionCall (newConnectionCallback_ k);
        call_new cb sockfd
      else zoom (close sockfd)
  else assert_ (bool_decide (state_ k = kDisconnected)).

Definition connector_handleError : NM unit :=
  k ← connector;
  assert_ (bool_decide (state_ k = kConnecting)) ;;
  sockfd ← removeAndResetChannel;
  zoom (getSocketError sockfd) ;;
  retry sockfd.

(** [Connector::~Connector]. *)
Definition Connector_delete : NM unit :=
  k ← connector;
  cancel ew tid call_timer (timerId_ k) ;;
  k ← connector;
  assert_ (bool_decide (channel_ k = None)).
End operations.

(** ** The retry delay *)

(** The delay before the retry that follows [n] earlier ones. *)
Definition backoff (n : nat) : Z := Z.min (kInitRetryDelayMs * 2 ^ Z.of_nat n) kMaxRetryDelayMs.

Lemma backoff_S n : Z.min (backoff n * 2) kMaxRetryDelayMs = backoff (S n).
Proof. unfold backoff, kMaxRetryDelayMs. rewrite Nat2Z.inj_succ, Z.pow_succ_r by lia. lia. Qed.

Lemma backoff_exact n : backoff n ∈ [500; 1000; 2000; 4000; 8000; 16000; 30000].
Proof.
  destruct (decide (n < 6)%nat) as [Hn|Hn].
  - do 6 (destruct n as [|n]; [decide_closed|]). lia.
  - assert (backoff n = 30000) as ->; [|decide_closed]. unfold backoff, kInitRetryDelayMs, kMaxRetryDelayMs.
    pose proof (Z.pow_le_mono_r 2 6 (Z.of_nat n)). lia.
Qed.

Section facts.
Context {X : Type} `{LX : LensLaws X Connector} (ew : eventfd_model) (tid : Z) (end_first : Timestamp).
Context (call_new : new_connection_callback → Z → M (Net X) unit).
Context (alloc_chan : Net X → chan_id) (alloc_timer : Net X → timer_ptr).
Context (Hchan : ∀ s, Poller.chans (poller_ (net_loop s)) !! alloc_chan s = None).
Implicit Types s : Net X.

(** The connector of a state. *)
Definition the s : Connector := lget (net_ext s).
Definition with_connector (k : Connector) s : Net X :=
  mkNet (net_loop s) (net_kernel s) (net_conns s) (net_events s) (lset k (net_ext s)).

Lemma connector_ok s : connector s = Ok (the s, s).
Proof using LX. unfold connector, zoom. simpl. rewrite lset_lget. by destruct s. Qed.

Lemma upd_ok f s : upd_connector f s = Ok (tt, with_connector (f (the s)) s).
Proof using Type. done. Qed.

Lemma the_with k s : the (with_connector k s) = k.
Proof using LX. unfold the, with_connector. simpl. apply lget_lset. Qed.

Lemma with_with k k' s : with_connector k (with_connector k' s) = with_connector k s.
Proof using LX. unfold with_connector. simpl. by rewrite lset_lset. Qed.

Definition timers s : TimerQueue.TimerQueue := timerQueue_ (net_loop s).

(** When the timer of the next attempt expires. *)
Definition deadline s : option Timestamp :=
  TimerQueue.active (timers s) !! (timer_ (timerId_ (the s)), sequence_ (timerId_ (the s))).

(** The invariant of a connector on its loop, after [n] failed attempts. *)
Record base (n : nat) s : Prop := mkBase {
  b_poller : Poller.inv (poller_ (net_loop s));
  b_timers : TimerQueue.ok ∅ None (timers s);
  b_tid : threadId_ (net_loop s) = tid;
  b_loop : connector_loop (the s) = this_ (net_loop s);
  b_cb : newConnectionCallback_ (the s) = None;
  b_delay : retryDelayMs_ (the s) = backoff n;
}.

Lemma base_kernel n s (kn : Kernel) : base n s → base n (lset kn s).
Proof using Type. by intros []. Qed.

Definition idle s : Prop := state_ (the s) = kDisconnected ∧ channel_ (the s) = None.

(** Its channel is watched for writing; [h]: one of its handlers is running. *)
Definition watching_in (h : bool) (fd : Z) s : Prop :=
  ∃ c ch i p, state_ (the s) = kConnecting ∧ channel_ (the s) = Some c ∧
    Poller.registered (poller_ (net_loop s)) c ch i p ∧ fd_ ch = fd ∧ events_ ch = kWriteEvent ∧
    Poller.fd p = fd ∧ loop_ ch = this_ (net_loop s) ∧ eventHandling_ ch = h ∧
    writeCallback_ ch = Some FnConnector_handleWrite ∧ errorCallback_ ch = Some FnConnector_handleError ∧
    Channel.closeCallback_ ch = None.
Definition watching : Z → Net X → Prop := watching_in false.

(** The connections, the events and the rest of the program are untouched. *)
Definition connector_only s s' : Prop :=
  net_conns s' = net_conns s ∧ net_events s' = net_events s ∧ net_ext s' = lset (the s') (net_ext s).

(** What [retry] leaves: the descriptor is closed and, if the client still
    wants the connection, the next attempt is due after the [n]-th delay. *)
Record retried (n : nat) s s' : Prop := mkRetried {
  rt_base : base (if connect_ (the s) then S n else n) s';
  rt_state : state_ (the s') = kDisconnected;
  rt_channel : channel_ (the s') = channel_ (the s);
  rt_connect : connect_ (the s') = connect_ (the s);
  rt_poller : poller_ (net_loop s') = poller_ (net_loop s);
  rt_pending : pendingFunctors_ (net_loop s') = pendingFunctors_ (net_loop s);
  rt_clock : TimerQueue.clock_ (timers s') = TimerQueue.clock_ (timers s);
  rt_deadline : connect_ (the s) = true →
    deadline s' = Some (TimerQueue.clock_ (timers s) (TimerQueue.readings_ (timers s)) + backoff n * 1000);
  rt_readings : connect_ (the s) = true →
    (TimerQueue.readings_ (timers s) < TimerQueue.readings_ (timers s'))%nat;
  rt_quiet : connect_ (the s) = false → timers s' = timers s ∧ timerId_ (the s') = timerId_ (the s);
  rt_only : connector_only s s' ∧ ∃ q, net_loop s' = set_timerQueue (net_loop s) q;
}.

Lemma retry_spec n s fd :
  base n s →
  match retry ew tid end_first alloc_timer fd s with
  | Ok (_, s') => retried n s s' ∧
      net_kernel s' = logged (net_kernel s) (SysClose fd) (answer (net_kernel s) (calls (net_kernel s)))
  | Err f => TimerQueue.allowed f
  end.
Proof using LX.
  intros Hb. pose proof Hb as []. set (k0 := setState (the s) kDisconnected).
  set (kn := logged (net_kernel s) (SysClose fd) (answer (net_kernel s) (calls (net_kernel s)))).
  set (s1 := with_connector k0 (lset kn s)).
  unfold retry. rewrite bind_unfold. assert (zoom (S:=Net X) (close fd) s = Ok (tt, lset kn s)) as -> by done.
  rewrite bind_unfold, upd_ok. change (the (lset kn s)) with (the s). fold k0. fold s1.
  assert (the s1 = k0) as Hk1 by apply the_with.
  rewrite bind_unfold, connector_ok, Hk1. simpl. destruct (connect_ (the s)) eqn:Hc.
  2: { split; [|done]. split; rewrite ?Hk1, ?Hc; simpl; try done.
       - by split; rewrite ?Hk1.
       - split; [by split_and!; rewrite ?Hk1|]. exists (timers s). symmetry. exact (lset_lget (net_loop s)). }
  rewrite bind_unfold. simpl. rewrite bind_unfold.
  pose proof (addTime_ms (TimerQueue.clock_ (timers s) (TimerQueue.readings_ (timers s))) (backoff n)
                (backoff_exact n)) as Et.
  rewrite b_delay0. unfold checked_i64 in Et. destruct (in_s 64 _).
  2: { unfold runAfter. rewrite bind_unfold, on_timers_eq. simpl. rewrite bind_unfold. unfold lift.
       change (timerQueue_ (net_loop s)) with (timers s). rewrite Et. by right. }
  pose proof (runAfter_own ew tid (call_timer end_first) end_first (λ _ _, eq_refl) None
    (alloc_timer s1) _ FnConnector_startInLoop s1 (timers s) _ b_tid0 eq_refl b_timers0 Et) as Hrun.
  destruct (runAfter _ _ _ _ _ _ s1) as [[id s2]|f]; [|done].
  destruct Hrun as (q & -> & Hq & Hid & Ha & Hclk & Hrd).
  set (s2 := put_timers q s1). assert (the s2 = k0) as Hk2 by apply the_with.
  rewrite bind_unfold, upd_ok, Hk2. set (s3 := with_connector _ s2).
  assert (the s3 = setTimerId k0 id) as Hk3 by apply the_with.
  rewrite upd_ok, Hk3. unfold s3. rewrite with_with. simpl. rewrite b_delay0, backoff_S.
  split; [|done]. split; rewrite ?the_with, ?Hc; simpl; try done.
  - split; rewrite ?the_with; simpl; done.
  - intros _. unfold deadline. rewrite the_with. simpl.
    change (timers (with_connector _ _)) with q. rewrite Ha. apply lookup_insert_eq.
  - split; [|by exists q]. unfold connector_only. rewrite the_with. simpl. by rewrite lset_lset.
Qed.

(** The destructor of a connector without a channel cancels its timer. *)
Lemma Connector_delete_spec b s :
  threadId_ (net_loop s) = tid → TimerQueue.ok ∅ b (timers s) → channel_ (the s) = None →
  ∃ q, Connector_delete ew tid end_first s = Ok (tt, lset (C:=EventLoop) (set_timerQueue (net_loop s) q) s) ∧
    TimerQueue.ok ∅ b q ∧
    TimerQueue.active q = delete (timer_ (timerId_ (the s)), sequence_ (timerId_ (the s))) (TimerQueue.active (timers s)).
Proof using LX.
  intros Ht Hq Hc. destruct (TimerQueue.cancelInLoop_ok ∅ b (timers s) (timerId_ (the s)) Hq)
    as (q & E & Hq' & Ha & _).
  exists q. split; [|done]. unfold Connector_delete. mstep_by (apply connector_ok).
  mstep_by (rewrite (cancel_own ew tid (call_timer end_first) (λ _ _, eq_refl)) by done; unfold timers in E;
    simpl in *; rewrite E; reflexivity).
  mstep_by (apply connector_ok). unfold assert_. by rewrite bool_decide_eq_true_2.
Qed.

(** Room for the channel of a new descriptor. *)
Definition fresh_fd (fd : Z) s : Prop :=
  Poller.channels_ (poller_ (net_loop s)) !! fd = None ∧ 0 ≤ fd ∧
  zlen (Poller.pollfds_ (poller_ (net_loop s))) + 1 < 2 ^ 31.

(** The only new thing about the loop is the channel of [fd]. *)
Definition channel_added (fd : Z) s s' : Prop :=
  connector_only s s' ∧ looping_ (net_loop s') = looping_ (net_loop s) ∧
  (quiet_loop (net_loop s) → quiet_loop (net_loop s')) ∧
  ∃ c, channel_ (the s') = Some c ∧ Poller.chans (poller_ (net_loop s)) !! c = None ∧
    Poller.channels_ (poller_ (net_loop s')) = <[fd := c]> (Poller.channels_ (poller_ (net_loop s))) ∧
    ∀ d, d ≠ c → Poller.chans (poller_ (net_loop s')) !! d = Poller.chans (poller_ (net_loop s)) !! d.

Lemma connecting_spec n s fd :
  base n s → channel_ (the s) = None → fresh_fd fd s →
  ∃ s', connecting tid alloc_chan fd s = Ok (tt, s') ∧ base n s' ∧ watching fd s' ∧
    net_kernel s' = net_kernel s ∧ timers s' = timers s ∧
    pendingFunctors_ (net_loop s') = pendingFunctors_ (net_loop s) ∧
    connect_ (the s') = connect_ (the s) ∧ timerId_ (the s') = timerId_ (the s) ∧ channel_added fd s s'.
Proof using LX Hchan.
  intros Hb Hnone (Hfree & Hfd & Hsl). pose proof Hb as [].
  set (k1 := setState (the s) kConnecting). set (s1 := with_connector k1 s).
  assert (the s1 = k1) as Hk1 by apply the_with.
  set (c := alloc_chan s1). set (ch := connector_new_channel k1 fd).
  assert (Poller.chans (poller_ (net_loop s)) !! c = None) as Hc by apply (Hchan s1).
  set (e1 := set_poller (net_loop s) (Poller.set_chan c ch (poller_ (net_loop s)))).
  set (k2 := setChannel k1 (Some c)). set (s2 := with_connector k2 (lset e1 s1)).
  destruct (change_mask_new tid EnableWriting c e1 ch) as (q & i & p & E & Hq & Hr & Hp & _ & Hm & _ & Ho);
    [by apply Poller.inv_set_chan_new|apply lookup_insert_eq|done..|].
  set (s3 := lset (set_poller e1 q) s2). assert (the s3 = k2) as Hk3.
  { change (the s2 = k2). apply the_with. }
  exists s3. split.
  - unfold connecting. rewrite bind_unfold, upd_ok. fold k1 s1.
    rewrite bind_unfold, connector_ok, Hk1. rewrite bind_unfold. unfold assert_.
    rewrite bool_decide_eq_true_2 by done. rewrite bind_unfold. simpl. fold c.
    rewrite decide_False by (rewrite Hc; by intros [? ?]).
    rewrite bind_unfold. simpl. fold ch. rewrite bind_unfold.
    change (upd_connector _ _) with (upd_connector (λ k, setChannel k (Some c)) (lset e1 s1)).
    rewrite upd_ok. change (the (lset e1 s1)) with (the s1). rewrite Hk1. fold k2 s2.
    by apply (zoom_ok (S:=Net X) (C:=EventLoop)).
  - split; [split; rewrite ?Hk3; done|]. split; [|split_and!; rewrite ?Hk3; try done].
    2: { split; [by split_and!; rewrite ?Hk3; try done; simpl; rewrite lset_lset|]. split; [done|]. split.
         - intros Hqu. apply (chan_exec_quiet tid (ChanMask EnableWriting c) e1 tt (set_poller e1 q) E).
           apply quiet_set_chan; [done|by left].
         - exists c. rewrite Hk3. split_and!; [done|done|exact Hm|]. intros d Hd. simpl. rewrite Ho by done. simpl.
           by rewrite lookup_insert_ne. }
    exists c, (set_index (set_events ch (mask_update EnableWriting (events_ ch))) (Z.of_nat i)), i, p.
    rewrite Hk3. split_and!; try done.
    by rewrite Hp.
Qed.

(** The kernel's answers to the next [socket] and [connect]. *)
Definition next_fd s : Z := answer (net_kernel s) (calls (net_kernel s)).
Definition next_errno s : Z :=
  let r := answer (net_kernel s) (S (calls (net_kernel s))) in if r =? 0 then 0 else Z.abs r.

Definition issued s : list syscall := (trace (net_kernel s)).*1.

(** The two calls every attempt starts with. *)
Lemma connect_calls s :
  ∃ kn, let s1 := lset (C:=Kernel) kn s in
    connect ew tid end_first alloc_chan alloc_timer s =
      (if in_progress (next_errno s) then connecting tid alloc_chan (next_fd s)
       else if retryable (next_errno s) then retry ew tid end_first alloc_timer (next_fd s)
       else zoom (close (next_fd s))) s1 ∧
    calls kn = (2 + calls (net_kernel s))%nat ∧ answer kn = answer (net_kernel s) ∧
    issued s1 = issued s ++ [SysSocket; SysConnect (next_fd s) (serverAddr_ (the s))].
Proof using LX.
  set (k1 := logged (net_kernel s) SysSocket (next_fd s)).
  set (k2 := logged k1 (SysConnect (next_fd s) (serverAddr_ (the s))) (answer k1 (calls k1))).
  assert (calls k1 = S (calls (net_kernel s))) as Hc1.
  { unfold calls. simpl. rewrite length_app. simpl. lia. }
  exists k2. cbv zeta. split_and!.
  - unfold connect. rewrite bind_unfold.
    assert (zoom (S:=Net X) createNonblockingOrDie s = Ok (next_fd s, lset k1 s)) as -> by done.
    rewrite bind_unfold, connector_ok. change (the (lset k1 s)) with (the s). rewrite bind_unfold.
    assert (zoom (S:=Net X) (Sockets.connect (next_fd s) (serverAddr_ (the s))) (lset k1 s) =
            Ok (next_errno s, lset k2 s)) as ->.
    { unfold next_errno. by rewrite <- Hc1. }
    by destruct (in_progress (next_errno s)), (retryable (next_errno s)).
  - unfold calls in *. simpl. rewrite !length_app. simpl. lia.
  - done.
  - unfold issued. simpl. rewrite !fmap_app. simpl. by rewrite <- app_assoc.
Qed.

(** A handler of the channel, up to the choice it makes from [SO_ERROR]: the
    channel is out of the poller and its deletion is queued. *)
Record removed (h : bool) (n : nat) (fd : Z) s (e : EventLoop) (c : chan_id) (ch : channel) : Prop := mkRemoved {
  rm_base : base n (lset e s);
  rm_channel : channel_ (the s) = Some c;
  rm_chan : Poller.chans (poller_ e) !! c = Some ch;
  rm_fd : fd_ ch = fd;
  rm_handling : eventHandling_ ch = h;
  rm_map : Poller.channels_ (poller_ e) = delete fd (Poller.channels_ (poller_ (net_loop s)));
  rm_timers : timerQueue_ e = timers s;
  rm_pending : pendingFunctors_ e = pendingFunctors_ (net_loop s) ++ [FnConnector_resetChannel];
}.

Lemma removeAndResetChannel_spec h n s fd :
  base n s → watching_in h fd s →
  ∃ e c ch, removeAndResetChannel ew tid s = Ok (fd, lset e s) ∧ removed h n fd s e c ch.
Proof using LX.
  intros Hb (c & ch & i & p & Hst & Hch & Hr & Hfd & Hev & Hpf & Hl & Hh & _). pose proof Hb as [].
  destruct (change_mask_registered tid DisableAll c (net_loop s) ch i p)
    as (q & E & Hq & Hr1 & _ & Hm & _); [done..|].
  set (ch1 := set_events ch (mask_update DisableAll (events_ ch))) in *.
  set (s1 := lset (set_poller (net_loop s) q) s).
  destruct (Poller.removeChannel_spec q c ch1 i _ Hq Hr1) as (q' & E' & Hq' & Hm' & Hc' & _); [done..|].
  set (s2 := lset (set_poller (net_loop s1) q') s1).
  destruct (queueInLoop_frame ew tid FnConnector_resetChannel (net_loop s2)) as (e & E3 & (Hp3 & Ht3 & Htid3) & Hpd).
  pose proof (queueInLoop_timers ew tid FnConnector_resetChannel (net_loop s2) e E3) as Htm.
  exists e, c, ch1. split; [|split; try done].
  - unfold removeAndResetChannel. rewrite bind_unfold, connector_ok, Hch. simpl. rewrite bind_unfold. simpl.
    mstep_by (by apply (zoom_ok (S:=Net X) (C:=EventLoop))). fold s1.
    mstep_by (apply (zoom_ok (S:=Net X) (C:=EventLoop)); exact (removeChannel_ok _ _ (set_poller (net_loop s) q) ch1 q' (proj1 Hr1) Hl E')).
    fold s2. mstep_by (by apply on_poller_chan).
    mstep_by (by apply (zoom_ok (S:=Net X) (C:=EventLoop))). by rewrite <- Hfd.
  - split; [simpl; by rewrite Hp3|unfold timers; simpl; by rewrite Htm|..]; try done;
      change (the (lset e s)) with (the s); simpl in *; congruence.
  - by rewrite Hp3.
  - rewrite Hp3. simpl. rewrite Hm', Hm. simpl. by rewrite <- Hfd.
Qed.

(** The functor that deletes the channel. *)
Definition channel_gone (c : chan_id) s : Net X :=
  with_connector (setChannel (the s) None)
    (lset (set_poller (net_loop s) (Poller.mkPoller (Poller.pollfds_ (poller_ (net_loop s)))
       (Poller.channels_ (poller_ (net_loop s))) (delete c (Poller.chans (poller_ (net_loop s)))))) s).

Lemma resetChannel_spec n s c ch :
  base n s → channel_ (the s) = Some c → Poller.chans (poller_ (net_loop s)) !! c = Some ch →
  Poller.channels_ (poller_ (net_loop s)) !! fd_ ch = None → eventHandling_ ch = false →
  resetChannel s = Ok (tt, channel_gone c s) ∧ base n (channel_gone c s) ∧
  the (channel_gone c s) = setChannel (the s) None.
Proof using LX.
  intros Hb Hk Hc Hm Hh. assert (the (channel_gone c s) = setChannel (the s) None) as Hk2 by apply the_with.
  split_and!; [|destruct Hb; split; rewrite ?Hk2; try done; by apply (Poller.inv_delete_chan _ c ch)|done].
  unfold resetChannel. rewrite bind_unfold, connector_ok, Hk. rewrite bind_unfold, upd_ok.
  unfold delete_channel, on_poller.
  by erewrite zoom_ok by (apply zoom_ok, (Poller.Channel_delete_ok _ _ ch); done).
Qed.

(** Reading [SO_ERROR]. *)
Definition next_error s : Z :=
  let r := answer (net_kernel s) (calls (net_kernel s)) in if r <? 0 then - r else r.

Lemma getSocketError_ok s fd :
  zoom (S:=Net X) (getSocketError fd) s =
    Ok (next_error s, lset (logged (net_kernel s) (SysSocketError fd)
                              (answer (net_kernel s) (calls (net_kernel s)))) s).
Proof using Type. done. Qed.

(** What a handler that ends an attempt leaves: the channel is out of the
    poller, its deletion is queued, and the descriptor is closed. *)
Record unwatched (h : bool) (n : nat) (st : States) (fd : Z) s s' : Prop := mkUnwatched {
  uw_base : base n s';
  uw_state : state_ (the s') = st;
  uw_connect : connect_ (the s') = connect_ (the s);
  uw_chan : ∃ c ch, channel_ (the s) = Some c ∧ channel_ (the s') = Some c ∧
    Poller.chans (poller_ (net_loop s')) !! c = Some ch ∧ fd_ ch = fd ∧ eventHandling_ ch = h;
  uw_map : Poller.channels_ (poller_ (net_loop s')) = delete fd (Poller.channels_ (poller_ (net_loop s)));
  uw_pending : pendingFunctors_ (net_loop s') = pendingFunctors_ (net_loop s) ++ [FnConnector_resetChannel];
  uw_issued : issued s' = issued s ++ [SysSocketError fd; SysClose fd];
  uw_only : connector_only s s';
  uw_loop : ∃ e q, removeAndResetChannel ew tid s = Ok (fd, lset e s) ∧ net_loop s' = set_timerQueue e q;
}.

(** [retry] in a handler whose attempt failed. *)
Definition failed (h : bool) (n : nat) (fd : Z) s s' : Prop :=
  unwatched h (if connect_ (the s) then S n else n) kDisconnected fd s s' ∧
  (connect_ (the s) = true →
    deadline s' = Some (TimerQueue.clock_ (timers s) (TimerQueue.readings_ (timers s)) + backoff n * 1000)).

Lemma retry_failed h n fd s e c ch :
  removeAndResetChannel ew tid s = Ok (fd, lset e s) → removed h n fd s e c ch →
  match retry ew tid end_first alloc_timer fd
          (lset (logged (net_kernel s) (SysSocketError fd) (answer (net_kernel s) (calls (net_kernel s)))) (lset e s)) with
  | Ok (_, s') => failed h n fd s s'
  | Err f => TimerQueue.allowed f
  end.
Proof using LX.
  intros E []. set (kn := logged _ _ _). set (s2 := lset kn (lset e s)).
  pose proof (retry_spec n s2 fd (base_kernel n _ kn rm_base0)) as Hr. change (the s2) with (the s) in Hr.
  destruct (retry _ _ _ _ fd s2) as [[u s3]|f]; [|done]. destruct Hr as [[] Ekn].
  change (the s2) with (the s) in *. assert (timers s2 = timers s) as Htm by exact rm_timers0. split.
  - split; rewrite ?rt_poller0, ?rt_pending0; try done.
    + exists c, ch. by rewrite rt_channel0.
    + unfold issued. rewrite Ekn. simpl. rewrite !fmap_app. simpl. by rewrite <- app_assoc.
    + by destruct rt_only0.
    + destruct rt_only0 as [_ [q Hq]]. by exists e, q.
  - by rewrite <- Htm.
Qed.

(** The functor a handler queued: the channel is deleted. *)
Lemma unwatched_reset n st fd s s' :
  unwatched false n st fd s s' → pendingFunctors_ (net_loop s) = [] →
  ∃ s'', dePendingFunctors (call_connector ew tid end_first alloc_chan alloc_timer) holds_nothing s' = Ok (tt, s'') ∧
    base n s'' ∧ the s'' = setChannel (the s') None ∧
    Poller.channels_ (poller_ (net_loop s'')) !! fd = None ∧ pendingFunctors_ (net_loop s'') = [] ∧
    timers s'' = timers s' ∧ net_kernel s'' = net_kernel s'.
Proof using LX.
  intros [] Hp. destruct uw_chan0 as (c & ch & _ & Hk & Hc & Hfd & Hh).
  rewrite Hp in uw_pending0. simpl in uw_pending0.
  set (s1 := lset (set_pending (set_calling (net_loop s') true) []) s').
  destruct (resetChannel_spec n s1 c ch) as (E & Hb & Hk2); try done; [by destruct uw_base0| |].
  { simpl. rewrite uw_map0, Hfd. apply lookup_delete_eq. }
  set (s2 := channel_gone c s1) in *. set (s3 := lset (set_calling (net_loop s2) false) s2).
  assert (the s3 = setChannel (the s') None) as Hk3 by exact Hk2.
  exists s3. split_and!; try done.
  - unfold dePendingFunctors. rewrite bind_unfold.
    assert (zoom take_pending s' = Ok ([FnConnector_resetChannel], s1)) as ->.
    { unfold zoom, take_pending. simpl. by rewrite uw_pending0. }
    rewrite bind_unfold. cbn [for_each call_connector]. by rewrite bind_unfold, E.
  - destruct Hb. by split.
  - simpl. rewrite uw_map0. apply lookup_delete_eq.
Qed.

(** The write handler of the channel, on every value of [SO_ERROR]. *)
Lemma handleWrite_handler h n s fd :
  base n s → watching_in h fd s →
  match connector_handleWrite ew tid end_first call_new alloc_timer s with
  | Ok (_, s') => if next_error s =? 0 then connect_ (the s) = false ∧ unwatched h n kConnected fd s s'
                  else failed h n fd s s'
  | Err f => if next_error s =? 0 then connect_ (the s) = true ∧ f = BadFunctionCall
             else TimerQueue.allowed f
  end.
Proof using LX.
  intros Hb Hw. pose proof Hw as (_ & _ & _ & _ & Hst & _).
  destruct (removeAndResetChannel_spec h n s fd Hb Hw) as (e & c & ch & E & Hrm).
  unfold connector_handleWrite. rewrite bind_unfold, connector_ok, decide_True by done.
  rewrite bind_unfold, E. rewrite bind_unfold, getSocketError_ok.
  change (net_kernel (lset e s)) with (net_kernel s). change (next_error (lset e s)) with (next_error s).
  destruct (Z.eqb_spec (next_error s) 0) as [Herr|Herr]; cbn [negb].
  2: { exact (retry_failed h n fd s e c ch E Hrm). }
  set (kn2 := logged _ _ _). set (s2 := lset kn2 (lset e s)).
  rewrite bind_unfold, upd_ok. change (the s2) with (the s). set (k3 := setState (the s) kConnected).
  set (s3 := with_connector k3 s2). assert (the s3 = k3) as Hk3 by apply the_with.
  rewrite bind_unfold, connector_ok, Hk3. simpl. destruct (connect_ (the s)) eqn:Hcn.
  { destruct Hb. by rewrite b_cb0. }
  set (kn4 := logged kn2 (SysClose fd) (answer kn2 (calls kn2))).
  assert (zoom (S:=Net X) (close fd) s3 = Ok (tt, lset kn4 s3)) as -> by done. split; [done|].
  destruct Hrm. assert (the (lset kn4 s3) = k3) as Hk4 by exact Hk3.
  split; rewrite ?Hk4; try done.
  - destruct rm_base0. by split; rewrite ?Hk4.
  - by exists c, ch.
  - unfold issued. simpl. rewrite !fmap_app. simpl. by rewrite <- app_assoc.
  - by split_and!; rewrite ?Hk4.
  - exists e, (timers s). split; [done|]. rewrite <- rm_timers0. symmetry. exact (lset_lget e).
Qed.

(** The error handler, whatever [SO_ERROR] says. *)
Lemma handleError_handler h n s fd :
  base n s → watching_in h fd s →
  match connector_handleError ew tid end_first alloc_timer s with
  | Ok (_, s') => failed h n fd s s'
  | Err f => TimerQueue.allowed f
  end.
Proof using LX.
  intros Hb Hw. pose proof Hw as (_ & _ & _ & _ & Hst & _).
  destruct (removeAndResetChannel_spec h n s fd Hb Hw) as (e & c & ch & E & Hrm).
  unfold connector_handleError. rewrite bind_unfold, connector_ok.
  rewrite bind_unfold. unfold assert_. rewrite bool_decide_eq_true_2 by done.
  rewrite bind_unfold, E. rewrite bind_unfold, getSocketError_ok. exact (retry_failed h n fd s e c ch E Hrm).
Qed.

(** A failed attempt is over: the connector is idle, its descriptor is closed
    and out of the poller, and the next attempt is due after the delay. *)
Record attempt_over (n : nat) (fd : Z) s s' : Prop := mkOver {
  ao_base : base (if connect_ (the s) then S n else n) s';
  ao_idle : idle s';
  ao_connect : connect_ (the s') = connect_ (the s);
  ao_free : Poller.channels_ (poller_ (net_loop s')) !! fd = None;
  ao_pending : pendingFunctors_ (net_loop s') = [];
  ao_deadline : connect_ (the s) = true →
    deadline s' = Some (TimerQueue.clock_ (timers s) (TimerQueue.readings_ (timers s)) + backoff n * 1000);
}.

Abbreviation functors := (dePendingFunctors (call_connector ew tid end_first alloc_chan alloc_timer) holds_nothing).

Lemma failed_over n fd s s' :
  failed false n fd s s' → pendingFunctors_ (net_loop s) = [] →
  ∃ s'', functors s' = Ok (tt, s'') ∧ attempt_over n fd s s'' ∧
    issued s'' = issued s ++ [SysSocketError fd; SysClose fd].
Proof using LX.
  intros [Hu Hd] Hp. destruct (unwatched_reset _ _ _ _ _ Hu Hp) as (s'' & E & Hb & Hk & Hf & Hp2 & Htm & Hkn).
  destruct Hu. exists s''. split; [done|]. split; [split; rewrite ?Hk; try done|].
  - by split; rewrite Hk.
  - intros Hc. rewrite <- (Hd Hc). unfold deadline. by rewrite Hk, Htm.
  - unfold issued. by rewrite Hkn.
Qed.

(** ** Properties *)

(** [startInLoop] is [connect] when the client wants the connection. *)
Lemma startInLoop_eq s :
  idle s → connect_ (the s) = true →
  startInLoop ew tid end_first alloc_chan alloc_timer s = connect ew tid end_first alloc_chan alloc_timer s.
Proof using LX.
  intros [Hst _] Hc. unfold startInLoop. rewrite bind_unfold, loop_check_ok. rewrite bind_unfold, connector_ok.
  rewrite bind_unfold. unfold assert_. by rewrite bool_decide_eq_true_2, Hc.
Qed.

Lemma startInLoop_in_progress n s :
  base n s → idle s → fresh_fd (next_fd s) s → connect_ (the s) = true → in_progress (next_errno s) = true →
  ∃ s', startInLoop ew tid end_first alloc_chan alloc_timer s = Ok (tt, s') ∧
    base n s' ∧ watching (next_fd s) s' ∧ connect_ (the s') = true ∧ timers s' = timers s ∧
    pendingFunctors_ (net_loop s') = pendingFunctors_ (net_loop s) ∧
    issued s' = issued s ++ [SysSocket; SysConnect (next_fd s) (serverAddr_ (the s))].
Proof using LX Hchan.
  intros Hb Hi Hfree Hc Hp. destruct (connect_calls s) as (kn & E & _ & _ & Ht).
  rewrite (startInLoop_eq s Hi Hc), E, Hp. set (s1 := lset (C:=Kernel) kn s) in *.
  pose proof (base_kernel n s kn Hb : base n s1) as Hb1.
  destruct (connecting_spec n s1 (next_fd s) Hb1 (proj2 Hi) Hfree)
    as (s2 & E2 & Hb2 & Hw & Hk & Htm & Hpd & Hc2 & _).
  exists s2. split_and!; try done; [by rewrite Hc2|]. rewrite <- Ht. unfold issued. by rewrite Hk.
Qed.

(** An attempt to connect, on every result of connect(2): when the connection
    is under way its new channel is registered and watched for writing; when the
    error can pass, the descriptor is closed and the next attempt is due after
    the current delay; for any other error the descriptor is closed and the
    connector stays idle with no further attempt.  No assertion fails. *)
Theorem connect_branches n s :
  base n s → idle s → fresh_fd (next_fd s) s → connect_ (the s) = true →
  match startInLoop ew tid end_first alloc_chan alloc_timer s with
  | Ok (_, s') =>
      connect_ (the s') = true ∧ pendingFunctors_ (net_loop s') = pendingFunctors_ (net_loop s) ∧
      let tried := issued s ++ [SysSocket; SysConnect (next_fd s) (serverAddr_ (the s))] in
      if in_progress (next_errno s) then
        base n s' ∧ watching (next_fd s) s' ∧ timers s' = timers s ∧ issued s' = tried
      else
        idle s' ∧ poller_ (net_loop s') = poller_ (net_loop s) ∧ issued s' = tried ++ [SysClose (next_fd s)] ∧
        if retryable (next_errno s) then
          base (S n) s' ∧
          deadline s' = Some (TimerQueue.clock_ (timers s) (TimerQueue.readings_ (timers s)) + backoff n * 1000)
        else base n s' ∧ timers s' = timers s
  | Err f => retryable (next_errno s) = true ∧ TimerQueue.allowed f
  end.
Proof using LX Hchan.
  intros Hb Hi Hfree Hc. destruct (in_progress (next_errno s)) eqn:Hp.
  { by destruct (startInLoop_in_progress n s Hb Hi Hfree Hc Hp) as (s2 & -> & ? & ? & ? & ? & ? & ?). }
  destruct (connect_calls s) as (kn & E & _ & _ & Ht). rewrite (startInLoop_eq s Hi Hc), E, Hp.
  destruct Hi as [Hst Hch].
  set (s1 := lset (C:=Kernel) kn s) in *. pose proof (base_kernel n s kn Hb : base n s1) as Hb1.
  destruct (retryable (next_errno s)).
  - pose proof (retry_spec n s1 (next_fd s) Hb1) as Hr.
    destruct (retry _ _ _ _ _ s1) as [[u s2]|f]; [|done]. destruct Hr as [[] Ek].
    change (the s1) with (the s) in *. rewrite Hc in *. split; [done|]. split; [done|].
    split; [by split; congruence|]. split; [done|]. split; [|by split; [|apply rt_deadline0]].
    rewrite <- Ht. unfold issued. rewrite Ek. simpl. by rewrite fmap_app.
  - split; [done|]. split; [done|]. split; [by split|]. split; [done|]. split; [|by split; [apply base_kernel|]].
    rewrite <- Ht. unfold issued. simpl. by rewrite fmap_app.
Qed.

(** C19: what the end of an attempt does, in [handleWrite]: a socket error starts
    the wait for the next attempt; a connection the client no longer wants is
    closed; and a connection the client waits for is never handed over: no
    callback was stored, so the call of an empty function throws. *)
Theorem handleWrite_outcome n s fd :
  base n s → watching fd s → pendingFunctors_ (net_loop s) = [] →
  match (connector_handleWrite ew tid end_first call_new alloc_timer ;; functors) s with
  | Ok (_, s') =>
      issued s' = issued s ++ [SysSocketError fd; SysClose fd] ∧
      if next_error s =? 0 then
        connect_ (the s) = false ∧ base n s' ∧ state_ (the s') = kConnected ∧ channel_ (the s') = None
      else attempt_over n fd s s'
  | Err f => if next_error s =? 0 then connect_ (the s) = true ∧ f = BadFunctionCall
             else TimerQueue.allowed f
  end.
Proof using LX.
  intros Hb Hw Hp. pose proof (handleWrite_handler false n s fd Hb Hw) as Hh. rewrite bind_unfold.
  destruct (connector_handleWrite _ _ _ _ _ s) as [[u s1]|f]; [|done]. destruct (next_error s =? 0).
  - destruct Hh as [Hc Hu]. destruct (unwatched_reset _ _ _ _ _ Hu Hp) as (s2 & E & Hb2 & Hk & _ & _ & _ & Hkn).
    destruct Hu. rewrite E, Hk. split; [|done]. unfold issued. by rewrite Hkn.
  - by destruct (failed_over n fd s s1 Hh Hp) as (s2 & -> & Ho & Hi).
Qed.

(** An error event ends the attempt whatever [SO_ERROR] says. *)
Lemma handleError_over n s fd :
  base n s → watching fd s → pendingFunctors_ (net_loop s) = [] →
  match (connector_handleError ew tid end_first alloc_timer ;; functors) s with
  | Ok (_, s') => issued s' = issued s ++ [SysSocketError fd; SysClose fd] ∧ attempt_over n fd s s'
  | Err f => TimerQueue.allowed f
  end.
Proof using LX.
  intros Hb Hw Hp. pose proof (handleError_handler false n s fd Hb Hw) as Hh. rewrite bind_unfold.
  destruct (connector_handleError _ _ _ _ s) as [[u s1]|f]; [|done].
  by destruct (failed_over n fd s s1 Hh Hp) as (s2 & -> & Ho & Hi).
Qed.

(** ** Attempts that keep failing *)

(** [m] attempts, each made when the timer of the one before expires; the
    deadlines the attempts leave. *)
Fixpoint attempts (m : nat) : M (Net X) (list (option Timestamp)) :=
  match m with
  | O => mret []
  | S m' =>
      startInLoop ew tid end_first alloc_chan alloc_timer ;;
      s ← get;
      ds ← attempts m';
      mret (deadline s :: ds)
  end.




End facts.

(** ** Concrete executions *)

Module Demo.
#[global] Instance connector_id : Lens Connector Connector := lens_id.

Definition loop0 : EventLoop :=
  set_timerQueue (set_poller EventLoop.Demo.e0 Poller.Poller_new) TimerQueue.Demo.q0.
(** A connector that has been told to connect, and a kernel with given answers. *)
Definition start_with (answers : nat → Z) : Net Connector :=
  mkNet loop0 (mkKernel answers (λ _, []) (λ _, zero_addr) []) ∅ []
    (setConnect (Connector_new 0 zero_addr) true).

Definition alloc_chan (s : Net Connector) : chan_id :=
  base.fresh (dom (Poller.chans (poller_ (net_loop s))) : gset nat).
Definition alloc_timer (s : Net Connector) : timer_ptr :=
  16 * (1 + TimerQueue.s_numCreated_ (timerQueue_ (net_loop s))).
Definition call_new (cb : new_connection_callback) (fd : Z) : M (Net Connector) unit := mret ().

Lemma alloc_chan_ok s : Poller.chans (poller_ (net_loop s)) !! alloc_chan s = None.
Proof. apply (not_elem_of_dom (D:=gset nat)). unfold alloc_chan. apply is_fresh. Qed.

(** Every attempt refused; the connection under way, then established. *)
Definition refusing : Net Connector :=
  start_with (λ k, match (k mod 3)%nat with 0%nat => 12 | 1%nat => - ECONNREFUSED | _ => 0 end).
Definition willing : Net Connector :=
  start_with (λ k, match k with 0%nat => 12 | 1%nat => - EINPROGRESS | _ => 0 end).

Definition run_start : M (Net Connector) unit :=
  startInLoop EventLoop.Demo.ew 7 0 alloc_chan alloc_timer.
Definition waiting : Net Connector :=
  match run_start willing with Ok (_, s) => s | Err _ => willing end.

Lemma base_start answers : base 7 0 (start_with answers).
Proof. split; [by split|apply TimerQueue.Demo.ok_q0|done..]. Qed.

Lemma waiting_ok : base 7 0 waiting ∧ watching 12 waiting.
Proof.
  destruct (startInLoop_in_progress EventLoop.Demo.ew 7 0 alloc_chan alloc_timer alloc_chan_ok 0 willing
    (base_start _)) as (s & E & Hb & Hw & _); [by split|by split|done|decide_closed|].
  unfold waiting, run_start. by rewrite E.
Qed.
End Demo.

Lemma connect_branches_witness :
  ∃ s', Demo.run_start Demo.willing = Ok (tt, s') ∧ base 7 0 s' ∧ watching 12 s'.
Proof.
  pose proof (connect_branches EventLoop.Demo.ew 7 0 Demo.alloc_chan Demo.alloc_timer Demo.alloc_chan_ok
    0 Demo.willing (Demo.base_start _) ltac:(by split) ltac:(by split) eq_refl) as H.
  change (startInLoop _ _ _ _ _ _) with (Demo.run_start Demo.willing) in H.
  destruct (Demo.run_start Demo.willing) as [[[] s']|f].
  - exists s'. split; [done|]. destruct H as (_ & _ & H). destruct H as (Hb & Hw & _). by split.
  - destruct H as [H _]. vm_compute in H. discriminate H.
Defined.

Lemma handleWrite_outcome_witness :
  (connector_handleWrite EventLoop.Demo.ew 7 0 Demo.call_new Demo.alloc_timer ;;
   dePendingFunctors (call_connector EventLoop.Demo.ew 7 0 Demo.alloc_chan Demo.alloc_timer) holds_nothing) Demo.waiting =
  Err BadFunctionCall.
Proof.
  destruct Demo.waiting_ok as [Hb Hw].
  pose proof (handleWrite_outcome EventLoop.Demo.ew 7 0 Demo.call_new Demo.alloc_chan Demo.alloc_timer 0
    Demo.waiting 12 Hb Hw ltac:(vm_compute; reflexivity)) as H.
  match goal with |- ?run = _ => destruct run as [[u s']|f] end.
  - destruct H as [_ H]. vm_compute in H. destruct H as [H _]. discriminate H.
  - vm_compute in H. by destruct H as [_ ->].
Defined.


(** The deadlines of five attempts, in microseconds: 0.5, 1, 2, 4 and 8 seconds
    after the clock readings 10, 30, 40, 50 and 60. *)
Example backoff_deadlines :
  match attempts EventLoop.Demo.ew 7 0 Demo.alloc_chan Demo.alloc_timer 5 Demo.refusing with
  | Ok (ds, _) => ds
  | Err _ => []
  end = Some <$> [500010; 1000030; 2000040; 4000050; 8000060].
Proof. vm_compute. reflexivity. Qed.

(** A second [start] while a retry is due: the attempt it makes is under way when
    the timer of the first expires, and [startInLoop] fails its assertion. *)
Example start_twice :
  let s := Demo.start_with (λ k, match k with 0%nat => 12 | 1%nat => - ECONNREFUSED
                                 | 3%nat => 13 | 4%nat => - EINPROGRESS | _ => 0 end) in
  let start := start EventLoop.Demo.ew 7 0 Demo.alloc_chan Demo.alloc_timer in
  bool_decide (is_Some (match start s with Ok (_, s1) => deadline s1 | Err _ => None end)) = true ∧
  (start ;; start ;; Demo.run_start) s = Err AssertFailed.
Proof. split; vm_compute; reflexivity. Qed.
