(* ===== verification/TcpClient.v ===== *)
(** * TcpClient: a client, its connector and its connection

    Models src/muduo/net/TcpClient.h and src/muduo/net/TcpClient.cpp on the loop
    of the client, with the dispatch of the function values a client's program
    creates.  [alive_] is false once the destructor has run: then the callbacks
    bound to [this] reach a dead object.  The mutex, which protects [connection_]
    from [connection()] in other threads, has no effect on the loop's thread. *)

From Stdlib Require Import String.
From S2P Require Import Prelude Printf Callbacks Channel Timestamp.
From S2P Require Poller TimerQueue Buffer Connector.
From S2P Require Import EventLoop Sockets TcpConnection Acceptor Rounds.
Import Connector (Connector).

Record TcpClient : Type := mkTcpClient {
  client_loop : nat;   (* loop_ *)
  connector_ : Connector;
  client_connectionCallback : option user_fn;
  client_messageCallback : option user_fn;
  client_writeCompleteCallback : option user_fn;
  retry_ : bool;
  client_connect : bool;   (* connect_ *)
  client_nextConnId : Z;   (* nextConnId_ *)
  connection_ : option conn_id;
  alive_ : bool;
}.

Section setters.
Context (t : TcpClient).
Definition set_connector (k : Connector) : TcpClient :=
  mkTcpClient (client_loop t) k (client_connectionCallback t) (client_messageCallback t)
    (client_writeCompleteCallback t) (retry_ t) (client_connect t) (client_nextConnId t)
    (connection_ t) (alive_ t).
Definition enableRetry : TcpClient :=
  mkTcpClient (client_loop t) (connector_ t) (client_connectionCallback t) (client_messageCallback t)
    (client_writeCompleteCallback t) true (client_connect t) (client_nextConnId t)
    (connection_ t) (alive_ t).
Definition set_client_connect (b : bool) : TcpClient :=
  mkTcpClient (client_loop t) (connector_ t) (client_connectionCallback t) (client_messageCallback t)
    (client_writeCompleteCallback t) (retry_ t) b (client_nextConnId t)
    (connection_ t) (alive_ t).
Definition set_client_nextConnId (n : Z) : TcpClient :=
  mkTcpClient (client_loop t) (connector_ t) (client_connectionCallback t) (client_messageCallback t)
    (client_writeCompleteCallback t) (retry_ t) (client_connect t) n
    (connection_ t) (alive_ t).
Definition set_connection (c : option conn_id) : TcpClient :=
  mkTcpClient (client_loop t) (connector_ t) (client_connectionCallback t) (client_messageCallback t)
    (client_writeCompleteCallback t) (retry_ t) (client_connect t) (client_nextConnId t)
    c (alive_ t).
Definition TcpClient_setConnectionCallback (cb : user_fn) : TcpClient :=
  mkTcpClient (client_loop t) (connector_ t) (Some cb) (client_messageCallback t)
    (client_writeCompleteCallback t) (retry_ t) (client_connect t) (client_nextConnId t)
    (connection_ t) (alive_ t).
Definition TcpClient_setMessageCallback (cb : user_fn) : TcpClient :=
  mkTcpClient (client_loop t) (connector_ t) (client_connectionCallback t) (Some cb)
    (client_writeCompleteCallback t) (retry_ t) (client_connect t) (client_nextConnId t)
    (connection_ t) (alive_ t).
Definition TcpClient_setWriteCompleteCallback (cb : user_fn) : TcpClient :=
  mkTcpClient (client_loop t) (connector_ t) (client_connectionCallback t) (client_messageCallback t)
    (Some cb) (retry_ t) (client_connect t) (client_nextConnId t)
    (connection_ t) (alive_ t).
Definition set_dead : TcpClient :=
  mkTcpClient (client_loop t) (connector_ t) (client_connectionCallback t) (client_messageCallback t)
    (client_writeCompleteCallback t) (retry_ t) (client_connect t) (client_nextConnId t)
    None false.
End setters.

#[export] Instance client_connector : Lens TcpClient Connector :=
  {| lget := connector_; lset := λ k t, set_connector t k |}.
#[export] Instance client_connector_laws : LensLaws TcpClient Connector.
Proof. split; [done| |done]. by intros []. Qed.

(** [TcpClient::TcpClient]: no callback is set on the connector. *)
Definition TcpClient_new (loop : nat) (serverAddr : InetAddress) : TcpClient :=
  mkTcpClient loop (Connector.Connector_new loop serverAddr) None None None false true 1 None true.

Section operations.
Context (i : inet) (ew : eventfd_model) (tid : Z) (end_first : Timestamp).
(** Addresses for new objects, and the connections the client's program keeps. *)
Context (alloc_conn : Net TcpClient → conn_id) (alloc_chan : Net TcpClient → chan_id).
Context (alloc_timer : Net TcpClient → timer_ptr).
Context (user_holds : conn_id → bool).

Abbreviation NM := (M (Net TcpClient)).

Definition client : NM TcpClient := zoom get.
Definition upd_client (f : TcpClient → TcpClient) : NM unit := zoom (modify f).

Definition owned (s : Net TcpClient) (c : conn_id) : bool :=
  user_holds c || existsb (holds c) (pendingFunctors_ (net_loop s)) ||
  bool_decide (connection_ (net_ext s) = Some c).

(** The end of a temporary [shared_ptr]. *)
Definition release (c : conn_id) : NM unit :=
  s ← get;
  if bool_decide (net_conns s !! c = None) || owned s c then mret () else TcpConnection_delete c.

(** The functors of the loop; what they hold lives until [dePendingFunctors]
    ends ([end_call]). *)
Definition call_functor (f : closure) : NM unit :=
  match f with
  | FnUser u => record (OnFunctor u)
  | FnTcpConnection_sendInLoop _ _ | FnTcpConnection_shutdownInLoop _ => call_bound ew tid f
  | FnTcpConnection_connectDestroyed c => connectDestroyed tid c
  | FnWriteCompleteCallback u c => record (OnWriteComplete u c)
  | FnTcpConnection_setCloseCallback c cb => k ← conn c; set_conn c (setCloseCallback_ k cb)
  | FnDetail_removeConnector => mret ()
  | _ => Connector.call_connector ew tid end_first alloc_chan alloc_timer f
  end.

Definition end_call : list closure → closure → NM unit := end_functor release.

Definition connect : NM unit :=
  upd_client (λ t, set_client_connect t true) ;;
  Connector.start ew tid end_first alloc_chan alloc_timer.

Definition disconnect : NM unit :=
  upd_client (λ t, set_client_connect t false) ;;
  t ← client;
  match connection_ t with Some c => shutdown ew tid c | None => mret () end.

Definition stop : NM unit :=
  upd_client (λ t, set_client_connect t false) ;;
  Connector.stop ew tid end_first.

(** The text of [snprintf(buf, sizeof buf, ":%s#%d", ...)]. *)
Definition conn_name (peerAddr : InetAddress) (n : Z) : bytes :=
  snprintf_text 32 (str ":" ++ toHostPort i peerAddr ++ str "#" ++ dec n).

Definition newConnection (sockfd : Z) : NM unit :=
  zoom (assertInLoopThread tid) ;;
  peerAddr ← zoom (getPeerAddr sockfd);
  t ← client;
  n ← lift (checked_i32 (client_nextConnId t + 1));
  upd_client (λ t, set_client_nextConnId t n) ;;
  localAddr ← zoom (getLocalAddr sockfd);
  s ← get;
  let conn := alloc_conn s in
  TcpConnection_new (client_loop t) conn (alloc_chan s) (conn_name peerAddr (client_nextConnId t))
    sockfd localAddr peerAddr ;;
  set_callbacks conn (client_connectionCallback t) (client_messageCallback t)
    (client_writeCompleteCallback t) CloseTcpClient_removeConnection ;;
  upd_client (λ t, set_connection t (Some conn)) ;;
  (match connection_ t with Some old => release old | None => mret () end) ;;
  connectEstablished tid conn.

Definition removeConnection (c : conn_id) : NM unit :=
  zoom (assertInLoopThread tid) ;;
  k ← conn c;
  t ← client;
  assert_ (client_loop t =? getLoop k)%nat ;;
  assert_ (bool_decide (connection_ t = Some c)) ;;
  upd_client (λ t, set_connection t None) ;;
  zoom (queueInLoop ew tid (FnTcpConnection_connectDestroyed c)) ;;
  if retry_ t && client_connect t
  then Connector.restart ew tid end_first alloc_chan alloc_timer
  else mret ().

(** [detail::removeConnection]. *)
Definition detail_removeConnection (c : conn_id) : NM unit :=
  zoom (queueInLoop ew tid (FnTcpConnection_connectDestroyed c)).

Definition call_close (cb : close_callback) (c : conn_id) : NM unit :=
  match cb with
  | CloseTcpClient_removeConnection =>
      t ← client; if alive_ t then removeConnection c else fail DanglingPtr
  | CloseDetail_removeConnection => detail_removeConnection c
  | _ => fail BadFunctionCall
  end.

Definition call_new (cb : new_connection_callback) (sockfd : Z) : NM unit :=
  match cb with
  | NewTcpClient_newConnection => newConnection sockfd
  | _ => fail BadFunctionCall
  end.

(** [TcpClient::~TcpClient], with the destructors of [connection_] and
    [connector_]. *)
Definition TcpClient_delete : NM unit :=
  t ← client;
  match connection_ t with
  | Some c =>
      runInLoop ew tid call_functor (FnTcpConnection_setCloseCallback c CloseDetail_removeConnection) ;;
      upd_client set_dead ;;
      release c ;;
      Connector.Connector_delete ew tid end_first
  | None =>
      Connector.stop ew tid end_first ;;
      s ← get;
      runAfter ew tid (Connector.call_timer end_first) (alloc_timer s) (of_int 1) FnDetail_removeConnector ;;
      upd_client set_dead
  end.

(** The callbacks of the channels. *)
Definition call (f : closure) : NM unit :=
  match f with
  | FnTcpConnection_handleWrite c => handleWrite ew tid c
  | FnTcpConnection_handleClose c => handleClose tid call_close c ;; release c
  | FnTcpConnection_handleError c => handleError c
  | FnConnector_handleWrite =>
      Connector.connector_handleWrite ew tid end_first call_new alloc_timer
  | FnConnector_handleError => Connector.connector_handleError ew tid end_first alloc_timer
  | _ => call_functor f
  end.

Definition call_read (receiveTime : Timestamp) (f : closure) : NM unit :=
  match f with
  | FnTcpConnection_handleRead c => TcpConnection.handleRead tid call_close c receiveTime ;; release c
  | FnEventLoop_handleRead => zoom EventLoop.handleRead
  | FnTimerQueue_handleRead =>
      @TimerQueue.handleRead end_first (Net TcpClient) timers_lens call
  | _ => call f
  end.
End operations.

(** ** Facts *)

Section facts.
Context (i : inet) (ew : eventfd_model) (tid : Z) (end_first : Timestamp).
Context (alloc_conn : Net TcpClient → conn_id) (alloc_chan : Net TcpClient → chan_id).
Context (alloc_timer : Net TcpClient → timer_ptr) (user_holds : conn_id → bool).
Context (Hconn : ∀ s, net_conns s !! alloc_conn s = None).
Context (Hchan : ∀ s, Poller.chans (poller_ (net_loop s)) !! alloc_chan s = None).
Implicit Types s : Net TcpClient.

Abbreviation close_cb := (call_close ew tid end_first alloc_chan alloc_timer).
Abbreviation functor := (call_functor ew tid end_first alloc_chan alloc_timer).
Abbreviation fcall := (call i ew tid end_first alloc_conn alloc_chan alloc_timer user_holds).
Abbreviation fcall_read := (call_read i ew tid end_first alloc_conn alloc_chan alloc_timer user_holds).

Definition with_ext (t : TcpClient) s : Net TcpClient :=
  mkNet (net_loop s) (net_kernel s) (net_conns s) (net_events s) t.

Lemma client_ok s : client s = Ok (net_ext s, s).
Proof. by destruct s. Qed.

Lemma upd_client_ok f s : upd_client f s = Ok (tt, with_ext (f (net_ext s)) s).
Proof. done. Qed.

(** The connection a client serves. *)
Record current (s : Net TcpClient) (c : conn_id) (k : TcpConnection) (ch : channel) (i : nat)
    (p : Poller.pollfd) : Prop := mkCurrent {
  cur_est : est c (net_loop s) (net_conns s) k ch i p;
  cur_tid : threadId_ (net_loop s) = tid;
  cur_alive : alive_ (net_ext s) = true;
  cur_loop : client_loop (net_ext s) = this_ (net_loop s);
  cur_connection : connection_ (net_ext s) = Some c;
  cur_close : closeCallback_ k = Some CloseTcpClient_removeConnection;
}.

(** A client without a connection, and a descriptor its loop does not watch. *)
Record can_connect (s : Net TcpClient) (fd : Z) (u m : user_fn) : Prop := mkCanConnect {
  cc_poller : Poller.inv (poller_ (net_loop s));
  cc_tid : threadId_ (net_loop s) = tid;
  cc_alive : alive_ (net_ext s) = true;
  cc_loop : client_loop (net_ext s) = this_ (net_loop s);
  cc_none : connection_ (net_ext s) = None;
  cc_connection : client_connectionCallback (net_ext s) = Some u;
  cc_message : client_messageCallback (net_ext s) = Some m;
  cc_id : 0 ≤ client_nextConnId (net_ext s) < 2 ^ 31 - 1;
  cc_free : Poller.channels_ (poller_ (net_loop s)) !! fd = None;
  cc_fd : 0 ≤ fd;
  cc_slots : zlen (Poller.pollfds_ (poller_ (net_loop s))) + 1 < 2 ^ 31;
}.

Lemma newConnection_current s fd u m :
  can_connect s fd u m →
  ∃ s' c k ch j p,
    newConnection i tid alloc_conn alloc_chan user_holds fd s = Ok (tt, s') ∧
    current s' c k ch j p ∧ state_ k = kConnected ∧ socket_ k = fd ∧
    net_conns s !! c = None ∧ Poller.chans (poller_ (net_loop s)) !! channel_ k = None ∧
    connectionCallback_ k = Some u ∧
    client_nextConnId (net_ext s') = client_nextConnId (net_ext s) + 1 ∧
    announced s' = announced s ++ [OnConnection u c] ∧
    (retry_ (net_ext s') = retry_ (net_ext s) ∧ client_connect (net_ext s') = client_connect (net_ext s)) ∧
    pendingFunctors_ (net_loop s') = pendingFunctors_ (net_loop s).
Proof using Hconn Hchan.
  intros []. set (n0 := client_nextConnId (net_ext s)) in *.
  set (pa := if answer (net_kernel s) (calls (net_kernel s)) <? 0 then zero_addr
             else answer_addr (net_kernel s) (calls (net_kernel s))).
  set (n1 := logged (net_kernel s) (SysGetpeername fd) (answer (net_kernel s) (calls (net_kernel s)))).
  set (la := if answer n1 (calls n1) <? 0 then zero_addr else answer_addr n1 (calls n1)).
  set (n2 := logged n1 (SysGetsockname fd) (answer n1 (calls n1))).
  set (t1 := set_client_nextConnId (net_ext s) (n0 + 1)).
  set (s2 := mkNet (net_loop s) n2 (net_conns s) (net_events s) t1).
  set (c := alloc_conn s2). set (chid := alloc_chan s2). set (nm := conn_name i pa n0).
  set (k0 := conn_made (this_ (net_loop s)) nm fd chid la pa).
  set (k := with_callbacks (Some u) (Some m) (client_writeCompleteCallback (net_ext s))
              CloseTcpClient_removeConnection k0).
  set (s3 := with_ext (set_connection t1 (Some c)) (upd_conn c k
               (upd_conn c k0 (put_chan chid (conn_new_channel c (this_ (net_loop s)) fd) s2)))).
  assert (created c (net_loop s3) (net_conns s3) k) as Hcr.
  { destruct Buffer_new_inv. split; try done; try apply lookup_insert_eq. }
  destruct (connectEstablished_created tid c s3 k u) as (q & ch & j & pf & E & He & _);
    [apply Poller.inv_set_chan_new; [done|apply (Hchan s2)]|done|done|].
  eexists _, c, (setState k kConnected), ch, j, pf. split; [|split].
  - unfold newConnection. mstep_by (apply loop_check_ok).
    mstep_by (reflexivity). mstep_by (apply client_ok). change (net_ext _) with (net_ext s). fold n0.
    mstep_by (unfold lift; rewrite checked_i32_ok by lia; reflexivity).
    mstep_by (apply upd_client_ok). mstep_by (reflexivity). mstep. rewrite cc_loop0.
    mstep_by (apply (TcpConnection_new_ok c s2); [apply (Hconn s2)|apply (Hchan s2)]).
    rewrite cc_connection0, cc_message0.
    mstep_by (apply set_callbacks_ok, lookup_insert_eq). mstep_by (apply upd_client_ok).
    rewrite cc_none0. mstep. exact E.
  - by split.
  - split_and!; try done; [apply (Hconn s2)|apply (Hchan s2)|].
    unfold announced. simpl. by rewrite filter_app.
Qed.

(** [handleClose] of the connection of a client that does not reconnect: the
    destruction is queued. *)
Lemma client_handleClose_spec s c k ch j p :
  current s c k ch j p → retry_ (net_ext s) && client_connect (net_ext s) = false →
  ∃ q e p', let s1 := lset (set_poller (net_loop s) q) s in
    let s' := with_ext (set_connection (net_ext s) None) (lset e s1) in
    handleClose tid close_cb c s = Ok (tt, s') ∧ same_loop (net_loop s1) e ∧
    pendingFunctors_ e = pendingFunctors_ (net_loop s) ++ [FnTcpConnection_connectDestroyed c] ∧
    est c (net_loop s') (net_conns s') k (set_events ch (mask_update DisableAll (events_ ch))) j p' ∧
    frame c s s'.
Proof.
  intros [He Ht Ha Hl Hc Hcl] Hr. pose proof He as [].
  destruct (handleClose_eq tid close_cb c s k ch j p _ He Hcl) as (q & p' & E & He1 & Hfr & _).
  set (s1 := lset (set_poller (net_loop s) q) s) in *.
  set (s2 := with_ext (set_connection (net_ext s) None) s1).
  destruct (queueInLoop_frame ew tid (FnTcpConnection_connectDestroyed c) (net_loop s2)) as (e & Eq & Hsame & Hpd).
  exists q, e, p'. cbv zeta. split; [|split; [done|split; [done|split; [|]]]].
  - rewrite E. unfold call_close. mstep_by (apply client_ok). change (net_ext s1) with (net_ext s). rewrite Ha.
    unfold removeConnection. mstep_by (apply loop_check_ok). mstep_by (by apply conn_ok).
    mstep_by (apply client_ok). change (net_ext s1) with (net_ext s).
    mstep_by (unfold assert_; rewrite (proj2 (Nat.eqb_eq _ _)) by congruence; reflexivity).
    mstep_by (unfold assert_; rewrite bool_decide_eq_true_2 by done; reflexivity).
    mstep_by (apply upd_client_ok). change (net_ext s1) with (net_ext s). fold s2.
    mstep_by (by apply (zoom_ok (S:=Net TcpClient) (C:=EventLoop))). by rewrite Hr.
  - by eapply est_same_loop.
  - eapply frame_trans; [exact Hfr|]. by apply (frame_same_loop c s1).
Qed.

Lemma functor_calls_client : calls_client functor.
Proof using Type.
  intros f s Hf. apply harmless_inv in Hf as [[u ->]|(u & d & ->)]; [by exists (OnFunctor u)|].
  by exists (OnWriteComplete u d).
Qed.

(** Functors of the client that hold no other connection. *)
Definition own (c : conn_id) (f : closure) : Prop := harmless f ∧ ∀ d, held f = Some d → d = c.

(** The functor of [connectDestroyed], after others of the client, and the end of
    the last reference. *)
Lemma destroy_functor l s c k ch j p :
  est c (net_loop s) (net_conns s) k ch j p → eventHandling_ ch = false →
  user_holds c = false → connection_ (net_ext s) = None →
  pendingFunctors_ (net_loop s) = l ++ [FnTcpConnection_connectDestroyed c] → Forall (own c) l →
  ∃ u s', dePendingFunctors functor (end_call user_holds) s = Ok (tt, s') ∧
    net_conns s' = delete c (net_conns s) ∧ Poller.inv (poller_ (net_loop s')) ∧
    Poller.channels_ (poller_ (net_loop s')) = delete (socket_ k) (Poller.channels_ (poller_ (net_loop s))) ∧
    Poller.chans (poller_ (net_loop s')) !! channel_ k = None ∧
    pendingFunctors_ (net_loop s') = [] ∧ net_ext s' = net_ext s ∧
    announced s' = announced s ++ [OnConnection u c] ∧
    (trace (net_kernel s')).*1 = (trace (net_kernel s)).*1 ++ [SysClose (socket_ k)].
Proof.
  intros He Hh Hu Hc Hp Hl. apply Forall_and in Hl as [Hl Hown].
  destruct (est_cbs _ _ _ _ _ _ _ He) as ([u Hcu] & _).
  set (e1 := set_pending (set_calling (net_loop s) true) []). set (s0 := lset e1 s).
  destruct (harmless_functors functor l s0 functor_calls_client Hl) as (evs & Hevs & E0).
  set (s1 := add_events evs s0) in *.
  assert (est c (net_loop s1) (net_conns s1) k ch j p) as He1 by (by apply (est_same_loop c (net_loop s))).
  destruct (connectDestroyed_spec tid c s1 k ch j p u He1 Hcu)
    as (q & ch' & E & Hq & Hm & _ & Hch & _ & Hfd & Hev & _).
  set (s2 := mkNet (set_poller (net_loop s1) q) _ _ _ _) in E.
  assert (net_conns s2 !! c = Some (setState k kDisconnected)) as Hk2 by apply lookup_insert_eq.
  set (s3 := lset (set_calling (net_loop s2) false) s2).
  pose proof (TcpConnection_delete_ok c s3 _ ch' Hk2 Hch ltac:(congruence)) as Ed. cbv zeta in Ed.
  eexists u, _. split_and!.
  - unfold dePendingFunctors. rewrite bind_unfold.
    assert (zoom take_pending s = Ok (l ++ [FnTcpConnection_connectDestroyed c], s0)) as ->.
    { unfold zoom, take_pending. simpl. by rewrite Hp. }
    mstep_by (rewrite for_each_app; mstep_by (exact E0); cbn [for_each call_functor]; mstep_by (exact E); reflexivity).
    fold s2. mstep_by reflexivity. change (mkNet _ _ _ _ _) with s3. apply (destroy_all_shared _ c); [done..|].
    unfold release. mstep. rewrite lookup_insert_eq. unfold owned. change (net_ext s3) with (net_ext s).
    rewrite Hu, Hc. exact Ed.
  - simpl. apply delete_insert_eq.
  - apply (Poller.inv_delete_chan q (channel_ k) ch'); [done..|].
    rewrite Hm, Hfd. apply lookup_delete_eq.
  - simpl. by rewrite Hm.
  - apply lookup_delete_eq.
  - done.
  - done.
  - pose proof (announced_add evs s0 Hevs) as Ha. unfold announced in *. simpl in *. by rewrite filter_app, Ha.
  - simpl. by rewrite fmap_app.
Qed.

(** ** Properties *)

(** C15: when the peer hangs up, the connection of a client that does not
    reconnect ends cleanly, although no one else holds it: the handler of the
    channel completes, whatever else the poller reports with the hang-up, and
    the functor it queued, run after the client's own that were pending, destroys
    the connection, takes its descriptor out of the poller and closes it.  (The
    server's connection dies in its handler.) *)
Theorem client_hangup_clean s c k ch j p t :
  current s c k ch j p → retry_ (net_ext s) && client_connect (net_ext s) = false →
  user_holds c = false → Forall (own c) (pendingFunctors_ (net_loop s)) →
  wants_error (revents_ ch) = false → wants_close (revents_ ch) = true →
  ∃ u s', (EventLoop.handleEvent fcall fcall_read (channel_ k) t ;; dePendingFunctors functor (end_call user_holds)) s = Ok (tt, s') ∧
    net_conns s' !! c = None ∧ connection_ (net_ext s') = None ∧
    Poller.inv (poller_ (net_loop s')) ∧
    Poller.channels_ (poller_ (net_loop s')) !! socket_ k = None ∧
    Poller.chans (poller_ (net_loop s')) !! channel_ k = None ∧
    pendingFunctors_ (net_loop s') = [] ∧
    announced s' = announced s ++ [OnConnection u c] ∧
    (trace (net_kernel s')).*1 = (trace (net_kernel s)).*1 ++ [SysClose (socket_ k)].
Proof.
  intros Hcur Hretry Hu Hp Herr Hcl. pose proof Hcur as [He].
  set (ch1 := set_eventHandling ch true). set (s1 := put_chan (channel_ k) ch1 s).
  assert (est c (net_loop s1) (net_conns s1) k ch1 j p) as He1 by by apply est_set_handling.
  pose proof He1 as [_ [Hch1 _] _ _ _ _ _ Hhand _ _ _ _].
  assert (current s1 c k ch1 j p) as Hcur1 by by destruct Hcur.
  destruct (client_handleClose_spec s1 c k ch1 j p Hcur1 Hretry) as (q & e & p2 & E2 & Hl & Hpd & He2 & Hfr).
  set (ch2 := set_events ch1 (mask_update DisableAll (events_ ch1))) in *.
  set (s2 := with_ext _ _) in *.
  assert (release user_holds c s2 = Ok (tt, s2)) as Er.
  { unfold release. mstep. unfold owned. simpl. rewrite Hpd, existsb_app. simpl. unfold holds at 2. simpl.
    by rewrite Nat.eqb_refl, !orb_true_r. }
  pose proof He2 as [_ [Hch2 _] _ _ _ _ _ Hhand2 _ _ _ _].
  assert (fire fcall wants_write writeCallback_ (channel_ k) s2 = Ok (tt, s2)) as Ew.
  { destruct (wants_write (revents_ ch2)) eqn:Hw; [|by apply (fire_none _ _ _ _ s2 ch2)].
    etrans; [apply (fire_one _ _ _ _ s2 ch2 (FnTcpConnection_handleWrite c) Hch2 Hw); by destruct Hhand2 as (_ & ? & _)|].
    unfold call. destruct (handleWrite_spec ew tid c s2 k ch2 j p2 He2) as (s' & k' & ch' & p' & E & _ & _ & Hidle & _).
    destruct Hidle as (-> & _); [by apply isWriting_none|done]. }
  set (s3 := put_chan (channel_ k) (set_eventHandling ch2 false) s2).
  assert (EventLoop.handleEvent fcall fcall_read (channel_ k) t s = Ok (tt, s3)) as E3.
  { unfold EventLoop.handleEvent. mstep_by (apply (set_handling_ok s _ ch); by destruct (est_reg _ _ _ _ _ _ _ He)).
    mstep_by (by apply (fire_none _ _ _ _ s1 ch1)).
    mstep_by (etrans; [apply (fire_one _ _ _ _ s1 ch1 (FnTcpConnection_handleClose c) Hch1 Hcl); by destruct Hhand as (_ & _ & ? & _)|];
      unfold call; mstep_by (exact E2); exact Er).
    mstep_by (by apply (chan_ok s2 _ ch2)). rewrite (wants_close_no_read _ Hcl).
    mstep_by (exact Ew). by apply (set_handling_ok s2 _ ch2). }
  destruct (destroy_functor (pendingFunctors_ (net_loop s)) s3 c k (set_eventHandling ch2 false) j p2)
    as (u & s4 & E4 & Hc4 & Hi4 & Hm4 & Hch4 & Hp4 & Hx4 & Ha4 & Ht4);
    [by apply est_set_handling|done..|].
  exists u, s4. split_and!; try done.
  - by mstep_by (exact E3).
  - rewrite Hc4. apply lookup_delete_eq.
  - by rewrite Hx4.
  - rewrite Hm4. apply lookup_delete_eq.
Qed.

(** The destructor of a client whose connection no one else holds destroys
    the connection without [connectDestroyed]: its channel stays in the poller's
    map and in its list of descriptors, and the next poll that finds the
    descriptor ready reaches the dead channel. *)
Theorem destructor_leaves_channel b s c k ch j p :
  current s c k ch j p → eventHandling_ ch = false → user_holds c = false →
  existsb (holds c) (pendingFunctors_ (net_loop s)) = false →
  TimerQueue.ok ∅ b (timerQueue_ (net_loop s)) → Connector.channel_ (connector_ (net_ext s)) = None →
  ∃ s', TcpClient_delete ew tid end_first alloc_chan alloc_timer user_holds s = Ok (tt, s') ∧
    net_conns s' !! c = None ∧ alive_ (net_ext s') = false ∧ announced s' = announced s ∧
    (trace (net_kernel s')).*1 = (trace (net_kernel s)).*1 ++ [SysClose (socket_ k)] ∧
    Poller.chans (poller_ (net_loop s')) !! channel_ k = None ∧
    Poller.channels_ (poller_ (net_loop s')) !! socket_ k = Some (channel_ k) ∧
    ∀ r, (∀ fd, fd ≠ socket_ k → r fd = 0) → 0 < Poller.pending r p →
      Poller.poll (Some r) [] (poller_ (net_loop s')) = Err DanglingPtr.
Proof.
  intros [He Ht Ha Hl Hc Hcl] Hh Hu Hp Hq Hch. pose proof He as [Hk (Hchk & Hm & _ & Hslot & Hfd & Hfd0) _ _ _ Hsock _ _ _ _ _ _].
  set (k1 := setCloseCallback_ k CloseDetail_removeConnection). set (s1 := upd_conn c k1 s).
  set (s2 := with_ext (set_dead (net_ext s1)) s1).
  assert (TcpConnection_delete c s2 = _) as Ed
    by (apply (TcpConnection_delete_ok c s2 k1 ch); [apply lookup_insert_eq|done..]).
  cbv zeta in Ed. set (s3 := mkNet _ _ _ _ _) in Ed.
  destruct (Connector.Connector_delete_spec (LX:=client_connector_laws) ew tid end_first b s3 Ht Hq Hch)
    as (q & Ec & _ & _).
  exists (lset (set_timerQueue (net_loop s3) q) s3). split.
  - unfold TcpClient_delete. mstep_by (apply client_ok). rewrite Hc.
    mstep_by (rewrite runInLoop_own by done; unfold call_functor; mstep_by (by apply conn_ok); reflexivity).
    fold k1. fold s1. mstep_by (apply upd_client_ok). fold s2.
    mstep_by (unfold release; mstep; rewrite lookup_insert_eq; simpl; unfold owned; simpl; rewrite Hu, Hp; simpl; exact Ed).
    exact Ec.
  - split_and!; try done.
    + simpl. apply lookup_delete_eq.
    + simpl. by rewrite fmap_app.
    + apply lookup_delete_eq.
    + simpl. congruence.
    + intros r Hr Hpos.
      assert (Poller.fd p = socket_ k) as Hfp by (rewrite (Poller.pending_fd r) by done; congruence).
      apply (Poller.poll_dangling _ (channel_ k) p j); try done; rewrite ?Hfp; [simpl; congruence|apply lookup_delete_eq|done].
Qed.
End facts.

(** ** Witnesses *)

Module Demo.
Definition alloc_conn (s : Net TcpClient) : conn_id := base.fresh (dom (net_conns s) : gset nat).
Definition alloc_chan (s : Net TcpClient) : chan_id := base.fresh (dom (Poller.chans (poller_ (net_loop s))) : gset nat).
Definition alloc_timer (s : Net TcpClient) : timer_ptr :=
  16 * (1 + TimerQueue.s_numCreated_ (timerQueue_ (net_loop s))).
Definition i : inet := Sockets.Dotted.libc.
Definition nobody (c : conn_id) : bool := false.

Definition client0 : TcpClient :=
  mkTcpClient 0 (Connector.setState (Connector.Connector_new 0 zero_addr) Connector.kConnected)
    (Some 1%N) (Some 2%N) None false true 1 None true.
Definition s0 : Net TcpClient :=
  mkNet Connector.Demo.loop0 (net_kernel TcpConnection.Demo.s0) ∅ [] client0.
(** With its connection on descriptor 12. *)
Definition connected : M (Net TcpClient) unit := newConnection i 7 alloc_conn alloc_chan nobody 12.
Definition s1 : Net TcpClient := match connected s0 with Ok (_, s) => s | Err _ => s0 end.
(** The poller reported a hang-up. *)
Definition hung (s : Net TcpClient) : Net TcpClient :=
  match Poller.chans (poller_ (net_loop s)) !! 0%nat with
  | Some ch => put_chan 0%nat (set_revents ch POLLHUP) s
  | None => s
  end.
(** A write-complete callback is still pending. *)
Definition busy (s : Net TcpClient) : Net TcpClient :=
  lset (set_pending (net_loop s) [FnWriteCompleteCallback 3 0]) s.

Lemma new_conn_ok s : net_conns s !! alloc_conn s = None.
Proof. apply (not_elem_of_dom (D:=gset nat)). unfold alloc_conn. apply is_fresh. Qed.
Lemma client_chan_ok s : Poller.chans (poller_ (net_loop s)) !! alloc_chan s = None.
Proof. apply (not_elem_of_dom (D:=gset nat)). unfold alloc_chan. apply is_fresh. Qed.

Lemma can_connect_s0 : can_connect 7 s0 12 1%N 2%N.
Proof. split; done. Qed.

Lemma current_s1 : ∃ k ch j p, current 7 s1 0 k ch j p ∧ socket_ k = 12 ∧ channel_ k = 0%nat.
Proof.
  destruct (newConnection_current i 7 alloc_conn alloc_chan nobody new_conn_ok client_chan_ok
    s0 12 1%N 2%N can_connect_s0) as (s' & c & k & ch & j & p & E & Hcur & _ & Hs & _).
  assert (s' = s1) as Es.
  { unfold s1, connected. rewrite E. done. }
  assert (connection_ (net_ext s') = Some 0%nat) as H0 by (rewrite Es; vm_compute; reflexivity).
  assert (c = 0%nat) as -> by (pose proof (cur_connection _ _ _ _ _ _ _ Hcur); congruence).
  assert (channel_ <$> net_conns s' !! 0%nat = Some 0%nat) as H1 by (rewrite Es; vm_compute; reflexivity).
  rewrite (est_conn _ _ _ _ _ _ _ (cur_est _ _ _ _ _ _ _ Hcur)) in H1. injection H1 as H1.
  exists k, ch, j, p. by rewrite <-Es.
Qed.
End Demo.

(** The channel of the connection when the poller has reported a hang-up. *)
Lemma hung_current s k ch j p :
  current 7 s 0 k ch j p → channel_ k = 0%nat →
  current 7 (Demo.hung s) 0 k (set_revents ch POLLHUP) j p.
Proof.
  intros [He ? ? ? ? ?] Hc. pose proof (est_reg _ _ _ _ _ _ _ He) as (Hch & _). rewrite Hc in Hch.
  unfold Demo.hung. rewrite Hch. destruct He. split; try done. split; try done.
  - rewrite Hc in *. pose proof (Poller.registered_set_chan (poller_ (net_loop s)) 0 ch (set_revents ch POLLHUP)
      0 ch j p Hch eq_refl eq_refl est_reg) as Hr. rewrite decide_True in Hr by done. exact Hr.
  - by apply (Poller.inv_set_chan _ _ ch).
Qed.

Lemma busy_current s k ch j p : current 7 s 0 k ch j p → current 7 (Demo.busy s) 0 k ch j p.
Proof. intros []. split; try done. by apply (est_same_loop 0%nat (net_loop s)). Qed.

Lemma client_hangup_clean_witness :
  let s := Demo.busy (Demo.hung Demo.s1) in
  ∃ u s', (EventLoop.handleEvent
             (call Demo.i EventLoop.Demo.ew 7 0 Demo.alloc_conn Demo.alloc_chan Demo.alloc_timer Demo.nobody)
             (call_read Demo.i EventLoop.Demo.ew 7 0 Demo.alloc_conn Demo.alloc_chan Demo.alloc_timer Demo.nobody)
             0%nat 0 ;;
           dePendingFunctors (call_functor EventLoop.Demo.ew 7 0 Demo.alloc_chan Demo.alloc_timer)
             (end_call Demo.nobody)) s =
          Ok (tt, s') ∧ net_conns s' !! 0%nat = None ∧ announced s' = announced s ++ [OnConnection u 0%nat].
Proof.
  destruct Demo.current_s1 as (k & ch & j & p & Hcur & Hs & Hc).
  destruct (client_hangup_clean Demo.i EventLoop.Demo.ew 7 0 Demo.alloc_conn Demo.alloc_chan Demo.alloc_timer
    Demo.nobody (Demo.busy (Demo.hung Demo.s1)) 0 k (set_revents ch POLLHUP) j p 0) as (u & s' & E & Hk & _ & _ & _ & _ & _ & Ha & _).
  - by apply busy_current, hung_current.
  - vm_compute. reflexivity.
  - reflexivity.
  - change (Forall (own 0%nat) [FnWriteCompleteCallback 3 0]). apply Forall_singleton. split; [done|].
    intros d Hd. by injection Hd.
  - reflexivity.
  - reflexivity.
  - rewrite Hc in E. exists u, s'. split; [exact E|]. split; [exact Hk|exact Ha].
Defined.

Lemma destructor_leaves_channel_witness :
  ∃ s', TcpClient_delete EventLoop.Demo.ew 7 0 Demo.alloc_chan Demo.alloc_timer Demo.nobody Demo.s1 = Ok (tt, s') ∧
    Poller.channels_ (poller_ (net_loop s')) !! 12 = Some 0%nat ∧
    Poller.chans (poller_ (net_loop s')) !! 0%nat = None.
Proof.
  destruct Demo.current_s1 as (k & ch & j & p & Hcur & Hs & Hc).
  destruct (destructor_leaves_channel EventLoop.Demo.ew 7 0 Demo.alloc_chan Demo.alloc_timer Demo.nobody
    None Demo.s1 0 k ch j p Hcur) as (s' & E & _ & _ & _ & _ & Hd & Hm & _).
  - pose proof (est_reg _ _ _ _ _ _ _ (cur_est _ _ _ _ _ _ _ Hcur)) as (Hch & _). rewrite Hc in Hch.
    assert (eventHandling_ <$> Poller.chans (poller_ (net_loop Demo.s1)) !! 0%nat = Some false) as H0
      by (vm_compute; reflexivity).
    rewrite Hch in H0. injection H0 as H0. exact H0.
  - reflexivity.
  - vm_compute. reflexivity.
  - apply TimerQueue.Demo.ok_q0.
  - vm_compute. reflexivity.
  - exists s'. rewrite Hs, Hc in Hm. rewrite Hc in Hd. done.
Defined.
