(* ===== verification/Sync.v ===== *)
(** * Sync: threads, mutexes and condition variables

    Models the code that runs in several threads: the programs of the threads
    are values of [prog], written from the functions of the source statement by
    statement; an execution interleaves their steps in any order, and a waiting
    thread may wake up spuriously.  Used by CountDownLatch.v, LogThread.v,
    Threads.v, Mutex.v and EventLoopThread.v; the mutex and condition classes of the
    source are in CountDownLatch.v (src/muduo/log/base/) and Threads.v
    (src/muduo/thread/), the pthread calls they make are here.

    Threads are numbered; a mutex is the number of the thread that holds it, a
    condition variable the set of threads asleep on it.  pthread calls do what
    POSIX says: [pthread_mutex_lock] blocks while the mutex is held (a thread
    that locks its own mutex again blocks for ever), [pthread_mutex_unlock] by
    another thread is undefined ([NotOwner]), [pthread_cond_wait] gives up the
    mutex and goes to sleep in one step and needs the mutex to go on,
    [pthread_cond_signal] wakes one thread of those asleep (the one chosen is
    an argument), [pthread_cond_broadcast] all of them. *)

From S2P Require Import Prelude.

(** ** Programs *)

Inductive outcome (S : Type) : Type :=
  | Blocked
  | Go (s : S)
  | Fault (f : fault).
Arguments Blocked {S}.
Arguments Go {S} s.
Arguments Fault {S} f.

Definition outcome_lens {S C} `{Lens S C} (a : C → outcome C) (s : S) : outcome S :=
  match a (lget s) with Blocked => Blocked | Go c => Go (lset c s) | Fault f => Fault f end.

(** What is left of a thread: a step on the shared state, a branch and a loop
    on its value, each with what comes after. *)
Inductive prog (S : Type) : Type :=
  | Ret
  | Act (a : S → outcome S) (k : prog S)
  | If (b : S → bool) (p q k : prog S)
  | While (b : S → bool) (p k : prog S).
Arguments Ret {S}.
Arguments Act {S} a k.
Arguments If {S} b p q k.
Arguments While {S} b p k.

Fixpoint then_ {S} (p r : prog S) : prog S :=
  match p with
  | Ret => r
  | Act a k => Act a (then_ k r)
  | If b p q k => If b p q (then_ k r)
  | While b p k => While b p (then_ k r)
  end.

Declare Scope prog_scope.
Delimit Scope prog_scope with prog.
Bind Scope prog_scope with prog.
Notation "p >> q" := (then_ p q) (at level 60, right associativity) : prog_scope.

Definition act {S} (a : S → outcome S) : prog S := Act a Ret.
Definition do_ {S} (f : S → S) : prog S := act (λ s, Go (f s)).
Definition assert_that {S} (b : S → bool) : prog S :=
  act (λ s, if b s then Go s else Fault AssertFailed).
Definition if_ {S} (b : S → bool) (p : prog S) : prog S := If b p Ret Ret.
Definition if_else {S} (b : S → bool) (p q : prog S) : prog S := If b p q Ret.
Definition while_ {S} (b : S → bool) (p : prog S) : prog S := While b p Ret.
(** Blocks until [b]. *)
Definition until {S} (b : S → bool) : prog S := act (λ s, if b s then Go s else Blocked).

(** One step of a thread: [None] when it is blocked or has ended. *)
Definition next {S} (p : prog S) (s : S) : option (res (prog S * S)) :=
  match p with
  | Ret => None
  | Act a k =>
      match a s with
      | Blocked => None
      | Go s' => Some (Ok (k, s'))
      | Fault f => Some (Err f)
      end
  | If b p q k => Some (Ok (then_ (if b s then p else q) k, s))
  | While b p k => Some (Ok (if b s then then_ p (While b p k) else k, s))
  end.

Definition is_ret {S} (p : prog S) : bool := match p with Ret => true | _ => false end.

(** ** Executions *)

(** The threads of a program and what they share. *)
Record machine (S : Type) : Type := mkMachine {
  threads : list (prog S);
  shared : S;
}.
Arguments mkMachine {S} _ _.
Arguments threads {S} _.
Arguments shared {S} _.

Inductive label : Set :=
  | Run (i : nat)        (* a step of thread [i] *)
  | Spurious (i : nat).  (* a spurious wake-up of thread [i] *)

Definition is_spurious (l : label) : bool := match l with Spurious _ => true | Run _ => false end.
Definition spurious (ls : list label) : nat := length (filter is_spurious ls).

Section executions.
Context {S : Type} (wake_up : nat → S → S).
Implicit Types c : machine S.

Definition step (l : label) c : option (res (machine S)) :=
  match l with
  | Run i =>
      match threads c !! i ≫= λ p, next p (shared c) with
      | Some (Ok (p', s')) => Some (Ok (mkMachine (<[i := p']> (threads c)) s'))
      | Some (Err f) => Some (Err f)
      | None => None
      end
  | Spurious i => Some (Ok (mkMachine (threads c) (wake_up i (shared c))))
  end.

Inductive run : list label → machine S → machine S → Prop :=
  | run_nil c : run [] c c
  | run_snoc ls l c c' c'' : run ls c c' → step l c' = Some (Ok c'') → run (ls ++ [l]) c c''.

(** The run of a schedule, for concrete executions. *)
Fixpoint schedule (ls : list label) c : option (res (machine S)) :=
  match ls with
  | [] => Some (Ok c)
  | l :: ls' =>
      match step l c with
      | Some (Ok c') => schedule ls' c'
      | o => o
      end
  end.

Definition can_step c : Prop := ∃ i c', step (Run i) c = Some (Ok c').
Definition no_fault c : Prop := ∀ l f, step l c ≠ Some (Err f).

Lemma run_trans ls ls' c c' c'' : run ls c c' → run ls' c' c'' → run (ls ++ ls') c c''.
Proof.
  intros H. induction 1 as [|ls' l c' c2 c3 _ IH Hs]; [by rewrite app_nil_r|].
  rewrite app_assoc. eapply run_snoc; eauto.
Qed.

Lemma schedule_run ls c c' : schedule ls c = Some (Ok c') → run ls c c'.
Proof.
  revert c. induction ls as [|l ls IH]; intros c; simpl; [intros [= ->]; constructor|].
  destruct (step l c) as [[c1|f]|] eqn:E; [|done..]. intros H.
  apply (run_trans [l] ls c c1 c'); [|by apply IH].
  apply (run_snoc [] l c c c1); [constructor|done].
Qed.

(** The machine at the end of a schedule that has no fault. *)
Definition final ls c : machine S :=
  match schedule ls c with Some (Ok c') => c' | _ => c end.
Definition completes ls c : bool :=
  match schedule ls c with Some (Ok _) => true | _ => false end.

Lemma run_final ls c : completes ls c = true → run ls c (final ls c).
Proof.
  unfold completes, final. destruct (schedule ls c) as [[c'|]|] eqn:E; [|done..].
  intros _. by apply schedule_run.
Qed.

(** An invariant of the steps holds of every machine reached. *)
Lemma run_invariant (I : machine S → Prop) ls c c' :
  (∀ l c c', I c → step l c = Some (Ok c') → I c') → I c → run ls c c' → I c'.
Proof. intros Hstep Hi. induction 1; eauto. Qed.

(** A measure that every step of a thread decreases, and a spurious wake-up
    increases by at most [w], bounds the executions: [I c m] says that [c] is
    reached and has measure [m]. *)
Lemma run_bounded (I : machine S → nat → Prop) (w : nat) ls c c' m :
  (∀ i c c' m, I c m → step (Run i) c = Some (Ok c') → ∃ m', I c' m' ∧ (m' < m)%nat) →
  (∀ i c c' m, I c m → step (Spurious i) c = Some (Ok c') → ∃ m', I c' m' ∧ (m' <= m + w)%nat) →
  I c m → run ls c c' → ∃ m', I c' m' ∧ (length ls + m' <= m + (w + 1) * spurious ls)%nat.
Proof.
  intros Hr Hw Hc. induction 1 as [|ls l c c1 c2 _ IH Hs]; [exists m; simpl; split; [done|lia]|].
  destruct (IH Hc) as (m1 & H1 & Hb). unfold spurious in *. rewrite filter_app, !length_app. simpl.
  destruct l as [i|i]; simpl.
  - destruct (Hr _ _ _ _ H1 Hs) as (m2 & H2 & Hlt). exists m2. split; [done|lia].
  - destruct (Hw _ _ _ _ H1 Hs) as (m2 & H2 & Hle). exists m2. split; [done|lia].
Qed.

Lemma step_run_inv i c c' :
  step (Run i) c = Some (Ok c') →
  ∃ p p' s', threads c !! i = Some p ∧ next p (shared c) = Some (Ok (p', s')) ∧
    c' = mkMachine (<[i := p']> (threads c)) s'.
Proof.
  simpl. destruct (threads c !! i) as [p|] eqn:Ei; [|done]. simpl.
  destruct (next p (shared c)) as [[[p' s']|]|] eqn:En; [|done..]. intros [= <-]. eauto 6.
Qed.

Lemma step_run i c p p' s' :
  threads c !! i = Some p → next p (shared c) = Some (Ok (p', s')) →
  step (Run i) c = Some (Ok (mkMachine (<[i := p']> (threads c)) s')).
Proof. intros Hi Hn. simpl. rewrite Hi. simpl. by rewrite Hn. Qed.

Lemma step_fault_inv l c f :
  step l c = Some (Err f) → ∃ i p, threads c !! i = Some p ∧ next p (shared c) = Some (Err f).
Proof.
  destruct l as [i|i]; simpl; [|done]. destruct (threads c !! i) as [p|] eqn:Ei; [|done]. simpl.
  destruct (next p (shared c)) as [[[p' s']|f']|] eqn:En; [done| |done]. intros [= <-]. eauto.
Qed.
End executions.

(** ** Machines with finitely many shapes

    A machine whose reachable states are the values [conf x] of a description
    [x], with the steps of the machine computed on the descriptions. *)
Section shapes.
Context {S X : Type} (wake_up : nat → S → S) (conf : X → machine S) (legal : X → bool).
Context (succ : label → X → option X) (mu : X → nat) (w : nat).
Context (Hsim : ∀ l x, legal x = true → step wake_up l (conf x) = (λ y, Ok (conf y)) <$> succ l x).
Context (Hrun : ∀ i x y, legal x = true → succ (Run i) x = Some y → legal y = true ∧ (mu y < mu x)%nat).
Context (Hspurious : ∀ i x y, legal x = true → succ (Spurious i) x = Some y →
           legal y = true ∧ (mu y <= mu x + w)%nat).

Lemma shapes_run ls x0 c :
  legal x0 = true → run wake_up ls (conf x0) c →
  ∃ x, c = conf x ∧ legal x = true ∧ (length ls + mu x <= mu x0 + (w + 1) * spurious ls)%nat.
Proof using Hsim Hrun Hspurious.
  intros H0 Hr.
  destruct (run_bounded wake_up (λ c m, ∃ x, c = conf x ∧ legal x = true ∧ mu x = m) w ls (conf x0) c (mu x0))
    as (m & (x & Hc & Hl & Hm) & Hb); [| |by exists x0|done|].
  - intros i c1 c2 m (x & -> & Hl & <-) Hs. rewrite (Hsim _ _ Hl) in Hs.
    destruct (succ (Run i) x) as [y|] eqn:E; [|done]. injection Hs as <-.
    destruct (Hrun i x y Hl E). eexists. split; [by exists y|done].
  - intros i c1 c2 m (x & -> & Hl & <-) Hs. rewrite (Hsim _ _ Hl) in Hs.
    destruct (succ (Spurious i) x) as [y|] eqn:E; [|done]. injection Hs as <-.
    destruct (Hspurious i x y Hl E). eexists. split; [by exists y|done].
  - exists x. split; [done|]. split; [done|]. lia.
Qed.

Lemma shapes_no_fault x : legal x = true → no_fault wake_up (conf x).
Proof using Hsim. intros Hl l f Hs. rewrite (Hsim _ _ Hl) in Hs. by destruct (succ l x). Qed.

Lemma shapes_can_step i x y : legal x = true → succ (Run i) x = Some y → can_step wake_up (conf x).
Proof using Hsim. intros Hl E. exists i, (conf y). by rewrite (Hsim _ _ Hl), E. Qed.

Lemma shapes_stuck x : legal x = true → (∀ i, succ (Run i) x = None) → ¬ can_step wake_up (conf x).
Proof using Hsim. intros Hl Hn (i & c & Hs). rewrite (Hsim _ _ Hl), Hn in Hs. discriminate Hs. Qed.

(** The place a schedule leads to. *)
Fixpoint follow (ls : list label) (x : X) : option X :=
  match ls with [] => Some x | l :: ls' => succ l x ≫= follow ls' end.

Lemma follow_run ls x y : legal x = true → follow ls x = Some y → run wake_up ls (conf x) (conf y) ∧ legal y = true.
Proof using Hsim Hrun Hspurious.
  revert x. induction ls as [|l ls IH]; intros x Hl; simpl; [intros [= ->]; split; [constructor|done]|].
  destruct (succ l x) as [z|] eqn:E; [|done]. simpl. intros Hf.
  assert (legal z = true) as Hz by (destruct l; [by eapply Hrun|by eapply Hspurious]).
  destruct (IH z Hz Hf) as [Hr Hy]. split; [|done]. apply (run_trans _ [l] ls _ (conf z)); [|done].
  apply (run_snoc _ [] l _ (conf x)); [constructor|]. by rewrite (Hsim _ _ Hl), E.
Qed.
End shapes.

(** ** Threads by their positions: updates and weights *)

Lemma lookup_upd {A} (l : list A) i x y j :
  l !! i = Some x → <[i := y]> l !! j = if decide (j = i) then Some y else l !! j.
Proof.
  intros Hi. destruct (decide (j = i)) as [->|].
  - apply list_lookup_insert_eq. by eapply lookup_lt_Some.
  - by rewrite list_lookup_insert_ne.
Qed.

Lemma sum_upd {A} (f : A → nat) l i x y :
  l !! i = Some x → (sum_list_with f (<[i := y]> l) + f x = sum_list_with f l + f y)%nat.
Proof.
  revert i. induction l as [|z l IH]; intros [|i]; simpl; [done..| |].
  - intros [= ->]. lia.
  - intros Hi. specialize (IH i Hi). lia.
Qed.

(** The weights of all threads. *)
Definition total {P} (f : nat → P → nat) (ps : list P) : nat := sum_list (imap f ps).

Lemma total_cons {P} (f : nat → P → nat) p ps : total f (p :: ps) = (f 0%nat p + total (f ∘ S) ps)%nat.
Proof. done. Qed.

Lemma total_lt {P} (f f' : nat → P → nat) ps i p p' :
  ps !! i = Some p → (f' i p' < f i p)%nat →
  (∀ j q, j ≠ i → ps !! j = Some q → (f' j q <= f j q)%nat) →
  (total f' (<[i := p']> ps) < total f ps)%nat.
Proof.
  assert (∀ (g g' : nat → P → nat) ps, (∀ j q, ps !! j = Some q → (g' j q <= g j q)%nat) → (total g' ps <= total g ps)%nat) as Hle.
  { clear. intros g g' ps. revert g g'. induction ps as [|q ps IH]; intros g g' Hall; [done|].
    rewrite !total_cons. pose proof (Hall 0%nat q eq_refl). pose proof (IH (g ∘ S) (g' ∘ S) (λ j, Hall (S j))). lia. }
  revert f f' i. induction ps as [|q ps IH]; intros f f' [|i]; simpl; [done..| |]; rewrite ?total_cons.
  - intros [= ->] Hlt Hall. pose proof (Hle (f ∘ S) (f' ∘ S) ps (λ j r, Hall (S j) r ltac:(done))). lia.
  - intros Hi Hlt Hall. pose proof (Hall 0%nat q ltac:(done) eq_refl).
    pose proof (IH (f ∘ S) (f' ∘ S) i Hi Hlt (λ j r H, Hall (S j) r ltac:(lia))). lia.
Qed.

Lemma total_le_plus {P} (f f' : nat → P → nat) w i ps :
  (∀ j q, j ≠ i → f' j q = f j q) → (∀ q, (f' i q <= f i q + w)%nat) → (total f' ps <= total f ps + w)%nat.
Proof.
  intros Hne Hi. assert (∀ k, total (λ j, f' (k + j)%nat) ps <= total (λ j, f (k + j)%nat) ps +
    (if decide (k <= i)%nat then w else 0))%nat as H.
  { induction ps as [|q ps IH]; intros k; [by cbn; lia|].
    rewrite !total_cons, Nat.add_0_r. specialize (IH (S k)).
    assert (∀ g : nat → P → nat, total ((λ j, g (k + j)%nat) ∘ S) ps = total (λ j, g (S k + j)%nat) ps) as E.
    { intros g. unfold total. f_equal. apply imap_ext. intros j r _. simpl. by rewrite Nat.add_succ_r. }
    rewrite !E. destruct (decide (k = i)) as [->|Hk].
    - specialize (Hi q). rewrite decide_True by lia. rewrite decide_False in IH by lia. lia.
    - rewrite (Hne k q Hk). repeat case_decide; lia. }
  specialize (H 0%nat). rewrite decide_True in H by lia. exact H.
Qed.

Lemma lookup_code {P S} (code : nat → P → prog S) ps i p : imap code ps !! i = Some p → ∃ q, ps !! i = Some q ∧ p = code i q.
Proof. rewrite list_lookup_imap. destruct (ps !! i); naive_solver. Qed.

Lemma imap_upd {P S} (code : nat → P → prog S) ps i p :
  (i < length ps)%nat → <[i := code i p]> (imap code ps) = imap code (<[i := p]> ps).
Proof.
  intros Hi. apply list_eq. intros j. rewrite list_lookup_imap. destruct (decide (j = i)) as [->|].
  - rewrite !list_lookup_insert_eq by (rewrite ?length_imap; done). done.
  - rewrite !list_lookup_insert_ne, list_lookup_imap by done. done.
Qed.

(** ** pthread *)

Definition pthread_mutex : Type := option nat.
Definition pthread_cond : Type := gset nat.

Section pthread.
Context (me : nat).

Definition pthread_mutex_lock (m : pthread_mutex) : outcome pthread_mutex :=
  match m with None => Go (Some me) | Some _ => Blocked end.

Definition pthread_mutex_unlock (m : pthread_mutex) : outcome pthread_mutex :=
  if decide (m = Some me) then Go None else Fault NotOwner.

(** [pthread_cond_wait] goes to sleep, and goes on when it is woken. *)
Definition pthread_cond_sleep (mc : pthread_mutex * pthread_cond) : outcome (pthread_mutex * pthread_cond) :=
  if decide (mc.1 = Some me) then Go (None, {[me]} ∪ mc.2) else Fault NotOwner.

Definition pthread_cond_wake (mc : pthread_mutex * pthread_cond) : outcome (pthread_mutex * pthread_cond) :=
  if decide (me ∈ mc.2) then Blocked
  else match mc.1 with None => Go (Some me, mc.2) | Some _ => Blocked end.

(** [pthread_cond_timedwait] whose time has come while the thread was asleep. *)
Definition pthread_cond_timeout (mc : pthread_mutex * pthread_cond) : outcome (pthread_mutex * pthread_cond) :=
  match mc.1 with None => Go (Some me, mc.2 ∖ {[me]}) | Some _ => Blocked end.
End pthread.

(** The local variable of [waitForSeconds] and what it returns; seconds are
    counted in whole numbers. *)
Record timed_wait : Type := mkTimedWait { abstime : Z; timed_out : bool }.

(** [choose] is the thread that is woken, when it is asleep. *)
Definition pthread_cond_signal (choose : pthread_cond → nat) (c : pthread_cond) : pthread_cond :=
  c ∖ {[choose c]}.
Definition pthread_cond_broadcast (c : pthread_cond) : pthread_cond := ∅.
