(* ===== verification/CountDownLatch.v ===== *)
(** * CountDownLatch: waiting for a number of events

    Models src/muduo/log/base/CountDownLatch.h and CountDownLatch.cpp on the
    mutex and the condition variable of src/muduo/log/base/MutexLock.h and
    Condition.h, for any number of threads in [wait] and in [countDown]: every
    interleaving ends, no thread is left behind, and [wait] returns only when
    the count is used up. *)

From S2P Require Import Prelude Sync.

(** MutexLock.h and Condition.h of the logger: the bare pthread objects. *)
Record CountDownLatch : Type := mkLatch {
  mutex_ : pthread_mutex;
  condition_ : pthread_cond;
  count_ : Z;
}.

Definition CountDownLatch_new (count : Z) : CountDownLatch := mkLatch None ∅ count.

Definition latch_wake_up (i : nat) (l : CountDownLatch) : CountDownLatch :=
  mkLatch (mutex_ l) (condition_ l ∖ {[i]}) (count_ l).

Section operations.
Context {S : Type} `{Lens S CountDownLatch} (me : nat).

Definition on_latch (a : CountDownLatch → outcome CountDownLatch) : prog S := act (outcome_lens a).

Definition on_mutex (a : pthread_mutex → outcome pthread_mutex) : CountDownLatch → outcome CountDownLatch := λ l,
  match a (mutex_ l) with
  | Blocked => Blocked
  | Go m => Go (mkLatch m (condition_ l) (count_ l))
  | Fault f => Fault f
  end.

Definition on_condition (a : pthread_mutex * pthread_cond → outcome (pthread_mutex * pthread_cond)) :
    CountDownLatch → outcome CountDownLatch := λ l,
  match a (mutex_ l, condition_ l) with
  | Blocked => Blocked
  | Go mc => Go (mkLatch mc.1 mc.2 (count_ l))
  | Fault f => Fault f
  end.

(** [MutexLock::lock], [unlock]; [Condition::wait], [notifyAll]. *)
Definition lock : prog S := on_latch (on_mutex (pthread_mutex_lock me)).
Definition unlock : prog S := on_latch (on_mutex (pthread_mutex_unlock me)).
Definition condition_wait : prog S :=
  (on_latch (on_condition (pthread_cond_sleep me)) >> on_latch (on_condition (pthread_cond_wake me)))%prog.
Definition notifyAll : prog S :=
  on_latch (λ l, Go (mkLatch (mutex_ l) (pthread_cond_broadcast (condition_ l)) (count_ l))).

(** [Condition::notify], which wakes the thread chosen, and the destructor of
    the mutex, which locks it first. *)
Definition notify (choose : pthread_cond → nat) : prog S :=
  on_latch (λ l, Go (mkLatch (mutex_ l) (pthread_cond_signal choose (condition_ l)) (count_ l))).
Definition MutexLock_delete : prog S := lock.

(** [Condition::waitForSeconds]; [clock]: [clock_gettime] at each moment. *)
Section timed.
Context `{Lens S timed_wait} (clock : S → Z).

Definition timed_wake (s : S) : outcome S :=
  let late := bool_decide (me ∈ condition_ (lget s)) && (abstime (lget s) <=? clock s) in
  match on_condition (if late then pthread_cond_timeout me else pthread_cond_wake me) (lget s) with
  | Blocked => Blocked
  | Go l => Go (lset (mkTimedWait (abstime (lget s)) late) (lset l s))
  | Fault f => Fault f
  end.

Definition waitForSeconds (seconds : Z) : prog S :=
  (do_ (λ s, lset (mkTimedWait (clock s + seconds) (timed_out (lget s))) s) >>
   on_latch (on_condition (pthread_cond_sleep me)) >> act timed_wake)%prog.

(** The writer of the log is never asleep for longer than its interval: once
    the time has come, the wait ends as soon as the mutex is free. *)
Lemma log_wait_returns s :
  mutex_ (lget s) = None → me ∉ condition_ (lget s) ∨ abstime (lget s) ≤ clock s →
  ∃ w, timed_wake s =
    Go (lset (mkTimedWait (abstime (lget s)) (bool_decide (me ∈ condition_ (lget s))))
         (lset (mkLatch (Some me) w (count_ (lget s))) s)) ∧ w ⊆ condition_ (lget s) ∖ {[me]}.
Proof.
  intros Hm Hor. unfold timed_wake, on_condition. rewrite Hm. case_bool_decide as Hin.
  - rewrite (proj2 (Z.leb_le _ _)) by (by destruct Hor). simpl. eexists. split; [done|]. set_solver.
  - simpl. unfold pthread_cond_wake. rewrite decide_False by done. simpl. eexists. split; [done|]. set_solver.
Qed.
End timed.

(** [--count_]. *)
Definition decrement (l : CountDownLatch) : outcome CountDownLatch :=
  match checked_i32 (count_ l - 1) with
  | Ok n => Go (mkLatch (mutex_ l) (condition_ l) n)
  | Err f => Fault f
  end.

Definition wait : prog S :=
  (lock >> while_ (λ s, 0 <? count_ (lget s)) condition_wait >> unlock)%prog.

Definition countDown : prog S :=
  (lock >> on_latch decrement >> if_ (λ s, count_ (lget s) =? 0) notifyAll >> unlock)%prog.
End operations.

(** ** Threads that only use the latch *)

#[local] Instance latch_id : Lens CountDownLatch CountDownLatch := lens_id.

(** Where a thread is: in [wait], or in [countDown]. *)
Inductive pos : Set :=
  | WLock | WTest | WSleep | WWake | WUnlock | WDone
  | CLock | CDec | CTest | CNotify | CUnlock | CDone.

#[export] Instance pos_eq_dec : EqDecision pos.
Proof. solve_decision. Defined.

Definition code (i : nat) (p : pos) : prog CountDownLatch :=
  let test : prog CountDownLatch :=
    (while_ (λ l, 0 <? count_ (lget l)) (condition_wait i) >> unlock i)%prog in
  let test0 : prog CountDownLatch :=
    (if_ (λ l, count_ (lget l) =? 0) notifyAll >> unlock i)%prog in
  match p with
  | WLock => wait i
  | WTest => test
  | WSleep => (condition_wait i >> test)%prog
  | WWake => (on_latch (on_condition (pthread_cond_wake i)) >> test)%prog
  | WUnlock => unlock i
  | WDone => Ret
  | CLock => countDown i
  | CDec => (on_latch decrement >> test0)%prog
  | CTest => test0
  | CNotify => (notifyAll >> unlock i)%prog
  | CUnlock => unlock i
  | CDone => Ret
  end.

(** The thread has the mutex. *)
Definition inside (p : pos) : bool :=
  match p with WTest | WSleep | WUnlock | CDec | CTest | CNotify | CUnlock => true | _ => false end.
(** It has decremented the count. *)
Definition counted (p : pos) : nat :=
  match p with CTest | CNotify | CUnlock | CDone => 1 | _ => 0 end.
Definition is_counter (p : pos) : bool :=
  match p with CLock | CDec | CTest | CNotify | CUnlock | CDone => true | _ => false end.
Definition done (p : pos) : bool := match p with WDone | CDone => true | _ => false end.

(** The steps of [code]. *)
Definition pos_step (i : nat) (p : pos) (l : CountDownLatch) : option (pos * CountDownLatch) :=
  let with_mutex m := mkLatch m (condition_ l) (count_ l) in
  match p with
  | WLock => if mutex_ l is Some _ then None else Some (WTest, with_mutex (Some i))
  | WTest => Some (if 0 <? count_ l then WSleep else WUnlock, l)
  | WSleep => Some (WWake, mkLatch None ({[i]} ∪ condition_ l) (count_ l))
  | WWake => if decide (i ∈ condition_ l) then None
             else if mutex_ l is Some _ then None else Some (WTest, with_mutex (Some i))
  | WUnlock => Some (WDone, with_mutex None)
  | CLock => if mutex_ l is Some _ then None else Some (CDec, with_mutex (Some i))
  | CDec => Some (CTest, mkLatch (mutex_ l) (condition_ l) (count_ l - 1))
  | CTest => Some (if count_ l =? 0 then CNotify else CUnlock, l)
  | CNotify => Some (CUnlock, mkLatch (mutex_ l) ∅ (count_ l))
  | CUnlock => Some (CDone, with_mutex None)
  | WDone | CDone => None
  end.

Lemma next_code i p l :
  (inside p = true → mutex_ l = Some i) → (p = CDec → - 2 ^ 31 ≤ count_ l - 1 < 2 ^ 31) →
  next (code i p) l = (λ '(p', l'), Ok (code i p', l')) <$> pos_step i p l.
Proof.
  intros Hm Hc. destruct l as [m w n]. simpl in *.
  destruct p; simpl in *; unfold outcome_lens, on_mutex, on_condition, pthread_mutex_unlock, pthread_cond_sleep;
    simpl; try (rewrite decide_True by auto); try reflexivity.
  - by destruct m.
  - by destruct (0 <? n).
  - unfold pthread_cond_wake. simpl. destruct (decide _); [done|]. by destruct m.
  - by destruct m.
  - unfold decrement. simpl. by rewrite checked_i32_ok by auto.
  - by destruct (n =? 0).
Qed.

(** ** The invariant *)

Definition roles (ps : list pos) : list bool := is_counter <$> ps.
Definition counters (rs : list bool) : nat := sum_list_with Nat.b2n rs.

(** [n]: the initial count; [rs]: which threads call [countDown]. *)
Record inv (n : Z) (rs : list bool) (ps : list pos) (l : CountDownLatch) : Prop := mkInv {
  i_roles : roles ps = rs;
  i_owner j q : ps !! j = Some q → inside q = true → mutex_ l = Some j;
  i_owned j : mutex_ l = Some j → ∃ q, ps !! j = Some q ∧ inside q = true;
  i_asleep j : j ∈ condition_ l → ps !! j = Some WWake;
  i_count : count_ l + Z.of_nat (sum_list_with counted ps) = n;
  i_told j : j ∈ condition_ l → 0 < count_ l ∨
    count_ l = 0 ∧ ∃ k q, ps !! k = Some q ∧ (q = CTest ∨ q = CNotify);
  i_notify j : ps !! j = Some CNotify → count_ l = 0;
  i_sleep j : ps !! j = Some WSleep → 0 < count_ l;
  i_passed j q : ps !! j = Some q → q = WUnlock ∨ q = WDone → count_ l ≤ 0;
}.

Lemma pos_step_role i p l p' l' : pos_step i p l = Some (p', l') → is_counter p' = is_counter p.
Proof.
  destruct p; simpl; try discriminate; repeat case_match; by intros [= <- _].
Qed.

Section preservation.
Context (n : Z) (rs : list bool) (ps : list pos) (l : CountDownLatch) (i : nat).
Context (Hinv : inv n rs ps l).

Lemma roles_upd p p' l' :
  ps !! i = Some p → pos_step i p l = Some (p', l') → roles (<[i := p']> ps) = rs.
Proof using Hinv.
  intros Hp Hs. unfold roles. rewrite list_fmap_insert, (pos_step_role _ _ _ _ _ Hs).
  rewrite <-(i_roles _ _ _ _ Hinv). apply list_insert_id. unfold roles. by rewrite list_lookup_fmap, Hp.
Qed.

(** The thread in the mutex is the only one there. *)
Lemma inside_unique p j q :
  ps !! i = Some p → inside p = true → ps !! j = Some q → inside q = true → j = i.
Proof using Hinv.
  intros Hp Hi Hq Hj. pose proof (i_owner _ _ _ _ Hinv _ _ Hp Hi).
  pose proof (i_owner _ _ _ _ Hinv _ _ Hq Hj). congruence.
Qed.

(** A step that only moves the thread into, within or out of the mutex. *)
Lemma inv_move p p' m :
  ps !! i = Some p → is_counter p' = is_counter p → counted p' = counted p →
  p ≠ WWake ∨ i ∉ condition_ l → p ≠ CTest ∨ count_ l ≠ 0 ∨ p' = CNotify → p ≠ CNotify →
  p' ≠ WWake →
  (if inside p then mutex_ l = Some i else mutex_ l = None) → m = (if inside p' then Some i else None) →
  (p' = CNotify → count_ l = 0) → (p' = WSleep → 0 < count_ l) →
  (p' = WUnlock ∨ p' = WDone → count_ l ≤ 0) →
  inv n rs (<[i := p']> ps) (mkLatch m (condition_ l) (count_ l)).
Proof using Hinv.
  intros Hp Hr Hc Hw Ht Hn Hw' Hm -> Hcn Hsl Hpa. pose proof (lookup_upd ps i p p') as Hl.
  pose proof Hinv as []. split; simpl.
  - unfold roles in *. rewrite list_fmap_insert, Hr. rewrite list_insert_id; [exact i_roles0|by rewrite list_lookup_fmap, Hp].
  - intros j q. rewrite (Hl j Hp). case_decide as Hj; [intros [= ->] ->; by rewrite Hj|].
    intros Hq Hi. pose proof (i_owner0 _ _ Hq Hi) as E. exfalso. apply Hj. destruct (inside p); congruence.
  - intros j Ej. destruct (inside p') eqn:Ep; [|done]. injection Ej as <-. exists p'.
    by rewrite (Hl i Hp), decide_True.
  - intros j Hj. pose proof (i_asleep0 j Hj) as E. rewrite (Hl j Hp). case_decide; [|done]. subst.
    destruct Hw; [congruence|done].
  - pose proof (sum_upd counted ps i p p' Hp). lia.
  - intros j Hj. destruct (i_told0 j Hj) as [?|(E & k & q & Hk & Hq)]; [by left|right]. split; [done|].
    exists k, (if decide (k = i) then p' else q). rewrite (Hl k Hp). case_decide as Hki; [|done]. split; [done|].
    subst. assert (q = p) as -> by congruence. destruct Hq as [-> | ->]; [|done]. right. naive_solver.
  - intros j. rewrite (Hl j Hp). case_decide; [|eauto]. intros [= ->]. auto.
  - intros j. rewrite (Hl j Hp). case_decide; [|eauto]. intros [= ->]. auto.
  - intros j q. rewrite (Hl j Hp). case_decide; [|eauto]. intros [= ->]. auto.
Qed.
Lemma inv_sleep :
  ps !! i = Some WSleep → inv n rs (<[i := WWake]> ps) (mkLatch None ({[i]} ∪ condition_ l) (count_ l)).
Proof using Hinv.
  intros Hp. pose proof (λ j q, inside_unique WSleep j q Hp eq_refl) as Hu. pose proof Hinv as [].
  pose proof (i_sleep0 _ Hp). pose proof (sum_upd counted ps i WSleep WWake Hp) as Hsum. simpl in Hsum.
  split; simpl; try (intros j); rewrite ?(lookup_upd ps i WSleep WWake) by done.
  - by apply (roles_upd WSleep WWake (mkLatch None ({[i]} ∪ condition_ l) (count_ l))).
  - intros q. case_decide; [by intros [= <-]|]. intros Hq Hi. by destruct (Hu _ _ Hq Hi).
  - done.
  - case_decide; [done|]. intros [?|?]%elem_of_union; [set_solver|auto].
  - lia.
  - intros _. by left.
  - case_decide; [done|]. eauto.
  - case_decide; [done|]. eauto.
  - intros q. case_decide; [intros [= <-] [|]; done|]. eauto.
Qed.

Lemma inv_decrement :
  ps !! i = Some CDec → inv n rs (<[i := CTest]> ps) (mkLatch (mutex_ l) (condition_ l) (count_ l - 1)).
Proof using Hinv.
  intros Hp. pose proof (λ j q, inside_unique CDec j q Hp eq_refl) as Hu. pose proof Hinv as [].
  pose proof (sum_upd counted ps i CDec CTest Hp) as Hsum. simpl in Hsum.
  assert (mutex_ l = Some i) as Hm by by apply (i_owner0 i CDec).
  split; simpl; try (intros j); rewrite ?(lookup_upd ps i CDec CTest) by done.
  - by apply (roles_upd CDec CTest (mkLatch (mutex_ l) (condition_ l) (count_ l - 1))).
  - intros q. case_decide; [by subst|]. eauto.
  - rewrite Hm. intros [= <-]. exists CTest. by rewrite decide_True.
  - intros Hj. case_decide; [|auto]. pose proof (i_asleep0 j Hj). congruence.
  - lia.
  - intros Hj. destruct (i_told0 j Hj) as [?|(_ & k & q & Hk & Hq)].
    + destruct (decide (count_ l = 1)); [right|left; lia]. split; [lia|]. exists i, CTest.
      split; [by rewrite (lookup_upd ps i CDec CTest), decide_True|by left].
    + assert (k = i) as -> by (apply (Hu k q Hk); by destruct Hq as [-> | ->]).
      destruct Hq; congruence.
  - case_decide; [done|]. intros Hq. by destruct (Hu _ _ Hq eq_refl).
  - case_decide; [done|]. intros Hq. by destruct (Hu _ _ Hq eq_refl).
  - intros q. case_decide; [intros [= <-] [|]; done|]. intros Hq Hor. pose proof (i_passed0 _ _ Hq Hor). lia.
Qed.

Lemma inv_broadcast :
  ps !! i = Some CNotify → inv n rs (<[i := CUnlock]> ps) (mkLatch (mutex_ l) ∅ (count_ l)).
Proof using Hinv.
  intros Hp. pose proof Hinv as []. assert (mutex_ l = Some i) as Hm by by apply (i_owner0 i CNotify).
  pose proof (sum_upd counted ps i CNotify CUnlock Hp) as Hsum. simpl in Hsum.
  split; simpl; try (intros j); rewrite ?(lookup_upd ps i CNotify CUnlock) by done.
  - by apply (roles_upd CNotify CUnlock (mkLatch (mutex_ l) ∅ (count_ l))).
  - intros q. case_decide; [by subst|]. eauto.
  - rewrite Hm. intros [= <-]. exists CUnlock. by rewrite decide_True.
  - set_solver.
  - lia.
  - set_solver.
  - case_decide; [done|]. eauto.
  - case_decide; [done|]. eauto.
  - intros q. case_decide; [intros [= <-] [|]; done|]. eauto.
Qed.

Ltac move_goals :=
  simpl; try done; try (by left); try (by right); try (right; left; lia); try (right; by right);
  try (intros [|]; done); auto; intros; lia.

Lemma inv_pos_step p p' l' :
  ps !! i = Some p → pos_step i p l = Some (p', l') → inv n rs (<[i := p']> ps) l'.
Proof using Hinv.
  intros Hp Hs. pose proof (i_owner _ _ _ _ Hinv _ _ Hp) as Hown.
  pose proof (λ H, i_passed _ _ _ _ Hinv i p Hp H) as Hpass.
  destruct p; simpl in Hs, Hown; try discriminate Hs; repeat case_match; try discriminate Hs; injection Hs as <- <-;
    try specialize (Hown eq_refl); try (by apply inv_sleep); try (by apply inv_decrement);
    try (by apply inv_broadcast);
    try (eapply (inv_move _ _ _ Hp); move_goals).
  all: replace l with (mkLatch (mutex_ l) (condition_ l) (count_ l)) by by destruct l.
  all: apply (inv_move _ _ (mutex_ l) Hp); move_goals.
Qed.

Lemma inv_spurious j : inv n rs ps (latch_wake_up j l).
Proof using Hinv.
  pose proof Hinv as []. split; simpl; try done; intros k Hk; [apply (i_asleep0 k)|apply (i_told0 k)]; set_solver.
Qed.
End preservation.

(** ** The measure *)

(** The steps a thread has left, if it is not woken without reason. *)
Definition weight (l : CountDownLatch) (i : nat) (p : pos) : nat :=
  let open := 0 <? count_ l in
  match p with
  | WLock => 6
  | WTest => if open then 5 else 2
  | WSleep => 4
  | WWake => if decide (i ∈ condition_ l) then 3 else if open then 6 else 3
  | WUnlock => 1
  | CLock => 5 | CDec => 4 | CTest => 3 | CNotify => 2 | CUnlock => 1
  | WDone | CDone => 0
  end.

(** ** Steps of the machine *)

Definition start (n : Z) (rs : list bool) : machine CountDownLatch :=
  mkMachine (imap (λ i (r : bool), if r then countDown i else wait i) rs) (CountDownLatch_new n).

Lemma counted_le ps : (sum_list_with counted ps <= counters (roles ps))%nat.
Proof.
  unfold counters, roles. induction ps as [|p ps IH]; [done|].
  rewrite fmap_cons. cbn [sum_list_with]. destruct p; cbn [counted is_counter Nat.b2n]; lia.
Qed.

(** Compares two weights; what is left are facts on who is asleep. *)
Ltac weigh :=
  repeat case_match; try lia; exfalso;
  repeat match goal with H : decide _ = _ |- _ => clear H end; set_solver.

Lemma weight_step n rs ps l i p p' l' :
  inv n rs ps l → ps !! i = Some p → pos_step i p l = Some (p', l') →
  (weight l' i p' < weight l i p)%nat ∧
  ∀ j q, j ≠ i → ps !! j = Some q → (weight l' j q <= weight l j q)%nat.
Proof.
  intros Hi Hp Hs. split.
  - destruct l as [m w k]. destruct p; simpl in Hs |- *; try discriminate Hs; repeat case_match; simplify_eq/=;
      weigh.
  - intros j q Hj Hq. pose proof (i_notify _ _ _ _ Hi i) as Hn. destruct l as [m w k]. simpl in *.
    destruct p; simpl in Hs; try discriminate Hs; repeat case_match; simplify_eq/=;
      destruct q; simpl; try lia; try specialize (Hn Hp); weigh.
Qed.

Section executions.
Context (n : Z) (rs : list bool).
Context (Hrange : - 2 ^ 31 ≤ n - Z.of_nat (counters rs) ∧ n < 2 ^ 31).

Definition reached (c : machine CountDownLatch) (m : nat) : Prop :=
  ∃ ps, threads c = imap code ps ∧ inv n rs ps (shared c) ∧ total (weight (shared c)) ps = m.

Lemma next_pos ps l i p :
  inv n rs ps l → ps !! i = Some p →
  next (code i p) l = (λ '(p', l'), Ok (code i p', l')) <$> pos_step i p l.
Proof using Hrange.
  intros Hi Hp. apply next_code; [by apply (i_owner _ _ _ _ Hi)|]. intros ->.
  pose proof (i_count _ _ _ _ Hi). pose proof (counted_le (<[i := CTest]> ps)) as Hle.
  rewrite (roles_upd n rs ps l i Hi CDec CTest (mkLatch (mutex_ l) (condition_ l) (count_ l - 1))) in Hle by done.
  pose proof (sum_upd counted ps i CDec CTest Hp) as Hsum. simpl in Hsum. lia.
Qed.

Lemma reached_run i c c' m :
  reached c m → step latch_wake_up (Run i) c = Some (Ok c') → ∃ m', reached c' m' ∧ (m' < m)%nat.
Proof using Hrange.
  intros (ps & Ht & Hi & <-) (p & p' & l' & Hp & Hn & ->)%step_run_inv.
  rewrite Ht in Hp. apply (lookup_code code) in Hp as (q & Hq & ->). rewrite (next_pos ps _ i q Hi Hq) in Hn.
  destruct (pos_step i q (shared c)) as [[q' l1]|] eqn:Hs; [|done]. simpl in Hn. injection Hn as <- <-.
  eexists. split; [exists (<[i := q']> ps); simpl; split; [|split; [|reflexivity]]|].
  - rewrite Ht. apply imap_upd. by eapply lookup_lt_Some.
  - by eapply inv_pos_step.
  - destruct (weight_step n rs ps (shared c) i q q' l1 Hi Hq Hs). by eapply total_lt.
Qed.

Lemma reached_spurious i c c' m :
  reached c m → step latch_wake_up (Spurious i) c = Some (Ok c') → ∃ m', reached c' m' ∧ (m' <= m + 3)%nat.
Proof using Type.
  clear Hrange. intros (ps & Ht & Hi & <-) [= <-]. eexists. split; [exists ps; split; [done|split; [by apply inv_spurious|reflexivity]]|].
  apply (total_le_plus _ _ _ i).
  - intros j q Hj. unfold weight. simpl. destruct q; try done. repeat case_decide; try done; set_solver.
  - intros q. unfold weight. simpl. destruct q; repeat case_match; lia.
Qed.

Lemma reached_start : reached (start n rs) (total (weight (CountDownLatch_new n)) ((λ r, if r : bool then CLock else WLock) <$> rs)).
Proof using Type.
  clear Hrange. set (ps := (λ r : bool, if r then CLock else WLock) <$> rs). exists ps.
  assert (∀ i p, ps !! i = Some p → p = CLock ∨ p = WLock) as Hps.
  { unfold ps. intros i p. rewrite list_lookup_fmap.
    destruct (rs !! i) as [[]|]; naive_solver. }
  split; [|split; [|done]].
  - unfold start, ps. simpl. rewrite imap_fmap. apply imap_ext. by intros i [] _.
  - split; simpl; try done.
    + unfold roles, ps. rewrite <-list_fmap_compose. rewrite <-(list_fmap_id rs) at 2. apply list_fmap_ext. by intros j [] _.
    + intros j q Hq. by destruct (Hps j q Hq) as [-> | ->].
    + assert (sum_list_with counted ps = 0%nat) as ->; [|lia]. unfold ps. generalize rs. intros l. by induction l as [|[] l IH].
    + intros j Hj. by destruct (Hps _ _ Hj).
    + intros j Hj. by destruct (Hps _ _ Hj).
    + intros j q Hq Hor. destruct (Hps _ _ Hq) as [-> | ->]; by destruct Hor.
Qed.

Lemma start_weight : (total (weight (CountDownLatch_new n)) ((λ r, if r : bool then CLock else WLock) <$> rs) <= 6 * length rs)%nat.
Proof using Type.
  set (l := CountDownLatch_new n). clearbody l. clear Hrange.
  assert (∀ k, (total (λ j, weight l (k + j)) ((λ r : bool, if r then CLock else WLock) <$> rs) <= 6 * length rs)%nat) as H.
  { generalize rs. intros l'. induction l' as [|r rs' IH]; intros k; [done|]. rewrite fmap_cons, total_cons. cbn [length].
    specialize (IH (S k)). unfold compose in *.
    assert (total (λ j, weight l (k + S j)) ((λ r : bool, if r then CLock else WLock) <$> rs') =
            total (λ j, weight l (S k + j)) ((λ r : bool, if r then CLock else WLock) <$> rs')) as ->.
    { unfold total. f_equal. apply imap_ext. intros j p _. by rewrite Nat.add_succ_r. }
    destruct r; cbn [weight]; lia. }
  exact (H 0%nat).
Qed.

Lemma run_reached ls c :
  run latch_wake_up ls (start n rs) c →
  ∃ m, reached c m ∧ (length ls + m <= 6 * length rs + 4 * spurious ls)%nat.
Proof using Hrange.
  intros Hr. destruct (run_bounded latch_wake_up reached 3 ls _ c _ reached_run reached_spurious reached_start Hr)
    as (m & Hm & Hb). exists m. split; [done|]. pose proof start_weight. lia.
Qed.
End executions.

(** No thread inside a stuck machine: everyone is done, if the count can be
    used up. *)
Lemma stuck_done n rs ps l :
  inv n rs ps l → n ≤ Z.of_nat (counters rs) →
  (∀ i p, ps !! i = Some p → pos_step i p l = None) → ∀ i p, ps !! i = Some p → done p = true.
Proof.
  intros Hi Hn Hstuck. pose proof Hi as [Hr _ Hown Hw Hc Ht _ _ _].
  assert (mutex_ l = None) as Hm.
  { destruct (mutex_ l) as [j|] eqn:E; [|done]. destruct (Hown j eq_refl) as (q & Hq & Hin).
    specialize (Hstuck j q Hq). by destruct q. }
  assert (∀ i p, ps !! i = Some p → p = WWake ∨ done p = true) as Hp.
  { intros i p Hp. specialize (Hstuck i p Hp).     destruct p; simpl in *; rewrite ?Hm in Hstuck; try done; auto. }
  assert (sum_list_with counted ps = counters rs) as Hall.
  { rewrite <-Hr. clear -Hp. unfold counters, roles. induction ps as [|p ps IH]; [done|].
    rewrite fmap_cons. cbn [sum_list_with]. rewrite IH by (intros i; apply (Hp (S i))).
    destruct (Hp 0%nat p eq_refl) as [-> | Hd]; [done|]. by destruct p. }
  intros i p Hip. destruct (Hp i p Hip) as [-> |]; [|done].
  specialize (Hstuck i WWake Hip). simpl in Hstuck. rewrite Hm in Hstuck.
  case_decide as Hin; [|done]. destruct (Ht i Hin) as [?|(_ & k & q & Hk & Hq)]; [lia|].
  destruct (Hp k q Hk) as [-> |]; destruct Hq; by subst.
Qed.

Section theorems.
Context (n : Z) (rs : list bool).
Context (Hrange : - 2 ^ 31 ≤ n - Z.of_nat (counters rs) ∧ n < 2 ^ 31).

(** C11: with any number of threads in [wait] and [countDown] (the flags [rs]),
    in any interleaving and with any spurious wake-ups: no thread releases a
    mutex it does not hold and the count does not overflow; one thread at most
    is inside; the count is what the decrements have left of [n]; and when a
    [wait] has returned there have been at least [n] of them. *)
Theorem latch_safe ls c :
  run latch_wake_up ls (start n rs) c →
  no_fault latch_wake_up c ∧
  ∃ ps, threads c = imap code ps ∧ roles ps = rs ∧
    (∀ i j p q, ps !! i = Some p → ps !! j = Some q → inside p = true → inside q = true → i = j) ∧
    count_ (shared c) = n - Z.of_nat (sum_list_with counted ps) ∧
    (∀ i, ps !! i = Some WDone → n ≤ Z.of_nat (sum_list_with counted ps)).
Proof using Hrange.
  intros Hr. destruct (run_reached n rs Hrange ls c Hr) as (m & (ps & Ht & Hi & _) & _). split.
  - intros l f (i & p & Hp & Hf)%step_fault_inv. rewrite Ht in Hp.
    apply (lookup_code code) in Hp as (q & Hq & ->). rewrite (next_pos n rs Hrange ps _ i q Hi Hq) in Hf.
    by destruct (pos_step i q (shared c)) as [[]|].
  - exists ps. pose proof Hi as []. split_and!; try done.
    + intros i j p q Hp Hq Hip Hjq. pose proof (i_owner0 _ _ Hp Hip). pose proof (i_owner0 _ _ Hq Hjq). congruence.
    + lia.
    + intros i Hd. pose proof (i_passed0 _ _ Hd (or_intror eq_refl)). lia.
Qed.

(** C10: if there are as many calls of [countDown] as the count, every execution
    is bounded, whatever the interleaving (six steps for each thread and four
    for each spurious wake-up), and one that cannot go on has every thread at
    its end: no wake-up is lost and no thread is left asleep. *)
Theorem latch_terminates ls c :
  n ≤ Z.of_nat (counters rs) → run latch_wake_up ls (start n rs) c →
  (length ls <= 6 * length rs + 4 * spurious ls)%nat ∧
  (can_step latch_wake_up c ∨ ∀ i p, threads c !! i = Some p → p = Ret).
Proof using Hrange.
  intros Hn Hr. destruct (run_reached n rs Hrange ls c Hr) as (m & (ps & Ht & Hi & _) & Hb). split; [lia|].
  destruct (decide (Forall (λ i, from_option (λ p, pos_step i p (shared c)) None (ps !! i) = None) (seq 0 (length ps))))
    as [Hall|Hsome].
  - right. rewrite Forall_forall in Hall. intros i p Hp. rewrite Ht in Hp.
    apply (lookup_code code) in Hp as (q & Hq & ->).
    assert (done q = true) as Hd; [|by destruct q].
    apply (stuck_done n rs ps (shared c) Hi Hn) with (i := i); [|done]. intros j r Hj.
    specialize (Hall j). rewrite Hj in Hall. apply Hall, elem_of_seq.
    apply lookup_lt_Some in Hj. lia.
  - left. apply not_Forall_Exists in Hsome; [|apply _]. apply Exists_exists in Hsome as (i & _ & Hs).
    unfold compose in Hs. destruct (ps !! i) as [q|] eqn:Hq; simpl in Hs; [|congruence].
    destruct (pos_step i q (shared c)) as [[q' l']|] eqn:E; [|congruence].
    exists i. eexists. eapply step_run.
    + rewrite Ht, list_lookup_imap, Hq. reflexivity.
    + rewrite (next_pos n rs Hrange ps _ i q Hi Hq), E. reflexivity.
Qed.
End theorems.

(** ** Witnesses: two threads wait for two calls of [countDown] *)

Definition demo_roles : list bool := [false; true; false; true].

(** Both sleep, one wakes up without reason, then the counters run. *)
Definition demo_schedule : list label :=
  Run <$> [0; 0; 0; 2; 2; 2]%nat.

Definition demo_rest : list label :=
  Spurious 0%nat :: (Run <$> [0; 0; 0; 1; 1; 1; 1; 3; 3; 3; 3; 3; 0; 0; 0; 2; 2; 2]%nat).

Lemma demo_range : - 2 ^ 31 ≤ 2 - Z.of_nat (counters demo_roles) ∧ 2 < 2 ^ 31.
Proof. vm_compute. by split. Qed.

Lemma latch_safe_witness :
  let c := final latch_wake_up (demo_schedule ++ demo_rest) (start 2 demo_roles) in
  no_fault latch_wake_up c ∧ forallb is_ret (threads c) = true ∧ count_ (shared c) = 0.
Proof.
  pose proof (run_final latch_wake_up (demo_schedule ++ demo_rest) (start 2 demo_roles)
    ltac:(vm_compute; reflexivity)) as Hr.
  destruct (latch_safe 2 demo_roles demo_range _ _ Hr) as [Hn _].
  split; [exact Hn|]. split; vm_compute; reflexivity.
Defined.

Lemma latch_terminates_witness :
  can_step latch_wake_up (final latch_wake_up demo_schedule (start 2 demo_roles)).
Proof.
  pose proof (run_final latch_wake_up demo_schedule (start 2 demo_roles) ltac:(vm_compute; reflexivity)) as Hr.
  destruct (latch_terminates 2 demo_roles demo_range _ _ ltac:(vm_compute; discriminate) Hr) as [_ [H|H]].
  - exact H.
  - exfalso. assert (forallb is_ret (threads (final latch_wake_up demo_schedule (start 2 demo_roles))) = true) as E.
    + apply forallb_forall. intros p (i & Hp)%list_elem_of_In%list_elem_of_lookup. by rewrite (H i p Hp).
    + vm_compute in E. discriminate E.
Defined.
