(* ===== verification/LogThread.v ===== *)
(** * LogThread: the thread class of the logger

    Models src/muduo/log/base/Thread.h, Thread.cpp and CurrentThread.h: a thread
    that [start]s another one and waits on its latch until the new thread has
    stored its id, and [join]s it.  The object is shared by the two threads;
    [created], [exited] and [detached] are what pthread knows of the new thread,
    [calls] counts the calls of [func_], and [t_threadName] is the new thread's
    variable of that name. *)

From Stdlib Require Import String.
From S2P Require Import Prelude Printf Sync CountDownLatch.

(** ** CurrentThread *)

(** The thread-local variables. *)
Record CurrentThread : Type := mkCurrentThread {
  t_cachedTid : Z;
  t_tidString : bytes;
  t_tidStringLength : Z;
}.

Definition CurrentThread_init : CurrentThread := mkCurrentThread 0 [] 6.

(** The text of ["%5d "], in a buffer of 32 characters. *)
Definition tid_text (t : Z) : bytes :=
  let d := dec t in replicate (5 - length d) Byte.x20 ++ d ++ str " ".

Section current_thread.
(** The kernel's id of the thread. *)
Context (gettid : Z).

Definition cacheTid (c : CurrentThread) : CurrentThread :=
  if t_cachedTid c =? 0
  then mkCurrentThread gettid (snprintf_text 32 (tid_text gettid)) (zlen (tid_text gettid))
  else c.

Definition tid : M CurrentThread Z :=
  c ← get;
  (if t_cachedTid c =? 0 then modify cacheTid else mret ()) ;;
  gets t_cachedTid.

End current_thread.

(** The id is the kernel's, asked for once; the text is cached with it. *)
Lemma tid_cached gettid : gettid ≠ 0 →
  ∃ c, tid gettid CurrentThread_init = Ok (gettid, c) ∧ tid gettid c = Ok (gettid, c) ∧
    t_tidStringLength c = zlen (tid_text gettid).
Proof.
  intros Hne. exists (cacheTid gettid CurrentThread_init). split; [done|]. split; [|done].
  destruct gettid; [congruence|reflexivity..].
Qed.

(** ** Thread *)

Record Thread : Type := mkThread {
  started_ : bool;
  joined_ : bool;
  tid_ : Z;
  name_ : bytes;
  latch_ : CountDownLatch;
  created : bool;
  exited : bool;
  detached : bool;
  calls : nat;
  t_threadName : bytes;
}.

Section setters.
Context (t : Thread).
Definition set_started (b : bool) : Thread :=
  mkThread b (joined_ t) (tid_ t) (name_ t) (latch_ t) (created t) (exited t) (detached t) (calls t) (t_threadName t).
Definition set_joined : Thread :=
  mkThread (started_ t) true (tid_ t) (name_ t) (latch_ t) (created t) (exited t) (detached t) (calls t) (t_threadName t).
Definition set_tid (z : Z) : Thread :=
  mkThread (started_ t) (joined_ t) z (name_ t) (latch_ t) (created t) (exited t) (detached t) (calls t) (t_threadName t).
Definition set_latch (l : CountDownLatch) : Thread :=
  mkThread (started_ t) (joined_ t) (tid_ t) (name_ t) l (created t) (exited t) (detached t) (calls t) (t_threadName t).
Definition set_created (b : bool) : Thread :=
  mkThread (started_ t) (joined_ t) (tid_ t) (name_ t) (latch_ t) b (exited t) (detached t) (calls t) (t_threadName t).
Definition set_exited : Thread :=
  mkThread (started_ t) (joined_ t) (tid_ t) (name_ t) (latch_ t) (created t) true (detached t) (calls t) (t_threadName t).
Definition set_detached : Thread :=
  mkThread (started_ t) (joined_ t) (tid_ t) (name_ t) (latch_ t) (created t) (exited t) true (calls t) (t_threadName t).
Definition count_call : Thread :=
  mkThread (started_ t) (joined_ t) (tid_ t) (name_ t) (latch_ t) (created t) (exited t) (detached t) (S (calls t)) (t_threadName t).
Definition set_threadName (nm : bytes) : Thread :=
  mkThread (started_ t) (joined_ t) (tid_ t) (name_ t) (latch_ t) (created t) (exited t) (detached t) (calls t) nm.
End setters.

#[local] Instance thread_latch : Lens Thread CountDownLatch :=
  {| lget := latch_; lset := λ l t, set_latch t l |}.

(** [setDefaultName]. *)
Definition setDefaultName (n : bytes) : bytes := match n with [] => str "Thread" | _ => n end.

Definition Thread_new (n : bytes) : Thread :=
  mkThread false false 0 (setDefaultName n) (CountDownLatch_new 1) false false false 0 (str "default").

Section programs.
(** [create_ok]: [pthread_create] succeeds; [gettid]: the new thread's id. *)
Context (me : nat) (create_ok : bool) (gettid : Z).

Definition start : prog Thread := (
  assert_that (λ t, negb (started_ t)) >>
  do_ (λ t, set_started t true) >>
  do_ (λ t, set_created t create_ok) >>
  if_else (λ t, negb (created t))
    (do_ (λ t, set_started t false))
    (wait me >> assert_that (λ t, 0 <? tid_ t)))%prog.

(** [ThreadData::runInThread], in the new thread. *)
Definition runInThread : prog Thread := (
  do_ (λ t, set_tid t gettid) >>
  countDown me >>
  do_ (λ t, set_threadName t (match name_ t with [] => str "Thread" | n => n end)) >>
  do_ count_call >>
  do_ (λ t, set_threadName t (str "finished")))%prog.

(** The thread function: the thread exists once [pthread_create] has made it. *)
Definition startThread : prog Thread :=
  (until created >> runInThread >> do_ set_exited)%prog.

Definition join : prog Thread := (
  assert_that started_ >>
  assert_that (λ t, negb (joined_ t)) >>
  do_ set_joined >>
  until exited)%prog.

(** [Thread::~Thread]. *)
Definition Thread_delete : prog Thread :=
  if_ (λ t, started_ t && negb (joined_ t)) (do_ set_detached).
End programs.

(** ** Creating a thread and waiting for it

    Thread 0 runs [start] and [join], thread 1 is the new one. *)

(** Where the two threads are, and whether thread 0 is asleep on the latch. *)
Record place : Set := mkPlace { creator : nat; child : nat; asleep : bool }.

Section start_join.
Context (gettid : Z) (nm : bytes).

Definition start_join : prog Thread := (start 0 true >> join)%prog.

(** What is left of a thread after [n] of its steps; the creator's steps 5 to 7
    are the loop of [wait]. *)
Definition waiting : prog Thread :=
  (while_ (λ t, 0 <? count_ (lget t)) (condition_wait 0) >> unlock 0)%prog.
Definition creator_code (n : nat) : prog Thread :=
  let after := (assert_that (λ t, 0 <? tid_ t) >> join)%prog in
  match n with
  | 0%nat => start_join
  | 1%nat => do_ (λ t, set_started t true) >> do_ (λ t, set_created t true) >>
         if_else (λ t, negb (created t)) (do_ (λ t, set_started t false))
           (wait 0 >> assert_that (λ t, 0 <? tid_ t)) >> join
  | 2%nat => do_ (λ t, set_created t true) >>
         if_else (λ t, negb (created t)) (do_ (λ t, set_started t false))
           (wait 0 >> assert_that (λ t, 0 <? tid_ t)) >> join
  | 3%nat => if_else (λ t, negb (created t)) (do_ (λ t, set_started t false))
           (wait 0 >> assert_that (λ t, 0 <? tid_ t)) >> join
  | 4%nat => wait 0 >> after
  | 5%nat => waiting >> after
  | 6%nat => condition_wait 0 >> waiting >> after
  | 7%nat => on_latch (on_condition (pthread_cond_wake 0)) >> waiting >> after
  | 8%nat => unlock 0 >> after
  | 9%nat => after
  | 10%nat => join
  | 11%nat => assert_that (λ t, negb (joined_ t)) >> do_ set_joined >> until exited
  | 12%nat => do_ set_joined >> until exited
  | 13%nat => until exited
  | _ => Ret
  end%prog.

Definition child_code (n : nat) : prog Thread :=
  let name := (do_ (λ t, set_threadName t (match name_ t with [] => str "Thread" | n => n end)) >>
    do_ count_call >> do_ (λ t, set_threadName t (str "finished")) >> do_ set_exited)%prog in
  match n with
  | 0%nat => startThread 1 gettid
  | 1%nat => runInThread 1 gettid >> do_ set_exited
  | 2%nat => countDown 1 >> name
  | 3%nat => on_latch decrement >> if_ (λ t, count_ (lget t) =? 0) notifyAll >> unlock 1 >> name
  | 4%nat => if_ (λ t, count_ (lget t) =? 0) notifyAll >> unlock 1 >> name
  | 5%nat => notifyAll >> unlock 1 >> name
  | 6%nat => unlock 1 >> name
  | 7%nat => name
  | 8%nat => do_ count_call >> do_ (λ t, set_threadName t (str "finished")) >> do_ set_exited
  | 9%nat => do_ (λ t, set_threadName t (str "finished")) >> do_ set_exited
  | 10%nat => do_ set_exited
  | _ => Ret
  end%prog.

(** The state of the object there. *)
Definition state (x : place) : Thread :=
  let kp := creator x in let kc := child x in
  let owner := if bool_decide (kp ∈ [5; 6; 8]%nat) then Some 0%nat
               else if bool_decide (kc ∈ [3; 4; 5; 6]%nat) then Some 1%nat else None in
  mkThread (2 <=? kp)%nat (13 <=? kp)%nat (if (2 <=? kc)%nat then gettid else 0) (setDefaultName nm)
    (mkLatch owner (if asleep x then {[0%nat]} else ∅) (if (4 <=? kc)%nat then 0 else 1))
    (3 <=? kp)%nat (11 <=? kc)%nat false (if (9 <=? kc)%nat then 1 else 0)
    (if (10 <=? kc)%nat then str "finished" else if (8 <=? kc)%nat then match setDefaultName nm with [] => str "Thread" | n => n end else str "default").

Definition conf (x : place) : machine Thread :=
  mkMachine [creator_code (creator x); child_code (child x)] (state x).

(** The places that are reached. *)
Definition legal (x : place) : bool :=
  let kp := creator x in let kc := child x in
  bool_decide (kp <= 14 ∧ kc <= 11)%nat &&
  (if bool_decide (kp <= 2)%nat then bool_decide (kc = 0%nat) else true) &&
  negb (bool_decide (kp ∈ [5; 6; 8]%nat) && bool_decide (kc ∈ [3; 4; 5; 6]%nat)) &&
  (if bool_decide (kp = 6%nat) then bool_decide (kc <= 3)%nat else true) &&
  (if bool_decide (8 <= kp)%nat then bool_decide (7 <= kc)%nat else true) &&
  (if bool_decide (kp = 14%nat) then bool_decide (kc = 11%nat) else true) &&
  (if asleep x then bool_decide (kp = 7 ∧ kc <= 5)%nat else true).

Definition wake_up (i : nat) (t : Thread) : Thread := set_latch t (latch_wake_up i (latch_ t)).

(** The next place after a step of the creator, of the child, or after a
    spurious wake-up. *)
Definition succ (l : label) (x : place) : option place :=
  let kp := creator x in let kc := child x in
  match l with
  | Run 0%nat =>
      match kp with
      | 4%nat | 7%nat =>
          if (asleep x || bool_decide (kc ∈ [3; 4; 5; 6]%nat)) then None else Some (mkPlace 5 kc false)
      | 5%nat => Some (mkPlace (if bool_decide (kc <= 3)%nat then 6 else 8)%nat kc false)
      | 6%nat => Some (mkPlace 7 kc true)
      | 13%nat => if bool_decide (11 <= kc)%nat then Some (mkPlace 14 kc false) else None
      | 14%nat => None
      | _ => Some (mkPlace (S kp) kc false)
      end
  | Run 1%nat =>
      match kc with
      | 0%nat => if bool_decide (3 <= kp)%nat then Some (mkPlace kp 1 (asleep x)) else None
      | 2%nat => if bool_decide (kp ∈ [5; 6; 8]%nat) then None else Some (mkPlace kp 3 (asleep x))
      | 5%nat => Some (mkPlace kp 6 false)
      | 11%nat => None
      | _ => Some (mkPlace kp (S kc) (asleep x))
      end
  | Run _ => None
  | Spurious 0%nat => Some (mkPlace kp kc false)
  | Spurious _ => Some x
  end.

(** The steps left, if there is no spurious wake-up. *)
Definition measure (x : place) : nat :=
  let open := bool_decide (child x <= 3)%nat in
  let left_ := match creator x with
    | 5%nat => if open then 10 else 7
    | 6%nat => 9
    | 7%nat => if asleep x then 8 else if open then 11 else 8
    | kp => if bool_decide (kp <= 4)%nat then 15 - kp else 14 - kp
    end%nat in
  (left_ + (11 - child x))%nat.

Definition start_place : place := mkPlace 0 0 false.
Definition end_place : place := mkPlace 14 11 false.

(** Proves a property of every legal place by looking at each. *)
Ltac each_place tac :=
  let kp := fresh "kp" in let kc := fresh "kc" in let a := fresh "a" in let Hl := fresh "Hl" in
  intros [kp kc a] Hl;
  assert (kp < 15 ∧ kc < 12)%nat as [? ?]
    by (unfold legal in Hl; simpl in Hl;
        destruct (bool_decide_reflect (kp <= 14 ∧ kc <= 11)%nat); [lia|discriminate Hl]);
  do 15 (destruct kp as [|kp];
         [do 12 (destruct kc as [|kc]; [destruct a; first [discriminate Hl|tac]|]); exfalso; lia|]);
  exfalso; lia.

Lemma creator_sim : 0 < gettid → ∀ x, legal x = true →
  step wake_up (Run 0) (conf x) = (λ y, Ok (conf y)) <$> succ (Run 0) x.
Proof using Type.
  intros Ht%Z.ltb_lt.
  each_place ltac:(first [reflexivity|unfold step; cbn; rewrite Ht; reflexivity]).
Qed.

Lemma child_sim : ∀ x, legal x = true →
  step wake_up (Run 1) (conf x) = (λ y, Ok (conf y)) <$> succ (Run 1) x.
Proof using Type. each_place ltac:(reflexivity). Qed.

Lemma wake_sim : ∀ x, legal x = true →
  step wake_up (Spurious 0) (conf x) = (λ y, Ok (conf y)) <$> succ (Spurious 0) x.
Proof using Type. each_place ltac:(reflexivity). Qed.

Lemma sim l x : 0 < gettid → legal x = true → step wake_up l (conf x) = (λ y, Ok (conf y)) <$> succ l x.
Proof using Type.
  intros Ht Hl. destruct l as [[|[|i]]|[|i]].
  - by apply creator_sim.
  - by apply child_sim.
  - done.
  - by apply wake_sim.
  - simpl. unfold conf, wake_up, state. simpl. do 4 f_equal. unfold set_latch, latch_wake_up. simpl. do 2 f_equal.
    destruct (asleep x); set_solver.
Qed.

Definition run_ok (i : nat) (x : place) : bool :=
  match succ (Run i) x with Some y => legal y && (measure y <? measure x)%nat | None => true end.

Lemma run_legal : ∀ x, legal x = true → run_ok 0 x && run_ok 1 x = true.
Proof using Type. each_place ltac:(reflexivity). Qed.

Lemma spurious_legal : ∀ x, legal x = true →
  legal (mkPlace (creator x) (child x) false) && (measure (mkPlace (creator x) (child x) false) <=? measure x + 3)%nat = true.
Proof using Type. each_place ltac:(reflexivity). Qed.

Lemma stuck_end : ∀ x, legal x = true → succ (Run 0) x = None → succ (Run 1) x = None → x = end_place.
Proof using Type.
  each_place ltac:(intros ? ?; first [reflexivity|discriminate]).
Qed.

Fixpoint depth (p : prog Thread) : nat :=
  match p with Ret => 0 | Act _ k | If _ _ _ k | While _ _ k => S (depth k) end.

Lemma started_place : ∀ x, legal x = true → creator_code (creator x) = join → creator x = 10%nat.
Proof using Type. each_place ltac:(intros E%(f_equal depth); first [reflexivity|discriminate E]). Qed.

Lemma start_conf : conf start_place = mkMachine [start_join; startThread 1 gettid] (Thread_new nm).
Proof using Type. reflexivity. Qed.

Lemma run_places ls c :
  0 < gettid → run wake_up ls (conf start_place) c →
  ∃ x, c = conf x ∧ legal x = true ∧ (length ls + measure x <= 26 + 4 * spurious ls)%nat.
Proof using Type.
  intros Ht Hr. apply (shapes_run wake_up conf legal succ measure 3) with (x0 := start_place);
    [| | |reflexivity|exact Hr].
  - intros l x. by apply sim.
  - intros i x y Hl Hs. pose proof (run_legal x Hl) as H. apply andb_true_iff in H as [H0 H1].
    unfold run_ok in *. destruct i as [|[|i]]; [rewrite Hs in H0|rewrite Hs in H1|done].
    + apply andb_true_iff in H0 as [? ?%Nat.ltb_lt]. done.
    + apply andb_true_iff in H1 as [? ?%Nat.ltb_lt]. done.
  - intros i x y Hl Hs. pose proof (spurious_legal x Hl) as [? ?%Nat.leb_le]%andb_true_iff.
    destruct i as [|i]; injection Hs as <-; [done|]. split; [done|lia].
Qed.
End start_join.

(** C14: [start] followed by [join], with the new thread, whenever
    [pthread_create] succeeds: in every interleaving, spurious wake-ups
    included, no assertion fails ([tid_ > 0] among them) and no mutex is
    misused; when [start] has returned the id of the new thread is stored; every
    execution is bounded; and one that cannot go on has both threads at their
    end, [func_] called exactly once. *)
Theorem start_join_terminates gettid nm ls c :
  0 < gettid →
  run wake_up ls (mkMachine [start_join; startThread 1 gettid] (Thread_new nm)) c →
  no_fault wake_up c ∧
  (threads c !! 0%nat = Some join → tid_ (shared c) = gettid) ∧
  (length ls <= 26 + 4 * spurious ls)%nat ∧
  (can_step wake_up c ∨
   threads c = [Ret; Ret] ∧ tid_ (shared c) = gettid ∧ calls (shared c) = 1%nat ∧ joined_ (shared c) = true).
Proof.
  intros Ht Hr. rewrite <-(start_conf gettid nm) in Hr.
  destruct (run_places gettid nm ls c Ht Hr) as (x & -> & Hl & Hb).
  pose proof (λ l x, sim gettid nm l x Ht) as Hsim. split_and!; [| |lia|].
  - by apply (shapes_no_fault _ _ legal succ).
  - intros [= E]. pose proof (started_place x Hl E) as Hx. unfold conf, state. simpl.
    destruct x as [kp kc a]. simpl in *. subst. by destruct kc as [|[|kc]]; [destruct a; discriminate Hl..|].
  - destruct (succ (Run 0) x) as [y|] eqn:E0; [left; by eapply (shapes_can_step _ _ legal succ)|].
    destruct (succ (Run 1) x) as [y|] eqn:E1; [left; by eapply (shapes_can_step _ _ legal succ)|].
    right. by rewrite (stuck_end x Hl E0 E1).
Qed.

(** ** Witness and examples *)

(** The creator falls asleep, wakes up once without reason, and is notified. *)
Definition demo_schedule : list label :=
  (Run <$> [0; 0; 0; 0; 0; 0; 0]%nat) ++ [Spurious 0%nat] ++
  (Run <$> [0; 0; 0; 1; 1; 1; 1; 1; 1; 1; 0; 0; 0; 0]%nat).

Definition demo : machine Thread := mkMachine [start_join; startThread 1 4711] (Thread_new []).

Lemma start_join_terminates_witness :
  let c := final wake_up demo_schedule demo in
  no_fault wake_up c ∧ can_step wake_up c ∧ tid_ (shared c) = 4711.
Proof.
  pose proof (run_final wake_up demo_schedule demo ltac:(vm_compute; reflexivity)) as Hr.
  destruct (start_join_terminates 4711 [] _ _ ltac:(lia) Hr) as (Hn & _ & _ & [Hc|(Ht & _)]).
  - split; [exact Hn|]. split; [exact Hc|]. vm_compute. reflexivity.
  - exfalso. assert (forallb is_ret (threads (final wake_up demo_schedule demo)) = true) as E by by rewrite Ht.
    vm_compute in E. discriminate E.
Defined.

(** A failed [pthread_create] is only visible in [started()]: [join] then fails
    its assertion.  A started thread that is never joined is detached. *)
Example create_fails :
  schedule wake_up (Run <$> replicate 6 0%nat) (mkMachine [(start 0 false >> join)%prog] (Thread_new [])) =
    Some (Err AssertFailed).
Proof. vm_compute. reflexivity. Qed.

Example never_joined :
  let c := final wake_up (Run <$> [0; 0]%nat) (mkMachine [Thread_delete] (set_started (Thread_new []) true)) in
  detached (shared c) = true.
Proof. vm_compute. reflexivity. Qed.
