(* ===== verification/Threads.v ===== *)
(** * Threads: the thread class of the library and its synchronisation

    Models src/muduo/thread/Mutex.h, Condition.h, Thread.h and Thread.cpp as
    programs over any state that holds the objects.  [me] is the number of the
    thread that runs a program and [self] its kernel id.  Unlike the thread
    class of the logger (LogThread.v), [start] does not wait for the new
    thread.  Atomic.v models the counter of the threads created. *)

From Stdlib Require Import String.
From S2P Require Import Prelude Sync.
From S2P Require Atomic.

(** ** Mutex.h *)

Record MutexLock : Type := mkMutexLock {
  mutex_ : pthread_mutex;
  holder_ : Z;
}.

Definition MutexLock_new : MutexLock := mkMutexLock None 0.

Section mutex.
Context {S : Type} `{Lens S MutexLock} (me : nat) (self : Z).

Definition on_pthread (a : pthread_mutex → outcome pthread_mutex) : prog S :=
  act (outcome_lens (λ m : MutexLock,
    match a (mutex_ m) with
    | Blocked => Blocked
    | Go x => Go (mkMutexLock x (holder_ m))
    | Fault f => Fault f
    end)).
Definition set_holder (z : Z) : prog S := do_ (λ s, lset (mkMutexLock (mutex_ (lget s)) z) s).

Definition lock : prog S := (on_pthread (pthread_mutex_lock me) >> set_holder self)%prog.
Definition unlock : prog S := (set_holder 0 >> on_pthread (pthread_mutex_unlock me))%prog.
Definition isLockedByThisThread (s : S) : bool := holder_ (lget s) =? self.
Definition assertLocked : prog S := assert_that isLockedByThisThread.
(** [~MutexLock]. *)
Definition MutexLock_delete : prog S := assert_that (λ s, holder_ (lget s) =? 0).
End mutex.

(** ** Condition.h *)

Section condition.
Context {S : Type} `{Lens S MutexLock} `{Lens S pthread_cond} (me : nat).

Definition on_cond (a : pthread_mutex * pthread_cond → outcome (pthread_mutex * pthread_cond)) : prog S :=
  act (λ s : S,
    let m : MutexLock := lget s in
    match a (mutex_ m, lget s) with
    | Blocked => Blocked
    | Go (x, c) => Go (lset c (lset (mkMutexLock x (holder_ m)) s))
    | Fault f => Fault f
    end).

(** [wait] knows the pthread mutex only: [holder_] is left as it is. *)
Definition condition_wait : prog S :=
  (on_cond (pthread_cond_sleep me) >> on_cond (pthread_cond_wake me))%prog.

(** [notify], which wakes the thread chosen, and [notifyAll]. *)
Definition notify (choose : pthread_cond → nat) : prog S :=
  do_ (λ s, lset (pthread_cond_signal choose (lget s)) s).
Definition notifyAll : prog S := do_ (λ s, lset (pthread_cond_broadcast (lget s)) s).
End condition.

(** [clock]: [clock_gettime] at each moment. *)
Section timed.
Context {S : Type} `{Lens S MutexLock} `{Lens S pthread_cond} `{Lens S timed_wait} (me : nat) (clock : S → Z).

Definition timed_wake (s : S) : outcome S :=
  let m : MutexLock := lget s in
  let late := bool_decide (me ∈ (lget s : pthread_cond)) && (abstime (lget s) <=? clock s) in
  match (if late then pthread_cond_timeout me else pthread_cond_wake me) (mutex_ m, lget s) with
  | Blocked => Blocked
  | Go (x, c) =>
      Go (lset (mkTimedWait (abstime (lget s)) late) (lset c (lset (mkMutexLock x (holder_ m)) s)))
  | Fault f => Fault f
  end.

Definition waitForSeconds (seconds : Z) : prog S :=
  (do_ (λ s, lset (mkTimedWait (clock s + seconds) (timed_out (lget s))) s) >>
   on_cond (pthread_cond_sleep me) >> act timed_wake)%prog.

(** Once the time has come or the thread was woken, the wait ends as soon as the
    mutex is free, with the mutex, and returns whether it was not woken. *)
Lemma timed_wake_returns s :
  mutex_ (lget s : MutexLock) = None →
  me ∉ (lget s : pthread_cond) ∨ abstime (lget s) ≤ clock s →
  ∃ c, timed_wake s =
    Go (lset (mkTimedWait (abstime (lget s)) (bool_decide (me ∈ (lget s : pthread_cond))))
         (lset c (lset (mkMutexLock (Some me) (holder_ (lget s))) s))) ∧
    c ⊆ (lget s : pthread_cond) ∖ {[me]}.
Proof.
  intros Hm Hor. unfold timed_wake. rewrite Hm. case_bool_decide as Hin.
  - rewrite (proj2 (Z.leb_le _ _)) by (by destruct Hor). simpl. eexists. split; [done|]. set_solver.
  - simpl. unfold pthread_cond_wake. rewrite decide_False by done. simpl. eexists. split; [done|]. set_solver.
Qed.
End timed.

(** ** Thread.h and Thread.cpp *)

(** The thread-local variables. *)
Record CurrentThread : Type := mkCurrentThread {
  t_cachedTid : Z;
  t_threadName : bytes;
}.

Definition CurrentThread_init : CurrentThread := mkCurrentThread 0 (str "unnamedThread").

Definition tid (gettid : Z) : M CurrentThread Z :=
  c ← get;
  (if t_cachedTid c =? 0 then put (mkCurrentThread gettid (t_threadName c)) else mret ()) ;;
  gets t_cachedTid.

Definition isMainThread (gettid getpid : Z) : M CurrentThread bool := t ← tid gettid; mret (t =? getpid).

(** In the child of a fork, whose id is [gettid]. *)
Definition afterFork (gettid : Z) : M CurrentThread unit := put (mkCurrentThread gettid (str "main")).

(** The initialiser of the main thread. *)
Definition ThreadNameInitializer : M CurrentThread unit :=
  modify (λ c, mkCurrentThread (t_cachedTid c) (str "main")).

(** The cached id is the thread's own, before and after a fork. *)
Lemma tid_own gettid gettid' : gettid ≠ 0 →
  ∃ c c', tid gettid CurrentThread_init = Ok (gettid, c) ∧
    (afterFork gettid' ;; tid gettid') c = Ok (gettid', c').
Proof.
  intros Hne. exists (mkCurrentThread gettid (str "unnamedThread")), (mkCurrentThread gettid' (str "main")).
  split; [done|]. by destruct gettid'.
Qed.

Record Thread : Type := mkThread {
  started_ : bool;
  joined_ : bool;
  tid_ : Z;          (* *tid_ *)
  name_ : bytes;
  alive : bool;      (* the object, and so what the weak pointer of the new thread finds *)
  created : bool;    (* the new thread, its end, [pthread_detach] *)
  exited : bool;
  detached : bool;
  new_name : bytes;  (* its t_threadName *)
}.

(** [Thread::Thread], on the counter of the threads created. *)
Definition Thread_new (n : bytes) : M Z Thread :=
  Atomic.increment ;;
  mret (mkThread false false 0 n true false false false (str "unnamedThread")).

Section setters.
Context (t : Thread).
Definition set_started (b : bool) : Thread :=
  mkThread b (joined_ t) (tid_ t) (name_ t) (alive t) (created t) (exited t) (detached t) (new_name t).
Definition set_joined : Thread :=
  mkThread (started_ t) true (tid_ t) (name_ t) (alive t) (created t) (exited t) (detached t) (new_name t).
Definition set_tid (z : Z) : Thread :=
  mkThread (started_ t) (joined_ t) z (name_ t) (alive t) (created t) (exited t) (detached t) (new_name t).
Definition set_created (b : bool) : Thread :=
  mkThread (started_ t) (joined_ t) (tid_ t) (name_ t) (alive t) b (exited t) (detached t) (new_name t).
Definition set_exited : Thread :=
  mkThread (started_ t) (joined_ t) (tid_ t) (name_ t) (alive t) (created t) true (detached t) (new_name t).
Definition set_detached : Thread :=
  mkThread (started_ t) (joined_ t) (tid_ t) (name_ t) (alive t) (created t) (exited t) true (new_name t).
Definition set_dead : Thread :=
  mkThread (started_ t) (joined_ t) (tid_ t) (name_ t) false (created t) (exited t) (detached t) (new_name t).
Definition set_new_name (n : bytes) : Thread :=
  mkThread (started_ t) (joined_ t) (tid_ t) (name_ t) (alive t) (created t) (exited t) (detached t) n.
End setters.

Section thread.
Context {S : Type} `{Lens S Thread}.

Definition thread : S → Thread := lget.
Definition upd (f : Thread → Thread) : prog S := do_ (λ s, lset (f (lget s)) s).

(** [create_ok]: [pthread_create] succeeds. *)
Definition start (create_ok : bool) : prog S := (
  assert_that (λ s, negb (started_ (thread s))) >>
  upd (λ t, set_started t true) >>
  upd (λ t, set_created t create_ok) >>
  if_ (λ s, negb (created (thread s)))
    (upd (λ t, set_started t false) >> act (λ _, Fault Aborted)))%prog.

(** [ThreadData::runInThread] around the thread function. *)
Definition runInThread (gettid : Z) (func : prog S) : prog S := (
  upd (λ t, if alive t then set_tid t gettid else t) >>
  upd (λ t, match name_ t with [] => t | n => set_new_name t n end) >>
  func >>
  upd (λ t, set_new_name t (str "finished")))%prog.

(** The thread exists once [pthread_create] has made it. *)
Definition startThread (gettid : Z) (func : prog S) : prog S :=
  (until (λ s, created (thread s)) >> runInThread gettid func >> upd set_exited)%prog.

Definition join : prog S := (
  assert_that (λ s, started_ (thread s)) >>
  assert_that (λ s, negb (joined_ (thread s))) >>
  upd set_joined >>
  until (λ s, exited (thread s)))%prog.

(** [Thread::~Thread]. *)
Definition Thread_delete : prog S :=
  (if_ (λ s, started_ (thread s) && negb (joined_ (thread s))) (upd set_detached) >> upd set_dead)%prog.
End thread.

(** [start] returns before the new thread has stored its id: [tid()] is then
    still zero. *)
Example tid_after_start :
  let t0 := mkThread false false 0 [] true false false false (str "unnamedThread") in
  let c := final (S := Thread) (λ _ t, t) (Run <$> replicate 4 0%nat)
             (mkMachine [@start _ lens_id true; @startThread _ lens_id 4711 Ret] t0) in
  forallb is_ret (take 1 (threads c)) = true ∧ tid_ (shared c) = 0.
Proof. split; vm_compute; reflexivity. Qed.
