(* ===== verification/Mutex.v ===== *)
(** * Mutex: mutual exclusion by MutexLock and MutexLockGuard

    Models the guard of src/muduo/thread/Mutex.h on the mutex of Threads.v, for
    any number of threads that each enter guarded sections in which they
    [assertLocked]: [holder_] is written in a step of its own, after the mutex is
    locked and before it is unlocked. *)

From S2P Require Import Prelude Sync Threads.

Section guard.
Context {C : Type} `{Lens C MutexLock} (me : nat) (self : Z).

(** The constructor and the destructor of the guard. *)
Definition MutexLockGuard_new : prog C := lock me self.
Definition MutexLockGuard_delete : prog C := unlock me.

(** A guarded section, and [r] of them one after the other. *)
Definition section : prog C :=
  (MutexLockGuard_new >> assertLocked self >> MutexLockGuard_delete)%prog.
Fixpoint sections (r : nat) : prog C :=
  match r with O => Ret | S r' => (section >> sections r')%prog end.
End guard.

(** ** Threads that only use the mutex *)

#[local] Instance mutex_id : Lens MutexLock MutexLock := lens_id.

(** Where a thread is in its section; [Away]: before the next one. *)
Inductive phase : Set := Away | Locked | Named | Asserted | Cleared.

(** The sections still to come after the one the thread is in. *)
Record pos : Set := mkPos { where_ : phase; left_ : nat }.

Definition inside (p : pos) : bool := match where_ p with Away => false | _ => true end.
(** [holder_] names the thread. *)
Definition named (p : pos) : bool := match where_ p with Named | Asserted => true | _ => false end.

Section machine.
(** The kernel's ids of the threads. *)
Context (self : nat → Z).

Definition code (i : nat) (p : pos) : prog MutexLock :=
  let rest := sections i (self i) (left_ p) in
  match where_ p with
  | Away => rest
  | Locked => (set_holder (self i) >> assertLocked (self i) >> MutexLockGuard_delete i >> rest)%prog
  | Named => (assertLocked (self i) >> MutexLockGuard_delete i >> rest)%prog
  | Asserted => (MutexLockGuard_delete i >> rest)%prog
  | Cleared => (on_pthread (pthread_mutex_unlock i) >> rest)%prog
  end.

Definition pos_step (i : nat) (p : pos) (m : MutexLock) : option (pos * MutexLock) :=
  let r := left_ p in
  match where_ p, r with
  | Away, O => None
  | Away, S r' => match mutex_ m with Some _ => None | None => Some (mkPos Locked r', mkMutexLock (Some i) (holder_ m)) end
  | Locked, _ => Some (mkPos Named r, mkMutexLock (mutex_ m) (self i))
  | Named, _ => Some (mkPos Asserted r, m)
  | Asserted, _ => Some (mkPos Cleared r, mkMutexLock (mutex_ m) 0)
  | Cleared, _ => Some (mkPos Away r, mkMutexLock None (holder_ m))
  end.

Lemma section_next_code i p m :
  (inside p = true → mutex_ m = Some i) → (named p = true → holder_ m = self i) →
  next (code i p) m = (λ '(p', m'), Ok (code i p', m')) <$> pos_step i p m.
Proof.
  intros Hm Hh. destruct m as [m h], p as [w r]. unfold code, inside, named in *. simpl in *.
  destruct w; simpl in *.
  - destruct r as [|r]; [done|]. simpl. unfold outcome_lens. simpl. by destruct m.
  - done.
  - unfold isLockedByThisThread. simpl. by rewrite Hh, Z.eqb_refl.
  - done.
  - unfold outcome_lens, pthread_mutex_unlock. simpl. by rewrite Hm, decide_True.
Qed.

(** ** The invariant *)

Record inv (ps : list pos) (m : MutexLock) : Prop := mkInv {
  i_owner j q : ps !! j = Some q → inside q = true → mutex_ m = Some j;
  i_owned j : mutex_ m = Some j → ∃ q, ps !! j = Some q ∧ inside q = true;
  i_named j q : ps !! j = Some q → inside q = true → holder_ m = if named q then self j else 0;
  i_free : mutex_ m = None → holder_ m = 0;
}.

(** The thread in the mutex moves on, or one takes the mutex, or gives it up. *)
Lemma section_inv_pos_step ps m i p p' m' :
  inv ps m → ps !! i = Some p → pos_step i p m = Some (p', m') → inv (<[i := p']> ps) m'.
Proof.
  intros [Hown Howned Hnamed Hfree] Hp Hs.
  assert (∀ j q, j ≠ i → ps !! j = Some q → inside q = true → inside p = true → False) as Hone.
  { intros j q Hj Hq Hi Hip. pose proof (Hown j q Hq Hi). pose proof (Hown i p Hp Hip). congruence. }
  assert ((inside p = true ∧ mutex_ m = Some i) ∨ (inside p = false ∧ mutex_ m = None)) as Hm.
  { destruct (inside p) eqn:E; [left; eauto|right]. split; [done|]. unfold pos_step, inside in *.
    destruct (where_ p); try done. destruct (left_ p); [done|]. by destruct (mutex_ m). }
  assert (mutex_ m' = (if inside p' then Some i else None) ∧ holder_ m' = if named p' then self i else 0) as [E1 E2].
  { pose proof (λ H, Hnamed i p Hp H) as Hn. unfold pos_step, inside, named in *.
    destruct p as [[] r]; simpl in *; destruct Hm as [[? Hm]|[? Hm]]; try done;
      try (destruct r; [done|]; rewrite Hm in Hs); injection Hs as <- <-; simpl; auto. }
  split.
  - intros j q. rewrite (lookup_upd ps i p p' j Hp). case_decide as Hj.
    + subst. intros [= <-] Hi. by rewrite E1, Hi.
    + intros Hq Hi. destruct Hm as [[Hip _]|[_ Hn]]; [by destruct (Hone j q)|].
      pose proof (Hown j q Hq Hi). congruence.
  - intros j. rewrite E1. destruct (inside p') eqn:Hi; [|done]. intros [= <-]. exists p'.
    by rewrite (lookup_upd ps i p p' i Hp), decide_True.
  - intros j q. rewrite (lookup_upd ps i p p' j Hp). case_decide as Hj.
    + subst. intros [= <-] _. exact E2.
    + intros Hq Hi. destruct Hm as [[Hip _]|[_ Hn]]; [by destruct (Hone j q)|].
      pose proof (Hown j q Hq Hi). congruence.
  - rewrite E1, E2. unfold inside, named. by destruct (where_ p').
Qed.

(** ** The measure: a section is five steps *)

Definition weight (i : nat) (p : pos) : nat :=
  5 * left_ p + match where_ p with Away => 0 | Locked => 4 | Named => 3 | Asserted => 2 | Cleared => 1 end.

Lemma section_weight_step i p m p' m' : pos_step i p m = Some (p', m') → (weight i p' < weight i p)%nat.
Proof.
  unfold pos_step, weight. destruct p as [[] r]; simpl; try (intros [= <- <-]; simpl; lia).
  destruct r; [done|]. destruct (mutex_ m); [done|]. intros [= <- <-]. simpl. lia.
Qed.

(** ** Executions *)

(** [rs]: how many sections each thread enters; nothing wakes up spuriously in a
    mutex. *)
Definition start (rs : list nat) : machine MutexLock :=
  mkMachine (imap (λ i r, sections i (self i) r) rs) MutexLock_new.
Definition wake_up (i : nat) (m : MutexLock) : MutexLock := m.

Definition reached (c : machine MutexLock) (n : nat) : Prop :=
  ∃ ps, threads c = imap code ps ∧ inv ps (shared c) ∧ total weight ps = n.

Lemma section_next_pos ps m i p : inv ps m → ps !! i = Some p →
  next (code i p) m = (λ '(p', m'), Ok (code i p', m')) <$> pos_step i p m.
Proof.
  intros [Hown _ Hnamed _] Hp. apply section_next_code; [by apply Hown|]. intros Hn.
  rewrite (Hnamed i p Hp); [by rewrite Hn|]. unfold inside, named in *. by destruct (where_ p).
Qed.

Lemma section_reached_run i c c' n :
  reached c n → step wake_up (Run i) c = Some (Ok c') → ∃ n', reached c' n' ∧ (n' < n)%nat.
Proof.
  intros (ps & Ht & Hi & <-) (p & p' & m' & Hp & Hn & ->)%step_run_inv.
  rewrite Ht in Hp. apply lookup_code in Hp as (q & Hq & ->). rewrite (section_next_pos ps _ i q Hi Hq) in Hn.
  destruct (pos_step i q (shared c)) as [[q' m1]|] eqn:Hs; [|done]. simpl in Hn. injection Hn as <- <-.
  eexists. split; [exists (<[i := q']> ps); simpl; split; [|split; [|reflexivity]]|].
  - rewrite Ht. apply imap_upd. by eapply lookup_lt_Some.
  - by eapply section_inv_pos_step.
  - eapply total_lt; [done|by eapply section_weight_step|done].
Qed.

Lemma section_reached_spurious i c c' n :
  reached c n → step wake_up (Spurious i) c = Some (Ok c') → ∃ n', reached c' n' ∧ (n' <= n + 0)%nat.
Proof. intros (ps & Ht & Hi & <-) [= <-]. eexists. split; [by exists ps|lia]. Qed.

Lemma start_total rs : (total weight (mkPos Away <$> rs) = 5 * sum_list rs)%nat.
Proof.
  unfold total. rewrite imap_fmap. unfold weight, compose. simpl.
  induction rs as [|r rs IH]; [done|]. simpl in *. unfold compose in *. lia.
Qed.

Lemma section_reached_start rs : reached (start rs) (5 * sum_list rs).
Proof.
  exists (mkPos Away <$> rs). split; [|split; [|apply start_total]].
  - unfold start. simpl. rewrite imap_fmap. by apply imap_ext.
  - assert (∀ j q, (mkPos Away <$> rs) !! j = Some q → inside q = false) as Ho.
    { intros j q. rewrite list_lookup_fmap. destruct (rs !! j); [|done]. by intros [= <-]. }
    split; try done; intros j q Hq Hi; rewrite (Ho j q Hq) in Hi; done.
Qed.

Lemma section_run_reached rs ls c : run wake_up ls (start rs) c →
  ∃ n, reached c n ∧ (length ls + n <= 5 * sum_list rs + spurious ls)%nat.
Proof.
  intros Hr. destruct (run_bounded wake_up reached 0 ls _ c _ section_reached_run section_reached_spurious (section_reached_start rs) Hr)
    as (n & Hn & Hb). exists n. split; [done|]. lia.
Qed.

Lemma no_fault_reached c n : reached c n → no_fault wake_up c.
Proof.
  intros (ps & Ht & Hi & _) l f (i & p & Hp & Hf)%step_fault_inv. rewrite Ht in Hp.
  apply lookup_code in Hp as (q & Hq & ->). rewrite (section_next_pos ps _ i q Hi Hq) in Hf.
  by destruct (pos_step i q (shared c)) as [[]|].
Qed.

(** ** Properties *)

(** C12: with any number of threads that enter guarded sections, in any
    interleaving: no [assertLocked] fails and no thread gives up a mutex it does
    not hold; at most one thread is inside at a time; and as long as one is past
    the constructor of its guard, [holder_] is the id of that thread. *)
Theorem mutex_exclusion rs ls c :
  run wake_up ls (start rs) c →
  no_fault wake_up c ∧
  ∃ ps, threads c = imap code ps ∧
    (∀ i j p q, ps !! i = Some p → ps !! j = Some q → inside p = true → inside q = true → i = j) ∧
    (∀ i p, ps !! i = Some p → named p = true → isLockedByThisThread (self i) (shared c) = true).
Proof.
  intros Hr. destruct (section_run_reached rs ls c Hr) as (n & Hc & _). split; [by eapply no_fault_reached|].
  destruct Hc as (ps & Ht & Hi & _). exists ps. split; [done|]. split.
  - intros i j p q Hp Hq Hip Hjq. pose proof (i_owner _ _ Hi _ _ Hp Hip). pose proof (i_owner _ _ Hi _ _ Hq Hjq).
    congruence.
  - intros i p Hp Hn. unfold isLockedByThisThread. simpl.
    rewrite (i_named _ _ Hi i p Hp), Hn; [by rewrite Z.eqb_refl|]. unfold inside, named in *. by destruct (where_ p).
Qed.

(** C13: every execution is bounded (five steps for each section), and one that
    cannot go on has every thread at its end, with the mutex free and without a
    holder, so that its destructor's assertion holds: no deadlock. *)
Theorem mutex_terminates rs ls c :
  run wake_up ls (start rs) c →
  (length ls <= 5 * sum_list rs + spurious ls)%nat ∧
  (can_step wake_up c ∨
   (∀ i p, threads c !! i = Some p → p = Ret) ∧ mutex_ (shared c) = None ∧
   next MutexLock_delete (shared c) = Some (Ok (Ret, shared c))).
Proof.
  intros Hr. destruct (section_run_reached rs ls c Hr) as (n & (ps & Ht & Hi & _) & Hb). split; [lia|].
  assert (∀ i p, ps !! i = Some p → pos_step i p (shared c) ≠ None → can_step wake_up c) as Hgo.
  { intros i p Hp Hs. destruct (pos_step i p (shared c)) as [[p' m']|] eqn:E; [|done].
    exists i. eexists. eapply step_run; [by rewrite Ht, list_lookup_imap, Hp|].
    by rewrite (section_next_pos ps _ i p Hi Hp), E. }
  destruct (mutex_ (shared c)) as [j|] eqn:Hm.
  { left. destruct (i_owned _ _ Hi j Hm) as (q & Hq & Hin). apply (Hgo j q Hq).
    unfold pos_step, inside in *. by destruct (where_ q). }
  assert (∀ i p, ps !! i = Some p → where_ p = Away) as Haway.
  { intros i p Hp. destruct (inside p) eqn:E; [pose proof (i_owner _ _ Hi i p Hp E); congruence|].
    unfold inside in E. by destruct (where_ p). }
  destruct (decide (Forall (λ p, left_ p = 0%nat) ps)) as [Hall|Hsome].
  - right. split; [|split; [done|]].
    + intros i p Hp. rewrite Ht in Hp. apply lookup_code in Hp as (q & Hq & ->).
      unfold code. rewrite (Haway i q Hq). rewrite Forall_lookup in Hall. by rewrite (Hall i q Hq).
    + unfold MutexLock_delete, assert_that, act. simpl. by rewrite (i_free _ _ Hi Hm).
  - left. apply not_Forall_Exists in Hsome; [|apply _]. apply Exists_exists in Hsome as (p & Hp & Hne).
    apply list_elem_of_lookup in Hp as [i Hp]. apply (Hgo i p Hp). unfold pos_step. rewrite (Haway i p Hp), Hm.
    unfold compose in Hne. by destruct (left_ p).
Qed.
End machine.

(** ** Witnesses: three threads and four sections *)

Definition demo_self (i : nat) : Z := 100 + Z.of_nat i.
Definition demo_sections : list nat := [1; 2; 1]%nat.
(** Thread 1 waits for thread 0, thread 2 comes before it. *)
Definition demo_schedule : list label :=
  Run <$> [0; 0; 0; 0; 0; 2; 2; 2; 2; 2; 1; 1; 1; 1; 1; 1; 1; 1; 1; 1]%nat.

Lemma mutex_exclusion_witness :
  let c := final wake_up (take 7 demo_schedule) (start demo_self demo_sections) in
  no_fault wake_up c ∧ holder_ (shared c) = 102.
Proof.
  split; [|vm_compute; reflexivity].
  destruct (mutex_exclusion demo_self demo_sections (take 7 demo_schedule)
    (final wake_up (take 7 demo_schedule) (start demo_self demo_sections))) as [H _];
    [apply run_final; vm_compute; reflexivity|exact H].
Defined.

Lemma mutex_terminates_witness :
  let c := final wake_up demo_schedule (start demo_self demo_sections) in
  length demo_schedule = 20%nat ∧ (length demo_schedule <= 5 * sum_list demo_sections + spurious demo_schedule)%nat ∧
  (can_step wake_up c ∨ (∀ i p, threads c !! i = Some p → p = Ret) ∧ mutex_ (shared c) = None ∧
     next MutexLock_delete (shared c) = Some (Ok (Ret, shared c))).
Proof.
  split; [reflexivity|]. apply (mutex_terminates demo_self demo_sections demo_schedule).
  apply run_final. vm_compute. reflexivity.
Defined.
