(* ===== verification/EventLoopThread.v ===== *)
(** * EventLoopThread: a thread with an event loop

    Models src/muduo/EventLoopThread.h and EventLoopThread.cpp: [startLoop]
    starts a thread and waits until the loop on that thread's stack exists; the
    destructor stops the loop and joins the thread.  Of the [EventLoop] this
    file keeps what the two threads share, its life time, [looping_] and
    [quit_], with the statements of [EventLoop::loop] and [EventLoop::quit]
    (src/muduo/EventLoop.cpp) on them; EventLoop.v models the rest.  The rounds
    of the loop are one step that waits for [quit_]: [quit] does not wake the
    poll up (see [EventLoop.wakeup_never_signals]), the loop sees the flag when
    the poll times out. *)

From S2P Require Import Prelude Sync Threads.

Record EventLoopThread : Type := mkEventLoopThread {
  loop_ : bool;         (* not null: the address of the loop below *)
  exiting_ : bool;
  thread_ : Thread;
  elt_mutex : MutexLock;
  elt_cond : pthread_cond;
  (* the EventLoop *)
  loop_alive : bool;
  looping_ : bool;
  quit_ : bool;
}.

Section setters.
Context (e : EventLoopThread).
Definition set_loop (b : bool) : EventLoopThread :=
  mkEventLoopThread b (exiting_ e) (thread_ e) (elt_mutex e) (elt_cond e) (loop_alive e) (looping_ e) (quit_ e).
Definition set_exiting (b : bool) : EventLoopThread :=
  mkEventLoopThread (loop_ e) b (thread_ e) (elt_mutex e) (elt_cond e) (loop_alive e) (looping_ e) (quit_ e).
Definition set_thread (t : Thread) : EventLoopThread :=
  mkEventLoopThread (loop_ e) (exiting_ e) t (elt_mutex e) (elt_cond e) (loop_alive e) (looping_ e) (quit_ e).
Definition set_mutex (m : MutexLock) : EventLoopThread :=
  mkEventLoopThread (loop_ e) (exiting_ e) (thread_ e) m (elt_cond e) (loop_alive e) (looping_ e) (quit_ e).
Definition set_cond (c : pthread_cond) : EventLoopThread :=
  mkEventLoopThread (loop_ e) (exiting_ e) (thread_ e) (elt_mutex e) c (loop_alive e) (looping_ e) (quit_ e).
Definition set_alive (b : bool) : EventLoopThread :=
  mkEventLoopThread (loop_ e) (exiting_ e) (thread_ e) (elt_mutex e) (elt_cond e) b false false.
Definition set_looping (b : bool) : EventLoopThread :=
  mkEventLoopThread (loop_ e) (exiting_ e) (thread_ e) (elt_mutex e) (elt_cond e) (loop_alive e) b (quit_ e).
Definition set_quit (b : bool) : EventLoopThread :=
  mkEventLoopThread (loop_ e) (exiting_ e) (thread_ e) (elt_mutex e) (elt_cond e) (loop_alive e) (looping_ e) b.
End setters.

#[local] Instance elt_thread_lens : Lens EventLoopThread Thread := {| lget := thread_; lset := λ t e, set_thread e t |}.
#[local] Instance elt_mutex_lens : Lens EventLoopThread MutexLock := {| lget := elt_mutex; lset := λ m e, set_mutex e m |}.
#[local] Instance elt_cond_lens : Lens EventLoopThread pthread_cond := {| lget := elt_cond; lset := λ c e, set_cond e c |}.

(** [EventLoopThread::EventLoopThread]: the thread object is given. *)
Definition EventLoopThread_new (t : Thread) : EventLoopThread :=
  mkEventLoopThread false false t MutexLock_new ∅ false false false.

Section programs.
(** The creator is thread 0, the new thread is thread 1, each with its id; the
    thread that [notify] wakes. *)
Context (self0 self1 : Z) (choose : pthread_cond → nat).

(** [*loop_]: the object must exist. *)
Definition on_loop (f : EventLoopThread → EventLoopThread) : prog EventLoopThread :=
  act (λ e, if negb (loop_ e) then Fault NullDeref
            else if loop_alive e then Go (f e) else Fault DanglingPtr).

(** [EventLoop::quit], [EventLoop::loop] and [EventLoop::~EventLoop]. *)
Definition loop_quit : prog EventLoopThread := on_loop (λ e, set_quit e true).
Definition loop_loop : prog EventLoopThread := (
  assert_that (λ e, negb (looping_ e)) >>
  do_ (λ e, set_looping e true) >>
  do_ (λ e, set_quit e false) >>
  until quit_ >>
  do_ (λ e, set_looping e false))%prog.
Definition loop_delete : prog EventLoopThread := (
  assert_that (λ e, negb (looping_ e)) >> do_ (λ e, set_alive e false))%prog.

Definition startLoop : prog EventLoopThread := (
  assert_that (λ e, negb (started_ (thread_ e))) >>
  start true >>
  lock 0 self0 >>
  while_ (λ e, negb (loop_ e)) (condition_wait 0) >>
  unlock 0)%prog.

Definition threadFunc : prog EventLoopThread := (
  do_ (λ e, set_alive e true) >>
  lock 1 self1 >>
  do_ (λ e, set_loop e true) >>
  notify choose >>
  unlock 1 >>
  loop_loop >>
  loop_delete)%prog.

(** [~EventLoopThread], with the destructors of [mutex_] and [thread_]. *)
Definition EventLoopThread_delete : prog EventLoopThread := (
  do_ (λ e, set_exiting e true) >>
  loop_quit >>
  join >>
  MutexLock_delete >>
  Thread_delete)%prog.
End programs.

Definition wake_up (i : nat) (e : EventLoopThread) : EventLoopThread :=
  set_cond e (elt_cond e ∖ {[i]}).

(** A thread object with nothing done yet, as [EventLoopThread] makes it. *)
Definition fresh_thread : Thread := mkThread false false 0 [] true false false false (t_threadName CurrentThread_init).

(** ** The two threads: [startLoop] and the destructor, and the new thread *)

(** Where the threads are, whether the creator is asleep on [cond_], the flag
    of the loop and what is left in [holder_]. *)
Record place : Type := mkPlace {
  creator : nat;
  child : nat;
  asleep : bool;
  flag : bool;
  held : Z;
}.

(** A program after the first [n] statements of its own. *)
Fixpoint skip {S} (n : nat) (p : prog S) : prog S :=
  match n, p with
  | O, _ | _, Ret => p
  | Datatypes.S n', Act _ k | Datatypes.S n', If _ _ _ k | Datatypes.S n', While _ _ k => skip n' k
  end.

Section life.
Context (self0 self1 : Z) (choose : pthread_cond → nat).

Definition owner_code : prog EventLoopThread := (startLoop self0 >> EventLoopThread_delete)%prog.
Definition new_code : prog EventLoopThread := startThread self1 (threadFunc self1 choose).

(** 8 and 9 are inside the loop of [startLoop], 12 is its end; the new thread
    is in the loop's [while] at 13. *)
Definition creator_code (n : nat) : prog EventLoopThread :=
  match n with
  | 8%nat => (condition_wait 0 >> skip 7 owner_code)%prog
  | 9%nat => (on_cond (pthread_cond_wake 0) >> skip 7 owner_code)%prog
  | _ => skip (if bool_decide (n <= 7)%nat then n else n - 2)%nat owner_code
  end.
Definition child_code (n : nat) : prog EventLoopThread := skip n new_code.

Definition creator_inside (kp : nat) : bool := bool_decide (kp ∈ [6; 7; 8; 10; 11]%nat).
Definition child_inside (kc : nat) : bool := bool_decide (kc ∈ [5; 6; 7; 8; 9]%nat).

Definition state (x : place) : EventLoopThread :=
  let kp := creator x in let kc := child x in
  mkEventLoopThread (7 <=? kc)%nat (13 <=? kp)%nat
    (mkThread (3 <=? kp)%nat (17 <=? kp)%nat (if (2 <=? kc)%nat then self1 else 0) []
       (kp <=? 20)%nat (4 <=? kp)%nat (19 <=? kc)%nat false
       (new_name (if (18 <=? kc)%nat then set_new_name fresh_thread (str "finished") else fresh_thread)))
    (mkMutexLock (if creator_inside kp then Some 0%nat else if child_inside kc then Some 1%nat else None)
       (if (11 <=? kp)%nat then 0 else held x))
    (if asleep x then {[0%nat]} else ∅)
    ((4 <=? kc) && (kc <=? 16))%nat ((12 <=? kc) && (kc <=? 14))%nat (if (17 <=? kc)%nat then false else flag x).

Definition conf (x : place) : machine EventLoopThread :=
  mkMachine [creator_code (creator x); child_code (child x)] (state x).

Definition legal (x : place) : bool :=
  let kp := creator x in let kc := child x in
  bool_decide (kp <= 21 ∧ kc <= 19)%nat &&
  (if bool_decide (kp <= 3)%nat then bool_decide (kc = 0%nat) else true) &&
  negb (creator_inside kp && child_inside kc) &&
  (if bool_decide (kp = 8%nat) then bool_decide (kc <= 6)%nat else true) &&
  (if bool_decide (10 <= kp)%nat then bool_decide (10 <= kc)%nat else true) &&
  (if bool_decide (18 <= kp)%nat then bool_decide (kc = 19%nat) else true) &&
  (if bool_decide (kp <= 13)%nat then bool_decide (kc <= 13)%nat && negb (flag x) else true) &&
  (if bool_decide (14 <= kc)%nat then flag x else true) &&
  (if asleep x then bool_decide (kp = 9 ∧ kc <= 7)%nat else true).

Definition succ (l : label) (x : place) : option place :=
  let kp := creator x in let kc := child x in
  match l with
  | Run 0%nat =>
      match kp with
      | 5%nat => if child_inside kc then None else Some (mkPlace 6 kc false (flag x) (held x))
      | 6%nat => Some (mkPlace 7 kc false (flag x) self0)
      | 7%nat => Some (mkPlace (if bool_decide (kc <= 6)%nat then 8 else 10)%nat kc false (flag x) (held x))
      | 8%nat => Some (mkPlace 9 kc true (flag x) (held x))
      | 9%nat => if (asleep x || child_inside kc) then None else Some (mkPlace 7 kc false (flag x) (held x))
      | 13%nat => Some (mkPlace 14 kc false true (held x))
      | 17%nat => if bool_decide (19 <= kc)%nat then Some (mkPlace 18 kc false (flag x) (held x)) else None
      | 21%nat => None
      | _ => Some (mkPlace (S kp) kc false (flag x) (held x))
      end
  | Run 1%nat =>
      match kc with
      | 0%nat => if bool_decide (4 <= kp)%nat then Some (mkPlace kp 1 (asleep x) (flag x) (held x)) else None
      | 4%nat => if creator_inside kp then None else Some (mkPlace kp 5 (asleep x) (flag x) (held x))
      | 5%nat => Some (mkPlace kp 6 (asleep x) (flag x) self1)
      | 7%nat => Some (mkPlace kp 8 false (flag x) (held x))
      | 8%nat => Some (mkPlace kp 9 (asleep x) (flag x) 0)
      | 12%nat => Some (mkPlace kp 13 (asleep x) false (held x))
      | 13%nat => if flag x then Some (mkPlace kp 14 (asleep x) true (held x)) else None
      | 19%nat => None
      | _ => Some (mkPlace kp (S kc) (asleep x) (flag x) (held x))
      end
  | Run _ => None
  | Spurious 0%nat => Some (mkPlace kp kc false (flag x) (held x))
  | Spurious _ => Some x
  end.

Definition measure (x : place) : nat :=
  let open := bool_decide (child x <= 6)%nat in
  let left_ := match creator x with
    | 7%nat => if open then 15 else 12
    | 8%nat => 14
    | 9%nat => if asleep x then 13 else if open then 16 else 13
    | kp => if bool_decide (kp <= 6)%nat then 22 - kp else 21 - kp
    end%nat in
  (left_ + (19 - child x))%nat.

(** Proves a property of every legal place by looking at each. *)
Ltac each_place tac :=
  let kp := fresh "kp" in let kc := fresh "kc" in let a := fresh "a" in let q := fresh "q" in
  let h := fresh "h" in let Hl := fresh "Hl" in
  intros [kp kc a q h] Hl;
  assert (kp < 22 ∧ kc < 20)%nat as [? ?]
    by (unfold legal in Hl; simpl in Hl;
        destruct (bool_decide_reflect (kp <= 21 ∧ kc <= 19)%nat); [lia|discriminate Hl]);
  do 22 (destruct kp as [|kp];
         [do 20 (destruct kc as [|kc]; [destruct a, q; first [discriminate Hl|tac]|]); exfalso; lia|]);
  exfalso; lia.

Lemma loop_creator_sim : ∀ x, legal x = true →
  step wake_up (Run 0) (conf x) = (λ y, Ok (conf y)) <$> succ (Run 0) x.
Proof using Type. each_place ltac:(reflexivity). Qed.

(** [notify] wakes the creator if it is asleep. *)
Lemma signal_creator x : choose {[0%nat]} = 0%nat →
  pthread_cond_signal choose (elt_cond (state x)) = ∅.
Proof using Type.
  intros Hc. unfold pthread_cond_signal, state. simpl. destruct (asleep x); [rewrite Hc|]; set_solver.
Qed.

Lemma loop_child_sim : choose {[0%nat]} = 0%nat → ∀ x, legal x = true →
  step wake_up (Run 1) (conf x) = (λ y, Ok (conf y)) <$> succ (Run 1) x.
Proof using Type.
  intros Hc. each_place ltac:(first [reflexivity|
    match goal with |- step _ _ (conf ?x) = _ =>
      transitivity (Some (Ok (mkMachine [creator_code (creator x); child_code 8]
        (set_cond (state x) (pthread_cond_signal choose (elt_cond (state x)))))));
      [reflexivity|rewrite (signal_creator x Hc); reflexivity]
    end]).
Qed.

Lemma loop_wake_sim x :
  step wake_up (Spurious 0) (conf x) = (λ y, Ok (conf y)) <$> succ (Spurious 0) x.
Proof using Type.
  simpl. unfold conf, wake_up, state, set_cond. simpl. do 4 f_equal. destruct (asleep x); set_solver.
Qed.

Lemma loop_thread_sim l x : choose {[0%nat]} = 0%nat → legal x = true →
  step wake_up l (conf x) = (λ y, Ok (conf y)) <$> succ l x.
Proof using Type.
  intros Hc Hl. destruct l as [[|[|i]]|[|i]].
  - by apply loop_creator_sim.
  - by apply loop_child_sim.
  - done.
  - apply loop_wake_sim.
  - simpl. unfold conf, wake_up, state, set_cond. simpl. do 4 f_equal. destruct (asleep x); set_solver.
Qed.

(** Boolean properties of the places, evaluated on all of them: none looks at
    what is left in [holder_]. *)
Definition places (h : Z) : list place :=
  kp ← seq 0 22; kc ← seq 0 20; a ← [true; false]; q ← [true; false]; [mkPlace kp kc a q h].

Lemma legal_bounds x : legal x = true → (creator x < 22 ∧ child x < 20)%nat.
Proof using Type.
  unfold legal. intros Hl. destruct (bool_decide_reflect (creator x <= 21 ∧ child x <= 19)%nat); [lia|discriminate Hl].
Qed.

Lemma elem_of_places x : legal x = true → x ∈ places (held x).
Proof using Type.
  intros Hl%legal_bounds. destruct x as [kp kc a q h]. simpl in *. unfold places.
  apply list_elem_of_bind. exists kp. split; [|apply elem_of_seq; lia].
  apply list_elem_of_bind. exists kc. split; [|apply elem_of_seq; lia].
  apply list_elem_of_bind. exists a. split; [|destruct a; set_solver].
  apply list_elem_of_bind. exists q. split; [set_solver|destruct q; set_solver].
Qed.

Lemma all_places (f : place → bool) :
  (∀ h, forallb (λ x, implb (legal x) (f x)) (places h) = true) → ∀ x, legal x = true → f x = true.
Proof using Type.
  intros Hf x Hl. pose proof (Hf (held x)) as H. rewrite forallb_forall in H.
  specialize (H x). rewrite Hl in H. apply H. by apply list_elem_of_In, elem_of_places.
Qed.

Definition run_ok (i : nat) (x : place) : bool :=
  match succ (Run i) x with Some y => legal y && (measure y <? measure x)%nat | None => true end.

Lemma loop_run_legal : ∀ x, legal x = true → run_ok 0 x && run_ok 1 x = true.
Proof using Type. apply all_places. intros h. vm_compute. reflexivity. Qed.

Definition woken (x : place) : place := mkPlace (creator x) (child x) false (flag x) (held x).

Lemma loop_spurious_legal : ∀ x, legal x = true →
  legal (woken x) && (measure (woken x) <=? measure x + 3)%nat = true.
Proof using Type. apply all_places. intros h. vm_compute. reflexivity. Qed.






Definition start_place : place := mkPlace 0 0 false false 0.

Lemma run_step i x y : legal x = true → succ (Run i) x = Some y → legal y = true ∧ (measure y < measure x)%nat.
Proof using Type.
  intros Hl Hs. pose proof (loop_run_legal x Hl) as [H0 H1]%andb_true_iff. unfold run_ok in *.
  destruct i as [|[|i]]; [rewrite Hs in H0|rewrite Hs in H1|done].
  - by apply andb_true_iff in H0 as [? ?%Nat.ltb_lt].
  - by apply andb_true_iff in H1 as [? ?%Nat.ltb_lt].
Qed.

Lemma spurious_step i x y : legal x = true → succ (Spurious i) x = Some y →
  legal y = true ∧ (measure y <= measure x + 3)%nat.
Proof using Type.
  intros Hl Hs. pose proof (loop_spurious_legal x Hl) as [? ?%Nat.leb_le]%andb_true_iff.
  destruct i as [|i]; injection Hs as <-; [done|]. split; [done|lia].
Qed.


(** The owner destroys the object as soon as [startLoop] has returned. *)
Definition lost_schedule : list label :=
  Run <$> (replicate 5 0 ++ replicate 10 1 ++ replicate 10 0 ++ replicate 3 1)%nat.
End life.

Definition start_machine (self0 self1 : Z) (choose : pthread_cond → nat) : machine EventLoopThread :=
  mkMachine [owner_code self0; new_code self1 choose] (EventLoopThread_new fresh_thread).


(** The destructor can hang: if it calls [quit] after [startLoop] returned
    but before the new thread is in [EventLoop::loop], which begins with
    [quit_ = false], the request is lost; the owner then waits in [join] for a
    loop that no one will stop, and neither thread can ever take a step. *)
Theorem quit_can_be_lost self0 self1 choose :
  choose {[0%nat]} = 0%nat →
  ∃ c, run wake_up (lost_schedule) (start_machine self0 self1 choose) c ∧
    ¬ can_step wake_up c ∧
    threads c = [skip 15 (owner_code self0); skip 13 (new_code self1 choose)] ∧
    exiting_ (shared c) = true ∧ quit_ (shared c) = false ∧ looping_ (shared c) = true.
Proof.
  intros Hc. pose proof (λ l x, loop_thread_sim self0 self1 choose l x Hc) as Hsim.
  destruct (follow_run wake_up (conf self0 self1 choose) legal (succ self0 self1) measure 3 Hsim
    (run_step self0 self1) (spurious_step self0 self1) lost_schedule start_place (mkPlace 17 13 false false self0))
    as [Hr Hl]; [reflexivity|vm_compute; reflexivity|].
  exists (conf self0 self1 choose (mkPlace 17 13 false false self0)). split; [exact Hr|]. split; [|done].
  apply (shapes_stuck wake_up (conf self0 self1 choose) legal (succ self0 self1) Hsim); [done|].
  by intros [|[|i]].
Qed.

(** ** Witnesses and examples *)

Definition first_of (c : pthread_cond) : nat := default 0%nat (head (elements c)).

Definition demo : machine EventLoopThread := start_machine 100 101 first_of.



Lemma quit_can_be_lost_witness : ∃ c, run wake_up lost_schedule demo c ∧ ¬ can_step wake_up c.
Proof.
  destruct (quit_can_be_lost 100 101 first_of ltac:(vm_compute; reflexivity)) as (c & Hr & Hs & _).
  exists c. split; [exact Hr|exact Hs].
Defined.

(** Destroyed without [startLoop]: a null pointer. *)
Example never_started :
  schedule wake_up [Run 0; Run 0]%nat (mkMachine [EventLoopThread_delete] (EventLoopThread_new fresh_thread)) =
    Some (Err NullDeref).
Proof. vm_compute. reflexivity. Qed.

(** [Condition::wait] does not keep [holder_]: after it, the thread that holds
    the mutex is not known as its holder, and [assertLocked] would fail. *)
Example wait_loses_holder :
  let c := final wake_up (Run <$> (replicate 9 0 ++ replicate 10 1 ++ replicate 2 0)%nat) demo in
  mutex_ (elt_mutex (shared c)) = Some 0%nat ∧ isLockedByThisThread 100 (shared c) = false.
Proof. split; vm_compute; reflexivity. Qed.
