(* ===== verification/ServerLoop.v ===== *)
(** * ServerLoop: a server in the rounds of its loop

    Composes [EventLoop::loop], the poller, the dispatch of channels and the
    handlers of the connections (EventLoop.v, Poller.v, TcpConnection.v) with
    the server of TcpServer.v: whatever the kernel reports, round after round.
    [kept] is what every handler leaves alone, proved command by command;
    [running] is the invariant of the rounds. *)

From S2P Require Import Prelude Callbacks Channel Timestamp.
From S2P Require Poller EventLoopThreadPool.
From S2P Require Import EventLoop Sockets TcpConnection Rounds TcpServer.

#[local] Abbreviation kept := (Rounds.kept harmless).
#[local] Abbreviation keeps := (Rounds.keeps harmless).

Section keeps_handlers.
Context (ew : eventfd_model) (tid : Z) (end_first : Timestamp).
Context (queue_on : nat → closure → M (Net TcpServer) unit).

Lemma kp_conn {X} c : Rounds.keeps harmless (X:=X) (conn c).
Proof. unfold conn. keep. Qed.
#[local] Hint Resolve @kp_conn : kept.
Lemma kp_conn_channel {X} c : Rounds.keeps harmless (X:=X) (conn_channel c).
Proof. unfold conn_channel. keep. Qed.
Lemma kp_on_output {X A} c (m : M Buffer.Buffer A) : Rounds.keeps harmless (X:=X) (on_output c m).
Proof. unfold on_output. keep. Qed.
Lemma kp_queue_write_complete {X} c : Rounds.keeps harmless (X:=X) (queue_write_complete ew tid c).
Proof. unfold queue_write_complete. keep. Qed.
Lemma kp_call_user {X} cb ev : Rounds.keeps harmless (X:=X) (call_user cb ev).
Proof. unfold call_user. keep. Qed.
#[local] Hint Resolve @kp_conn_channel @kp_on_output @kp_queue_write_complete @kp_call_user : kept.
Lemma kp_sendInLoop {X} c m : Rounds.keeps harmless (X:=X) (sendInLoop ew tid c m).
Proof. unfold sendInLoop. keep. Qed.
Lemma kp_shutdownInLoop {X} c : Rounds.keeps harmless (X:=X) (shutdownInLoop tid c).
Proof. unfold shutdownInLoop. keep. Qed.
#[local] Hint Resolve @kp_sendInLoop @kp_shutdownInLoop : kept.
Lemma kp_handleError {X} c : Rounds.keeps harmless (X:=X) (handleError c).
Proof. unfold handleError. keep. Qed.
Lemma kp_handleWrite {X} c : Rounds.keeps harmless (X:=X) (handleWrite ew tid c).
Proof. unfold handleWrite. keep. Qed.
Lemma kp_connectDestroyed {X} c : Rounds.keeps harmless (X:=X) (connectDestroyed tid c).
Proof. unfold connectDestroyed. keep. Qed.
#[local] Hint Resolve @kp_connectDestroyed : kept.

(** In the loop's own thread, the close of a connection of the server runs to
    its end at once. *)
Lemma server_handleClose_eq s name c k ch i p :
  threadId_ (net_loop s) = tid → connections_ (net_ext s) !! name = Some c →
  est c (net_loop s) (net_conns s) k ch i p → name_ k = name →
  TcpConnection.closeCallback_ k = Some CloseTcpServer_removeConnection →
  handleClose tid (call_close ew tid end_first queue_on) c s =
    (zoom (change_mask tid DisableAll (channel_ k)) ;;
     upd_server (λ t, set_connections t (delete name (connections_ t))) ;;
     connectDestroyed tid c) s.
Proof.
  intros Ht Hc He <- Hcl.
  destruct (est_change_mask tid DisableAll c s k ch i p He) as (e & p' & E & He1 & Ht1 & _).
  set (s1 := lset e s) in *. set (s2 := with_ext (without s (name_ k)) s1).
  assert (threadId_ (net_loop s1) = tid) as Ht1' by exact (eq_trans Ht1 Ht).
  unfold handleClose. mstep_by (apply loop_check_ok). destruct He. mstep_by (by apply conn_ok).
  mstep_by (unfold assert_; destruct est_state as [-> | ->]; reflexivity).
  mstep_by (exact E). rewrite Hcl. mstep. symmetry. mstep_by (exact E). mstep_by (apply upd_server_ok).
  symmetry. unfold call_close, removeConnection.
  etrans; [by apply (runInLoop_here ew tid (call_server ew tid end_first queue_on) _ s1)|].
  unfold call_server, removeConnectionInLoop. mstep_by (apply loop_check_ok).
  mstep_by (by apply conn_ok). mstep_by (apply server_ok). mstep_by (apply upd_server_ok).
  mstep_by (unfold assert_; rewrite Hc; reflexivity).
  destruct He1. rewrite est_getLoop0.
  exact (run_on_here ew tid end_first queue_on (FnTcpConnection_connectDestroyed c) s2 Ht1').
Qed.
End keeps_handlers.

(** ** The invariant of the rounds *)

Section invariant.
Context (tid : Z).
Implicit Types s : Net TcpServer.

Definition served s (c : chan_id) : Prop :=
  ∃ name d k, connections_ (net_ext s) !! name = Some d ∧ net_conns s !! d = Some k ∧ channel_ k = c.
Definition watched s (c : chan_id) : Prop :=
  (∃ ch, chans_of s !! c = Some ch ∧ passive ch) ∨ served s c.

Record running (budget : Z) s : Prop := mkRunning {
  rn_serving : serving tid budget s;
  rn_quiet : quiet_loop (net_loop s);
  rn_pending : Forall harmless (pendingFunctors_ (net_loop s));
  rn_watched fd c : Poller.channels_ (poller_ (net_loop s)) !! fd = Some c → watched s c;
}.

Lemma watched_mono s s' c :
  kept (net_loop s) (net_loop s') → (served s c → served s' c) → watched s c → watched s' c.
Proof.
  intros [] Hs [(ch & Hc & Hp)|H]; [left|right; auto].
  destruct (kp_dispatch c ch Hc) as (ch' & Hc' & _ & _ & Hw & He & Hcl). exists ch'. split; [done|].
  destruct Hp as (? & ? & ?). split_and!; congruence.
Qed.

(** What a step on one of the connections does to the others, and to itself. *)
Lemma progress_served budget s s' name c k i p msg cost k' ch' p' x :
  serving tid budget s → connections_ (net_ext s) !! name = Some c → net_conns s !! c = Some k →
  progress c i msg cost s k p s' k' ch' p' → net_ext s' = net_ext s → served s x → served s' x.
Proof.
  intros Hs Hc Hk [] Hext (nm & d & kd & Hd & Hkd & Hx). rewrite <- Hext in Hd.
  destruct (decide (d = c)) as [->|Hne].
  - exists nm, c, k'. destruct pr_est, pr_fixed as (_ & Hch & _). split_and!; [done|done|congruence].
  - rewrite Hext in Hd. destruct (sv_conns _ _ _ Hs _ _ Hd) as (kd' & chd & j & q & He & _).
    assert (kd' = kd) as -> by (destruct He; congruence).
    destruct pr_frame. destruct (fr_others _ _ _ _ _ Hne He). exists nm, d, kd. by rewrite Hext.
Qed.

Lemma running_progress budget s s' name c k i p msg cost k' ch' p' :
  running budget s → connections_ (net_ext s) !! name = Some c → net_conns s !! c = Some k →
  name_ k = name → TcpConnection.closeCallback_ k = Some CloseTcpServer_removeConnection → budget ≤ room k →
  progress c i msg cost s k p s' k' ch' p' → net_ext s' = net_ext s → 0 ≤ cost →
  kept (net_loop s) (net_loop s') →
  running (budget - cost) s' ∧ ∀ x, watched s x → watched s' x.
Proof.
  intros [Hs Hq Hp Hw] Hc Hk Hn Hcl Hroom P Hext Hcost Hkept.
  assert (∀ x, watched s x → watched s' x) as Hall.
  { intros x. apply watched_mono; [done|]. by apply (progress_served budget s s' name c k i p msg cost k' ch' p' x Hs). }
  split; [|done]. split.
  - by apply (serving_progress tid budget s s' name c k i p msg cost k' ch' p').
  - by apply (kp_quiet _ _ _ Hkept).
  - by apply (kp_pending _ _ _ Hkept).
  - intros fd x. destruct P as [_ _ _ _ _ _ _ _ [_ Hm _ _]]. rewrite Hm. intros Hx. apply Hall. by eapply Hw.
Qed.
End invariant.

(** ** One channel's events *)

Section rounds.
Context (ew : eventfd_model) (tid : Z) (end_first : Timestamp).
Context (queue_on : nat → closure → M (Net TcpServer) unit).
Context (alloc_conn : Net TcpServer → conn_id) (alloc_chan : Net TcpServer → chan_id).
Context (user_holds : conn_id → bool) (Hholds : ∀ c, user_holds c = true).
Context (budget : Z).
Implicit Types s : Net TcpServer.

Abbreviation fcall := (call ew tid end_first queue_on user_holds).
Abbreviation fend := (end_call user_holds).
Abbreviation fcall_read := (call_read ew tid end_first queue_on alloc_conn alloc_chan user_holds).

(** From [s] to [s'] by work on channel [c] that ends [n] connections. *)
Record stepped (n : nat) (c : chan_id) s s' : Prop := mkStepped {
  st_running : running tid budget s';
  st_kept : kept (net_loop s) (net_loop s');
  st_others x : x ≠ c → watched s x → watched s' x;
  st_accounts : accounts 0 n s s';
  st_conns : connections_ (net_ext s') ⊆ connections_ (net_ext s);
}.

Lemma stepped_refl c s : running tid budget s → stepped 0 c s s.
Proof. intros Hr. split; try done. unfold accounts. lia. Qed.

Lemma stepped_trans n m c s1 s2 s3 : stepped n c s1 s2 → stepped m c s2 s3 → stepped (n + m) c s1 s3.
Proof.
  intros [] []. split; [done|by etrans|auto| |by etrans]. unfold accounts in *. lia.
Qed.

(** The connection of channel [c] is in the map of the server, or closed. *)
Definition live (d : conn_id) (c : chan_id) s : Prop :=
  ∃ name k, connections_ (net_ext s) !! name = Some d ∧ net_conns s !! d = Some k ∧ channel_ k = c.
Definition dead (d : conn_id) (c : chan_id) s : Prop :=
  ∃ k ch, net_conns s !! d = Some k ∧ channel_ k = c ∧ chans_of s !! c = Some ch ∧ events_ ch = kNoneEvent.

Lemma live_serves d c s : running tid budget s → live d c s →
  ∃ name k ch i p, connections_ (net_ext s) !! name = Some d ∧ net_conns s !! d = Some k ∧ channel_ k = c ∧
    est d (net_loop s) (net_conns s) k ch i p ∧ name_ k = name ∧ chans_of s !! c = Some ch ∧
    TcpConnection.closeCallback_ k = Some CloseTcpServer_removeConnection ∧ budget ≤ room k.
Proof.
  intros [Hs _ _ _] (name & k & Hc & Hk & Hch).
  destruct (sv_conns _ _ _ Hs _ _ Hc) as (k' & ch & i & p & He & Hn & Hcl & Hr).
  pose proof (est_conn _ _ _ _ _ _ _ He). destruct (est_reg _ _ _ _ _ _ _ He) as (Hx & _).
  assert (k' = k) as -> by congruence. exists name, k, ch, i, p. split_and!; try done. by subst c.
Qed.

Lemma live_progress d c s (m : M (Net TcpServer) unit) :
  running tid budget s → live d c s → keeps m → keeps_ext m →
  (∀ k ch i p, est d (net_loop s) (net_conns s) k ch i p →
     ∃ s' k' ch' p', m s = Ok (tt, s') ∧ progress d i [] 0 s k p s' k' ch' p') →
  ∃ s', m s = Ok (tt, s') ∧ stepped 0 c s s' ∧ live d c s'.
Proof using Type.
  intros Hr Hl Hkeep Hext Hm.
  destruct (live_serves d c s Hr Hl) as (name & k & ch & i & p & Hc & Hk & Hch & He & Hn & _ & Hcl & Hroom).
  destruct (Hm k ch i p He) as (s' & k' & ch' & p' & E & P). exists s'. split; [done|].
  pose proof (Hext _ _ _ E) as Hx.
  destruct (running_progress tid budget s s' name d k i p [] 0 k' ch' p') as [Hr' Hw]; try done.
  { by eapply Hkeep. }
  rewrite Z.sub_0_r in Hr'. split.
  - split; [done|by eapply Hkeep|auto| |by rewrite Hx]. unfold accounts. rewrite Hx. destruct P. rewrite pr_announced. lia.
  - exists name, k'. destruct P as [[] (_ & Hcc & _)]. split_and!; [by rewrite Hx|done|congruence].
Qed.

Lemma live_error d c s : running tid budget s → live d c s →
  ∃ s', fcall (FnTcpConnection_handleError d) s = Ok (tt, s') ∧ stepped 0 c s s' ∧ live d c s'.
Proof using Type.
  intros Hr Hl. apply live_progress; [done|done|apply kp_handleError|apply ke_handleError|].
  intros k ch i p He. destruct (handleError_spec d s k ch i p He) as (s' & E & P & _). eauto 6.
Qed.

Lemma live_write d c s : running tid budget s → live d c s →
  ∃ s', fcall (FnTcpConnection_handleWrite d) s = Ok (tt, s') ∧ stepped 0 c s s'.
Proof using Type.
  intros Hr Hl. destruct (live_progress d c s (handleWrite ew tid d)) as (s' & E & Hs & _);
    [done|done|apply kp_handleWrite|apply ke_handleWrite| |by exists s'].
  intros k ch i p He. destruct (handleWrite_spec ew tid d s k ch i p He) as (s' & k' & ch' & p' & E & P & _).
  eauto 6.
Qed.

(** A closed connection has nothing to write. *)
Lemma dead_write d c s : running tid budget s → dead d c s →
  fcall (FnTcpConnection_handleWrite d) s = Ok (tt, s).
Proof using Type.
  intros Hr (k & ch & Hk & Hc & Hch & Hn). unfold call, handleWrite. mstep_by (apply loop_check_ok).
  mstep_by (by apply conn_ok).
  mstep_by (unfold conn_channel; mstep_by (by apply conn_ok); rewrite Hc; by apply chan_ok).
  by rewrite (isWriting_none ch Hn).
Qed.

Lemma kept_hangup d c s s' : running tid budget s → live d c s →
  handleClose tid (call_close ew tid end_first queue_on) d s = Ok (tt, s') →
  kept (net_loop s) (net_loop s').
Proof using Type.
  intros Hr Hl E. destruct (live_serves d c s Hr Hl) as (name & k & ch & i & p & Hc & Hk & Hch & He & Hn & _ & Hcl & _).
  rewrite (server_handleClose_eq ew tid end_first queue_on s name d k ch i p) in E;
    [|by apply Hr|done..].
  revert E. apply kp_bind; [auto with kept|]. intros _. apply kp_bind; [|intros _; apply kp_connectDestroyed].
  apply kp_same. by intros s1 a s2 [= _ <-].
Qed.

Lemma live_hangup d c s : running tid budget s → live d c s →
  ∃ s', fcall (FnTcpConnection_handleClose d) s = Ok (tt, s') ∧ stepped 1 c s s' ∧ dead d c s'.
Proof using Hholds.
  intros Hr Hl. pose proof (live_serves d c s Hr Hl) as (name & k & ch & i & p & Hc & Hk & Hch & He & Hn & Hx & Hcl & _).
  pose proof Hr as [Hs Hq Hp Hw].
  destruct (handleClose_serving ew tid end_first queue_on budget s name d Hs Hc)
    as (u & s' & E & Hs' & Hext & Ha & _).
  destruct (server_handleClose_spec ew tid end_first queue_on s name d k ch i p (sv_tid _ _ _ Hs) Hc He Hn Hcl)
    as (u' & q & ch' & E' & _ & Hm & _ & Hch' & _ & Hnone & _).
  assert (s' = mkNet (set_poller (net_loop s) q) (net_kernel s) (<[d := setState k kDisconnected]> (net_conns s))
    (net_events s ++ [OnConnection u' d]) (without s name)) as Es by (rewrite E' in E; by injection E).
  clear E'. pose proof (kept_hangup d c s s' Hr Hl E) as Hkept.
  assert (∀ x, x ≠ c → watched s x → watched s' x) as Hothers.
  { intros x Hne. apply watched_mono; [done|]. intros (nm & e & ke & Hd & Hke & Hx').
    assert (e ≠ d) as Hed by (intros ->; congruence).
    exists nm, e, ke. rewrite Es. simpl. rewrite lookup_insert_ne by done. split; [|done].
    rewrite lookup_delete_ne; [done|]. intros <-. congruence. }
  exists s'. split; [|split].
  - unfold call. mstep_by (exact E). by apply release_held.
  - split; [split|done|done| |].
    + done.
    + by apply (kp_quiet _ _ _ Hkept).
    + by apply (kp_pending _ _ _ Hkept).
    + intros fd x Hfd. rewrite Es in Hfd. simpl in Hfd. rewrite Hm in Hfd.
      apply lookup_delete_Some in Hfd as [Hne Hfd]. apply Hothers; [|by eapply Hw].
      intros ->. apply Hne. destruct (est_reg _ _ _ _ _ _ _ He) as (_ & Hmap & _).
      rewrite (est_fd _ _ _ _ _ _ _ He), Hch in Hmap.
      by apply (Poller.inv_map_inj (poller_ (net_loop s)) (socket_ k) fd c (sv_poller _ _ _ Hs)).
    + unfold accounts. rewrite Hext, Ha, length_app. simpl. rewrite map_size_delete, Hc.
      assert (size (connections_ (net_ext s)) ≠ 0%nat) by (apply map_size_ne_0_lookup; by exists name, d).
      simpl. lia.
    + rewrite Hext. apply delete_subseteq.
  - rewrite Es. exists (setState k kDisconnected), ch'. simpl. split_and!; [apply lookup_insert_eq|done| |done].
    by rewrite <- Hch.
Qed.

(** A flag of a channel. *)
Lemma set_handling_step c ch b s : running tid budget s → chans_of s !! c = Some ch →
  let s' := put_chan c (set_eventHandling ch b) s in
  set_handling c b s = Ok (tt, s') ∧ stepped 0 c s s' ∧ (∀ d, live d c s → live d c s').
Proof using Type.
  intros Hr Hch s'. pose proof (set_handling_ok s c ch b Hch) as E. fold s' in E.
  split; [done|]. pose proof (kp_set_handling harmless c b _ _ _ E) as Hkept. pose proof Hr as [Hs Hq Hp Hw].
  assert (∀ x, watched s x → watched s' x) as Hall by (intros x; by apply watched_mono).
  split; [|done]. split; [|done|auto|unfold accounts; simpl; unfold announced; simpl; lia|done].
  split; [by apply (serving_put_chan tid budget s c ch)|by apply (kp_quiet _ _ _ Hkept)|done|].
  intros fd x Hx. apply Hall. by eapply Hw.
Qed.

Lemma chan_after n c s s' ch : stepped n c s s' → chans_of s !! c = Some ch →
  ∃ ch', chans_of s' !! c = Some ch' ∧ same_dispatch ch ch'.
Proof using Type. intros [_ [Hk _ _ _ _] _ _ _]. apply Hk. Qed.

(** A callback that does its work in [n] steps when it is due. *)
Lemma fire_step (P : Net TcpServer → Prop) n wants cb c s ch f :
  running tid budget s → chans_of s !! c = Some ch → cb ch = Some f →
  (∃ s', fcall f s = Ok (tt, s') ∧ stepped n c s s' ∧ P s') →
  ∃ s' ch', fire fcall wants cb c s = Ok (tt, s') ∧ chans_of s' !! c = Some ch' ∧ same_dispatch ch ch' ∧
    if wants (revents_ ch) then stepped n c s s' ∧ P s' else s' = s.
Proof using Type.
  intros Hr Hc Hcb (s' & E & Hs & HP). destruct (wants (revents_ ch)) eqn:Hw.
  - destruct (chan_after n c s s' ch Hs Hc) as (ch' & Hc' & Hsd). exists s', ch'.
    by rewrite (fire_one fcall wants cb c s ch f).
  - exists s, ch. by rewrite (fire_none fcall wants cb c s ch).
Qed.

Lemma handleEvent_passive c ch t s :
  running tid budget s → chans_of s !! c = Some ch → passive ch → wants_read (revents_ ch) = false →
  ∃ s', handleEvent fcall fcall_read c t s = Ok (tt, s') ∧ stepped 0 c s s'.
Proof using Type.
  intros Hr Hc Hp Hrd.
  destruct (set_handling_step c ch true s Hr Hc) as (E1 & S1 & _).
  set (ch1 := set_eventHandling ch true) in *. set (s1 := put_chan c ch1 s) in *.
  assert (chans_of s1 !! c = Some ch1) as Hc1 by apply lookup_insert_eq.
  destruct (set_handling_step c ch1 false s1 (st_running _ _ _ _ S1) Hc1) as (E2 & S2 & _).
  eexists. split; [by apply handleEvent_passive_eq|exact (stepped_trans _ _ _ _ _ _ S1 S2)].
Qed.

Lemma handleEvent_live d c ch t s :
  running tid budget s → chans_of s !! c = Some ch → live d c s → wants_read (revents_ ch) = false →
  ∃ s' n, handleEvent fcall fcall_read c t s = Ok (tt, s') ∧ stepped n c s s'.
Proof using Hholds.
  intros Hr Hc Hl Hrd.
  destruct (live_serves d c s Hr Hl) as (_ & k & ch' & i & p & _ & _ & Hch & He & _ & Hx & _).
  assert (ch' = ch) as -> by congruence. destruct (est_handlers _ _ _ _ _ _ _ He) as (_ & Hhw & Hhc & Hhe).
  destruct (set_handling_step c ch true s Hr Hc) as (E0 & S0 & Hl0). apply Hl0 in Hl. clear Hl0.
  set (ch0 := set_eventHandling ch true) in *. set (s0 := put_chan c ch0 s) in *.
  assert (chans_of s0 !! c = Some ch0) as Hc0 by apply lookup_insert_eq.
  pose proof (st_running _ _ _ _ S0) as Hr0.
  destruct (fire_step (live d c) 0 wants_error errorCallback_ c s0 ch0 _ Hr0 Hc0 Hhe
    (live_error d c s0 Hr0 Hl)) as (s1 & ch1 & E1 & Hc1 & (Hv1 & _ & Hw1 & _ & Hcl1) & H1).
  assert (stepped 0 c s s1 ∧ live d c s1) as [S1 Hl1].
  { destruct (wants_error _); [|by subst]. destruct H1 as [S H]. split; [exact (stepped_trans _ _ _ _ _ _ S0 S)|done]. }
  pose proof (st_running _ _ _ _ S1) as Hr1. assert (Channel.closeCallback_ ch1 = Some (FnTcpConnection_handleClose d)) as Hf1
    by (rewrite <- Hcl1; exact Hhc).
  destruct (fire_step (dead d c) 1 wants_close Channel.closeCallback_ c s1 ch1 _ Hr1 Hc1 Hf1
    (live_hangup d c s1 Hr1 Hl1)) as (s2 & ch2 & E2 & Hc2 & (Hv2 & _ & Hw2 & _ & _) & H2).
  assert (∃ n, stepped n c s s2 ∧ (live d c s2 ∨ dead d c s2)) as (n & S2 & Hld).
  { destruct (wants_close _); [|subst; eauto]. destruct H2 as [S H]. exists 1%nat. split; [exact (stepped_trans _ _ _ _ _ _ S1 S)|by right]. }
  pose proof (st_running _ _ _ _ S2) as Hr2. assert (writeCallback_ ch2 = Some (FnTcpConnection_handleWrite d)) as Hf2
    by (rewrite <- Hw2, <- Hw1; exact Hhw).
  destruct (fire_step (λ _, True) 0 wants_write writeCallback_ c s2 ch2 _ Hr2 Hc2 Hf2) as (s3 & ch3 & E3 & Hc3 & _ & H3).
  { destruct Hld as [H|H]; [destruct (live_write d c s2 Hr2 H) as (s3 & E & S); eauto|].
    exists s2. split; [by apply (dead_write d c)|]. split; [by apply stepped_refl|done]. }
  assert (stepped n c s s3) as S3.
  { destruct (wants_write _); [|by subst]. destruct H3 as [S _].
    rewrite <- (Nat.add_0_r n). exact (stepped_trans _ _ _ _ _ _ S2 S). }
  destruct (set_handling_step c ch3 false s3 (st_running _ _ _ _ S3) Hc3) as (E4 & S4 & _).
  eexists _, (n + 0)%nat. split; [|exact (stepped_trans _ _ _ _ _ _ S3 S4)].
  unfold handleEvent. mstep_by (exact E0). mstep_by (exact E1). mstep_by (exact E2). mstep_by (by apply chan_ok).
  assert (wants_read (revents_ ch2) = false) as ->.
  { rewrite <- Hv2, <- Hv1. exact Hrd. }
  mstep_by (exact E3). exact E4.
Qed.

Lemma handleEvent_step c ch t s :
  running tid budget s → chans_of s !! c = Some ch → watched s c → wants_read (revents_ ch) = false →
  ∃ s' n, handleEvent fcall fcall_read c t s = Ok (tt, s') ∧ stepped n c s s'.
Proof using Hholds.
  intros Hr Hc [(ch' & Hc' & Hp)|(name & d & k & H)] Hrd.
  - assert (ch' = ch) as -> by congruence. destruct (handleEvent_passive c ch t s) as (s' & E & S); eauto.
  - apply (handleEvent_live d c ch); [done..|by exists name, k|done].
Qed.

(** ** A round of the loop *)

(** From [s] to [s'] by work of the loop that ends [n] connections. *)
Record rounded (n : nat) s s' : Prop := mkRounded {
  rd_running : running tid budget s';
  rd_accounts : accounts 0 n s s';
  rd_conns : connections_ (net_ext s') ⊆ connections_ (net_ext s);
  rd_quit : quit_ (net_loop s') = quit_ (net_loop s);
  rd_looping : looping_ (net_loop s') = looping_ (net_loop s);
}.

Lemma rounded_trans n m s1 s2 s3 : rounded n s1 s2 → rounded m s2 s3 → rounded (n + m) s1 s3.
Proof using Type.
  intros [] []. split; [done| |by etrans|congruence..]. unfold accounts in *. lia.
Qed.

Lemma stepped_rounded n c s s' : stepped n c s s' → rounded n s s'.
Proof using Type. intros [? [] ? ? ?]. by split. Qed.

(** The invariant does not look at the flags of the loop. *)
Lemma running_flags e s :
  running tid budget s → same_loop (net_loop s) e → Forall harmless (pendingFunctors_ e) →
  running tid budget (lset e s).
Proof using Type.
  intros [[Hi Ht Hp Hcb Hid Hconns Hn] Hq _ Hw] Hsame Hpe. pose proof Hsame as (Hpo & Hth & Htd).
  split; [split|..]; simpl; rewrite ?Hpo, ?Hth, ?Htd; try done.
  - intros nm c Hc. destruct (Hconns nm c Hc) as (k & ch & i & p & He & Hr).
    exists k, ch, i, p. split; [|done]. by eapply est_same_loop.
  - unfold quiet_loop. by rewrite Hpo.
  - intros fd c Hc. destruct (Hw fd c Hc) as [(ch & Hch & Hpas)|H]; [left|by right].
    exists ch. unfold chans_of. simpl. by rewrite Hpo.
Qed.

Lemma rounded_flags e s :
  running tid budget s → same_loop (net_loop s) e → Forall harmless (pendingFunctors_ e) →
  quit_ e = quit_ (net_loop s) → looping_ e = looping_ (net_loop s) → rounded 0 s (lset e s).
Proof using Type.
  intros Hr Hsame Hp Hq Hl. split; [by apply running_flags| |done..].
  unfold accounts. change (announced (lset e s)) with (announced s). simpl. lia.
Qed.

(** A functor that only calls the client. *)
Lemma functor_step f s :
  running tid budget s → harmless f → ∃ s', fcall f s = Ok (tt, s') ∧ rounded 0 s s'.
Proof using Hholds.
  intros Hr Hf.
  assert (∀ ev, is_connection ev = false →
    rounded 0 s (mkNet (net_loop s) (net_kernel s) (net_conns s) (net_events s ++ [ev]) (net_ext s))) as Hrec.
  { intros ev Hev. split; try done.
    - destruct Hr as [[] ? ? ?]. by split.
    - unfold accounts, announced. simpl. rewrite filter_app, filter_cons, decide_False by (rewrite Hev; by intros ?).
      rewrite filter_nil, app_nil_r. lia. }
  apply harmless_inv in Hf as [[u ->]|(u & c & ->)].
  - eexists. split; [|by apply (Hrec (OnFunctor u))]. reflexivity.
  - eexists. split; [|by apply (Hrec (OnWriteComplete u c))]. reflexivity.
Qed.

Lemma functors_step l s :
  running tid budget s → Forall harmless l → ∃ s', for_each fcall l s = Ok (tt, s') ∧ rounded 0 s s'.
Proof using Hholds.
  revert s. induction l as [|f l IH]; intros s Hr Hl; cbn [for_each].
  { exists s. split; [done|]. split; try done. unfold accounts. lia. }
  apply Forall_cons in Hl as [Hf Hl]. destruct (functor_step f s Hr Hf) as (s1 & E1 & R1).
  destruct (IH s1 (rd_running _ _ _ R1) Hl) as (s2 & E2 & R2).
  exists s2. split; [by mstep_by (exact E1)|]. exact (rounded_trans _ _ _ _ _ R1 R2).
Qed.

Lemma dePendingFunctors_step s :
  running tid budget s → ∃ s', dePendingFunctors fcall fend s = Ok (tt, s') ∧ rounded 0 s s'.
Proof using Hholds.
  intros Hr. set (s1 := lset (set_pending (EventLoop.set_calling (net_loop s) true) []) s).
  assert (rounded 0 s s1) as R1 by (by apply rounded_flags).
  destruct (functors_step (pendingFunctors_ (net_loop s)) s1 (rd_running _ _ _ R1)) as (s2 & E2 & R2); [by destruct Hr|].
  assert (rounded 0 s2 (lset (EventLoop.set_calling (net_loop s2) false) s2)) as R3.
  { apply rounded_flags; try done; [by destruct R2|]. by destruct (rd_running _ _ _ R2). }
  eexists. split; [|exact (rounded_trans _ _ _ _ _ R1 (rounded_trans _ _ _ _ _ R2 R3))].
  unfold dePendingFunctors. mstep_by reflexivity. fold s1. mstep_by (exact E2). mstep_by reflexivity.
  by apply destroy_held.
Qed.

(** What the poller reports is about connections of the server, and passive
    channels; never a read event. *)
Definition reported act s : Prop :=
  NoDup act ∧ ∀ c, c ∈ act → watched s c ∧ ∃ ch, chans_of s !! c = Some ch ∧ wants_read (revents_ ch) = false.

Lemma running_poll r s act q :
  running tid budget s →
  Poller.filled (Poller.polled (poller_ (net_loop s)) r)
    (Poller.kernel_poll (Poller.pollfds_ (poller_ (net_loop s))) r) act q →
  quiet q → running tid budget (lset (set_poller (net_loop s) q) s).
Proof using Type.
  intros [[Hi Ht Hp Hcb Hid Hconns Hn] _ Hpe Hw] Hf Hq.
  destruct (Poller.poll_filled _ _ _ _ Hi Hf) as (Hiq & _).
  split; [split|done|done|]; simpl; try done.
  - intros nm c Hc. destruct (Hconns nm c Hc) as (k & ch & i & p & [] & Hrest).
    destruct (Poller.filled_registered _ _ _ _ _ _ _ _ Hf est_reg) as (ch' & Hr & Hch').
    exists k, ch', i. eexists. split; [|done].
    destruct Hch' as [->|[ev ->]]; by split.
  - destruct Hf as (_ & Hm & _ & _ & Hch). rewrite Hm. intros fd c Hc.
    destruct (Hw fd c Hc) as [(ch & Hx & Hpas)|H]; [left|by right].
    destruct (Hch c ch Hx) as [(ev & _ & E)|[_ E]]; eauto.
Qed.

Lemma poll_step ready s :
  running tid budget s →
  ∃ t act q, Poller.poll ready [] (poller_ (net_loop s)) = Ok ((t, act), q) ∧
    let s' := lset (set_poller (net_loop s) q) s in running tid budget s' ∧ reported act s'.
Proof using Type.
  intros Hr. pose proof Hr as [Hs Hq _ Hw]. destruct ready as [r|].
  2: { exists 0, [], (poller_ (net_loop s)). split; [done|]. cbv zeta. rewrite set_poller_id.
       assert (lset (net_loop s) s = s) as -> by by destruct s. split; [done|]. split; [constructor|].
       by intros c ?%not_elem_of_nil. }
  destruct (Poller.poll_fills (poller_ (net_loop s)) r) as (act & q & E & Hf); [apply Hs| |].
  { intros p Hin. by destruct (proj2 Hq p Hin) as [-> | ->]. }
  destruct (quiet_poll _ _ _ _ _ E Hq) as [Hqq Hun]. exists 0, act, q. split; [done|]. cbv zeta.
  pose proof (running_poll r s act q Hr Hf Hqq) as Hr'. split; [done|].
  destruct (Poller.poll_filled _ _ _ _ (sv_poller _ _ _ Hs) Hf) as (_ & Hnd & Hact & _). split; [done|].
  intros c Hc. split; [|rewrite Forall_forall in Hun; by apply Hun].
  destruct (proj1 (Hact c) Hc) as (ev & ch & i & p & (_ & Hm & _) & _).
  destruct Hr' as [_ _ _ Hw']. apply (Hw' (fd_ ch)). destruct Hf as (_ & Hmq & _).
  simpl. rewrite Hmq. exact Hm.
Qed.

(** What the loop may find between two handlers, [s0] being where it started. *)
Definition between s0 s : Prop :=
  running tid budget s ∧ connections_ (net_ext s) ⊆ connections_ (net_ext s0) ∧ ∃ n, accounts 0 n s0 s.
Definition reportable c s : Prop :=
  watched s c ∧ ∃ ch, chans_of s !! c = Some ch ∧ wants_read (revents_ ch) = false.

Lemma between_rounded n s0 s s' : between s0 s → rounded n s s' → between s0 s' ∧ same_flags s s'.
Proof using Type.
  intros (Hr & Hc & m & Ha) []. split; [|done]. split; [done|]. split; [by etrans|].
  exists (m + n)%nat. unfold accounts in *. lia.
Qed.

(** What a handler of another channel leaves of a reported one. *)
Lemma reportable_stepped n c s s' x : stepped n c s s' → x ≠ c → reportable x s → reportable x s'.
Proof using Type.
  intros S Hne [Hw (ch & Hc & Hrd)]. split; [by apply (st_others _ _ _ _ S)|].
  destruct S as [_ [Hk _ _ _ _] _ _ _]. destruct (Hk x ch Hc) as (ch' & Hc' & Hrev & _).
  exists ch'. by rewrite <- Hrev.
Qed.

(** The server implements the interface of the loop, without any fault. *)
#[local] Instance server_rounds s0 : Rounds fcall fcall_read fend (λ _, False) (between s0) reportable.
Proof using Hholds.
  assert (∀ s e, between s0 s → same_loop (net_loop s) e → Forall harmless (pendingFunctors_ e) →
    between s0 (lset e s)) as Hflags.
  { intros s e (Hr & Hc & n & Ha) Hsame Hp. split; [by apply running_flags|]. split; [done|]. by exists n. }
  split.
  - intros s e Hb (? & ? & ? & _ & Hp). apply Hflags; [done..|]. rewrite Hp. by destruct Hb as [[] _].
  - intros c s e [Hw (ch & Hc & Hrd)] (Hp & _). split.
    + destruct Hw as [(ch' & Hc' & Hpas)|H]; [left; exists ch'; unfold chans_of; simpl; by rewrite Hp|by right].
    + exists ch. unfold chans_of. simpl. by rewrite Hp.
  - intros s f Hb Hf. apply Hflags; [done..|]. apply Forall_app. split; [by destruct Hb as [[] _]|by apply Forall_singleton].
  - intros ready s (Hr & Hc & n & Ha). destruct (poll_step ready s Hr) as (t & act & q & E & Hr1 & Hnd & Hact).
    exists t, act, q. split; [done|]. split; [|done]. split; [done|]. split; [done|]. by exists n.
  - intros c t s Hb [Hw (ch & Hc & Hrd)].
    destruct (handleEvent_step c ch t s (proj1 Hb) Hc Hw Hrd) as (s1 & n & -> & S).
    destruct (between_rounded n s0 s s1 Hb (stepped_rounded _ _ _ _ S)). split_and!; [done..|].
    intros x. by eapply reportable_stepped.
  - intros s Hb. destruct (dePendingFunctors_step s (proj1 Hb)) as (s1 & -> & R). by apply (between_rounded 0).
Qed.

End rounds.

(** ** A concrete server *)

Module Demo.
Definition demo_loop (holds : conn_id → bool) :=
  EventLoop.loop EventLoop.Demo.ew 7 (call EventLoop.Demo.ew 7 0 TcpServer.Demo.queue_on holds)
    (call_read EventLoop.Demo.ew 7 0 TcpServer.Demo.queue_on TcpServer.Demo.alloc_conn TcpServer.Demo.alloc_chan holds)
    (end_call holds).



(** Two connections, on the descriptors 12 and 13. *)
Definition s1 : Net TcpServer := TcpServer.Demo.s1.


(** The first connection is hung up; then another thread queues a functor, and
    later stops the loop. *)
Definition inputs : list (list foreign * option (Z → Z)) :=
  [([], Some (λ fd, if fd =? 12 then POLLHUP else 0));
   ([ForeignQueue 8 (FnUser 5%N)], None);
   ([ForeignQuit 8], Some (λ fd, POLLERR))].
End Demo.


(** The same rounds, computed: one connection is left. *)
Example server_loop_demo :
  match Demo.demo_loop (λ _, true) Demo.inputs Demo.s1 with
  | Ok (ended, s') => ended = true ∧ size (connections_ (net_ext s')) = 1%nat ∧ length (announced s') = 3%nat
  | Err _ => False
  end.
Proof. vm_compute. done. Qed.
