(* ===== verification/Teardown.v ===== *)
(** * Teardown: the destructors of a loop and of a server

    Models [EventLoop::~EventLoop] (src/muduo/EventLoop.cpp) with
    [TimerQueue::~TimerQueue] (src/muduo/TimerQueue.cpp), and the defaulted
    [TcpServer::~TcpServer] (src/muduo/net/TcpServer.cpp), each with the members
    it destroys, in the reverse of the order src/muduo/EventLoop.h and
    src/muduo/net/TcpServer.h declare them in.  A descriptor closed by the loop
    is a result; the functors and the poller's table that go with it hold no
    object of their own here. *)

From S2P Require Import Prelude Callbacks Channel Timestamp.
From S2P Require Poller TimerQueue.
From S2P Require Import EventLoop Sockets TcpConnection Acceptor TcpServer.

(** ** The loop *)

Section loop_end.
Context (tid : Z).






End loop_end.

(** ** The server *)

Section server_end.
Context (user_holds : conn_id → bool).

(** The [std::map] drops its [shared_ptr]s in the order [order]. *)
Definition TcpServer_delete (order : list conn_id) : M (Net TcpServer) unit :=
  t ← server;
  upd_server (λ t, set_connections (set_threadPool t None) ∅) ;;
  for_each (release user_holds) order ;;
  on_poller (Poller.Channel_delete (acceptChannel_ (acceptor_ t))) ;;
  zoom (close (acceptSocket_ (acceptor_ t))).

(** The server alone holds the connection, and no handler of it is running. *)
Record sole_owner (s : Net TcpServer) (c : conn_id) (k : TcpConnection) : Prop := mkSole {
  so_conn : net_conns s !! c = Some k;
  so_chan : ∃ ch, Poller.chans (poller_ (net_loop s)) !! channel_ k = Some ch ∧ eventHandling_ ch = false;
  so_user : user_holds c = false;
  so_pending : existsb (holds c) (pendingFunctors_ (net_loop s)) = false;
}.

(** From [s] to [s'], the connections [l] and their channels are gone, their
    descriptors are closed, and the poller keeps every entry it had. *)
Record gone (l : list (conn_id * TcpConnection)) (s s' : Net TcpServer) : Prop := mkGone {
  gn_ext : net_ext s' = net_ext s;
  gn_events : net_events s' = net_events s;
  gn_loop : ∃ q, net_loop s' = set_poller (net_loop s) q ∧
    Poller.pollfds_ q = Poller.pollfds_ (poller_ (net_loop s)) ∧
    Poller.channels_ q = Poller.channels_ (poller_ (net_loop s)) ∧
    ∀ d, Poller.chans q !! d = if decide (d ∈ channel_ <$> l.*2) then None
                               else Poller.chans (poller_ (net_loop s)) !! d;
  gn_conns d : net_conns s' !! d = if decide (d ∈ l.*1) then None else net_conns s !! d;
  gn_trace : (trace (net_kernel s')).*1 = (trace (net_kernel s)).*1 ++ (SysClose ∘ socket_ <$> l.*2);
}.

Lemma release_last s c k : connections_ (net_ext s) = ∅ → sole_owner s c k →
  ∃ s', release user_holds c s = Ok (tt, s') ∧ gone [(c, k)] s s'.
Proof.
  intros Hm [Hk (ch & Hc & Hh) Hu Hp].
  pose proof (TcpConnection_delete_ok c s k ch Hk Hc Hh) as E. cbv zeta in E. eexists. split.
  - unfold release. mstep. rewrite bool_decide_eq_false_2 by (rewrite Hk; done).
    unfold owned. rewrite Hu, Hp, Hm, map_to_list_empty. exact E.
  - split; simpl; [done|done| | |by rewrite fmap_app].
    + eexists. split; [done|]. simpl. split_and!; [done..|]. intros d.
      destruct (decide (d = channel_ k)) as [->|Hd].
      * rewrite lookup_delete_eq, decide_True; [done|left].
      * rewrite lookup_delete_ne, decide_False by (rewrite ?list_elem_of_singleton; done). done.
    + intros d. destruct (decide (d = c)) as [->|Hd].
      * rewrite lookup_delete_eq, decide_True; [done|left].
      * rewrite lookup_delete_ne, decide_False by (rewrite ?list_elem_of_singleton; done). done.
Qed.

Lemma release_all l s : connections_ (net_ext s) = ∅ →
  NoDup l.*1 → NoDup (channel_ <$> l.*2) → Forall (λ e, sole_owner s e.1 e.2) l →
  ∃ s', for_each (release user_holds) l.*1 s = Ok (tt, s') ∧ gone l s s'.
Proof.
  revert s. induction l as [|[c k] l IH]; intros s Hm; cbn [fmap list_fmap fst snd for_each].
  - intros _ _ _. exists s. split; [done|]. split; simpl; [done|done| | |by rewrite app_nil_r].
    + exists (poller_ (net_loop s)). split_and!; try done. by destruct s as [[]].
    + done.
  - intros [Hc Hcs]%NoDup_cons [Hd Hds]%NoDup_cons [Ho Hos]%Forall_cons.
    destruct (release_last s c k Hm Ho) as (s1 & E1 & [X1 V1 (q & L1 & P1 & M1 & D1) C1 T1]).
    destruct (IH s1) as (s2 & E2 & [X2 V2 (q2 & L2 & P2 & M2 & D2) C2 T2]); [by rewrite X1|done|done| |].
    + rewrite Forall_forall in Hos |- *. intros [c2 k2] Hin. destruct (Hos _ Hin) as [Hk (ch & Hch & Hh) Hu Hp].
      pose proof (list_elem_of_fmap_2 fst _ _ Hin) as Hc2. apply (list_elem_of_fmap_2 snd) in Hin as Hk2.
      apply (list_elem_of_fmap_2 channel_) in Hk2.
      simpl in *. split; [| |done|by rewrite L1].
      * rewrite C1, decide_False; [done|]. simpl. intros E%list_elem_of_singleton.
        simpl in Hc2. congruence.
      * exists ch. split; [|done]. rewrite L1. simpl. rewrite D1, decide_False; [done|]. simpl.
        intros E%list_elem_of_singleton. simpl in Hk2. congruence.
    + exists s2. split; [mstep_by (exact E1); exact E2|]. rewrite L1 in L2, P2, M2, D2. simpl in *.
      split; [congruence|congruence| | |by rewrite T2, T1, <- app_assoc].
      * exists q2. split_and!; [done|congruence|congruence|]. intros d. rewrite D2, D1. simpl.
        repeat case_decide; set_solver.
      * intros d. rewrite C2, C1. simpl. repeat case_decide; set_solver.
Qed.
(** Each connection of a server is listed once. *)
Lemma connections_NoDup tid budget s : serving tid budget s →
  NoDup (map_to_list (connections_ (net_ext s))).*2.
Proof.
  intros Hs. apply NoDup_fmap_2_strong; [|apply NoDup_map_to_list].
  intros [n1 c1] [n2 c2] H1%elem_of_map_to_list H2%elem_of_map_to_list E. simpl in E. subst c2.
  f_equal. eapply serves_unique; by apply (sv_conns _ _ _ Hs).
Qed.

(** The connections of a server with their objects, and their channels. *)
Lemma connections_objects tid budget s order : serving tid budget s →
  order ≡ₚ (map_to_list (connections_ (net_ext s))).*2 →
  ∃ l, l.*1 = order ∧ NoDup l.*1 ∧ NoDup (channel_ <$> l.*2) ∧
    Forall (λ e, ∃ ch i p, est e.1 (net_loop s) (net_conns s) e.2 ch i p) l.
Proof.
  intros Hs Ho. assert (NoDup order) as Hnd by (rewrite Ho; by eapply connections_NoDup).
  assert (∀ c, c ∈ order → ∃ k, ∃ ch i p, est c (net_loop s) (net_conns s) k ch i p) as Hest.
  { intros c. rewrite Ho. intros ([n d] & -> & Hin%elem_of_map_to_list)%list_elem_of_fmap.
    destruct (sv_conns _ _ _ Hs _ _ Hin) as (k & ch & i & p & He & _). eauto. }
  destruct (list_witnesses (λ c k, ∃ ch i p, est c (net_loop s) (net_conns s) k ch i p) order Hest) as (l & El & Hl). exists l. rewrite El.
  split_and!; [done|done| |done]. rewrite <- list_fmap_compose. rewrite <- El in Hnd.
  apply NoDup_fmap_2_strong; [|by apply NoDup_fmap_1 in Hnd].
  rewrite Forall_forall in Hl. intros [c k] [d kd] H1 H2 E.
  destruct (Hl _ H1) as (ch & i & p & He), (Hl _ H2) as (chd & j & q & Hd). simpl in *.
  destruct (decide (d = c)) as [->|Hne].
  - pose proof (est_conn _ _ _ _ _ _ _ He). pose proof (est_conn _ _ _ _ _ _ _ Hd). congruence.
  - by destruct (est_channel_ne _ _ _ _ _ _ _ _ _ _ _ _ He Hd Hne).
Qed.

(** C17: the destructor of a server takes no connection out of the poller: it runs
    to its end, no [ConnectionCallback] is called, every connection is destroyed
    and its descriptor closed, but the poller still lists the descriptors and the
    addresses of the dead channels, and the first poll that finds one of those
    descriptors ready reaches a channel that no longer exists. *)
Theorem server_delete_dangles tid budget s order cha :
  serving tid budget s → order ≡ₚ (map_to_list (connections_ (net_ext s))).*2 →
  (∀ c, c ∈ order → user_holds c = false ∧ existsb (holds c) (pendingFunctors_ (net_loop s)) = false) →
  (∀ d ch, Poller.chans (poller_ (net_loop s)) !! d = Some ch → eventHandling_ ch = false) →
  Poller.chans (poller_ (net_loop s)) !! acceptChannel_ (acceptor_ (net_ext s)) = Some cha →
  (∀ c, ¬ handlers_of c cha) →
  ∃ s' l, TcpServer_delete order s = Ok (tt, s') ∧ l.*1 = order ∧
    connections_ (net_ext s') = ∅ ∧ net_events s' = net_events s ∧
    (trace (net_kernel s')).*1 =
      (trace (net_kernel s)).*1 ++ (SysClose ∘ socket_ <$> l.*2) ++ [SysClose (acceptSocket_ (acceptor_ (net_ext s)))] ∧
    (∀ d, d ∈ order → net_conns s' !! d = None) ∧
    ∀ c k ch i p r, c ∈ order → est c (net_loop s) (net_conns s) k ch i p →
      (∀ fd, fd ≠ Poller.fd p → r fd = 0) → 0 < Poller.pending r p →
      Poller.poll (Some r) [] (poller_ (net_loop s')) = Err DanglingPtr.
Proof using Type.
  intros Hs Ho Hown Hidle Hcha Hacc.
  destruct (connections_objects tid budget s order Hs Ho) as (l & El & Hn1 & Hn2 & Hl).
  set (s1 := with_ext (set_connections (set_threadPool (net_ext s) None) ∅) s).
  rewrite Forall_forall in Hl.
  destruct (release_all l s1) as (s2 & E2 & [X2 V2 (q & L2 & P2 & M2 & D2) C2 T2]); [done..| |].
  { rewrite Forall_forall. intros [c k] Hin. destruct (Hl _ Hin) as (ch & i & p & He).
    assert (c ∈ order) as Hc by (rewrite <- El; by apply (list_elem_of_fmap_2 fst _ _ Hin)).
    destruct (Hown c Hc). pose proof (est_reg _ _ _ _ _ _ _ He) as (Hch & _). simpl in *.
    split; [by apply (est_conn _ _ _ _ _ _ _ He)|eauto|done|done]. }
  assert (Poller.chans (poller_ (net_loop s2)) !! acceptChannel_ (acceptor_ (net_ext s)) = Some cha) as Hq.
  { rewrite L2. simpl. rewrite D2, decide_False; [done|]. intros (k & E & ([c k'] & -> & Hin)%list_elem_of_fmap)%list_elem_of_fmap.
    destruct (Hl _ Hin) as (ch & i & p & He). destruct (est_reg _ _ _ _ _ _ _ He) as (Hch & _). simpl in *.
    apply (Hacc c). rewrite <- E, Hcha in Hch. injection Hch as ->. apply (est_handlers _ _ _ _ _ _ _ He). }
  eexists _, l. split; [|split; [exact El|]].
  - unfold TcpServer_delete. mstep_by (apply server_ok). mstep_by (apply upd_server_ok). fold s1.
    mstep_by (rewrite <- El; exact E2).
    mstep_by (unfold on_poller; by apply zoom_ok, zoom_ok, (Poller.Channel_delete_ok _ _ cha);
      [|eapply Hidle]). done.
  - simpl. split_and!; [by rewrite X2|by rewrite V2|by rewrite fmap_app, T2, <- app_assoc| |].
    + intros d Hd. rewrite C2, El. by rewrite decide_True.
    + intros c k ch i p r Hc He Hr Hpos.
      pose proof (est_reg _ _ _ _ _ _ _ He) as (Hch & Hm & Hi & Hp & Hfd & H0).
      assert (Poller.fd p = fd_ ch) as Ef by (by rewrite (Poller.pending_fd r)).
      apply (Poller.poll_dangling _ (channel_ k) p i); simpl; rewrite ?L2; simpl; [by rewrite P2|by rewrite M2, Ef| |done|done].
      destruct (decide (channel_ k = acceptChannel_ (acceptor_ (net_ext s)))) as [->|Hne]; [apply lookup_delete_eq|].
      rewrite lookup_delete_ne by done. rewrite D2, decide_True; [done|].
      rewrite <- El in Hc. apply list_elem_of_fmap in Hc as ([c' k'] & -> & Hin).
      destruct (Hl _ Hin) as (? & ? & ? & He'). simpl in *.
      pose proof (est_conn _ _ _ _ _ _ _ He). pose proof (est_conn _ _ _ _ _ _ _ He').
      assert (k' = k) as -> by congruence.
      apply (list_elem_of_fmap_2 snd) in Hin. by apply (list_elem_of_fmap_2 channel_) in Hin.
Qed.
End server_end.




Lemma serving_add_chan tid budget (s : Net TcpServer) cid ch :
  Poller.chans (poller_ (net_loop s)) !! cid = None →
  serving tid budget s → serving tid budget (put_chan cid ch s).
Proof.
  intros Hnew [Hi Ht Hp Hcb Hid Hconns Hn].
  split; [by apply Poller.inv_set_chan_new|exact Ht|exact Hp|exact Hcb|exact Hid| |exact Hn].
  intros name c Hc. destruct (Hconns name c Hc) as (k & chd & i & p & He & Hrest).
  exists k, chd, i, p. split; [by apply est_put_chan|exact Hrest].
Qed.

Lemma serving_set_acceptor tid budget s a :
  serving tid budget s → serving tid budget (with_ext (set_acceptor (net_ext s) a) s).
Proof. intros [Hi Ht Hp Hcb Hid Hconns Hn]. by split. Qed.

(** A server with two connections, and its acceptor's channel. *)
Definition listening : channel :=
  setWReadCallback (Channel_new 0 3) FnAcceptor_handleRead.
Definition server1 : Net TcpServer :=
  let s := with_ext (set_acceptor (net_ext TcpServer.Demo.s1) (mkAcceptor 3 9 None true)) TcpServer.Demo.s1 in
  put_chan 9 listening s.

Lemma serving_server1 : serving 7 100 server1.
Proof.
  apply serving_add_chan; [vm_compute; reflexivity|]. apply serving_set_acceptor, TcpServer.Demo.serving_s1.
Qed.

Lemma server_delete_dangles_witness :
  ∃ s' (l : list (conn_id * TcpConnection)), TcpServer_delete (λ _, false) [1; 0]%nat server1 = Ok (tt, s') ∧ l.*1 = [1; 0]%nat ∧
    connections_ (net_ext s') = ∅ ∧ net_conns s' !! 0%nat = None ∧ net_conns s' !! 1%nat = None ∧
    Poller.poll (Some (λ fd, if fd =? 13 then POLLHUP else 0)) [] (poller_ (net_loop s')) = Err DanglingPtr.
Proof.
  destruct (server_delete_dangles (λ _, false) 7 100 server1 [1; 0]%nat listening) as (s' & l & E & El & H).
  - apply serving_server1.
  - vm_compute. first [reflexivity | apply perm_swap].
  - intros c Hc. split; [reflexivity|]. vm_compute. reflexivity.
  - intros d ch. revert d ch. apply map_Forall_lookup.
    apply (bool_decide_unpack (map_Forall (λ _ ch, eventHandling_ ch = false) _)). vm_compute. exact I.
  - vm_compute. reflexivity.
  - intros c (E & _). discriminate E.
  - destruct H as (Hm & _ & _ & Hd & Hpoll). exists s', l.
    split; [exact E|]. split; [exact El|]. split; [exact Hm|]. split; [apply Hd; right; left|].
    split; [apply Hd; left|].
    assert (connections_ (net_ext server1) !! str "1.2.3.4:80#2" = Some 1%nat) as Hc by (vm_compute; reflexivity).
    destruct (sv_conns _ _ _ serving_server1 _ _ Hc) as (k & ch & i & p & He & _).
    assert (socket_ k = 13) as Hk.
    { pose proof (est_conn _ _ _ _ _ _ _ He) as Hk.
      assert (socket_ <$> net_conns server1 !! 1%nat = Some 13) as H13 by (vm_compute; reflexivity).
      rewrite Hk in H13. by injection H13. }
    pose proof (est_fd _ _ _ _ _ _ _ He) as Hfd.
    destruct (est_reg _ _ _ _ _ _ _ He) as (_ & _ & _ & Hp & Hslot & _). rewrite Hfd, Hk in Hslot.
    assert (Poller.pollfds_ (poller_ (net_loop server1)) = [Poller.mkPollfd 12 0 0; Poller.mkPollfd 13 0 0]) as Hpf
      by (vm_compute; reflexivity).
    rewrite Hpf in Hp. destruct i as [|[|i]]; [injection Hp as <-; discriminate Hslot|injection Hp as <-|discriminate Hp].
    eapply (Hpoll 1%nat k ch 1%nat); [left|exact He| |vm_compute; reflexivity].
    intros fd Hne. apply Z.eqb_neq in Hne. simpl in Hne. rewrite Hne. reflexivity.
Defined.
