(* ===== verification/Program.v ===== *)
(** * Program: a server and a client, from their constructors

    Whole programs on one thread: the constructor of the loop, that of a
    [TcpServer] or a [TcpClient], the client's callbacks, [start] or [connect],
    and [EventLoop::loop] with whatever the kernel reports and other threads
    add.  Both implement the interface [Rounds]. *)

From S2P Require Import Prelude Callbacks Channel Timestamp.
From S2P Require Poller TimerQueue.
From S2P Require Import EventLoop Sockets TcpConnection Acceptor Rounds.
From S2P Require EventLoopThreadPool TcpServer Connector TcpClient.

(** ** A program that is told about nothing *)

Section idle.
Context {X : Type} (tid : Z).
Context (call : closure → M (Net X) unit) (call_read : Timestamp → closure → M (Net X) unit).
Context (destroy : list closure → closure → M (Net X) unit).
Implicit Types s : Net X.

(** There is no connection for functors to hold. *)
Definition ends_nothing : Prop :=
  ∀ l f s, net_conns s = ∅ → destroy l f s = Ok (tt, s).

(** Every channel of the poller is passive, and no connection exists. *)
Record dormant s : Prop := mkDormant {
  dm_poller : Poller.inv (poller_ (net_loop s));
  dm_tid : threadId_ (net_loop s) = tid;
  dm_quiet : quiet_loop (net_loop s);
  dm_pending : Forall harmless (pendingFunctors_ (net_loop s));
  dm_conns : net_conns s = ∅;
  dm_passive fd c : Poller.channels_ (poller_ (net_loop s)) !! fd = Some c →
    ∃ ch, chans_of s !! c = Some ch ∧ passive ch;
}.

(** Nothing of the program but its channels and its client's events changed. *)
Record idling s0 s : Prop := mkIdling {
  il_dormant : dormant s;
  il_ext : net_ext s = net_ext s0;
  il_kernel : net_kernel s = net_kernel s0;
  il_timers : timerQueue_ (net_loop s) = timerQueue_ (net_loop s0);
  il_announced : announced s = announced s0;
  il_map : Poller.channels_ (poller_ (net_loop s)) = Poller.channels_ (poller_ (net_loop s0));
}.

Definition passive_report (c : chan_id) s : Prop :=
  ∃ ch, chans_of s !! c = Some ch ∧ passive ch ∧ wants_read (revents_ ch) = false.

(** Flags of channels do not matter. *)
Lemma dormant_put_chan c ch b s :
  dormant s → chans_of s !! c = Some ch → dormant (put_chan c (set_eventHandling ch b) s).
Proof.
  intros [] Hc. split; try done; simpl.
  - by apply (Poller.inv_set_chan (poller_ (net_loop s)) c ch).
  - apply quiet_set_chan; [done|]. exact (proj1 dm_quiet0 c ch Hc).
  - intros fd d Hd. destruct (dm_passive0 fd d Hd) as (chd & Hchd & Hp). unfold chans_of in *. simpl.
    destruct (decide (d = c)) as [->|Hne].
    + rewrite lookup_insert_eq. eexists. split; [done|]. by assert (chd = ch) as -> by congruence.
    + rewrite lookup_insert_ne by done. by exists chd.
Qed.

Lemma idling_loop s0 s e :
  idling s0 s → poller_ e = poller_ (net_loop s) → threadId_ e = threadId_ (net_loop s) →
  timerQueue_ e = timerQueue_ (net_loop s) → Forall harmless (pendingFunctors_ e) → idling s0 (lset e s).
Proof.
  intros [[] ? ? ? ? ?] Hp Ht Hq Hl. split; simpl; [|done|done|congruence|done|congruence].
  split; simpl; unfold quiet_loop, chans_of in *; simpl; rewrite ?Hp; [done|congruence|done..].
Qed.

#[local] Instance idle_rounds s0 :
  calls_client call → ends_nothing → Rounds call call_read destroy (λ _, False) (idling s0) passive_report.
Proof.
  intros Hcall Hend. split.
  - intros s e Hi (Hp & _ & Ht & Hq & Hl). apply idling_loop; [done..|]. rewrite Hl. apply Hi.
  - intros c s e (ch & Hc & Hr) (Hp & _). exists ch. unfold chans_of in *. simpl. by rewrite Hp.
  - intros s f Hi Hf. apply idling_loop; [done..|]. simpl. apply Forall_app. split; [apply Hi|by apply Forall_singleton].
  - intros ready s [[] ? ? ? ? ?]. destruct (quiet_poll_spec ready (poller_ (net_loop s)))
      as (act & q & E & Hiq & Hqq & Hnd & Hm & Hch & _ & Hact); [done..|].
    assert (∀ fd c, Poller.channels_ q !! fd = Some c → ∃ ch, Poller.chans q !! c = Some ch ∧ passive ch) as Hpas.
    { intros fd c. rewrite Hm. intros Hc. destruct (dm_passive0 fd c Hc) as (ch & Hx & Hp).
      destruct (Hch c ch Hx) as [ev Hev]. by exists (set_revents ch ev). }
    exists 0, act, q. split; [done|]. split; [split; simpl; try done; congruence|]. split; [done|].
    intros c Hc. destruct (Hact c Hc) as [[fd Hfd] (ch & Hx & Hr)]. destruct (Hpas fd c Hfd) as (ch' & Hx' & Hp).
    exists ch. assert (ch' = ch) as -> by congruence. done.
  - intros c t s Hi (ch & Hc & Hp & Hr). rewrite (handleEvent_passive_eq call call_read c ch t s Hc Hp Hr).
    pose proof (dormant_put_chan c ch true s (il_dormant _ _ Hi) Hc) as Hd1.
    assert (chans_of (put_chan c (set_eventHandling ch true) s) !! c = Some (set_eventHandling ch true)) as Hc1
      by apply lookup_insert_eq.
    pose proof (dormant_put_chan c (set_eventHandling ch true) false _ Hd1 Hc1) as Hd2.
    split; [by destruct Hi; split|]. split; [done|].
    intros x Hx (chx & Hchx & Hrx). exists chx. split; [|done]. unfold chans_of in *. simpl.
    by rewrite !lookup_insert_ne by done.
  - intros s Hi. set (s1 := lset (set_pending (set_calling (net_loop s) true) []) s).
    destruct (harmless_functors call (pendingFunctors_ (net_loop s)) s1 Hcall) as (evs & Hevs & E); [apply Hi|].
    unfold dePendingFunctors. mstep_by reflexivity. fold s1. mstep_by (exact E). mstep_by reflexivity.
    rewrite destroy_all_noop by (intros l f; apply Hend; simpl; apply Hi). split; [|done].
    assert (idling s0 (add_events evs s1)) as Hi1.
    { destruct (idling_loop s0 s (net_loop s1) Hi) as [[] ? ? ? Ha ?]; [done..|by constructor|].
      split; try done. by rewrite announced_add. }
    apply (idling_loop s0 (add_events evs s1)); [done..|]. apply Hi1.
Qed.
End idle.

(** ** The new loop *)

Section start.
Context {X : Type} (this : nat) (tid timerfd wakeupfd : Z) (clock : nat → Timestamp).
Context (Ht : 0 ≤ timerfd) (Hw : 0 ≤ wakeupfd) (Hne : timerfd ≠ wakeupfd).

(** Its channels are those of the timers and of the wake-ups. *)
Record started (e : EventLoop) : Prop := mkStarted {
  st_dormant (k : Kernel) (x : X) : dormant tid (mkNet e k ∅ [] x);
  st_this : this_ e = this;
  st_looping : looping_ e = false;
  st_slots : zlen (Poller.pollfds_ (poller_ e)) = 2;
  st_map fd : fd ∉ [timerfd; wakeupfd] → Poller.channels_ (poller_ e) !! fd = None;
  st_chans c : c ∉ [timerfdChannel_; wakeup_chan] → Poller.chans (poller_ e) !! c = None;
  st_timers : timerQueue_ e = TimerQueue.TimerQueue_new clock;
}.

Lemma EventLoop_new_started :
  ∃ e, EventLoop_new this tid timerfd wakeupfd clock = Ok e ∧ started e ∧ pendingFunctors_ e = [].
Proof using Ht Hw Hne.
  destruct (EventLoop_new_spec this tid timerfd wakeupfd clock Ht Hw Hne) as (e & cht & chw & E & []).
  pose proof (EventLoop_new_quiet _ _ _ _ _ _ E) as Hq. destruct fl_loop as [q ->].
  destruct fl_timer_made as (i0 & m0 & ->), fl_wakeup_made as (i1 & m1 & ->). simpl in *.
  eexists. split; [exact E|]. split; [|done]. split; try done; simpl.
  - intros k x. split; simpl; try done. unfold chans_of. simpl. rewrite fl_channels, fl_chans.
    intros fd c [[_ <-]|[_ [_ <-]%lookup_singleton_Some]]%lookup_insert_Some.
    + rewrite lookup_insert_eq. by eexists.
    + rewrite lookup_insert_ne, lookup_singleton_eq by done. by eexists.
  - intros fd Hfd. rewrite fl_channels, lookup_insert_ne, lookup_singleton_ne; [done|set_solver..].
  - intros c Hc. rewrite fl_chans, lookup_insert_ne, lookup_singleton_ne; [done|set_solver..].
Qed.
End start.

(** ** A server *)

Section server.
Import TcpServer.
Context (i : inet) (ew : eventfd_model) (tid : Z) (end_first : Timestamp).
Context (queue_on : nat → closure → M (Net TcpServer) unit).
Context (alloc_conn : Net TcpServer → conn_id) (alloc_chan : Net TcpServer → chan_id).
Context (user_holds : conn_id → bool).

Abbreviation server_call := (call ew tid end_first queue_on user_holds).
Abbreviation server_end := (end_call user_holds).
Abbreviation server_call_read := (call_read ew tid end_first queue_on alloc_conn alloc_chan user_holds).

(** The program of a server with callbacks [u], [m] and [w]. *)
Definition serve (this : nat) (timerfd wakeupfd : Z) (clock : nat → Timestamp) (kernel : Kernel)
    (listenAddr : InetAddress) (chid : chan_id) (u m w : user_fn)
    (inputs : list (list foreign * option (Z → Z))) : res (bool * Net TcpServer) :=
  e ← EventLoop_new this tid timerfd wakeupfd clock;
  '(t, s) ← TcpServer_new i this listenAddr chid (mkNet e kernel ∅ [] ());
  let t := TcpServer_setWriteCompleteCallback
             (TcpServer_setMessageCallback (TcpServer_setConnectionCallback t u) m) w in
  (start ew tid end_first ;; loop ew tid server_call server_call_read server_end inputs)
    (mkNet (net_loop s) (net_kernel s) (net_conns s) (net_events s) t).

Lemma server_calls_client : calls_client server_call.
Proof.
  intros f s Hf. apply harmless_inv in Hf as [[u ->]|(u & c & ->)]; [by exists (OnFunctor u)|].
  by exists (OnWriteComplete u c).
Qed.

Lemma server_ends_nothing : ends_nothing server_end.
Proof.
  intros l f s Hs. apply end_functor_noop. intros c. unfold release. mstep.
  by rewrite bool_decide_eq_true_2 by (by rewrite Hs).
Qed.

(** The acceptor's channel before and after [listen]. *)
Definition accept_channel (this : nat) (fd : Z) : channel :=
  setWReadCallback (Channel_new this fd) FnAcceptor_handleRead.

Lemma listen_ok this fd chid e k (t : TcpServer) :
  acceptor_ t = mkAcceptor fd chid None false → Poller.inv (poller_ e) →
  Poller.chans (poller_ e) !! chid = Some (accept_channel this fd) → this_ e = this →
  Poller.channels_ (poller_ e) !! fd = None → 0 ≤ fd → zlen (Poller.pollfds_ (poller_ e)) + 1 < 2 ^ 31 →
  ∃ q ch, listen tid (mkNet e k ∅ [] t) =
      Ok (tt, mkNet (set_poller e q) (logged k (SysListen fd) (answer k (calls k))) ∅ []
                (set_acceptor t (mkAcceptor fd chid None true))) ∧
    Poller.inv q ∧ (quiet (poller_ e) → quiet q) ∧
    Poller.channels_ q = <[fd := chid]> (Poller.channels_ (poller_ e)) ∧
    Poller.chans q !! chid = Some ch ∧ passive ch ∧
    ∀ d, d ≠ chid → Poller.chans q !! d = Poller.chans (poller_ e) !! d.
Proof.
  intros Ha Hi Hc Hl Hm Hfd Hs. set (k1 := logged k (SysListen fd) (answer k (calls k))).
  destruct (change_mask_new tid EnableReading chid e (accept_channel this fd))
    as (q & j & p & E & Hq & (Hc' & _) & _ & _ & Hm' & _ & Ho); try done.
  eexists q, _. split; [|split; [done|split; [|split; [exact Hm'|split; [exact Hc'|split; [done|done]]]]]].
  2: { exact (chan_exec_quiet tid (ChanMask EnableReading chid) e tt (set_poller e q) E). }
  unfold listen. mstep_by (apply loop_check_ok). mstep_by (by reflexivity). rewrite Ha. simpl.
  mstep_by reflexivity. mstep_by reflexivity. fold k1.
  by erewrite (zoom_ok (S:=Net TcpServer) (C:=EventLoop)) by exact E.
Qed.

Definition new_server (this : nat) (name : bytes) (fd : Z) (chid : chan_id) : TcpServer :=
  mkTcpServer this name (mkAcceptor fd chid None false) None None None false 1 ∅ None.

Lemma TcpServer_new_ok this addr chid e k :
  this_ e = this → Poller.chans (poller_ e) !! chid = None →
  let fd := answer k (calls k) in
  ∃ k', TcpServer_new i this addr chid (mkNet e k ∅ [] ()) =
      Ok (new_server this (toHostPort i addr) fd chid,
          mkNet (set_poller e (Poller.set_chan chid (accept_channel this fd) (poller_ e))) k' ∅ [] ()) ∧
    (trace k').*1 = (trace k).*1 ++ [SysSocket; SysReuseAddr fd 1; SysBind fd addr].
Proof.
  intros <- Hc fd. eexists. split.
  - unfold TcpServer_new, Acceptor_new. rewrite bind_unfold. mstep_by reflexivity. mstep.
    rewrite decide_False by (rewrite Hc; by intros [? ?]).
    reflexivity.
  - simpl. by rewrite !fmap_app, <- !app_assoc.
Qed.

(** C5: A server as constructed and started never accepts a connection: whatever
    the kernel reports and other threads add, the program runs without a
    fault, its loop ends exactly if a thread called [quit], and the only calls
    it ever makes to the kernel are those that made the socket listen. *)
Theorem server_never_accepts this timerfd wakeupfd clock kernel listenAddr chid u m w inputs :
  0 ≤ timerfd → 0 ≤ wakeupfd → timerfd ≠ wakeupfd →
  let fd := answer kernel (calls kernel) in
  0 ≤ fd → fd ∉ [timerfd; wakeupfd] → chid ∉ [timerfdChannel_; wakeup_chan] →
  Forall (λ i, Forall welcome i.1) inputs →
  ∃ s', serve this timerfd wakeupfd clock kernel listenAddr chid u m w inputs = Ok (existsb quits inputs, s') ∧
    listening_ (acceptor_ (net_ext s')) = true ∧ Poller.channels_ (poller_ (net_loop s')) !! fd = Some chid ∧
    connections_ (net_ext s') = ∅ ∧ net_conns s' = ∅ ∧ announced s' = [] ∧
    (trace (net_kernel s')).*1 =
      (trace kernel).*1 ++ [SysSocket; SysReuseAddr fd 1; SysBind fd listenAddr; SysListen fd].
Proof.
  intros Ht Hw Hne fd Hfd Hnew Hchid Hin.
  destruct (EventLoop_new_started (X:=TcpServer) this tid timerfd wakeupfd clock Ht Hw Hne) as (e & Ee & [] & Hpend).
  destruct (TcpServer_new_ok this listenAddr chid e kernel st_this0 (st_chans0 _ Hchid)) as (k & Es & Hk).
  fold fd in Es, Hk. set (p1 := Poller.set_chan chid (accept_channel this fd) (poller_ e)) in *.
  set (t := new_server this (toHostPort i listenAddr) fd chid) in *.
  set (t1 := set_started (TcpServer_setWriteCompleteCallback
               (TcpServer_setMessageCallback (TcpServer_setConnectionCallback t u) m) w) true).
  pose proof (st_dormant0 kernel t) as [].
  destruct (listen_ok this fd chid (set_poller e p1) k t1) as (q & ch & El & Hq & Hqq & Hm & Hch & Hp & Ho); try done.
  { by apply Poller.inv_set_chan_new; [|apply st_chans0]. }
  { apply lookup_insert_eq. }
  { by apply st_map0. }
  { simpl. by rewrite st_slots0. }
  set (s1 := mkNet _ _ _ _ _) in El at 2.
  assert (idling tid s1 s1) as Hidle.
  { split; try done. split; try done; simpl.
    - apply Hqq, quiet_set_chan; [done|by left].
    - intros fd' c. rewrite Hm. intros [[_ <-]|[_ Hc]]%lookup_insert_Some; [by exists ch|].
      destruct (dm_passive0 fd' c Hc) as (chc & Hcc & Hpc). exists chc. unfold chans_of in *. simpl in *.
      rewrite Ho; [simpl; rewrite lookup_insert_ne; [done|]|]; intros ->; rewrite (st_chans0 _ Hchid) in Hcc; done. }
  pose proof (loop_rounds ew tid server_call server_call_read server_end (λ _, False) (idling tid s1) passive_report
    (HR := idle_rounds tid _ _ _ s1 server_calls_client server_ends_nothing) inputs s1 Hidle st_looping0 Hin) as H.
  assert (serve this timerfd wakeupfd clock kernel listenAddr chid u m w inputs =
          loop ew tid server_call server_call_read server_end inputs s1) as ->.
  { unfold serve. rewrite Ee. change (mbind ?f (Ok ?x)) with (f x). cbv beta. rewrite Es.
    change (mbind ?f (Ok ?x)) with (f x). cbv beta iota zeta. unfold start.
    erewrite bind_step; [reflexivity|]. mstep_by (apply server_ok). mstep_by reflexivity.
    rewrite (runInLoop_here ew tid) by done. exact El. }
  destruct (loop _ _ _ _ _ inputs s1) as [[ended s']|f]; [|done]. destruct H as (-> & [[] Hx Hkn _ Ha Hmp] & _).
  exists s'. rewrite Hx, Hkn, Ha, Hmp. simpl. rewrite Hm. split_and!; try done; [apply lookup_insert_eq|].
  by rewrite fmap_app, Hk, <- !app_assoc.
Qed.
End server.

(** ** A client *)

Section client.
Import TcpClient.
Context (i : inet) (ew : eventfd_model) (tid : Z) (end_first : Timestamp).
Context (alloc_conn : Net TcpClient → conn_id) (alloc_chan : Net TcpClient → chan_id).
Context (alloc_timer : Net TcpClient → timer_ptr) (user_holds : conn_id → bool).
Context (Hchan : ∀ s, Poller.chans (poller_ (net_loop s)) !! alloc_chan s = None).
Implicit Types s : Net TcpClient.

Abbreviation client_call := (call i ew tid end_first alloc_conn alloc_chan alloc_timer user_holds).
Abbreviation client_end := (end_call user_holds).
Abbreviation client_call_read := (call_read i ew tid end_first alloc_conn alloc_chan alloc_timer user_holds).
Abbreviation the := (Connector.the (X:=TcpClient)).
Abbreviation base := (Connector.base (X:=TcpClient) tid).
Abbreviation issued := (Connector.issued (X:=TcpClient)).
Abbreviation watching_in := (Connector.watching_in (X:=TcpClient)).

(** The program of a client with callbacks [u], [m] and [w]. *)
Definition run_client (this : nat) (timerfd wakeupfd : Z) (clock : nat → Timestamp) (kernel : Kernel)
    (serverAddr : InetAddress) (u m w : user_fn) (inputs : list (list foreign * option (Z → Z))) :
    res (bool * Net TcpClient) :=
  e ← EventLoop_new this tid timerfd wakeupfd clock;
  let t := TcpClient_setWriteCompleteCallback (TcpClient_setMessageCallback
             (TcpClient_setConnectionCallback (TcpClient_new this serverAddr) u) m) w in
  (connect ew tid end_first alloc_chan alloc_timer ;; loop ew tid client_call client_call_read client_end inputs)
    (mkNet e kernel ∅ [] t).

Lemma client_calls_client : calls_client client_call.
Proof using Type.
  intros f s Hf. apply harmless_inv in Hf as [[u ->]|(u & c & ->)]; [by exists (OnFunctor u)|].
  by exists (OnWriteComplete u c).
Qed.

Lemma client_ends_nothing : ends_nothing client_end.
Proof using Type.
  intros l f s Hs. apply end_functor_noop. intros c. unfold release. mstep.
  by rewrite bool_decide_eq_true_2 by (by rewrite Hs).
Qed.

Definition is_connect (sc : syscall) : bool := match sc with SysConnect _ _ => true | _ => false end.

(** What holds of the client all along: it has no connection, waits for one,
    and has made the attempts [sc]. *)
Record client_ok (sc : list syscall) s : Prop := mkClientOk {
  ck_base : ∃ n, base n s;
  ck_quiet : quiet_loop (net_loop s);
  ck_conns : net_conns s = ∅;
  ck_none : connection_ (net_ext s) = None;
  ck_announced : announced s = [];
  ck_connect : Connector.connect_ (the s) = true;
  ck_attempts : filter is_connect (issued s) = sc;
  ck_channels fd c : Poller.channels_ (poller_ (net_loop s)) !! fd = Some c →
    (∃ ch, chans_of s !! c = Some ch ∧ passive ch) ∨ Connector.channel_ (the s) = Some c;
}.

(** The attempt is under way (nothing was asked of the kernel since [kn]); a
    handler has ended it and queued the end of its channel; or it is over. *)
Inductive stage (kn : Kernel) (h : bool) s : Prop :=
  | stage_waiting fd :
      watching_in h fd s → net_kernel s = kn → Forall harmless (pendingFunctors_ (net_loop s)) → stage kn h s
  | stage_ending c ch l1 l2 :
      Connector.state_ (the s) = Connector.kDisconnected → Connector.channel_ (the s) = Some c →
      chans_of s !! c = Some ch → Poller.channels_ (poller_ (net_loop s)) !! fd_ ch = None →
      eventHandling_ ch = h → ¬ passive ch →
      pendingFunctors_ (net_loop s) = l1 ++ FnConnector_resetChannel :: l2 →
      Forall harmless l1 → Forall harmless l2 → stage kn h s
  | stage_over : Connector.idle s → Forall harmless (pendingFunctors_ (net_loop s)) → stage kn h s.

Definition client_inv (sc : list syscall) (kn : Kernel) s : Prop := client_ok sc s ∧ stage kn false s.

Definition client_report (c : chan_id) s : Prop :=
  ∃ ch, chans_of s !! c = Some ch ∧ wants_read (revents_ ch) = false ∧
    (passive ch ∨ Connector.channel_ (the s) = Some c ∧ ∃ fd, watching_in false fd s).

(** The program throws when the attempt succeeds. *)
Definition client_fault (kn : Kernel) (f : fault) : Prop :=
  TimerQueue.allowed f ∨ f = BadFunctionCall ∧ answer kn (calls kn) = 0.

(** ** Changes that do not concern the connector *)

Lemma base_lset n s e :
  base n s → Poller.inv (poller_ e) → timerQueue_ e = timerQueue_ (net_loop s) →
  threadId_ e = threadId_ (net_loop s) → this_ e = this_ (net_loop s) → base n (lset e s).
Proof using Type.
  intros [] Hi Hq Ht Hthis. split; try done; [|exact (eq_trans Ht b_tid)|exact (eq_trans b_loop (eq_sym Hthis))].
  unfold Connector.timers in *. simpl. by rewrite Hq.
Qed.

(** Another state of the poller, in which the connector's channel differs by
    what was reported for it. *)
Lemma client_poller sc kn s q :
  client_inv sc kn s → Poller.inv q → quiet q →
  Poller.channels_ q = Poller.channels_ (poller_ (net_loop s)) →
  (∀ c ch, chans_of s !! c = Some ch → ∃ ch', Poller.chans q !! c = Some ch' ∧ (passive ch → passive ch')) →
  (∀ c ch, Connector.channel_ (the s) = Some c → chans_of s !! c = Some ch →
     ∃ ev, Poller.chans q !! c = Some (set_revents ch ev)) →
  (∀ c ch j pf, Connector.channel_ (the s) = Some c → Poller.registered (poller_ (net_loop s)) c ch j pf →
     ∃ ev pf', Poller.registered q c (set_revents ch ev) j pf' ∧ Poller.fd pf' = Poller.fd pf) →
  let s' := lset (set_poller (net_loop s) q) s in
  client_inv sc kn s' ∧ ∀ fd, watching_in false fd s → watching_in false fd s'.
Proof using Type.
  intros [Hok Hst] Hi Hq Hm Hpas Hch Hreg s'.
  assert (∀ fd, watching_in false fd s → watching_in false fd s') as Hw.
  { intros fd (c & ch & j & pf & H1 & H2 & H3 & H4 & H5 & H6 & H7 & H8 & H9).
    destruct (Hreg c ch j pf H2 H3) as (ev & pf' & Hr & Hpf).
    exists c, (set_revents ch ev), j, pf'. split_and!; try done; try congruence; apply H9. }
  split; [|done]. split.
  - destruct Hok as [[n Hb]]. split; try done.
    + exists n. by apply base_lset.
    + simpl. rewrite Hm. intros fd c Hc. destruct (ck_channels0 fd c Hc) as [(ch & Hx & Hp)|]; [left|by right].
      destruct (Hpas c ch Hx) as (ch' & Hx' & Hp'). exists ch'. split; [done|auto].
  - destruct Hst as [fd H1 H2 H3|c ch l1 l2 H1 H2 H3 H4 H5 Hnp H6 H7 H8|H1 H2].
    + eapply stage_waiting; [by apply Hw|done..].
    + destruct (Hch c ch H2 H3) as [ev Hev]. eapply (stage_ending _ _ _ c (set_revents ch ev) l1 l2); try done.
      simpl. by rewrite Hm.
    + by apply stage_over.
Qed.

(** Flags of the loop, and more functors of the client. *)
Lemma client_ok_loop sc s e :
  client_ok sc s → poller_ e = poller_ (net_loop s) → this_ e = this_ (net_loop s) →
  threadId_ e = threadId_ (net_loop s) → timerQueue_ e = timerQueue_ (net_loop s) →
  client_ok sc (lset e s) ∧ ∀ fd, watching_in false fd s → watching_in false fd (lset e s).
Proof using Type.
  intros [[n Hb]] Hp Hth Ht Hq. split.
  - split; try done; simpl; unfold quiet_loop, chans_of in *; simpl; rewrite ?Hp; try done.
    exists n. apply base_lset; try done. rewrite Hp. by destruct Hb.
  - intros fd (c & ch & j & pf & H). exists c, ch, j, pf. simpl. rewrite Hp, Hth. exact H.
Qed.

Lemma client_loop sc kn s e fs :
  client_inv sc kn s → poller_ e = poller_ (net_loop s) → this_ e = this_ (net_loop s) →
  threadId_ e = threadId_ (net_loop s) → timerQueue_ e = timerQueue_ (net_loop s) →
  pendingFunctors_ e = pendingFunctors_ (net_loop s) ++ fs → Forall harmless fs → client_inv sc kn (lset e s).
Proof using Type.
  intros [Hok Hst] Hp Hth Ht Hq Hl Hf. destruct (client_ok_loop sc s e Hok Hp Hth Ht Hq) as [Hok' Hw].
  split; [done|]. destruct Hst as [fd H1 H2 H3|c ch l1 l2 H1 H2 H3 H4 H5 Hnp H6 H7 H8|H1 H2].
  - eapply stage_waiting; [by apply Hw|done|]. simpl. rewrite Hl. by apply Forall_app.
  - eapply (stage_ending _ _ _ c ch l1 (l2 ++ fs)); unfold chans_of in *; simpl; rewrite ?Hp; try done.
    + by rewrite Hl, H6, <- app_assoc.
    + by apply Forall_app.
  - apply stage_over; [done|]. simpl. rewrite Hl. by apply Forall_app.
Qed.

(** The channel a handler of the connector is about. *)
Lemma connector_channel_active h fd c ch s :
  watching_in h fd s → Connector.channel_ (the s) = Some c → chans_of s !! c = Some ch →
  ¬ passive ch ∧ eventHandling_ ch = h ∧ writeCallback_ ch = Some FnConnector_handleWrite ∧
  errorCallback_ ch = Some FnConnector_handleError ∧ Channel.closeCallback_ ch = None.
Proof using Type.
  intros (c' & ch' & j & pf & _ & H2 & (H3 & _) & _ & _ & _ & _ & Hh & Hw & He & Hcl) Hc Hch.
  unfold chans_of in Hch. assert (c' = c) as -> by congruence. assert (ch' = ch) as -> by congruence.
  split_and!; try done. intros (_ & _ & ?). congruence.
Qed.

Lemma connector_not_passive sc kn s c ch :
  client_inv sc kn s → Connector.channel_ (the s) = Some c → chans_of s !! c = Some ch → ¬ passive ch.
Proof using Type.
  intros [_ [fd Hw _ _|c' ch' l1 l2 _ Hx Hch _ _ Hnp _ _ _|[_ Hx] _]] Hc Hch'; [|congruence..].
  by apply (connector_channel_active false fd c ch s).
Qed.

(** A passive channel's handlers. *)
Lemma client_passive_event sc kn s c ch t :
  client_inv sc kn s → chans_of s !! c = Some ch → passive ch → wants_read (revents_ ch) = false →
  ∃ s', handleEvent client_call client_call_read c t s = Ok (tt, s') ∧ client_inv sc kn s' ∧ same_flags s s' ∧
    ∀ x, x ≠ c → client_report x s → client_report x s'.
Proof using Type.
  intros Hi Hc Hp Hr. eexists. split; [by apply (handleEvent_passive_eq _ _ c ch)|].
  set (q := Poller.set_chan c (set_eventHandling ch false)
              (Poller.set_chan c (set_eventHandling ch true) (poller_ (net_loop s)))).
  change (put_chan _ _ (put_chan _ _ _)) with (lset (set_poller (net_loop s) q) s).
  pose proof Hi as [[[n [Hpi]] Hqu] Hst]. unfold chans_of in *.
  assert (∀ ch, set_revents ch (revents_ ch) = ch) as Hid by by intros [].
  set (q1 := Poller.set_chan c (set_eventHandling ch true) (poller_ (net_loop s))) in q.
  assert (Poller.chans q1 !! c = Some (set_eventHandling ch true)) as Hc1 by apply lookup_insert_eq.
  assert (∀ d, d ≠ c → Poller.chans q !! d = Poller.chans (poller_ (net_loop s)) !! d) as Hd.
  { intros d Hd. simpl. by rewrite !lookup_insert_ne by done. }
  assert (∀ d chd, Connector.channel_ (the s) = Some d → Poller.chans (poller_ (net_loop s)) !! d = Some chd → d ≠ c) as Hnc.
  { intros d chd Hx Hchd ->. apply (connector_not_passive sc kn s c chd Hi Hx Hchd). congruence. }
  destruct (client_poller sc kn s q Hi) as [Hi' Hw].
  - by apply (Poller.inv_set_chan q1 c (set_eventHandling ch true)); [apply (Poller.inv_set_chan _ c ch)|..].
  - pose proof (proj1 Hqu c ch Hc). by apply quiet_set_chan; [apply quiet_set_chan|].
  - done.
  - intros d chd Hchd. destruct (decide (d = c)) as [->|Hne]; [|exists chd; by rewrite Hd].
    eexists. split; [apply lookup_insert_eq|]. by assert (chd = ch) as -> by (unfold chans_of in *; congruence).
  - intros d chd Hx Hchd. exists (revents_ chd). by rewrite Hid, Hd by (by eapply Hnc).
  - intros d chd j pf Hx Hrd. exists (revents_ chd), pf. split; [|done]. rewrite Hid.
    pose proof (Hnc d chd Hx (proj1 Hrd)) as Hne.
    pose proof (Poller.registered_set_chan _ c ch (set_eventHandling ch true) d chd j pf Hc eq_refl eq_refl Hrd) as H1.
    rewrite decide_False in H1 by done.
    pose proof (Poller.registered_set_chan q1 c _ (set_eventHandling ch false) d chd j pf Hc1 eq_refl eq_refl H1) as H2.
    by rewrite decide_False in H2 by done.
  - split; [exact Hi'|]. split; [done|]. intros x Hx (chx & Hchx & Hrx & Hor). exists chx.
    split; [unfold chans_of; simpl; by rewrite !lookup_insert_ne by done|]. split; [done|].
    destruct Hor as [?|[? [fd Hfd]]]; [by left|right]. split; [done|]. exists fd. by apply Hw.
Qed.

(** ** The handlers of the connector *)

(** Functors of the client, and the one the connector queues. *)
Definition expected (f : closure) : Prop := harmless f ∨ f = FnConnector_resetChannel.

Lemma kp_removeAndReset : keeps expected (Connector.removeAndResetChannel ew tid).
Proof using Type.
  unfold Connector.removeAndResetChannel.
  apply kp_bind; [apply kp_same|intros k].
  { intros s a s' E. rewrite Connector.connector_ok in E. by injection E as _ <-. }
  keep. 
Qed.

(** The state in which the channel's handlers are called, or the attempt failed. *)
Definition handled (n : nat) (fd : Z) s0 s1 : Prop := s1 = s0 ∨ Connector.failed ew tid true n fd s0 s1.

Lemma failed_kept n fd s0 s1 :
  Connector.failed ew tid true n fd s0 s1 →
  dispatches (poller_ (net_loop s0)) (poller_ (net_loop s1)) ∧
  (quiet_loop (net_loop s0) → quiet_loop (net_loop s1)) ∧ same_flags s0 s1.
Proof using Type.
  intros [[_ _ _ _ _ _ _ _ (e & q & E & El)] _]. destruct (kp_removeAndReset _ _ _ E).
  unfold same_flags, quiet_loop in *. by rewrite El.
Qed.

(** The channel of the connector while a handler of it may run. *)
Lemma handled_channel n fd c ch s0 s1 :
  handled n fd s0 s1 → chans_of s0 !! c = Some ch → Connector.channel_ (the s0) = Some c →
  eventHandling_ ch = true →
  ∃ ch1, chans_of s1 !! c = Some ch1 ∧ same_dispatch ch ch1 ∧ eventHandling_ ch1 = true.
Proof using Type.
  intros [->|Hf] Hc Hk Hh; [by exists ch|].
  destruct (failed_kept n fd s0 s1 Hf) as [Hd _]. destruct (Hd c ch Hc) as (ch1 & Hc1 & Hs).
  exists ch1. split; [done|]. split; [done|].
  destruct Hf as [[_ _ _ (c' & ch' & Hx & _ & Hc' & _ & Hh') _ _ _ _ _] _].
  unfold chans_of in *. assert (c' = c) as -> by congruence. by assert (ch' = ch1) as <- by congruence.
Qed.

Lemma failed_irrefl n fd s0 : ¬ Connector.failed ew tid true n fd s0 s0.
Proof using Type.
  intros [[_ _ _ _ _ _ Hi _ _] _]. apply (f_equal length) in Hi. rewrite length_app in Hi. simpl in Hi. lia.
Qed.

(** A callback of the channel: not called, or called while the attempt lasts. *)
Lemma fire_handled kn (wants : Z → bool) cb n fd c ch s0 s1 f :
  handled n fd s0 s1 → chans_of s0 !! c = Some ch → Connector.channel_ (the s0) = Some c →
  eventHandling_ ch = true → (∀ a b, same_dispatch a b → cb a = cb b) → cb ch = Some f →
  (s1 = s0 → match client_call f s0 with Ok (_, s2) => Connector.failed ew tid true n fd s0 s2 | Err e => client_fault kn e end) →
  (Connector.failed ew tid true n fd s0 s1 → client_call f s1 = Ok (tt, s1)) →
  match fire client_call wants cb c s1 with
  | Ok (_, s2) => handled n fd s0 s2
  | Err e => client_fault kn e
  end.
Proof using Type.
  intros Hs Hc Hk Hh Hsame Hcb H0 H1.
  destruct (handled_channel n fd c ch s0 s1 Hs Hc Hk Hh) as (ch1 & Hc1 & Hd & _).
  destruct (wants (revents_ ch1)) eqn:Hw; [|by rewrite (fire_none _ _ _ c s1 ch1)].
  rewrite (fire_one _ _ _ c s1 ch1 f Hc1 Hw) by (by rewrite <- (Hsame ch ch1)).
  destruct Hs as [->|Hf].
  - specialize (H0 eq_refl). destruct (client_call f s0) as [[u s2]|e]; [by right|done].
  - rewrite (H1 Hf). by right.
Qed.

Lemma connector_handlers kn n fd s c ch t :
  base n s → watching_in false fd s → Connector.channel_ (the s) = Some c → chans_of s !! c = Some ch →
  wants_read (revents_ ch) = false → Connector.connect_ (the s) = true → net_kernel s = kn →
  let s0 := put_chan c (set_eventHandling ch true) s in
  base n s0 ∧ watching_in true fd s0 ∧
  match handleEvent client_call client_call_read c t s with
  | Ok (_, s') => ∃ s1 ch1, handled n fd s0 s1 ∧ chans_of s1 !! c = Some ch1 ∧
      same_dispatch (set_eventHandling ch true) ch1 ∧ s' = put_chan c (set_eventHandling ch1 false) s1
  | Err f => client_fault kn f
  end.
Proof using Type.
  intros Hb Hw Hk Hc Hrd Hcn Hkn s0. set (ch0 := set_eventHandling ch true) in *.
  destruct (connector_channel_active false fd c ch s Hw Hk Hc) as (_ & _ & Hcw & Hce & Hcc).
  assert (Poller.inv (Poller.set_chan c ch0 (poller_ (net_loop s)))) as Hi0
    by (destruct Hb; by apply (Poller.inv_set_chan _ c ch)).
  assert (base n s0) as Hb0 by by apply base_lset.
  assert (watching_in true fd s0) as Hw0.
  { destruct Hw as (c' & ch' & j & pf & H1 & H2 & H3 & H4 & H5 & H6 & H7 & H8 & H9).
    assert (c' = c) as -> by congruence. pose proof (proj1 H3) as Hx. unfold chans_of in *.
    assert (ch' = ch) as -> by congruence.
    pose proof (Poller.registered_set_chan _ c ch ch0 c ch j pf Hc eq_refl eq_refl H3) as Hr.
    rewrite decide_True in Hr by done. exists c, ch0, j, pf. by split_and!; try apply H9. }
  split; [done|]. split; [done|].
  assert (chans_of s0 !! c = Some ch0) as Hc0 by apply lookup_insert_eq.
  assert (Connector.channel_ (the s0) = Some c) as Hk0 by exact Hk.
  assert (handled n fd s0 s0) as Hh0 by by left.
  unfold handleEvent. mstep_by (by apply (set_handling_ok s c ch)). fold ch0. fold s0. rewrite bind_unfold.
  assert (match fire client_call wants_error errorCallback_ c s0 with
          | Ok (_, s1) => handled n fd s0 s1 | Err f => client_fault kn f end) as He.
  { apply (fire_handled kn _ _ n fd c ch0 s0 s0 FnConnector_handleError); try done.
    - intros a b. unfold same_dispatch. tauto.
    - intros _. pose proof (Connector.handleError_handler ew tid end_first alloc_timer true n s0 fd Hb0 Hw0) as H.
      change (client_call FnConnector_handleError s0) with (Connector.connector_handleError ew tid end_first alloc_timer s0).
      destruct (Connector.connector_handleError _ _ _ _ s0) as [[u s1]|f]; [done|by left].
    - by intros []%failed_irrefl. }
  destruct (fire client_call wants_error errorCallback_ c s0) as [[u1 s1]|f]; [|done].
  destruct (handled_channel n fd c ch0 s0 s1 He Hc0 Hk0 eq_refl) as (ch1 & Hc1 & Hd1 & _).
  pose proof Hd1 as (Hv1 & _ & _ & _ & Hcl1).
  rewrite bind_unfold, (fire_empty _ _ _ _ _ ch1 Hc1) by (rewrite <- Hcl1; exact Hcc).
  mstep_by (by apply chan_ok). rewrite <- Hv1. change (revents_ ch0) with (revents_ ch). rewrite Hrd, bind_unfold.
  assert (match fire client_call wants_write writeCallback_ c s1 with
          | Ok (_, s2) => handled n fd s0 s2 | Err f => client_fault kn f end) as Hwr.
  { apply (fire_handled kn _ _ n fd c ch0 s0 s1 FnConnector_handleWrite); try done.
    - intros a b. unfold same_dispatch. tauto.
    - intros _. pose proof (Connector.handleWrite_handler ew tid end_first
        (call_new i tid alloc_conn alloc_chan user_holds) alloc_timer true n s0 fd Hb0 Hw0) as H.
      change (client_call FnConnector_handleWrite s0) with
        (Connector.connector_handleWrite ew tid end_first (call_new i tid alloc_conn alloc_chan user_holds) alloc_timer s0).
      change (the s0) with (the s) in H. rewrite Hcn in H.
      assert (Connector.next_error s0 = 0 → answer kn (calls kn) = 0) as Hz.
      { unfold Connector.next_error. simpl. rewrite Hkn. destruct (Z.ltb_spec (answer kn (calls kn)) 0); lia. }
      destruct (Connector.connector_handleWrite _ _ _ _ _ s0) as [[u s2]|f]; destruct (Z.eqb_spec (Connector.next_error s0) 0).
      + by destruct H.
      + done.
      + right. split; [apply H|auto].
      + by left.
    - intros [[_ Hst _ _ _ _ _ _ _] _]. unfold call, Connector.connector_handleWrite.
      rewrite bind_unfold, Connector.connector_ok, Hst. by rewrite decide_False by done. }
  destruct (fire client_call wants_write writeCallback_ c s1) as [[u2 s2]|f]; [|done].
  destruct (handled_channel n fd c ch0 s0 s2 Hwr Hc0 Hk0 eq_refl) as (ch2 & Hc2 & Hd2 & _).
  rewrite (set_handling_ok s2 c ch2 false Hc2). by exists s2, ch2.
Qed.

Lemma put_chan_back s c ch ch0 :
  chans_of s !! c = Some ch → put_chan c ch (put_chan c ch0 s) = s.
Proof using Type.
  intros Hc. destruct s as [e k cs evs x]. unfold chans_of, put_chan, Poller.set_chan in *. simpl in *.
  rewrite insert_insert_eq, (insert_id (Poller.chans (poller_ e)) c ch Hc). by destruct e as [? ? ? ? ? ? ? ? [] ? ? ? ?].
Qed.

(** The client when a handler has ended the attempt. *)
Lemma failed_inv sc kn n fd s s1 c ch ch1 :
  client_ok sc s → Forall harmless (pendingFunctors_ (net_loop s)) → eventHandling_ ch = false → ¬ passive ch →
  chans_of s !! c = Some ch → Connector.channel_ (the s) = Some c → fd_ ch = fd →
  let s0 := put_chan c (set_eventHandling ch true) s in
  Connector.failed ew tid true n fd s0 s1 → chans_of s1 !! c = Some ch1 →
  same_dispatch (set_eventHandling ch true) ch1 →
  let s' := put_chan c (set_eventHandling ch1 false) s1 in
  client_inv sc kn s' ∧ same_flags s s' ∧ ∀ x, x ≠ c → client_report x s → client_report x s'.
Proof using Type.
  intros [[m Hb]] Hl Hh Hnp Hc Hk Hfd s0 Hf Hc1 Hd1 s'.
  destruct (failed_kept n fd s0 s1 Hf) as (Hd & Hq & Hfl).
  destruct Hf as [[Hb1 Hst Hcn (c' & ch' & Hx & Hx1 & Hch' & Hfd1 & _) Hm Hp Hi (Hcs & Hev & Hext) _] _].
  assert (c' = c) as -> by (change (the s0) with (the s) in Hx; congruence).
  assert (ch' = ch1) as -> by (unfold chans_of in *; congruence).
  assert (dispatches (poller_ (net_loop s)) (poller_ (net_loop s'))) as Hdis.
  { etrans; [|etrans; [exact Hd|]].
    - by apply (dispatches_insert _ _ c ch (set_eventHandling ch true)).
    - by apply (dispatches_insert _ _ c ch1 (set_eventHandling ch1 false)). }
  assert (∀ d chd, chans_of s !! d = Some chd → passive chd → ∃ ch', chans_of s' !! d = Some ch' ∧ passive ch') as Hpas.
  { intros d chd Hchd (H1 & H2 & H3). destruct (Hdis d chd Hchd) as (ch' & Hch'' & _ & _ & Hw & He & Hcl).
    exists ch'. split; [done|]. split_and!; congruence. }
  split; [split; [split|]|split].
  - eexists. apply base_lset; [exact Hb1| |done..]. destruct Hb1. by apply (Poller.inv_set_chan _ c ch1).
  - assert (quiet (poller_ (net_loop s1))) as Hq1.
    { apply Hq. apply quiet_set_chan; [done|]. exact (proj1 ck_quiet0 c ch Hc). }
    apply quiet_set_chan; [done|]. exact (proj1 Hq1 c ch1 Hc1).
  - simpl. rewrite Hcs. exact ck_conns0.
  - simpl. rewrite Hext. exact ck_none0.
  - unfold announced in *. simpl. by rewrite Hev.
  - exact (eq_trans Hcn ck_connect0).
  - change (issued s') with (issued s1). rewrite Hi, filter_app. change (issued s0) with (issued s). by rewrite ck_attempts0, app_nil_r.
  - intros fd' d. simpl. rewrite Hm. intros [_ Hd']%lookup_delete_Some.
    destruct (ck_channels0 fd' d Hd') as [(chd & Hchd & Hpd)|Hkd]; [left; by eapply Hpas|right].
    assert (d = c) as -> by congruence. exact Hx1.
  - apply (stage_ending _ _ _ c (set_eventHandling ch1 false) (pendingFunctors_ (net_loop s)) []); try done.
    + unfold chans_of. apply lookup_insert_eq.
    + simpl. rewrite Hm, Hfd1. apply lookup_delete_eq.
    + intros (H1 & H2 & H3). destruct Hd1 as (_ & _ & Hw & He & Hcl). apply Hnp. simpl in *.
      split_and!; congruence.
  - exact Hfl.
  - intros x Hne (chx & Hchx & Hrx & [Hpx|[Hkx _]]); [|congruence].
    destruct (Hdis x chx Hchx) as (chx' & Hchx' & Hvx & _ & Hwx & Hex & Hclx). exists chx'. split; [done|].
    split; [by rewrite <- Hvx|]. left. destruct Hpx as (? & ? & ?). split_and!; congruence.
Qed.

Lemma client_event sc kn s c t :
  client_inv sc kn s → client_report c s →
  match handleEvent client_call client_call_read c t s with
  | Ok (_, s') => client_inv sc kn s' ∧ same_flags s s' ∧ ∀ x, x ≠ c → client_report x s → client_report x s'
  | Err f => client_fault kn f
  end.
Proof using Type.
  intros Hi (ch & Hc & Hrd & [Hp|[Hk [fd Hw]]]).
  { destruct (client_passive_event sc kn s c ch t Hi Hc Hp Hrd) as (s' & -> & H). exact H. }
  pose proof Hi as [Hok [fd' Hw' Hkn Hl|c' ch' l1 l2 Hst _ _ _ _ _ _ _ _|[_ Hx] _]];
    [|destruct Hw as (_ & _ & _ & _ & Hst' & _); congruence|congruence]. clear fd Hw.
  pose proof Hok as [[n Hb]].
  destruct (connector_handlers kn n fd' s c ch t Hb Hw' Hk Hc Hrd ck_connect0 Hkn) as (_ & _ & H).
  destruct (connector_channel_active false fd' c ch s Hw' Hk Hc) as (Hnp & Hh & _).
  destruct (handleEvent client_call client_call_read c t s) as [[u s']|f]; [|done].
  destruct H as (s1 & ch1 & [->|Hf] & Hc1 & Hd1 & ->).
  - assert (ch1 = set_eventHandling ch true) as -> by (unfold chans_of in Hc1; simpl in Hc1; rewrite lookup_insert_eq in Hc1; congruence).
    assert (set_eventHandling (set_eventHandling ch true) false = ch) as -> by (destruct ch; simpl in *; by subst).
    rewrite put_chan_back by done. by split_and!.
  - apply (failed_inv sc kn n fd' s s1 c ch ch1); try done.
    destruct Hw' as (c' & ch' & j & pf & _ & Hx & (Hy & _) & Hz & _). unfold chans_of in *. congruence.
Qed.

Lemma client_poll sc kn ready s :
  client_inv sc kn s →
  ∃ t act q, Poller.poll ready [] (poller_ (net_loop s)) = Ok ((t, act), q) ∧
    let s' := lset (set_poller (net_loop s) q) s in
    client_inv sc kn s' ∧ NoDup act ∧ ∀ c, c ∈ act → client_report c s'.
Proof using Type.
  intros Hi. pose proof Hi as [[[n [Hpi]] Hqu] _].
  destruct (quiet_poll_spec ready (poller_ (net_loop s)) Hpi Hqu)
    as (act & q & E & Hiq & Hqq & Hnd & Hm & Hch & Hreg & Hact).
  destruct (client_poller sc kn s q Hi Hiq Hqq Hm) as [Hi' Hw].
  - intros c ch Hc. destruct (Hch c ch Hc) as [ev Hev]. by eexists.
  - intros c ch _ Hc. by apply Hch.
  - intros c ch j pf _ Hr. by apply Hreg.
  - exists 0, act, q. split; [done|]. split; [exact Hi'|]. split; [done|].
    intros c Hc. destruct (Hact c Hc) as [[fd Hfd] (ch & Hx & Hr)]. exists ch. split; [done|]. split; [done|].
    destruct Hi' as [Hok' Hst']. destruct (ck_channels _ _ Hok' fd c Hfd) as [(ch' & Hx' & Hp)|Hk].
    { left. unfold chans_of in Hx'. simpl in Hx'. congruence. }
    right. split; [done|]. destruct Hst' as [fd' Hw' _ _|c' ch' l1 l2 _ Hk' Hc' Hn _ _ _ _ _|[_ Hk'] _];
      [by exists fd'| |congruence].
    destruct (Poller.inv_map q Hiq fd c Hfd) as (ch2 & j & pf & <- & (Hc2 & _)).
    unfold chans_of in *. simpl in *. congruence.
Qed.

(** The functors: the client's, and the end of the connector's channel. *)
Lemma client_ok_events sc s evs :
  client_ok sc s → Forall (λ ev, is_connection ev = false) evs → client_ok sc (add_events evs s).
Proof using Type.
  intros [[n []]] Hevs. split; try done; [by exists n|]. by rewrite announced_add.
Qed.

Lemma client_ok_gone sc s c ch :
  client_ok sc s → Connector.channel_ (the s) = Some c → chans_of s !! c = Some ch →
  Poller.channels_ (poller_ (net_loop s)) !! fd_ ch = None → eventHandling_ ch = false → ¬ passive ch →
  Connector.resetChannel s = Ok (tt, Connector.channel_gone c s) ∧ client_ok sc (Connector.channel_gone c s) ∧
  the (Connector.channel_gone c s) = Connector.setChannel (the s) None.
Proof using Type.
  intros [[n Hb]] Hk Hc Hm Hh Hnp. pose proof Hb as [Hpi].
  destruct (Connector.resetChannel_spec tid n s c ch Hb Hk Hc Hm Hh) as (E & Hb' & Hk').
  split; [done|]. split; [|done]. split; try done.
  - by exists n.
  - destruct ck_quiet0 as [H1 H2]. split; [|exact H2]. intros d chd Hd. simpl in Hd. apply lookup_delete_Some in Hd as [_ Hd]. by eapply H1.
  - intros fd d Hd. left. simpl in Hd. destruct (ck_channels0 fd d Hd) as [(chd & Hchd & Hp)|Hkd].
    + exists chd. split; [|done]. unfold chans_of in *. simpl. rewrite lookup_delete_ne; [done|].
      intros <-. apply Hnp. by assert (chd = ch) as <- by congruence.
    + destruct (Poller.inv_map _ Hpi fd d Hd) as (chd & j & pf & <- & (Hchd & _)). unfold chans_of in *.
      assert (d = c) as -> by congruence. assert (chd = ch) as -> by congruence. congruence.
Qed.

Lemma client_functors sc kn s :
  client_inv sc kn s →
  ∃ s', dePendingFunctors client_call client_end s = Ok (tt, s') ∧ client_inv sc kn s' ∧ same_flags s s'.
Proof using Type.
  intros [Hok Hst]. set (s1 := lset (set_pending (set_calling (net_loop s) true) []) s).
  destruct (client_ok_loop sc s (net_loop s1) Hok) as [Hok1 Hw1]; [done..|].
  assert (∀ l s, Forall harmless l → client_ok sc s →
    ∃ evs, client_ok sc (add_events evs s) ∧ for_each client_call l s = Ok (tt, add_events evs s)) as Hfs.
  { intros l s0 Hl Hs0. destruct (harmless_functors client_call l s0 client_calls_client Hl) as (evs & Hevs & E).
    exists evs. split; [by apply client_ok_events|done]. }
  assert (∀ s2, for_each client_call (pendingFunctors_ (net_loop s)) s1 = Ok (tt, s2) →
    client_ok sc s2 → dePendingFunctors client_call client_end s = Ok (tt, lset (set_calling (net_loop s2) false) s2)) as Hdo.
  { intros s2 E Hs2. unfold dePendingFunctors. mstep_by reflexivity. fold s1. mstep_by (exact E). mstep_by reflexivity.
    apply destroy_all_noop. intros l f. apply client_ends_nothing. apply Hs2. }
  destruct Hst as [fd H1 H2 H3|c ch l1 l2 H1 H2 H3 H4 H5 Hnp H6 H7 H8|H1 H2].
  - destruct (Hfs _ s1 H3 Hok1) as (evs & Hok2 & E). eexists. split; [by apply Hdo|].
    split; [split|done]; [by apply client_ok_loop|]. apply (stage_waiting _ _ _ fd); [by apply Hw1|done|by constructor].
  - destruct (Hfs l1 s1 H7 Hok1) as (evs & Hok2 & E1).
    destruct (client_ok_gone sc _ c ch Hok2 H2 H3 H4 H5 Hnp) as (E2 & Hok3 & Hk3).
    destruct (Hfs l2 _ H8 Hok3) as (evs2 & Hok4 & E3).
    eexists. split; [apply Hdo; [rewrite H6, for_each_app; mstep_by (exact E1); mstep_by (exact E2); exact E3|done]|].
    split; [split|done]; [by apply client_ok_loop|]. apply stage_over; [|by constructor].
    split; [exact (eq_trans (f_equal Connector.state_ Hk3) H1)|exact (f_equal Connector.channel_ Hk3)].
  - destruct (Hfs _ s1 H2 Hok1) as (evs & Hok2 & E). eexists. split; [by apply Hdo|].
    split; [split|done]; [by apply client_ok_loop|]. by apply stage_over; [|constructor].
Qed.

(** The client implements the interface of the loop. *)
#[local] Instance client_rounds sc kn :
  Rounds client_call client_call_read client_end (client_fault kn) (client_inv sc kn) client_report.
Proof using Type.
  split.
  - intros s e Hi (? & ? & ? & ? & Hl). eapply (client_loop sc kn s e []); try done. by rewrite app_nil_r.
  - intros c s e (ch & Hc & Hrd & Hor) (Hp & Hth & _). exists ch. unfold chans_of in *. simpl. rewrite Hp.
    split; [done|]. split; [done|]. destruct Hor as [?|[? [fd (c' & ch' & j & pf & H)]]]; [by left|right].
    split; [done|]. exists fd, c', ch', j, pf. simpl. rewrite Hp, Hth. exact H.
  - intros s f Hi Hf. apply (client_loop sc kn s _ [f]); try done. by constructor.
  - intros ready s. apply client_poll.
  - intros c t s. apply client_event.
  - intros s Hi. by destruct (client_functors sc kn s Hi) as (s' & -> & H).
Qed.

(** ** The first attempt *)

Lemma issued_attempts s s1 sc fd addr rest :
  filter is_connect (issued s) = sc → issued s1 = (issued s ++ [SysSocket; SysConnect fd addr]) ++ rest →
  filter is_connect rest = [] → filter is_connect (issued s1) = sc ++ [SysConnect fd addr].
Proof using Type. intros <- -> Hr. rewrite !filter_app, Hr. simpl. by rewrite app_nil_r. Qed.

(** An attempt that ended at once left the poller alone. *)
Lemma client_ok_same sc sc' n s s' :
  client_ok sc s → base n s' → poller_ (net_loop s') = poller_ (net_loop s) →
  Connector.connector_only s s' → Connector.connect_ (the s') = true →
  Connector.channel_ (the s') = Connector.channel_ (the s) → filter is_connect (issued s') = sc' → client_ok sc' s'.
Proof using Type.
  intros [] Hb Hp (Hcs & Hev & Hext) Hc Hk Ha. split; try done.
  - by exists n.
  - unfold quiet_loop. by rewrite Hp.
  - by rewrite Hcs.
  - rewrite Hext. exact ck_none0.
  - unfold announced. by rewrite Hev.
  - unfold chans_of in *. rewrite Hp, Hk. done.
Qed.

(** An attempt under way added its channel. *)
Lemma client_ok_added sc sc' n fd s s' :
  client_ok sc s → base n s' → Connector.channel_added fd s s' → Connector.channel_ (the s) = None →
  Connector.connect_ (the s') = true → filter is_connect (issued s') = sc' → client_ok sc' s'.
Proof using Type.
  intros [] Hb ((Hcs & Hev & Hext) & _ & Hq & c & Hk & Hfree & Hm & Hch) Hnone Hc Ha. split; try done.
  - by exists n.
  - by apply Hq.
  - by rewrite Hcs.
  - rewrite Hext. exact ck_none0.
  - unfold announced. by rewrite Hev.
  - rewrite Hm. intros fd' d [[_ <-]|[_ Hd]]%lookup_insert_Some; [by right|left].
    destruct (ck_channels0 fd' d Hd) as [(ch & Hx & Hp)|?]; [|congruence].
    exists ch. split; [|done]. unfold chans_of in *. rewrite Hch; [done|]. intros ->. congruence.
Qed.

Lemma client_start sc n s :
  client_ok sc s → base n s → Connector.idle s → Connector.fresh_fd (Connector.next_fd s) s →
  Forall harmless (pendingFunctors_ (net_loop s)) →
  match Connector.startInLoop ew tid end_first alloc_chan alloc_timer s with
  | Ok (_, s') => ∃ kn, answer kn = answer (net_kernel s) ∧ calls kn = (2 + calls (net_kernel s))%nat ∧
      client_inv (sc ++ [SysConnect (Connector.next_fd s) (Connector.serverAddr_ (the s))]) kn s' ∧
      looping_ (net_loop s') = looping_ (net_loop s)
  | Err f => TimerQueue.allowed f
  end.
Proof using Hchan.
  intros Hok Hb Hidle Hfd Hl. pose proof Hidle as [Hst Hnone]. pose proof (ck_connect _ _ Hok) as Hcn.
  pose proof (ck_attempts _ _ Hok) as Hatt.
  destruct (Connector.connect_calls ew tid end_first alloc_chan alloc_timer s) as (k & E & Hk & Hak & Hi).
  rewrite (Connector.startInLoop_eq ew tid end_first alloc_chan alloc_timer s Hidle Hcn), E.
  set (s1 := lset k s) in *. set (fd := Connector.next_fd s) in *.
  assert (base n s1) as Hb1 by exact (Connector.base_kernel tid n s k Hb).
  destruct (Connector.in_progress _); [|destruct (Connector.retryable _)].
  - destruct (Connector.connecting_spec tid alloc_chan Hchan n s1 fd Hb1 Hnone Hfd)
      as (s2 & -> & Hb2 & Hw & Hkn & _ & Hpd & Hc2 & _ & Hadd).
    exists k. split; [done|]. split; [done|]. split; [split|apply Hadd].
    + apply (client_ok_added sc _ n fd s s2); try done; [by rewrite Hc2|].
      apply (issued_attempts s _ _ _ _ []); [done| |done]. rewrite app_nil_r, <- Hi. unfold Connector.issued. by rewrite Hkn.
    + apply (stage_waiting _ _ _ fd); [done|exact Hkn|by rewrite Hpd].
  - pose proof (Connector.retry_spec ew tid end_first alloc_timer n s1 fd Hb1) as Hr.
    destruct (Connector.retry _ _ _ _ fd s1) as [[u s2]|f]; [|done]. destruct Hr as [[] Hkn].
    change (the s1) with (the s) in *. exists k. split; [done|]. split; [done|].
    destruct rt_only as [Honly [q Hq]]. split; [split|by rewrite Hq].
    + apply (client_ok_same sc _ _ s s2 Hok rt_base); try done; [by rewrite rt_connect|].
      apply (issued_attempts s _ _ _ _ [SysClose fd]); [done| |done]. rewrite <- Hi. unfold Connector.issued.
      rewrite Hkn. simpl. by rewrite fmap_app.
    + apply stage_over; [split; congruence|by rewrite rt_pending].
  - exists k. split; [done|]. split; [done|]. split; [split|done].
    + apply (client_ok_same sc _ n s); try done; [exact (Connector.base_kernel tid n s1 _ Hb1)|by split_and!; try done; destruct s as [? ? ? ? []]|].
      apply (issued_attempts s _ _ _ _ [SysClose fd]); [done| |done]. rewrite <- Hi. unfold Connector.issued.
      simpl. by rewrite fmap_app.
    + by apply stage_over.
Qed.

(** The client as [connect] finds it. *)
Definition new_client (this : nat) (serverAddr : InetAddress) (u m w : user_fn) : TcpClient :=
  TcpClient_setWriteCompleteCallback (TcpClient_setMessageCallback
    (TcpClient_setConnectionCallback (TcpClient_new this serverAddr) u) m) w.

Lemma connect_eq this addr u m w e k :
  threadId_ e = tid →
  ∃ t, connect ew tid end_first alloc_chan alloc_timer (mkNet e k ∅ [] (new_client this addr u m w)) =
         Connector.startInLoop ew tid end_first alloc_chan alloc_timer (mkNet e k ∅ [] t) ∧
    connection_ t = None ∧ connector_ t = Connector.setConnect (Connector.Connector_new this addr) true.
Proof using Type.
  intros Ht. set (t0 := set_client_connect (new_client this addr u m w) true).
  exists (set_connector t0 (Connector.setConnect (connector_ t0) true)). split; [|done].
  unfold connect. mstep_by (apply upd_client_ok). unfold Connector.start. mstep_by reflexivity.
  by apply (runInLoop_own ew tid (Connector.call_connector ew tid end_first alloc_chan alloc_timer)
    FnConnector_startInLoop).
Qed.

(** C6: A client as constructed makes one attempt and never has a connection,
    whatever the kernel reports in any number of rounds and other threads add:
    when the attempt fails, its retry waits for a timer of which the loop is
    never told; when it succeeds, the callback that was never stored is called
    and the exception leaves the loop.  The loop ends exactly if a thread called
    [quit]; the other faults are those of a timer that could not be made. *)
Theorem client_never_connects this timerfd wakeupfd clock kernel serverAddr u m w inputs :
  0 ≤ timerfd → 0 ≤ wakeupfd → timerfd ≠ wakeupfd → trace kernel = [] →
  let fd := answer kernel 0 in
  0 ≤ fd → fd ∉ [timerfd; wakeupfd] → Forall (λ i, Forall welcome i.1) inputs →
  match run_client this timerfd wakeupfd clock kernel serverAddr u m w inputs with
  | Ok (ended, s') => ended = existsb quits inputs ∧ connection_ (net_ext s') = None ∧ net_conns s' = ∅ ∧
      announced s' = [] ∧ filter is_connect (issued s') = [SysConnect fd serverAddr]
  | Err f => TimerQueue.allowed f ∨ f = BadFunctionCall ∧ answer kernel 2 = 0
  end.
Proof using Hchan.
  intros Ht Hw Hne Htr fd Hfd Hnew Hin.
  destruct (EventLoop_new_started (X:=TcpClient) this tid timerfd wakeupfd clock Ht Hw Hne) as (e & Ee & [] & Hpend).
  pose proof (st_dormant0 kernel (new_client this serverAddr u m w)) as [].
  destruct (connect_eq this serverAddr u m w e kernel dm_tid0) as (t & Ec & Hnone & Hcr).
  set (s := mkNet e kernel ∅ [] t) in *. assert (the s = connector_ t) as Hthe by done.
  assert (base 0 s) as Hb.
  { split; rewrite ?Hthe, ?Hcr; try done. unfold Connector.timers. simpl. rewrite st_timers0. apply TimerQueue.TimerQueue_new_ok. }
  assert (client_ok [] s) as Hok.
  { split; try done; [by exists 0%nat|by rewrite Hthe, Hcr|by unfold issued; simpl; rewrite Htr|].
    intros fd' c Hc. left. by apply (dm_passive0 fd'). }
  assert (Connector.next_fd s = fd) as Hnf by (unfold Connector.next_fd, calls; simpl; by rewrite Htr).
  pose proof (client_start [] 0 s Hok Hb) as Hs. rewrite Hnf, Hthe, Hcr in Hs.
  assert (run_client this timerfd wakeupfd clock kernel serverAddr u m w inputs =
    (Connector.startInLoop ew tid end_first alloc_chan alloc_timer ;; loop ew tid client_call client_call_read client_end inputs) s) as ->.
  { unfold run_client. rewrite Ee. change (mbind ?f (Ok ?x)) with (f x). cbv beta zeta.
    rewrite bind_unfold. fold (new_client this serverAddr u m w). by rewrite Ec. }
  rewrite bind_unfold. destruct (Connector.startInLoop _ _ _ _ _ s) as [[v s1]|f].
  2: { left. apply Hs; [by split; rewrite Hthe, Hcr| |by simpl; rewrite Hpend].
       split; [by apply st_map0|]. split; [done|]. simpl. by rewrite st_slots0. }
  destruct Hs as (kn & Ha & Hk & Hi & Hl); [by split; rewrite Hthe, Hcr| |by simpl; rewrite Hpend|].
  { split; [by apply st_map0|]. split; [done|]. simpl. by rewrite st_slots0. }
  simpl in *.
  pose proof (loop_rounds ew tid client_call client_call_read client_end (client_fault kn) _ client_report
    (HR := client_rounds [SysConnect fd serverAddr] kn) inputs s1 Hi (eq_trans Hl st_looping0) Hin) as H.
  destruct (loop _ _ _ _ _ inputs s1) as [[ended s']|f].
  - destruct H as (-> & [[] _] & _). by split_and!.
  - destruct H as [?|[-> H]]; [by left|right]. split; [done|]. rewrite Ha, Hk in H.
    unfold calls in H. by rewrite Htr in H.
Qed.
End client.

(** ** Concrete programs *)

Module Demo.
(** The first descriptor of the kernel is 12; [connect] is under way, and ends
    with [error]. *)
Definition kernel (error : Z) : Kernel :=
  mkKernel (λ k, match k with 0%nat => 12 | 1%nat => - Connector.EINPROGRESS | 2%nat => error | _ => 0 end)
    (λ _, []) (λ _, zero_addr) [].
Definition clock (k : nat) : Timestamp := 1000 + Z.of_nat k.
(** Everything is ready all the time; another thread queues a functor, and
    later stops the loop. *)
Definition inputs : list (list foreign * option (Z → Z)) :=
  [([], Some (λ _, 0x3f)); ([ForeignQueue 8 (FnUser 5%N)], Some (λ _, 0x3f)); ([ForeignQuit 8], Some (λ _, 0x3f))].

Definition serve_demo : res (bool * Net TcpServer.TcpServer) :=
  serve TcpClient.Demo.i EventLoop.Demo.ew 7 0 TcpServer.Demo.queue_on TcpServer.Demo.alloc_conn
    TcpServer.Demo.alloc_chan (λ _, false) 0 3 4 clock (kernel 0) zero_addr 2 1%N 2%N 3%N inputs.
Definition client_demo (error : Z) (inputs : list (list foreign * option (Z → Z))) : res (bool * Net TcpClient.TcpClient) :=
  run_client TcpClient.Demo.i EventLoop.Demo.ew 7 0 TcpClient.Demo.alloc_conn TcpClient.Demo.alloc_chan
    TcpClient.Demo.alloc_timer (λ _, false) 0 3 4 clock (kernel error) zero_addr 1%N 2%N 3%N inputs.
End Demo.

Lemma server_never_accepts_witness :
  ∃ s', Demo.serve_demo = Ok (true, s') ∧ net_conns s' = ∅ ∧
    (trace (net_kernel s')).*1 = [SysSocket; SysReuseAddr 12 1; SysBind 12 zero_addr; SysListen 12].
Proof.
  destruct (server_never_accepts TcpClient.Demo.i EventLoop.Demo.ew 7 0 TcpServer.Demo.queue_on
    TcpServer.Demo.alloc_conn TcpServer.Demo.alloc_chan (λ _, false) 0 3 4 Demo.clock (Demo.kernel 0) zero_addr 2
    1%N 2%N 3%N Demo.inputs) as (s' & E & _ & _ & _ & Hc & _ & Hk).
  - lia.
  - lia.
  - lia.
  - vm_compute. discriminate.
  - vm_compute. intros H. repeat (apply elem_of_cons in H as [H|H]; [discriminate H|]). by apply not_elem_of_nil in H.
  - intros H. repeat (apply elem_of_cons in H as [H|H]; [discriminate H|]). by apply not_elem_of_nil in H.
  - repeat constructor.
  - exists s'. split; [exact E|]. split; [exact Hc|exact Hk].
Defined.

(** The attempt is refused: the connector waits for its timer, in vain. *)
Lemma client_never_connects_witness :
  ∃ s', Demo.client_demo Connector.ECONNREFUSED Demo.inputs = Ok (true, s') ∧
    TcpClient.connection_ (net_ext s') = None ∧ announced s' = [] ∧
    filter is_connect (trace (net_kernel s')).*1 = [SysConnect 12 zero_addr].
Proof.
  pose proof (client_never_connects TcpClient.Demo.i EventLoop.Demo.ew 7 0 TcpClient.Demo.alloc_conn
    TcpClient.Demo.alloc_chan TcpClient.Demo.alloc_timer (λ _, false) TcpClient.Demo.client_chan_ok 0 3 4
    Demo.clock (Demo.kernel Connector.ECONNREFUSED) zero_addr 1%N 2%N 3%N Demo.inputs
    ltac:(lia) ltac:(lia) ltac:(lia) eq_refl ltac:(vm_compute; discriminate)) as H.
  change (run_client _ _ _ _ _ _ _ _ _ _ _ _ _ _ _ _ _ _) with (Demo.client_demo Connector.ECONNREFUSED Demo.inputs) in H.
  assert (∃ s', Demo.client_demo Connector.ECONNREFUSED Demo.inputs = Ok (true, s')) as [s' E] by (eexists; vm_compute; reflexivity).
  rewrite E in H. exists s'. split; [exact E|].
  destruct H as (_ & H1 & _ & H2 & H3).
  - vm_compute. intros H. repeat (apply elem_of_cons in H as [H|H]; [discriminate H|]). by apply not_elem_of_nil in H.
  - repeat constructor.
  - split; [exact H1|]. split; [exact H2|exact H3].
Defined.

(** The attempt succeeds: the client throws. *)
Example client_connected_throws :
  Demo.client_demo 0 [([], Some (λ _, POLLOUT))] = Err BadFunctionCall.
Proof. vm_compute. reflexivity. Qed.
